(* ===== verification/_CoqProject ===== *)
-Q . S2P
Prelude.v
GoStrings.v
Strconv.v
Crypto.v
World.v
WorldFacts.v
Accounts.v
AccountsFacts.v
Token.v
Profile.v
Fixtures.v
AccountsSpec.v
TokenSpec.v
ProfileSpec.v
Totp.v
TotpSpec.v
Flags.v
FlagsSpec.v
MailStore.v
MailNames.v
MailFacts.v
MailOps.v
MailFixtures.v
Directory.v
MailStoreSpec.v
Config.v
ConfigSpec.v
GoNet.v
MailServer.v
ServerFixtures.v
Listeners.v
ListenersSpec.v
Service.v
ServiceSpec.v
Logger.v
LoggerSpec.v
Pop3.v
Pop3Spec.v
Relay.v
RelayFacts.v
RelaySpec.v
Worker.v
WorkerFacts.v
WorkerSpec.v
Process.v
ProcessSpec.v
Smtp.v
SmtpFacts.v
RelayReports.v
SmtpSpec.v
Delivery.v
DeliverySpec.v
Outbound.v
Journey.v
Imap.v
ImapSpec.v
