(* ===== verification/Prelude.v ===== *)
(** * Astraccounts: verification development

    Astraccounts is an account service with a mail server: users register and
    log in over HTTP, keep a profile, may add a second factor, and read and
    send mail over SMTP, POP3 and IMAP under the same password.

    ** The program and how its parts interact

    - the user store ([auth/auth.go], [auth/account.go]): one JSON record per
      user below [data/user/<UID>]; registration, look-up, login;
    - login tokens ([auth/token.go]) over HMAC-SHA256, handed out by the login
      handlers and required by the profile handlers;
    - profiles ([auth/profile.go]) under a schema from the environment;
    - the second factor ([auth/totp.go]): TOTP codes and recovery codes;
    - the mail store ([mail/store.go], [mail/flags.go]): mailboxes on disk
      below the directory of their user;
    - the mail server ([mail/server.go], [mail/config.go]) with its listeners
      and its protocols: SMTP ([mail/smtp.go]) appends to inboxes and puts
      foreign recipients into the outbound queue ([mail/relay.go]), which
      delivers, retries and reports failures into the sender's inbox; POP3
      ([mail/pop3.go]) and IMAP ([mail/imap.go]) read and change mailboxes;
    - [main.go]: settings from the environment, start-up, the routes, and
      [serve], which ends the process in order;
    - the log ([logger/]): its lines, derived handlers and the request log.

    Everything meets on the file tree.  The mail server sees the user store
    through the interface [Accounts] (as in the code), whose laws are the
    class [AccountsLaws] (user directories) and the class [Directory] (fixed
    accounts as long as the records are in place); the user store is proved to
    be an instance, and the mail theorems are proved against the classes.

    ** Ground layers

    - this file: byte strings, error and state monads with their notations
      ([←], [←?]), hint databases, generic lemmas;
    - [GoStrings], [Strconv], [GoNet], [Crypto]: the functions of Go's
      standard library the program calls, executable;
    - [World], [WorldFacts]: the operating system.  A [world] is a file tree,
      a clock, a source of random bytes and a script of failures: every
      system call takes the next entry of the script, which may refuse it or
      tear a write; an empty script is a [healthy] system.  So a theorem
      without [healthy] holds whatever fails.  JSON documents are values, a
      file holds bytes or a document; marshalling of every record type is
      proved to be undone by unmarshalling.

    ** Files and code

    - [Accounts] (operations), [AccountsFacts] (the tree represents a finite
      map from UID to record), [AccountsSpec] (theorems): [auth/auth.go] and
      [auth/account.go], definition by definition under the Go names;
    - [Token], [TokenSpec]: [auth/token.go], [LoginHandler];
    - [Profile], [ProfileSpec]: [auth/profile.go];
    - [Totp], [TotpSpec]: [auth/totp.go]; handlers are sequences of atomic
      segments, split where the store's mutex is released;
    - [Flags], [FlagsSpec]: [mail/flags.go], [mail/address.go];
    - [MailStore] (operations), [MailNames] (mailbox names), [MailFacts] (a
      directory holds an abstract mailbox, [at_dir]), [MailOps] (sequences of
      operations), [MailStoreSpec]: [mail/store.go];
    - [Directory]: the contract between user store and mail server;
    - [Config], [ConfigSpec]: [mail/config.go], [tokenIssuerFromEnv],
      [configureGinMode], [configureTrustedProxies];
    - [MailServer], [Listeners], [ListenersSpec]: [mail/server.go] and
      [startMail]; the Go struct [Server] is split into the part [New] fixes
      ([Server]) and the part that changes ([running]);
    - [Service], [ServiceSpec]: [main] up to the routes, and requests answered
      by the handlers the routes name;
    - [Process], [ProcessSpec]: [serve], [Server.Shutdown] and the accept
      loops as a state machine next to the queue worker;
    - [Logger], [LoggerSpec]: [logger/handler.go], [logger.go], [gin.go],
      [context.go];
    - [Pop3], [Pop3Spec]: [mail/pop3.go];
    - [Relay], [RelayFacts], [RelaySpec], [RelayReports]: the queue of
      [mail/relay.go] as functions; [Worker], [WorkerFacts], [WorkerSpec]: the
      goroutine [run] as a state machine whose steps are the pieces of
      [flush], next to the connections that fill the queue;
    - [Smtp], [SmtpFacts], [SmtpSpec]: [mail/smtp.go]; [Delivery],
      [DeliverySpec]: DATA cut at its critical sections, for any number of
      connections over one world;
    - [Imap], [ImapSpec]: [mail/imap.go];
    - [Journey]: SMTP, store and POP3 composed; [Outbound]: SMTP submission,
      queue and worker composed;
    - [Fixtures], [MailFixtures], [ServerFixtures]: concrete instances of the
      parameters and concrete worlds, on which every theorem with hypotheses
      is instantiated by its witness.

    ** What the theorems show

    - refinement: registration implements a map of accounts, the TOTP
      handlers a three-state machine per account, the mail store an abstract
      mailbox, a POP3 session the maildrop of RFC 1939;
    - safety: no open relay, no mail and no profile change without the
      password or token it needs, tokens cannot be spliced;
    - durability and errors: a message that was acknowledged is in every
      local inbox and in the queue for every other recipient, and what each
      system failure can leave behind;
    - conservation: a delivery round gives every recipient one fate, every
      failure is reported to a local sender, one [flush] attempts exactly the
      messages that are due, and in every run of the worker the attempts for a
      message keep to the retry ladder and end;
    - types and invariants: profiles stay well-typed, UIDs rise;
    - round trips: tokens, JSON, schema text, mailbox names, dot-stuffing;
    - configuration and start-up: every setting is what its variable says or
      its documented default, which ports are opened under which settings, and
      how the process ends: in which order, and that it does;
    - the log: the text of the lines a request leaves;
    - composition: after any start-up an account can be registered, logged
      in, edited and viewed; a message the exchanger accepts is retrieved by
      its owner; every remote recipient of a submission is relayed, rejected
      or given up, once;
    - interleaving: deliveries that share inboxes, FETCH, SEARCH, STORE and
      EXPUNGE among other connections, POP3 sessions among deliveries, the
      queue worker among enqueuing connections;
    - liveness and termination: no wake-up is lost, every message leaves the
      queue, [stop] ends the worker, a signal ends the process.  These are
      about infinite runs; the only assumptions are that the scheduler
      neglects nobody ([fair], [pfair]), that a [select] which keeps finding
      [stop] closed takes it some time ([fair_stop]), that the ticker ticks
      and time passes.  Round-robin schedulers that fulfil them are the
      witnesses;
    - findings: races, overflows and lost data, each as a theorem about the
      code as it is.

    ** Bounds and fuel

    Integers are [Z] with the wrap-around of their width written out ([int64],
    [uint32]).  Loops are recursion on the data they go over: [serve_loop] of
    POP3 on the lines that arrive, [flush_files] on the directory listing,
    [backoff] on the [attempts - 1] rounds the code makes.  Two
    functions carry fuel: [Strconv.digits_go] has the number of bits, and
    every round removes a digit; [Crypto.blocks] has the number of words, and
    every round removes sixteen.  [run_delivery] takes one step per recipient
    and one more, which [Data_steps] proves to be enough.  A message has at
    most twelve attempts ([queueMaxAttempts], [retry_schedule]).
    Hypotheses such as [UIDNext < 2 ^ 32] or [Attempts < 2 ^ 62] exclude
    wrap-around where the theorem is about the ordinary case; the cases
    beyond are theorems of their own.

    ** Parameters

    Code the repository does not contain is a class with its documented laws:
    bcrypt ([Bcrypt]), [net/mail.ParseAddress] ([AddressParser]), the TOTP
    library ([OTP]), the Unicode case tables ([UnicodeTables]), certificate
    and key parsers ([KeyParsers]), the error values of go-smtp and go-sasl
    ([SmtpLibrary]), header parsing and DKIM ([MessageLibrary]), go-imap's
    helpers ([ImapLibrary]), the texts of errors ([ErrorText]), the local time
    zone ([Zone]), sockets ([Sockets]), gin's check of the trusted proxies
    ([Engine]); and, as arguments, the resolver and
    SMTP peer ([network]), the order of iteration over maps, and what other
    connections do between two critical sections.  A reply of the [network]
    may depend on everything that happened before in the transaction.

    ** Not modelled

    The HTTP library and the protocol engines of go-smtp and go-imap: parsing
    of requests, TLS, time-outs, and the goroutine of each connection; what
    the code relies on is stated where it is used (which calls the engines
    make, that a server which is shut down closes its listener, that
    accepting on a closed listener fails, that gin does not change the status
    of a response whose header was sent).  Deadlines and the fifteen seconds
    of [serve] have no clock in the model of the process.  Of the log only
    the request log is connected with the rest; the calls of the logger in
    other functions are left out, as nothing reads the lines back.
    A JSON string is the byte string it was made from and field names are
    compared exactly: [encoding/json] replaces bytes that are not UTF-8 by
    U+FFFD and matches names in any letter case, which makes no difference
    for texts in UTF-8 in records the program wrote itself; envelope addresses
    that are not UTF-8 are beyond the model of the queue's files.  An attempt
    takes no time of the model's clock: the retry is reckoned from its start.
    [godotenv.Load] only adds to the environment.  The second-factor handlers
    are split where their mutex is released; the registration, login
    and profile handlers take the mutex at most once and run in one piece. *)

From Stdlib Require Export ZArith Lia Ascii.
From stdpp Require Export base tactics strings list gmap fin_maps sorting.

#[global] Open Scope Z_scope.
#[global] Set Warnings "-clear-no-such-hyp,-register-all".

(** ** Byte strings

    A Go [string] and a Go [[]byte] are both finite sequences of bytes. *)

Abbreviation bytes := (list ascii).

(** [B "text"] is the byte string of a Go string literal. *)
Definition B (s : string) : bytes := String.list_ascii_of_string s.

(** The numeric value of a byte, and the byte of a number (modulo 256). *)
Definition code (c : ascii) : Z := Z.of_N (N_of_ascii c).
Definition chr (z : Z) : ascii := ascii_of_N (Z.to_N (z mod 256)).

Lemma code_range c : 0 <= code c < 256.
Proof. unfold code. pose proof (N_ascii_bounded c). lia. Qed.

Lemma chr_code c : chr (code c) = c.
Proof.
  unfold chr. rewrite Z.mod_small by apply code_range.
  unfold code. rewrite N2Z.id. apply ascii_N_embedding.
Qed.

Lemma code_chr z : 0 <= z < 256 → code (chr z) = z.
Proof.
  intros H. unfold chr, code. rewrite Z.mod_small by lia.
  rewrite N_ascii_embedding by lia. lia.
Qed.

Lemma code_inj c d : code c = code d → c = d.
Proof. intros H. rewrite <- (chr_code c), <- (chr_code d). by rewrite H. Qed.

Create HintDb go discriminated.
Create Rewrite HintDb go_rw.
#[export] Hint Resolve code_range : go.

(** A statement about every byte is settled by running over the 256 values. *)
Ltac all_bytes c := destruct c as [[] [] [] [] [] [] [] []].

(** [lia] over goals with division and remainder by constants. *)
Ltac lia_div := Z.to_euclidean_division_equations; lia.

(** ** Machine integers *)

(** [uint32(x)] *)
Definition uint32 (z : Z) : Z := z mod 2 ^ 32.
(** [int64(x)] (also Go's [int] on 64-bit targets), two's complement. *)
Definition int64 (z : Z) : Z := (z + 2 ^ 63) mod 2 ^ 64 - 2 ^ 63.
(** [uint64(x)] *)
Definition uint64 (z : Z) : Z := z mod 2 ^ 64.

Definition is_int64 (z : Z) : Prop := - 2 ^ 63 <= z < 2 ^ 63.
Definition is_uint32 (z : Z) : Prop := 0 <= z < 2 ^ 32.

#[export] Instance is_int64_dec z : Decision (is_int64 z).
Proof. unfold is_int64. apply _. Defined.
#[export] Instance is_uint32_dec z : Decision (is_uint32 z).
Proof. unfold is_uint32. apply _. Defined.

Lemma int64_id z : is_int64 z → int64 z = z.
Proof. unfold is_int64, int64. intros H. rewrite Z.mod_small; lia. Qed.

Lemma int64_range z : is_int64 (int64 z).
Proof. unfold is_int64, int64. pose proof (Z.mod_pos_bound (z + 2 ^ 63) (2 ^ 64)). lia. Qed.

Lemma uint32_id z : is_uint32 z → uint32 z = z.
Proof. unfold is_uint32, uint32. intros H. apply Z.mod_small. lia. Qed.

Lemma uint32_range z : is_uint32 (uint32 z).
Proof. unfold is_uint32, uint32. apply Z.mod_pos_bound. lia. Qed.

#[export] Hint Resolve int64_range uint32_range : go.
#[export] Hint Rewrite int64_id uint32_id using (unfold is_int64, is_uint32 in *; lia) : go_rw.

(** ** Errors

    The Go error values the code distinguishes. [os_ErrIO] is every operating
    system error that is neither [os.ErrNotExist] nor [os.ErrExist]. *)

Inductive error :=
| os_ErrNotExist
| os_ErrExist
| os_ErrIO
| ErrUnmarshal
| ErrRand
| ErrBcrypt
| ErrOTP
| errProfileDenied
| ErrNoSuchMailbox
| ErrMailboxExists
| ErrMailboxForbidden
| SMTPError (Code : Z) (EnhancedCode : Z * Z * Z) (Message : bytes)
| permanentError (err : error)
| ErrText (msg : bytes).

#[export] Instance error_eq_dec : EqDecision error.
Proof. solve_decision. Defined.

(** A Go [(T, error)] pair: a value, or a non-nil error. *)
Inductive result (A : Type) :=
| Ok (a : A)
| Err (e : error).
Arguments Ok {A} a.
Arguments Err {A} e.

#[export] Instance result_eq_dec `{EqDecision A} : EqDecision (result A).
Proof. solve_decision. Defined.

Definition is_Ok {A} (r : result A) : Prop := ∃ a, r = Ok a.

Definition result_map {A C} (f : A → C) (r : result A) : result C :=
  match r with Ok a => Ok (f a) | Err e => Err e end.

(** ** State passing

    Code that reads or changes the outside world is a function from the world
    before to a value and the world after. *)

Definition ST (W A : Type) : Type := W → A * W.

#[export] Instance st_ret {W} : MRet (ST W) := λ A a w, (a, w).
#[export] Instance st_bind {W} : MBind (ST W) := λ A C f m w, let '(a, w') := m w in f a w'.

Definition gets {W A} (f : W → A) : ST W A := λ w, (f w, w).
Definition modify {W} (f : W → W) : ST W unit := λ w, (tt, f w).

(** [x ←? m; k] is Go's [x, err := m; if err != nil { return err }; k]. *)
Definition try_bind {W A C} (m : ST W (result A)) (k : A → ST W (result C)) : ST W (result C) :=
  r ← m; match r with Ok a => k a | Err e => mret (Err e) end.

Notation "x ←? m ; k" := (try_bind m (λ x, k))
  (at level 20, m at level 100, k at level 200, only parsing) : stdpp_scope.

Lemma st_bind_inv {W A C} (m : ST W A) (f : A → ST W C) w c w' :
  (a ← m; f a) w = (c, w') → ∃ a w1, m w = (a, w1) ∧ f a w1 = (c, w').
Proof. unfold mbind, st_bind. destruct (m w) as [a w1]. eauto. Qed.

Lemma st_bind_eq {W A C} (m : ST W A) (f : A → ST W C) w a w1 :
  m w = (a, w1) → (x ← m; f x) w = f a w1.
Proof. intros H. unfold mbind, st_bind. by rewrite H. Qed.

Lemma st_ret_inv {W A} (a : A) (w : W) b w' : (mret a : ST W A) w = (b, w') → b = a ∧ w' = w.
Proof. unfold mret, st_ret. by intros [= -> ->]. Qed.

Lemma try_bind_inv {W A C} (m : ST W (result A)) (k : A → ST W (result C)) w r w' :
  try_bind m k w = (r, w') →
  (∃ a w1, m w = (Ok a, w1) ∧ k a w1 = (r, w')) ∨
  (∃ e, m w = (Err e, w') ∧ r = Err e).
Proof.
  unfold try_bind. intros (x & w1 & Hm & Hk)%st_bind_inv.
  destruct x as [a | e]; [left; eauto |].
  apply st_ret_inv in Hk as [-> ->]. right; eauto.
Qed.

Lemma try_bind_ok {W A C} (m : ST W (result A)) (k : A → ST W (result C)) w a w1 :
  m w = (Ok a, w1) → try_bind m k w = k a w1.
Proof. intros H. unfold try_bind. by rewrite (st_bind_eq _ _ _ _ _ H). Qed.

Lemma try_bind_err {W A C} (m : ST W (result A)) (k : A → ST W (result C)) w e w1 :
  m w = (Err e, w1) → try_bind m k w = (Err e, w1).
Proof. intros H. unfold try_bind. by rewrite (st_bind_eq _ _ _ _ _ H). Qed.

(** [st_inv] takes apart hypotheses that say a state-passing computation ended
    in a given result, one step at a time. *)
Ltac st_inv1 :=
  match goal with
  | H : mret _ _ = (_, _) |- _ => apply st_ret_inv in H as [? ?]; subst
  | H : mbind _ _ _ = (_, _) |- _ =>
      let a := fresh "a" in let w := fresh "w" in let E := fresh "E" in
      apply st_bind_inv in H as (a & w & E & H)
  | H : try_bind _ _ _ = (_, _) |- _ =>
      let a := fresh "a" in let w := fresh "w" in let E := fresh "E" in
      let e := fresh "e" in
      apply try_bind_inv in H as [(a & w & E & H) | (e & E & H)]
  | H : gets _ _ = (_, _) |- _ => unfold gets in H; injection H as ? ?; subst
  | H : modify _ _ = (_, _) |- _ => unfold modify in H; injection H as ? ?; subst
  | H : (_, _) = (_, _) |- _ => injection H as ? ?; subst
  | H : Ok _ = Ok _ |- _ => injection H as ?; subst
  | H : Err _ = Err _ |- _ => injection H as ?; subst
  | H : Ok _ = Err _ |- _ => discriminate H
  | H : Err _ = Ok _ |- _ => discriminate H
  | H : Some _ = Some _ |- _ => injection H as ?; subst
  | H : Some _ = None |- _ => discriminate H
  | H : None = Some _ |- _ => discriminate H
  end.
Ltac st_inv := repeat st_inv1.

(** [case_in H] splits on the match or conditional at the head of [H]. *)
Ltac case_in H :=
  match type of H with
  | context [match ?x with _ => _ end] =>
      let E := fresh "Hc" in destruct x eqn:E; try discriminate H
  end.

(** ** Lists *)

(** The images of entries with distinct keys are distinct when an image
    determines the key. *)
Lemma NoDup_omap_key {A C K} (key : A → K) (g : A → option C) (l : list A) :
  NoDup (key <$> l) →
  (∀ x y c, x ∈ l → y ∈ l → g x = Some c → g y = Some c → key x = key y) →
  NoDup (omap g l).
Proof.
  induction l as [| x l IH]; intros Hnd Hinj; simpl; [constructor |].
  rewrite fmap_cons in Hnd. apply NoDup_cons in Hnd as [Hx Hnd].
  assert (NoDup (omap g l)) as Hl.
  { apply IH; [done |]. intros y z c Hy Hz. apply Hinj; by right. }
  destruct (g x) as [c |] eqn:E; [| done]. apply NoDup_cons. split; [| done].
  intros (y & Hy & Hc)%list_elem_of_omap. apply Hx.
  rewrite (Hinj x y c); [by apply list_elem_of_fmap_2 | by left | by right | done | done].
Qed.

Lemma omap_cons {A C} (f : A → option C) x (l : list A) :
  omap f (x :: l) = match f x with Some y => y :: omap f l | None => omap f l end.
Proof. done. Qed.

Lemma omap_fmap {A C E} (f : C → option E) (g : A → C) (l : list A) : omap f (g <$> l) = omap (λ x, f (g x)) l.
Proof. induction l as [| x l IH]; [done |]. by rewrite fmap_cons, !omap_cons, IH. Qed.

Lemma omap_ext {A C} (f g : A → option C) (l : list A) : (∀ x, x ∈ l → f x = g x) → omap f l = omap g l.
Proof.
  induction l as [| x l IH]; intros H; [done |]. rewrite !omap_cons, (H x) by (by left).
  rewrite IH; [done |]. intros y Hy. apply H. by right.
Qed.

Lemma filter_ext_in {A} (P Q : A → Prop) `{∀ x, Decision (P x), ∀ x, Decision (Q x)} (l : list A) :
  (∀ x, x ∈ l → P x ↔ Q x) → filter P l = filter Q l.
Proof.
  induction l as [| x l IH]; intros Hl; [done |]. rewrite !filter_cons.
  rewrite IH by (intros y Hy; apply Hl; by right). destruct (Hl x ltac:(by left)).
  destruct (decide (P x)), (decide (Q x)); tauto.
Qed.

Lemma filter_all {A} (P : A → Prop) `{∀ x, Decision (P x)} (l : list A) : (∀ x, x ∈ l → P x) → filter P l = l.
Proof.
  induction l as [| x l IH]; intros Hl; [done |]. rewrite filter_cons, decide_True by (apply Hl; by left).
  by rewrite IH by (intros y Hy; apply Hl; by right).
Qed.

Lemma find_Some {A} (f : A → bool) l x : List.find f l = Some x → x ∈ l ∧ f x = true.
Proof. intros [H1%list_elem_of_In H2]%List.find_some. done. Qed.

Lemma find_None {A} (f : A → bool) l : List.find f l = None ↔ ∀ x, x ∈ l → f x = false.
Proof.
  split.
  - intros H x Hx%list_elem_of_In. by eapply List.find_none.
  - intros H. destruct (List.find f l) as [x |] eqn:E; [| done].
    apply find_Some in E as [Hx Hf]. rewrite H in Hf; done.
Qed.

(** When at most one element fits, the search finds it. *)
Lemma find_unique {A} (f : A → bool) l x :
  x ∈ l → f x = true → (∀ y, y ∈ l → f y = true → y = x) → List.find f l = Some x.
Proof.
  intros Hx Hf Hu. destruct (List.find f l) as [y |] eqn:E.
  - apply find_Some in E as [Hy Hfy]. f_equal. by apply Hu.
  - by rewrite (proj1 (find_None f l) E x Hx) in Hf.
Qed.

(** A prefix of [l ++ [x]] is a prefix of [l] or everything. *)
Lemma prefix_snoc_cases {A} (q l : list A) x :
  q `prefix_of` l ++ [x] → q `prefix_of` l ∨ q = l ++ [x].
Proof.
  intros [r Hr]. destruct r as [| y r _] using rev_ind.
  - right. by rewrite app_nil_r in Hr.
  - left. rewrite app_assoc in Hr. apply app_inj_tail in Hr as [-> _]. by apply prefix_app_r.
Qed.

Lemma snoc_nonempty {A} (l : list A) x : l ++ [x] ≠ [].
Proof. by destruct l. Qed.
