(* ===== verification/GoStrings.v ===== *)
(** * GoStrings: the parts of Go's [strings], [bytes], [unicode/utf8],
    [strconv] and [fmt] that the program uses

    Byte strings are [list ascii].  Runes are [Z].  The case tables of package
    [unicode] are the class [UnicodeTables]: the code relies on them only
    through the laws of that class, and [latin_tables] is an executable
    instance used by the witnesses. *)

From S2P Require Import Prelude.

(** ** Byte classes *)

Definition is_upper (z : Z) : bool := (65 <=? z) && (z <=? 90).
Definition is_lower (z : Z) : bool := (97 <=? z) && (z <=? 122).
Definition is_digit (z : Z) : bool := (48 <=? z) && (z <=? 57).
Definition is_alnum (z : Z) : bool := is_upper z || is_lower z || is_digit z.

Definition ascii_lower (z : Z) : Z := if is_upper z then z + 32 else z.
Definition ascii_upper (z : Z) : Z := if is_lower z then z - 32 else z.
Definition ascii_space (z : Z) : bool := (9 <=? z) && (z <=? 13) || (z =? 32).

Definition is_ascii (c : ascii) : Prop := code c < 128.
#[export] Instance is_ascii_dec c : Decision (is_ascii c).
Proof. unfold is_ascii. apply _. Defined.

(** ** UTF-8 *)

Definition RuneError : Z := 65533.

Definition cont (z : Z) : bool := (128 <=? z) && (z <=? 191).

(** The leading byte and continuation ranges of [utf8.DecodeRune]. *)
Definition utf8_two (a b : Z) : bool := (194 <=? a) && (a <=? 223) && cont b.
Definition utf8_three (a b c : Z) : bool :=
  ((a =? 224) && (160 <=? b) && (b <=? 191)
   || (225 <=? a) && (a <=? 236) && cont b
   || (a =? 237) && (128 <=? b) && (b <=? 159)
   || (238 <=? a) && (a <=? 239) && cont b) && cont c.
Definition utf8_four (a b c d : Z) : bool :=
  ((a =? 240) && (144 <=? b) && (b <=? 191)
   || (241 <=? a) && (a <=? 243) && cont b
   || (a =? 244) && (128 <=? b) && (b <=? 143)) && cont c && cont d.

Definition rune1 (a : Z) : Z := if a <? 128 then a else RuneError.
Definition rune2 (a b : Z) : Z := (a - 192) * 64 + (b - 128).
Definition rune3 (a b c : Z) : Z := (a - 224) * 4096 + (b - 128) * 64 + (c - 128).
Definition rune4 (a b c d : Z) : Z :=
  (a - 240) * 262144 + (b - 128) * 4096 + (c - 128) * 64 + (d - 128).

(** What [for _, r := range s] walks over: each rune with the bytes it was
    decoded from.  An invalid byte is [RuneError] of width one. *)
Fixpoint chunks (s : bytes) : list (Z * bytes) :=
  match s with
  | [] => []
  | a :: s1 =>
      let one := (rune1 (code a), [a]) :: chunks s1 in
      match s1 with
      | [] => one
      | b :: s2 =>
          if utf8_two (code a) (code b)
          then (rune2 (code a) (code b), [a; b]) :: chunks s2
          else
          match s2 with
          | [] => one
          | c :: s3 =>
              if utf8_three (code a) (code b) (code c)
              then (rune3 (code a) (code b) (code c), [a; b; c]) :: chunks s3
              else
              match s3 with
              | [] => one
              | d :: s4 =>
                  if utf8_four (code a) (code b) (code c) (code d)
                  then (rune4 (code a) (code b) (code c) (code d), [a; b; c; d]) :: chunks s4
                  else one
              end
          end
      end
  end.

Definition runes (s : bytes) : list Z := (chunks s).*1.

(** A rune that [utf8.AppendRune] encodes as itself. *)
Definition valid_rune (r : Z) : bool :=
  (0 <=? r) && (r <? 55296) || (57343 <? r) && (r <=? 1114111).

(** [utf8.AppendRune(nil, r)]: an invalid rune is written as [RuneError]. *)
Definition encode_valid (r : Z) : bytes :=
  if r <? 128 then [chr r]
  else if r <? 2048 then [chr (192 + r / 64); chr (128 + r mod 64)]
  else if r <? 65536 then
    [chr (224 + r / 4096); chr (128 + (r / 64) mod 64); chr (128 + r mod 64)]
  else [chr (240 + r / 262144); chr (128 + (r / 4096) mod 64);
        chr (128 + (r / 64) mod 64); chr (128 + r mod 64)].
Definition encode_rune (r : Z) : bytes :=
  encode_valid (if valid_rune r then r else RuneError).
Definition encode_runes (rs : list Z) : bytes := concat (encode_rune <$> rs).

Lemma chunks_cons a b s2 :
  chunks (a :: b :: s2) =
  let one := (rune1 (code a), [a]) :: chunks (b :: s2) in
  if utf8_two (code a) (code b) then (rune2 (code a) (code b), [a; b]) :: chunks s2
  else match s2 with
  | [] => one
  | c :: s3 =>
      if utf8_three (code a) (code b) (code c)
      then (rune3 (code a) (code b) (code c), [a; b; c]) :: chunks s3
      else match s3 with
      | [] => one
      | d :: s4 =>
          if utf8_four (code a) (code b) (code c) (code d)
          then (rune4 (code a) (code b) (code c) (code d), [a; b; c; d]) :: chunks s4
          else one
      end
  end.
Proof. done. Qed.

(** Induction along the decoding. *)
Lemma chunks_ind (P : bytes → list (Z * bytes) → Prop) :
  P [] [] →
  (∀ a s, P s (chunks s) → P (a :: s) ((rune1 (code a), [a]) :: chunks s)) →
  (∀ a b s, utf8_two (code a) (code b) = true → P s (chunks s) →
    P (a :: b :: s) ((rune2 (code a) (code b), [a; b]) :: chunks s)) →
  (∀ a b c s, utf8_three (code a) (code b) (code c) = true → P s (chunks s) →
    P (a :: b :: c :: s) ((rune3 (code a) (code b) (code c), [a; b; c]) :: chunks s)) →
  (∀ a b c d s, utf8_four (code a) (code b) (code c) (code d) = true → P s (chunks s) →
    P (a :: b :: c :: d :: s)
      ((rune4 (code a) (code b) (code c) (code d), [a; b; c; d]) :: chunks s)) →
  ∀ s, P s (chunks s).
Proof.
  intros H0 H1 H2 H3 H4 s.
  induction s as [s IH] using (induction_ltof1 _ (@length ascii)). unfold ltof in IH.
  destruct s as [| a s1]; [exact H0 |].
  assert (P (a :: s1) ((rune1 (code a), [a]) :: chunks s1)) as Hone.
  { apply H1, IH. simpl. lia. }
  destruct s1 as [| b s2]; [exact Hone |]. rewrite chunks_cons.
  destruct (utf8_two _ _) eqn:E2; [apply H2; [done |]; apply IH; simpl; lia |].
  destruct s2 as [| c s3]; [exact Hone |].
  destruct (utf8_three _ _ _) eqn:E3; [apply H3; [done |]; apply IH; simpl; lia |].
  destruct s3 as [| d s4]; [exact Hone |].
  destruct (utf8_four _ _ _ _) eqn:E4; [apply H4; [done |]; apply IH; simpl; lia |].
  exact Hone.
Qed.

Lemma chunks_concat s : concat (chunks s).*2 = s.
Proof.
  apply (chunks_ind (λ s cs, concat cs.*2 = s)); [done | ..]; intros;
    rewrite fmap_cons; simpl; congruence.
Qed.

Lemma chunks_nonempty s : Forall (λ ck, ck.2 ≠ []) (chunks s).
Proof.
  apply (chunks_ind (λ _ cs, Forall (λ ck, ck.2 ≠ []) cs)); by repeat constructor.
Qed.

Lemma utf8_two_lead a b : a < 128 → utf8_two a b = false.
Proof. unfold utf8_two, cont. lia. Qed.
Lemma utf8_three_lead a b c : a < 128 → utf8_three a b c = false.
Proof. unfold utf8_three, cont. lia. Qed.
Lemma utf8_four_lead a b c d : a < 128 → utf8_four a b c d = false.
Proof. unfold utf8_four, cont. lia. Qed.

(** An ASCII byte is always a rune of its own. *)
Lemma chunks_cons_ascii a s :
  is_ascii a → chunks (a :: s) = (code a, [a]) :: chunks s.
Proof.
  unfold is_ascii. intros Ha. simpl. unfold rune1.
  rewrite (proj2 (Z.ltb_lt _ _) Ha).
  destruct s as [| b [| c [| d s]]]; [done | ..];
    rewrite ?utf8_two_lead, ?utf8_three_lead, ?utf8_four_lead by done; done.
Qed.

Lemma chunks_ascii s :
  Forall is_ascii s → chunks s = (λ c, (code c, [c])) <$> s.
Proof. induction 1; [done |]. by rewrite chunks_cons_ascii, IHForall. Qed.

Lemma runes_ascii s : Forall is_ascii s → runes s = code <$> s.
Proof.
  intros H. unfold runes. rewrite chunks_ascii by done.
  rewrite <- list_fmap_compose. done.
Qed.

(** Encoding a valid rune and decoding it again gives the rune back, whatever
    follows. *)
Lemma chunks_encode r s :
  valid_rune r = true → chunks (encode_valid r ++ s) = (r, encode_valid r) :: chunks s.
Proof.
  intros Hr. unfold valid_rune in Hr. unfold encode_valid.
  destruct (r <? 128) eqn:H1.
  { cbn [app]. rewrite chunks_cons_ascii; unfold is_ascii; rewrite code_chr by lia; [done | lia]. }
  destruct (r <? 2048) eqn:H2.
  { cbn [app chunks]. rewrite !code_chr by lia_div.
    replace (utf8_two _ _) with true by (unfold utf8_two, cont; lia_div).
    unfold rune2. do 2 f_equal. lia_div. }
  destruct (r <? 65536) eqn:H3.
  { cbn [app chunks]. rewrite !code_chr by lia_div.
    replace (utf8_two _ _) with false by (unfold utf8_two; lia_div).
    replace (utf8_three _ _ _) with true by (unfold utf8_three, cont; lia_div).
    unfold rune3. do 2 f_equal. lia_div. }
  cbn [app chunks]. rewrite !code_chr by lia_div.
  replace (utf8_two _ _) with false by (unfold utf8_two; lia_div).
  replace (utf8_three _ _ _) with false by (unfold utf8_three; lia_div).
  replace (utf8_four _ _ _ _) with true by (unfold utf8_four, cont; lia_div).
  unfold rune4. do 2 f_equal. lia_div.
Qed.

Lemma encode_rune_valid r : valid_rune r = true → encode_rune r = encode_valid r.
Proof. unfold encode_rune. by intros ->. Qed.

Lemma runes_cons_encode r s :
  valid_rune r = true → runes (encode_rune r ++ s) = r :: runes s.
Proof. intros H. rewrite encode_rune_valid by done. unfold runes. by rewrite chunks_encode. Qed.

Lemma runes_encode rs :
  Forall (λ r, valid_rune r = true) rs → runes (encode_runes rs) = rs.
Proof.
  induction 1; [done |]. unfold encode_runes. simpl. rewrite runes_cons_encode by done.
  f_equal. exact IHForall.
Qed.

Lemma rune1_valid a : 0 <= a < 256 → valid_rune (rune1 a) = true.
Proof. intros H. unfold rune1, valid_rune, RuneError. case_match; lia. Qed.
Lemma rune2_valid a b : utf8_two a b = true → valid_rune (rune2 a b) = true.
Proof. unfold utf8_two, cont, valid_rune, rune2. lia. Qed.
Lemma rune3_valid a b c : utf8_three a b c = true → valid_rune (rune3 a b c) = true.
Proof. unfold utf8_three, cont, valid_rune, rune3. lia. Qed.
Lemma rune4_valid a b c d : utf8_four a b c d = true → valid_rune (rune4 a b c d) = true.
Proof. unfold utf8_four, cont, valid_rune, rune4. lia. Qed.

(** Decoding always yields valid runes. *)
Lemma runes_valid s : Forall (λ r, valid_rune r = true) (runes s).
Proof.
  unfold runes. apply (chunks_ind (λ _ cs, Forall (λ r, valid_rune r = true) cs.*1));
    [constructor | ..]; intros; rewrite fmap_cons; constructor; simpl;
    auto using rune1_valid, rune2_valid, rune3_valid, rune4_valid, code_range.
Qed.

Lemma encode_rune_ascii c : is_ascii c → encode_rune (code c) = [c].
Proof.
  unfold is_ascii. intros H. pose proof (code_range c).
  rewrite encode_rune_valid by (unfold valid_rune; lia).
  unfold encode_valid. replace (code c <? 128) with true by lia. by rewrite chr_code.
Qed.

Lemma encode_runes_ascii s : Forall is_ascii s → encode_runes (code <$> s) = s.
Proof.
  induction 1; [done |]. unfold encode_runes. simpl. rewrite encode_rune_ascii by done.
  simpl. f_equal. exact IHForall.
Qed.

(** A byte string is valid UTF-8 when decoding loses nothing. *)
Definition valid_utf8 (s : bytes) : Prop := encode_runes (runes s) = s.
#[export] Instance valid_utf8_dec s : Decision (valid_utf8 s).
Proof. unfold valid_utf8. apply _. Defined.

Lemma valid_utf8_ascii s : Forall is_ascii s → valid_utf8 s.
Proof. intros H. unfold valid_utf8. rewrite runes_ascii by done. by apply encode_runes_ascii. Qed.

(** ** The tables of package [unicode] *)

(** [fold_rep r] is the least rune of the [unicode.SimpleFold] orbit of [r].
    The only runes outside ASCII whose orbit meets ASCII are U+017F (long s)
    and U+212A (Kelvin sign). *)
Class UnicodeTables := {
  unicode_ToLower : Z → Z;
  unicode_ToUpper : Z → Z;
  unicode_IsSpace : Z → bool;
  fold_rep : Z → Z;
  ToLower_ascii r : 0 <= r < 128 → unicode_ToLower r = ascii_lower r;
  ToUpper_ascii r : 0 <= r < 128 → unicode_ToUpper r = ascii_upper r;
  IsSpace_ascii r : 0 <= r < 128 → unicode_IsSpace r = ascii_space r;
  fold_rep_ascii r : 0 <= r < 128 → fold_rep r = ascii_upper r;
  fold_rep_non_ascii r :
    128 <= r → fold_rep r < 128 →
    r = 383 ∧ fold_rep r = 83 ∨ r = 8490 ∧ fold_rep r = 75;
}.

(** Tables that know ASCII, the two exceptional runes and the Latin-1 spaces. *)
#[program] Definition latin_tables : UnicodeTables := {|
  unicode_ToLower r := if r <? 128 then ascii_lower r else r;
  unicode_ToUpper r := if r <? 128 then ascii_upper r else r;
  unicode_IsSpace r := if r <? 128 then ascii_space r else (r =? 133) || (r =? 160);
  fold_rep r :=
    if r <? 128 then ascii_upper r
    else if r =? 383 then 83 else if r =? 8490 then 75 else r;
|}.
Solve Obligations with (intros r **; simpl in *; repeat case_match; try lia; auto).

Section Strings.
Context {U : UnicodeTables}.

(** [strings.ToLower], [strings.ToUpper]: map the runes and encode again. *)
Definition ToLower (s : bytes) : bytes := encode_runes (unicode_ToLower <$> runes s).
Definition ToUpper (s : bytes) : bytes := encode_runes (unicode_ToUpper <$> runes s).

(** [strings.EqualFold]: the rune sequences agree orbit by orbit. *)
Definition EqualFold (s t : bytes) : bool :=
  bool_decide (fold_rep <$> runes s = fold_rep <$> runes t).

(** [strings.TrimSpace], over the decoded runes. *)
Fixpoint drop_space (cs : list (Z * bytes)) : list (Z * bytes) :=
  match cs with
  | [] => []
  | ck :: cs' => if unicode_IsSpace ck.1 then drop_space cs' else cs
  end.
Definition TrimSpace (s : bytes) : bytes :=
  concat (reverse (drop_space (reverse (drop_space (chunks s))))).*2.

(** [strings.Fields]: the maximal runs of non-space runes. *)
Fixpoint fields_go (cs : list (Z * bytes)) (cur : bytes) : list bytes :=
  match cs with
  | [] => if decide (cur = []) then [] else [cur]
  | ck :: cs' =>
      if unicode_IsSpace ck.1
      then (if decide (cur = []) then [] else [cur]) ++ fields_go cs' []
      else fields_go cs' (cur ++ ck.2)
  end.
Definition Fields (s : bytes) : list bytes := fields_go (chunks s) [].

(** *** Case folding is an equivalence *)

Lemma EqualFold_spec s t :
  EqualFold s t = true ↔ fold_rep <$> runes s = fold_rep <$> runes t.
Proof. unfold EqualFold. by rewrite bool_decide_eq_true. Qed.

Lemma EqualFold_refl s : EqualFold s s = true.
Proof. by apply EqualFold_spec. Qed.

Lemma EqualFold_sym s t : EqualFold s t = EqualFold t s.
Proof. unfold EqualFold. apply bool_decide_ext. split; congruence. Qed.

Lemma EqualFold_trans s t u :
  EqualFold s t = true → EqualFold t u = true → EqualFold s u = true.
Proof. rewrite !EqualFold_spec. congruence. Qed.

Lemma EqualFold_cong_l s t u : EqualFold s t = true → EqualFold s u = EqualFold t u.
Proof.
  intros H%EqualFold_spec. unfold EqualFold. apply bool_decide_ext. by rewrite H.
Qed.

End Strings.

(** ** Byte-wise functions of package [strings] *)

Definition HasPrefix (s prefix : bytes) : bool := bool_decide (take (length prefix) s = prefix).
Definition HasSuffix (s suffix : bytes) : bool :=
  bool_decide (drop (length s - length suffix) s = suffix).
Definition CutPrefix (s prefix : bytes) : option bytes :=
  if HasPrefix s prefix then Some (drop (length prefix) s) else None.
Definition TrimPrefix (s prefix : bytes) : bytes :=
  if HasPrefix s prefix then drop (length prefix) s else s.
Definition TrimSuffix (s suffix : bytes) : bytes :=
  if HasSuffix s suffix then take (length s - length suffix) s else s.

(** [strings.LastIndex], with [None] for [-1]. *)
Fixpoint LastIndex (s sep : bytes) : option nat :=
  match s with
  | [] => if decide (sep = []) then Some 0%nat else None
  | c :: s' =>
      match LastIndex s' sep with
      | Some i => Some (S i)
      | None => if HasPrefix (c :: s') sep then Some 0%nat else None
      end
  end.

(** [strings.IndexByte], with [None] for [-1]. *)
Fixpoint IndexByte (s : bytes) (c : ascii) : option nat :=
  match s with
  | [] => None
  | d :: s' => if decide (d = c) then Some 0%nat else S <$> IndexByte s' c
  end.

(** [strings.ContainsAny] for an ASCII set of characters. *)
Definition ContainsAny (s chars : bytes) : bool := existsb (λ c, bool_decide (c ∈ chars)) s.
Definition ContainsByte (s : bytes) (c : ascii) : bool := bool_decide (c ∈ s).

(** [strings.TrimLeft], [TrimRight], [Trim] for an ASCII cutset. *)
Fixpoint TrimLeft (s cutset : bytes) : bytes :=
  match s with
  | [] => []
  | c :: s' => if decide (c ∈ cutset) then TrimLeft s' cutset else s
  end.
Definition TrimRight (s cutset : bytes) : bytes := reverse (TrimLeft (reverse s) cutset).
Definition Trim (s cutset : bytes) : bytes := TrimRight (TrimLeft s cutset) cutset.

(** [strings.Split] for a one-byte separator: never empty. *)
Fixpoint Split (s : bytes) (sep : ascii) : list bytes :=
  match s with
  | [] => [[]]
  | c :: s' =>
      if decide (c = sep) then [] :: Split s' sep
      else match Split s' sep with
           | [] => [[c]]
           | f :: fs => (c :: f) :: fs
           end
  end.

Lemma HasPrefix_app s t : HasPrefix (s ++ t) s = true.
Proof. unfold HasPrefix. by rewrite take_app_length, bool_decide_eq_true. Qed.

Lemma HasPrefix_inv s p : HasPrefix s p = true → s = p ++ drop (length p) s.
Proof.
  unfold HasPrefix. rewrite bool_decide_eq_true. intros H.
  rewrite <- H at 1. symmetry. apply take_drop.
Qed.

Lemma CutPrefix_app p t : CutPrefix (p ++ t) p = Some t.
Proof. unfold CutPrefix. by rewrite HasPrefix_app, drop_app_length. Qed.

Lemma CutPrefix_inv s p t : CutPrefix s p = Some t → s = p ++ t.
Proof.
  unfold CutPrefix. case_match eqn:E; [| done]. intros [= <-]. by apply HasPrefix_inv.
Qed.

Lemma HasPrefix_singleton c d s : HasPrefix (c :: s) [d] = bool_decide (c = d).
Proof.
  unfold HasPrefix. cbn [length take]. rewrite take_0. apply bool_decide_ext.
  split; [by intros [= ->] | by intros ->].
Qed.

(** The last occurrence of a one-byte separator. *)
Lemma LastIndex_None s c : LastIndex s [c] = None ↔ c ∉ s.
Proof.
  induction s as [| d s IH]; simpl.
  - split; [intros _; apply not_elem_of_nil | done].
  - rewrite not_elem_of_cons. destruct (LastIndex s [c]) as [i |].
    { split; [done | intros [_ Hn]; apply IH in Hn; done]. }
    rewrite HasPrefix_singleton. destruct IH as [IH _]. specialize (IH eq_refl).
    case_bool_decide as Hd.
    + split; [done | intros [Hn _]; congruence].
    + split; [intros _; split; [congruence | done] | done].
Qed.

Lemma LastIndex_app s t c : c ∉ t → LastIndex (s ++ c :: t) [c] = Some (length s).
Proof.
  intros Hc. induction s as [| d s IH]; simpl.
  - rewrite (proj2 (LastIndex_None t c)) by done.
    rewrite HasPrefix_singleton. by rewrite bool_decide_true.
  - by rewrite IH.
Qed.

Lemma LastIndex_inv s c i :
  LastIndex s [c] = Some i → s = take i s ++ c :: drop (S i) s ∧ c ∉ drop (S i) s.
Proof.
  revert i. induction s as [| d s IH]; intros i; simpl.
  { done. }
  destruct (LastIndex s [c]) as [j |] eqn:E.
  - intros [= <-]. destruct (IH j) as [H1 H2]; [done |]. split; [| done].
    simpl. f_equal. exact H1.
  - rewrite HasPrefix_singleton. case_bool_decide; [| done]. intros [= <-]. subst.
    apply LastIndex_None in E. simpl. rewrite drop_0. done.
Qed.

Lemma IndexByte_None s c : IndexByte s c = None ↔ c ∉ s.
Proof.
  induction s as [| d s IH]; simpl; [split; [intros _; apply not_elem_of_nil | done] |].
  rewrite not_elem_of_cons. case_decide; [naive_solver |].
  destruct (IndexByte s c); simpl; naive_solver.
Qed.

Lemma IndexByte_app s t c : c ∉ s → IndexByte (s ++ c :: t) c = Some (length s).
Proof.
  induction s as [| d s IH]; intros Hc; simpl; [by rewrite decide_True |].
  apply not_elem_of_cons in Hc as [Hd Hc].
  rewrite decide_False by congruence. by rewrite IH.
Qed.

Lemma ContainsAny_false s chars :
  ContainsAny s chars = false ↔ (∀ c, c ∈ s → c ∉ chars).
Proof.
  unfold ContainsAny. rewrite <- not_true_iff_false, existsb_exists. split.
  - intros H c Hc Hin. apply H. exists c. rewrite <- list_elem_of_In, bool_decide_eq_true. done.
  - intros H (c & Hc%list_elem_of_In & Hin). apply bool_decide_eq_true in Hin. by eapply H.
Qed.

Lemma TrimLeft_id s cutset :
  (∀ c, head s = Some c → c ∉ cutset) → TrimLeft s cutset = s.
Proof. destruct s as [| c s]; [done |]. simpl. intros H. rewrite decide_False; auto. Qed.

Lemma TrimLeft_suffix s cutset : ∃ p, s = p ++ TrimLeft s cutset ∧ Forall (.∈ cutset) p.
Proof.
  induction s as [| c s (p & Hp & Hall)]; [by exists [] |]. simpl. case_decide.
  - exists (c :: p). split; [by rewrite <- app_comm_cons, <- Hp | by constructor].
  - by exists [].
Qed.

Lemma TrimLeft_head s cutset c : head (TrimLeft s cutset) = Some c → c ∉ cutset.
Proof. induction s as [| d s IH]; simpl; [done |]. case_decide; [done | by intros [= <-]]. Qed.

Lemma TrimRight_id s cutset :
  (∀ c, last s = Some c → c ∉ cutset) → TrimRight s cutset = s.
Proof.
  intros H. unfold TrimRight. rewrite TrimLeft_id; [apply reverse_involutive |].
  intros c. rewrite head_reverse. apply H.
Qed.

Lemma TrimRight_app_all s t cutset :
  Forall (.∈ cutset) t → TrimRight (s ++ t) cutset = TrimRight s cutset.
Proof.
  intros Ht. unfold TrimRight. rewrite reverse_app. f_equal.
  apply Forall_reverse in Ht. induction Ht; [done |]. simpl. by rewrite decide_True.
Qed.

Lemma TrimRight_prefix s cutset : ∃ t, s = TrimRight s cutset ++ t ∧ Forall (.∈ cutset) t.
Proof.
  destruct (TrimLeft_suffix (reverse s) cutset) as (p & Hp & Hall).
  exists (reverse p). split; [| by apply Forall_reverse].
  rewrite <- (reverse_involutive s) at 1. rewrite Hp at 1. rewrite reverse_app.
  done.
Qed.

Lemma TrimRight_last s cutset c : last (TrimRight s cutset) = Some c → c ∉ cutset.
Proof. unfold TrimRight. rewrite last_reverse. apply TrimLeft_head. Qed.

(** Splitting and joining. *)
Fixpoint Join (fs : list bytes) (sep : ascii) : bytes :=
  match fs with
  | [] => []
  | [f] => f
  | f :: fs' => f ++ sep :: Join fs' sep
  end.

Lemma Split_nonempty s sep : Split s sep ≠ [].
Proof. destruct s; simpl; [done |]. case_decide; [done |]. by destruct (Split s sep). Qed.

Lemma Split_no_sep s sep : sep ∉ s → Split s sep = [s].
Proof.
  induction s as [| c s IH]; [done |]. intros [Hc Hs]%not_elem_of_cons. simpl.
  rewrite decide_False by congruence. by rewrite IH.
Qed.

Lemma Split_app s t sep : sep ∉ s → Split (s ++ sep :: t) sep = s :: Split t sep.
Proof.
  induction s as [| c s IH]; simpl; [by rewrite decide_True |].
  intros [Hc Hs]%not_elem_of_cons. rewrite decide_False by congruence. by rewrite IH.
Qed.

Lemma Split_Join fs sep :
  fs ≠ [] → Forall (λ f, sep ∉ f) fs → Split (Join fs sep) sep = fs.
Proof.
  intros Hne H. induction H as [| f fs Hf Hfs IH]; [done |].
  destruct fs as [| g fs]; [by apply Split_no_sep |].
  cbn [Join]. rewrite Split_app by done. f_equal. by apply IH.
Qed.

Lemma Join_Split s sep : Join (Split s sep) sep = s.
Proof.
  induction s as [| c s IH]; [done |]. simpl. pose proof (Split_nonempty s sep) as Hne.
  case_decide as Hc.
  - subst c. destruct (Split s sep) as [| f fs]; [done |]. simpl. by rewrite <- IH.
  - destruct (Split s sep) as [| f [| g fs]]; [done | |]; simpl in *; by rewrite <- IH.
Qed.

Lemma Split_fields s sep : Forall (λ f, sep ∉ f) (Split s sep).
Proof.
  induction s as [| c s IH]; simpl; [repeat constructor; apply not_elem_of_nil |].
  case_decide; [constructor; [apply not_elem_of_nil | done] |].
  destruct (Split s sep) as [| f fs]; [repeat constructor; set_solver |].
  inversion_clear IH. constructor; [set_solver | done].
Qed.

(** ** ASCII bytes inside UTF-8 text *)

(** An ASCII rune occurs exactly where its byte does. *)
Lemma elem_of_runes_ascii s c : is_ascii c → code c ∈ runes s ↔ c ∈ s.
Proof.
  unfold is_ascii, runes. intros Hc.
  assert (Hmb : ∀ a, 128 <= code a → c ≠ a) by (intros a Ha ->; lia).
  apply (chunks_ind (λ s cs, code c ∈ cs.*1 ↔ c ∈ s));
    [by split; intros ?%elem_of_nil | intros a s' IH | intros a b s' H IH | intros a b d s' H IH | intros a b d e s' H IH];
    rewrite !fmap_cons, !elem_of_cons, IH; cbn [fst].
  - pose proof (code_range a). unfold rune1, RuneError.
    destruct (code a <? 128) eqn:Ha; [| specialize (Hmb a); naive_solver lia].
    split; (intros [Hx | Hx]; [left | by right]); [by apply code_inj | by subst].
  - unfold utf8_two, cont in H.
    assert (code c ≠ rune2 (code a) (code b)) by (unfold rune2; lia).
    pose proof (Hmb a). pose proof (Hmb b). naive_solver lia.
  - unfold utf8_three, cont in H.
    assert (code c ≠ rune3 (code a) (code b) (code d)) by (unfold rune3; lia).
    pose proof (Hmb a). pose proof (Hmb b). pose proof (Hmb d). naive_solver lia.
  - unfold utf8_four, cont in H.
    assert (code c ≠ rune4 (code a) (code b) (code d) (code e)) by (unfold rune4; lia).
    pose proof (Hmb a). pose proof (Hmb b). pose proof (Hmb d). pose proof (Hmb e). naive_solver lia.
Qed.

(** *** Text without blanks or capitals *)

Section Plain_text.
Context {U : UnicodeTables}.

Lemma drop_space_ascii s :
  Forall (λ c, is_ascii c ∧ ascii_space (code c) = false) s →
  drop_space ((λ c, (code c, [c])) <$> s) = (λ c, (code c, [c])) <$> s.
Proof.
  intros H. destruct H as [| c s [Hc Hs] _]; [done |]. simpl.
  pose proof (code_range c). unfold is_ascii in Hc. by rewrite IsSpace_ascii, Hs by lia.
Qed.

Lemma TrimSpace_id s :
  Forall (λ c, is_ascii c ∧ ascii_space (code c) = false) s → TrimSpace s = s.
Proof.
  intros H. unfold TrimSpace. rewrite chunks_ascii by (eapply Forall_impl; [exact H | by intros c []]).
  rewrite drop_space_ascii by done. rewrite <- fmap_reverse, drop_space_ascii by by apply Forall_reverse.
  rewrite <- fmap_reverse, reverse_involutive, <- list_fmap_compose.
  clear H. induction s as [| c s IH]; [done |]. rewrite fmap_cons. simpl. by f_equal.
Qed.

Lemma ToLower_id s :
  Forall (λ c, is_ascii c ∧ is_upper (code c) = false) s → ToLower s = s.
Proof.
  intros H. unfold ToLower.
  assert (Forall is_ascii s) as Ha by (eapply Forall_impl; [exact H | by intros c []]).
  rewrite runes_ascii by done. rewrite <- (encode_runes_ascii s) at 2 by done. f_equal.
  rewrite <- list_fmap_compose. apply list_fmap_ext. intros i c Hc. simpl.
  apply list_elem_of_lookup_2 in Hc. rewrite Forall_forall in H. destruct (H _ Hc) as [Hac Hu].
  pose proof (code_range c). unfold is_ascii in Hac. rewrite ToLower_ascii by lia.
  unfold ascii_lower. by rewrite Hu.
Qed.

End Plain_text.

Section Folding.
Context {U : UnicodeTables}.

(** Folding maps no rune but [@] itself onto [@]. *)
Lemma EqualFold_at s t :
  EqualFold s t = true → "@"%char ∈ s → "@"%char ∈ t.
Proof.
  rewrite EqualFold_spec. intros Heq Hs.
  assert (is_ascii "@"%char) as Ha by done.
  apply (elem_of_runes_ascii _ _ Ha). apply (elem_of_runes_ascii _ _ Ha) in Hs.
  assert (fold_rep (code "@"%char) ∈ fold_rep <$> runes t) as Hin.
  { rewrite <- Heq. by apply list_elem_of_fmap_2. }
  apply list_elem_of_fmap in Hin as (r & Hr & Hin).
  rewrite fold_rep_ascii in Hr by done. change (64 = fold_rep r) in Hr.
  pose proof (runes_valid t) as Hv. rewrite Forall_forall in Hv. specialize (Hv r Hin).
  unfold valid_rune in Hv. destruct (decide (r < 128)) as [Hlt | Hge].
  - rewrite fold_rep_ascii in Hr by lia. unfold ascii_upper, is_lower in Hr.
    replace (code "@"%char) with r; [done |]. change (code "@"%char) with 64.
    destruct ((97 <=? r) && (r <=? 122)) eqn:E; lia.
  - destruct (fold_rep_non_ascii r) as [[_ H] | [_ H]]; lia.
Qed.

(** On ASCII text folding is comparison of the upper-cased bytes. *)
Lemma EqualFold_ascii s t :
  Forall is_ascii s → Forall is_ascii t →
  EqualFold s t = bool_decide ((ascii_upper ∘ code) <$> s = (ascii_upper ∘ code) <$> t).
Proof.
  intros Hs Ht. unfold EqualFold. rewrite !runes_ascii by done.
  assert (∀ l, Forall is_ascii l → fold_rep <$> (code <$> l) = (ascii_upper ∘ code) <$> l) as Hf.
  { induction 1 as [| c l Hc _ IH]; [done |]. rewrite !fmap_cons, IH. f_equal.
    apply fold_rep_ascii. pose proof (code_range c). unfold is_ascii in Hc. lia. }
  by rewrite !Hf.
Qed.

End Folding.
