(* ===== verification/Strconv.v ===== *)
(** * Strconv: numbers as text

    [strconv.FormatInt], [Itoa], [ParseInt], [Atoi], [ParseBool] and the [fmt]
    verbs [%d], [%08d], [%02X] and [%x].  Base ten and base sixteen share one
    positional printer and its inverse. *)

From S2P Require Import Prelude GoStrings.

(** ** Positional notation *)

Fixpoint digits_go (fuel : nat) (base n : Z) (acc : list Z) : list Z :=
  match fuel with
  | O => acc
  | S fuel => if n <? base then n :: acc else digits_go fuel base (n / base) (n mod base :: acc)
  end.

(** The digits of [n], most significant first.  [log2 n + 1] steps suffice. *)
Definition digits (base n : Z) : list Z := digits_go (S (Z.to_nat (Z.log2 n))) base n [].

Definition undigits (base : Z) (ds : list Z) : Z := foldl (λ a d, a * base + d) 0 ds.

Lemma undigits_go fuel base n acc :
  2 <= base → 0 <= n < 2 ^ Z.of_nat fuel → (0 < fuel)%nat →
  undigits base (digits_go fuel base n acc) = foldl (λ a d, a * base + d) n acc.
Proof.
  intros Hb. revert n acc. induction fuel as [| fuel IH]; intros n acc Hn Hf; [lia |].
  simpl. destruct (n <? base) eqn:E; [done |].
  rewrite Nat2Z.inj_succ, Z.pow_succ_r in Hn by lia.
  assert (n / base <= n / 2) by (apply Z.div_le_compat_l; lia).
  assert (n / 2 < 2 ^ Z.of_nat fuel) by (apply Z.div_lt_upper_bound; lia).
  destruct fuel as [| fuel]; [simpl in *; lia |].
  rewrite IH; [| split; [apply Z.div_pos; lia | lia] | lia].
  simpl. f_equal. pose proof (Z.div_mod n base). lia.
Qed.

Lemma undigits_digits base n : 2 <= base → 0 <= n → undigits base (digits base n) = n.
Proof.
  intros Hb Hn. unfold digits. rewrite undigits_go; [done | done | | lia].
  split; [done |]. rewrite Nat2Z.inj_succ, Z2Nat.id by apply Z.log2_nonneg.
  destruct (decide (n = 0)) as [-> | Hz]; [done |].
  apply Z.log2_spec. lia.
Qed.

Lemma digits_go_range fuel base n acc :
  2 <= base → 0 <= n →
  Forall (λ d, 0 <= d < base) acc → Forall (λ d, 0 <= d < base) (digits_go fuel base n acc).
Proof.
  intros Hb. revert n acc. induction fuel as [| fuel IH]; intros n acc Hn Hacc; [done |].
  simpl. destruct (n <? base) eqn:E; [constructor; [lia | done] |].
  apply IH; [by apply Z.div_pos; lia |]. constructor; [apply Z.mod_pos_bound; lia | done].
Qed.

Lemma digits_range base n : 2 <= base → 0 <= n → Forall (λ d, 0 <= d < base) (digits base n).
Proof. intros. by apply digits_go_range. Qed.

Lemma digits_go_nonempty fuel base n acc :
  (0 < fuel)%nat ∨ acc ≠ [] → digits_go fuel base n acc ≠ [].
Proof.
  revert n acc. induction fuel as [| fuel IH]; intros n acc H; simpl; [naive_solver lia |].
  case_match; [done |]. apply IH. by right.
Qed.

Lemma digits_nonempty base n : digits base n ≠ [].
Proof. apply digits_go_nonempty. lia. Qed.

Lemma undigits_zeros base k ds : undigits base (replicate k 0 ++ ds) = undigits base ds.
Proof. unfold undigits. rewrite foldl_app. f_equal. by induction k. Qed.

(** ** Digit characters *)

Definition digit_upper (d : Z) : ascii := chr (if d <? 10 then 48 + d else 55 + d).
Definition digit_lower (d : Z) : ascii := chr (if d <? 10 then 48 + d else 87 + d).

(** The value of a hexadecimal digit, either case. *)
Definition digit_val (c : ascii) : option Z :=
  let z := code c in
  if is_digit z then Some (z - 48)
  else if (65 <=? z) && (z <=? 70) then Some (z - 55)
  else if (97 <=? z) && (z <=? 102) then Some (z - 87)
  else None.

Definition decimal_val (c : ascii) : option Z :=
  if is_digit (code c) then Some (code c - 48) else None.

Lemma digit_val_upper d : 0 <= d < 16 → digit_val (digit_upper d) = Some d.
Proof.
  intros H. unfold digit_val, digit_upper. rewrite code_chr by (case_match; lia).
  destruct (d <? 10) eqn:E; unfold is_digit.
  - replace ((48 <=? 48 + d) && (48 + d <=? 57)) with true by lia. f_equal. lia.
  - replace ((48 <=? 55 + d) && (55 + d <=? 57)) with false by lia.
    replace ((65 <=? 55 + d) && (55 + d <=? 70)) with true by lia. f_equal. lia.
Qed.

Lemma decimal_val_upper d : 0 <= d < 10 → decimal_val (digit_upper d) = Some d.
Proof.
  intros H. unfold decimal_val, digit_upper. replace (d <? 10) with true by lia.
  rewrite code_chr by lia. unfold is_digit.
  replace ((48 <=? 48 + d) && (48 + d <=? 57)) with true by lia. f_equal. lia.
Qed.

Lemma digit_upper_class d :
  0 <= d < 16 → is_digit (code (digit_upper d)) || is_upper (code (digit_upper d)) = true.
Proof.
  intros H. unfold digit_upper. rewrite code_chr by (case_match; lia).
  unfold is_digit, is_upper. case_match; lia.
Qed.

(** ** Printing *)

Definition show (base n : Z) : bytes := digit_upper <$> digits base n.

(** [strconv.FormatInt(z, 10)], also [Itoa] and the verb [%d]. *)
Definition FormatInt (z : Z) : bytes :=
  if z <? 0 then "-"%char :: show 10 (- z) else show 10 z.

Definition zero_pad (width : nat) (s : bytes) : bytes :=
  replicate (width - length s) "0"%char ++ s.

(** [%08d] of an unsigned number. *)
Definition Sprintf_08d (n : Z) : bytes := zero_pad 8 (show 10 n).

(** [%02X] of a non-negative number. *)
Definition Sprintf_02X (n : Z) : bytes := zero_pad 2 (show 16 n).

(** ** Parsing *)

Definition parse_digits (s : bytes) : option Z := undigits 10 <$> mapM decimal_val s.

(** [strconv.ParseInt(s, 10, 64)]; [strconv.Atoi] agrees with it. *)
Definition ParseInt (s : bytes) : option Z :=
  let '(neg, body) :=
    match s with
    | c :: s' =>
        if decide (c = "-"%char) then (true, s')
        else if decide (c = "+"%char) then (false, s') else (false, s)
    | [] => (false, [])
    end in
  if decide (body = []) then None
  else match parse_digits body with
       | None => None
       | Some n =>
           if neg then if n <=? 2 ^ 63 then Some (- n) else None
           else if n <? 2 ^ 63 then Some n else None
       end.
Definition Atoi : bytes → option Z := ParseInt.

(** [strconv.ParseBool] *)
Definition ParseBool (s : bytes) : option bool :=
  if decide (s ∈ [B "1"; B "t"; B "T"; B "true"; B "TRUE"; B "True"]) then Some true
  else if decide (s ∈ [B "0"; B "f"; B "F"; B "false"; B "FALSE"; B "False"]) then Some false
  else None.

Lemma mapM_decimal_show ds :
  Forall (λ d, 0 <= d < 10) ds → mapM decimal_val (digit_upper <$> ds) = Some ds.
Proof.
  induction 1; [done |]. rewrite fmap_cons. simpl.
  rewrite decimal_val_upper by done. simpl. by rewrite IHForall.
Qed.

Lemma parse_digits_pad k ds :
  Forall (λ d, 0 <= d < 10) ds →
  parse_digits (replicate k "0"%char ++ (digit_upper <$> ds)) = Some (undigits 10 ds).
Proof.
  intros H. unfold parse_digits.
  replace "0"%char with (digit_upper 0) by done.
  rewrite <- fmap_replicate, <- fmap_app, mapM_decimal_show.
  - simpl. by rewrite undigits_zeros.
  - apply Forall_app. split; [| done]. apply Forall_replicate. lia.
Qed.

Lemma parse_digits_show n : 0 <= n → parse_digits (show 10 n) = Some n.
Proof.
  intros H. pose proof (parse_digits_pad 0 (digits 10 n)) as Hp. simpl in Hp.
  unfold show. rewrite Hp by (apply digits_range; lia). by rewrite undigits_digits.
Qed.

Lemma parse_digits_08d n : 0 <= n → parse_digits (Sprintf_08d n) = Some n.
Proof.
  intros H. unfold Sprintf_08d, zero_pad, show.
  rewrite parse_digits_pad by (apply digits_range; lia). by rewrite undigits_digits.
Qed.

Lemma Sprintf_08d_inj n m : 0 <= n → 0 <= m → Sprintf_08d n = Sprintf_08d m → n = m.
Proof.
  intros Hn Hm E. apply parse_digits_08d in Hn, Hm. rewrite E in Hn. congruence.
Qed.

Lemma show_nonempty base n : show base n ≠ [].
Proof. unfold show. intros H%fmap_nil_inv. by apply digits_nonempty in H. Qed.

Lemma show_class base n :
  2 <= base <= 16 → 0 <= n →
  Forall (λ c, is_digit (code c) || is_upper (code c) = true) (show base n).
Proof.
  intros Hb Hn. unfold show. apply Forall_fmap.
  eapply Forall_impl; [apply (digits_range base); lia |].
  intros d Hd. simpl in *. apply digit_upper_class. lia.
Qed.

Lemma show10_class n : 0 <= n → Forall (λ c, is_digit (code c) = true) (show 10 n).
Proof.
  intros Hn. unfold show. apply Forall_fmap.
  eapply Forall_impl; [apply (digits_range 10); lia |].
  intros d Hd. simpl in *. unfold digit_upper. replace (d <? 10) with true by lia.
  rewrite code_chr by lia. unfold is_digit. lia.
Qed.

Lemma FormatInt_class z :
  Forall (λ c, is_digit (code c) = true ∨ c = "-"%char) (FormatInt z).
Proof.
  unfold FormatInt. case_match.
  - constructor; [by right |]. eapply Forall_impl; [apply show10_class; lia | by left].
  - eapply Forall_impl; [apply show10_class; lia | by left].
Qed.

Lemma FormatInt_ascii z : Forall is_ascii (FormatInt z).
Proof.
  eapply Forall_impl; [apply FormatInt_class |].
  intros c [H | ->]; unfold is_ascii; [unfold is_digit in H; lia | done].
Qed.

Lemma FormatInt_nonempty z : FormatInt z ≠ [].
Proof. unfold FormatInt. case_match; [done | apply show_nonempty]. Qed.

(** A byte that is neither a digit nor a minus sign does not occur. *)
Lemma FormatInt_notin z c :
  is_digit (code c) = false → c ≠ "-"%char → c ∉ FormatInt z.
Proof.
  intros H1 H2 Hin. pose proof (FormatInt_class z) as Hf.
  rewrite Forall_forall in Hf. destruct (Hf c Hin); congruence.
Qed.

Lemma ParseInt_show n : 0 <= n → ParseInt (show 10 n) = if n <? 2 ^ 63 then Some n else None.
Proof.
  intros Hn. pose proof (parse_digits_show n Hn) as Hp.
  pose proof (show10_class n Hn) as Hc. pose proof (show_nonempty 10 n) as Hne.
  unfold ParseInt. destruct (show 10 n) as [| c s] eqn:Es; [done |].
  inversion_clear Hc as [| ? ? Hd _].
  rewrite decide_False by (intros ->; done). rewrite decide_False by (intros ->; done).
  rewrite decide_False by done. by rewrite Hp.
Qed.

(** Every [int64] survives printing and parsing. *)
Lemma ParseInt_FormatInt z : is_int64 z → ParseInt (FormatInt z) = Some z.
Proof.
  unfold is_int64, FormatInt. intros Hz. destruct (z <? 0) eqn:E.
  - unfold ParseInt. rewrite decide_True by done.
    rewrite decide_False by apply show_nonempty.
    rewrite parse_digits_show by lia. replace (- z <=? 2 ^ 63) with true by lia. f_equal. lia.
  - rewrite ParseInt_show by lia. by replace (z <? 2 ^ 63) with true by lia.
Qed.

(** What [ParseInt] returns is an [int64]. *)
Lemma undigits_nonneg base ds : 0 <= base → Forall (λ d, 0 <= d) ds → 0 <= undigits base ds.
Proof.
  intros Hb H. unfold undigits.
  assert (∀ a, 0 <= a → 0 <= foldl (λ a d, a * base + d) a ds) as Hgen; [| by apply Hgen].
  induction H as [| d ds Hd _ IH]; intros a Ha; [done |].
  simpl. apply IH. nia.
Qed.

Lemma parse_digits_nonneg s n : parse_digits s = Some n → 0 <= n.
Proof.
  unfold parse_digits. destruct (mapM decimal_val s) as [ds |] eqn:E; [| done].
  intros [= <-]. apply undigits_nonneg; [lia |].
  apply mapM_Some in E. clear -E. induction E as [| c d s ds Hc _ IH]; constructor; [| done].
  unfold decimal_val, is_digit in Hc. case_match; [| done]. injection Hc as <-. lia.
Qed.

Lemma ParseInt_range s z : ParseInt s = Some z → is_int64 z.
Proof.
  unfold ParseInt, is_int64. intros H. case_match eqn:E. clear E.
  case_decide; [done |]. destruct (parse_digits _) as [n |] eqn:En; [| done].
  apply parse_digits_nonneg in En. repeat case_match; try done; injection H as <-; lia.
Qed.

Lemma FormatInt_inj y z : FormatInt y = FormatInt z → y = z.
Proof.
  unfold FormatInt. intros H. destruct (y <? 0) eqn:Ey, (z <? 0) eqn:Ez.
  - injection H as H. assert (- y = - z); [| lia].
    pose proof (parse_digits_show (- y)). pose proof (parse_digits_show (- z)).
    rewrite H in *. assert (Some (- y) = Some (- z)) as [=]; [| lia].
    rewrite <- H0, <- H1 by lia. done.
  - pose proof (show10_class z) as Hc. rewrite <- H in Hc.
    specialize (Hc ltac:(lia)). by inversion_clear Hc.
  - pose proof (show10_class y) as Hc. rewrite H in Hc.
    specialize (Hc ltac:(lia)). by inversion_clear Hc.
  - assert (Some y = Some z) as [=]; [| done].
    rewrite <- (parse_digits_show y), <- (parse_digits_show z) by lia. by rewrite H.
Qed.
