(* ===== verification/Crypto.v ===== *)
(** * Crypto: the standard library cryptography the program calls

    [crypto/sha256], [crypto/hmac], [encoding/hex] and [encoding/base32] as
    executable functions on byte strings.  The examples at the end are the
    published test vectors. *)

From S2P Require Import Prelude GoStrings Strconv.

(** ** SHA-256 (FIPS 180-4) *)

Module Sha256.

Definition w32 (z : Z) : Z := z mod 2 ^ 32.
Definition add32 (x y : Z) : Z := w32 (x + y).
Definition rotr (n x : Z) : Z := Z.lor (Z.shiftr x n) (w32 (Z.shiftl x (32 - n))).
Definition not32 (x : Z) : Z := 2 ^ 32 - 1 - x.

Definition Ch x y z := Z.lxor (Z.land x y) (Z.land (not32 x) z).
Definition Maj x y z := Z.lxor (Z.lxor (Z.land x y) (Z.land x z)) (Z.land y z).
Definition Sigma0 x := Z.lxor (Z.lxor (rotr 2 x) (rotr 13 x)) (rotr 22 x).
Definition Sigma1 x := Z.lxor (Z.lxor (rotr 6 x) (rotr 11 x)) (rotr 25 x).
Definition sigma0 x := Z.lxor (Z.lxor (rotr 7 x) (rotr 18 x)) (Z.shiftr x 3).
Definition sigma1 x := Z.lxor (Z.lxor (rotr 17 x) (rotr 19 x)) (Z.shiftr x 10).

(** The constants are the first 32 bits of the fractional parts of square and
    cube roots of the first primes. *)
Definition is_prime (n : Z) : bool :=
  forallb (λ d, negb (n mod Z.of_nat d =? 0)) (seq 2 (Z.to_nat (Z.sqrt n) - 1)).
Definition primes : list Z := take 64 (List.filter is_prime (Z.of_nat <$> seq 2 310)).

(** The integer cube root, from [bits] binary digits. *)
Fixpoint cbrt (bits : nat) (x acc : Z) : Z :=
  match bits with
  | O => acc
  | S n =>
      let acc' := acc + 2 ^ Z.of_nat n in
      cbrt n x (if acc' * acc' * acc' <=? x then acc' else acc)
  end.

Definition K : list Z := Eval vm_compute in (λ p, w32 (cbrt 40 (p * 2 ^ 96) 0)) <$> primes.
Definition H0 : list Z := Eval vm_compute in (λ p, w32 (Z.sqrt (p * 2 ^ 64))) <$> take 8 primes.

(** A word as four bytes, most significant first, and back. *)
Definition be32 (w : Z) : list Z :=
  [Z.shiftr w 24; Z.shiftr w 16 mod 256; Z.shiftr w 8 mod 256; w mod 256].
Definition be64 (n : Z) : list Z := be32 (w32 (Z.shiftr n 32)) ++ be32 (w32 n).
Fixpoint words (bs : list Z) : list Z :=
  match bs with
  | a :: b :: c :: d :: bs' => (a * 16777216 + b * 65536 + c * 256 + d) :: words bs'
  | _ => []
  end.

(** One step of the message schedule: the list holds the latest word first. *)
Definition schedule_step (ws : list Z) : list Z :=
  add32 (add32 (sigma1 (nth 1 ws 0)) (nth 6 ws 0)) (add32 (sigma0 (nth 14 ws 0)) (nth 15 ws 0)) :: ws.
Definition schedule (block : list Z) : list Z := reverse (Nat.iter 48 schedule_step (reverse block)).

Definition round (s : list Z) (kw : Z * Z) : list Z :=
  match s with
  | [a; b; c; d; e; f; g; h] =>
      let t1 := add32 (add32 h (Sigma1 e)) (add32 (Ch e f g) (add32 kw.1 kw.2)) in
      let t2 := add32 (Sigma0 a) (Maj a b c) in
      [add32 t1 t2; a; b; c; add32 d t1; e; f; g]
  | _ => s
  end.
Definition compress (h block : list Z) : list Z :=
  zip_with add32 h (foldl round h (zip K (schedule block))).

Fixpoint blocks (fuel : nat) (ws h : list Z) : list Z :=
  match fuel with
  | O => h
  | S fuel => match ws with [] => h | _ => blocks fuel (drop 16 ws) (compress h (take 16 ws)) end
  end.

Definition pad (m : list Z) : list Z :=
  let n := Z.of_nat (length m) in
  m ++ 0x80 :: replicate (Z.to_nat ((55 - n) mod 64)) 0 ++ be64 (8 * n).

Definition sum (m : list Z) : list Z :=
  let ws := words (pad m) in concat (be32 <$> blocks (length ws) ws H0).

End Sha256.

(** [sha256.Sum256] on byte strings. *)
Definition sha256 (m : bytes) : bytes := chr <$> Sha256.sum (code <$> m).

(** ** HMAC (RFC 2104) over SHA-256, block size 64 *)

Definition xor_bytes (k : Z) (s : bytes) : bytes := (λ c, chr (Z.lxor (code c) k)) <$> s.

Definition hmac_sha256 (key msg : bytes) : bytes :=
  let key := if decide (64 < length key)%nat then sha256 key else key in
  let block := key ++ replicate (64 - length key) (chr 0) in
  sha256 (xor_bytes 0x5c block ++ sha256 (xor_bytes 0x36 block ++ msg)).

(** [hex.EncodeToString] *)
Definition hex_byte (c : ascii) : bytes := [digit_lower (code c / 16); digit_lower (code c mod 16)].
Definition EncodeToString (s : bytes) : bytes := concat (hex_byte <$> s).

Lemma digit_lower_class d :
  0 <= d < 16 → is_digit (code (digit_lower d)) || is_lower (code (digit_lower d)) = true.
Proof.
  intros H. unfold digit_lower. rewrite code_chr by (case_match; lia).
  unfold is_digit, is_lower. case_match; lia.
Qed.

(** Hexadecimal text is made of digits and lower case letters. *)
Lemma EncodeToString_class s :
  Forall (λ c, is_digit (code c) || is_lower (code c) = true) (EncodeToString s).
Proof.
  unfold EncodeToString. induction s as [| c s IH]; [constructor |].
  simpl. pose proof (code_range c).
  repeat constructor; [apply digit_lower_class; lia_div | apply digit_lower_class; lia_div | exact IH].
Qed.

(** ** Base 32 (RFC 4648, standard alphabet) of a whole number of groups *)

Definition base32_char (d : Z) : ascii := chr (if d <? 26 then 65 + d else 24 + d).

(** Five bytes are eight characters; a shorter tail is padded with [=]. *)
Definition base32_group (a b c d e : Z) : bytes :=
  base32_char <$>
    [a / 8; (a mod 8) * 4 + b / 64; (b / 2) mod 32; (b mod 2) * 16 + c / 16;
     (c mod 16) * 2 + d / 128; (d / 4) mod 32; (d mod 4) * 8 + e / 32; e mod 32].
Fixpoint base32_codes (s : list Z) : bytes :=
  match s with
  | a :: b :: c :: d :: e :: s' => base32_group a b c d e ++ base32_codes s'
  | [] => []
  | [a] => take 2 (base32_group a 0 0 0 0) ++ replicate 6 "="%char
  | [a; b] => take 4 (base32_group a b 0 0 0) ++ replicate 4 "="%char
  | [a; b; c] => take 5 (base32_group a b c 0 0) ++ replicate 3 "="%char
  | [a; b; c; d] => take 7 (base32_group a b c d 0) ++ ["="%char]
  end.
Definition base32_EncodeToString (s : bytes) : bytes := base32_codes (code <$> s).

(** ** Test vectors *)

Example sha256_abc :
  EncodeToString (sha256 (B "abc")) =
  B "ba7816bf8f01cfea414140de5dae2223b00361a396177a9cb410ff61f20015ad".
Proof. vm_compute. reflexivity. Qed.

Example sha256_two_blocks :
  EncodeToString (sha256 (B "abcdbcdecdefdefgefghfghighijhijkijkljklmklmnlmnomnopnopq")) =
  B "248d6a61d20638b8e5c026930c3e6039a33ce45964ff2167f6ecedd419db06c1".
Proof. vm_compute. reflexivity. Qed.

Example hmac_rfc4231_2 :
  EncodeToString (hmac_sha256 (B "Jefe") (B "what do ya want for nothing?")) =
  B "5bdcc146bf60754e6a042426089575c75a003f089d2739839dec58b964ec3843".
Proof. vm_compute. reflexivity. Qed.

Example base32_foobar : base32_EncodeToString (B "foobar") = B "MZXW6YTBOI======".
Proof. vm_compute. reflexivity. Qed.
