(* ===== verification/World.v ===== *)
(** * World: the operating system, JSON documents and paths

    The state every other file passes around: a file tree, a clock, a source
    of random bytes and a script of operating system failures.  [os.ReadFile],
    [os.WriteFile], [os.MkdirAll], [os.ReadDir], [os.Stat], [os.Remove],
    [os.RemoveAll] and [os.Rename] are operations on it; [filepath.Join]
    computes the paths they get. *)

From S2P Require Import Prelude GoStrings Strconv.

(** ** JSON documents

    A document is its syntax tree.  A number is the decimal literal
    [mantissa * 10 ^ exponent]; [JTime] is the RFC 3339 text of an instant in
    nanoseconds since the epoch.  A Go [any] that came out of
    [json.Unmarshal] is represented by the same tree. *)

Inductive json :=
| JNull
| JBool (b : bool)
| JNumber (mantissa exponent : Z)
| JString (s : bytes)
| JTime (t : Z)
| JArray (l : list json)
| JObject (fields : list (bytes * json)).

(** The value of a key; of repeated keys the last one counts. *)
Fixpoint json_field (key : bytes) (fs : list (bytes * json)) : option json :=
  match fs with
  | [] => None
  | (k, v) :: fs' =>
      match json_field key fs' with
      | Some v' => Some v'
      | None => if decide (k = key) then Some v else None
      end
  end.

(** Decoding into Go types: [null] and a missing key leave the zero value, a
    value of another type is an error. *)
Definition json_string (o : option json) : option bytes :=
  match o with
  | None | Some JNull => Some []
  | Some (JString s) => Some s
  | _ => None
  end.
Definition json_bool (o : option json) : option bool :=
  match o with
  | None | Some JNull => Some false
  | Some (JBool b) => Some b
  | _ => None
  end.
Definition json_int (o : option json) : option Z :=
  match o with
  | None | Some JNull => Some 0
  | Some (JNumber m 0) => if decide (is_int64 m) then Some m else None
  | _ => None
  end.
Definition json_uint32 (o : option json) : option Z :=
  match o with
  | None | Some JNull => Some 0
  | Some (JNumber m 0) => if decide (is_uint32 m) then Some m else None
  | _ => None
  end.

(** [time.Time{}], the first instant of year 1. *)
Definition zero_time : Z := -62135596800 * 10 ^ 9.

Definition json_time (o : option json) : option Z :=
  match o with
  | None | Some JNull => Some zero_time
  | Some (JTime t) => Some t
  | _ => None
  end.
Definition json_list {A} (f : json → option A) (o : option json) : option (list A) :=
  match o with
  | None | Some JNull => Some []
  | Some (JArray l) => mapM f l
  | _ => None
  end.
Definition json_strings : option json → option (list bytes) := json_list (λ j, json_string (Some j)).

(** A Go type with its JSON encoding. *)
Class Codec (A : Type) := {
  marshal : A → json;
  unmarshal : json → option A;
}.

(** ** Paths *)

(** The components of a path below the working directory. *)
Abbreviation path := (list bytes).

(** [filepath.Clean] on components: [.] and empty components go, [..] removes
    the component before it. *)
Definition clean_step (acc : path) (c : bytes) : path :=
  if decide (c = [] ∨ c = B ".") then acc
  else if decide (c = B "..") then
    match last acc with
    | Some l => if decide (l = B "..") then acc ++ [c] else removelast acc
    | None => [c]
    end
  else acc ++ [c].
Definition clean (p : path) : path := foldl clean_step [] p.

(** [filepath.Join(base, elems...)] *)
Definition Join (base : path) (elems : list bytes) : path :=
  clean (base ++ concat ((λ e, Split e "/"%char) <$> elems)).

(** A component that [clean] keeps as it is. *)
Definition plain (c : bytes) : Prop := c ≠ [] ∧ c ≠ B "." ∧ c ≠ B ".." ∧ "/"%char ∉ c.
#[export] Instance plain_dec c : Decision (plain c).
Proof. unfold plain. apply _. Defined.

(** ** The file tree *)

Inductive content :=
| Raw (b : bytes)
| Json (j : json).

Inductive node :=
| Dir
| File (c : content).

Abbreviation tree := (gmap path node).

(** What the operating system does to the next call: nothing, refuse it, or
    (for a write) fail after the file was truncated. *)
Inductive fault := NoFault | Refused | Torn.

Record world := World {
  w_fs : tree;
  w_now : Z;             (** [time.Now()], nanoseconds since the epoch *)
  w_rand : bytes;        (** what [crypto/rand] will deliver *)
  w_faults : list fault; (** what the next system calls meet; then no fault *)
}.

Definition set_fs (f : tree) (w : world) : world := World f (w_now w) (w_rand w) (w_faults w).
Definition set_now (t : Z) (w : world) : world := World (w_fs w) t (w_rand w) (w_faults w).

Abbreviation M := (ST world).

Definition is_dir (f : tree) (p : path) : Prop := p = [] ∨ ∃ n, f !! p = Some n ∧ n = Dir.

Definition dirb (f : tree) (p : path) : bool :=
  match p with
  | [] => true
  | _ => match f !! p with Some Dir => true | _ => false end
  end.

Definition parent (p : path) : path := removelast p.

(** The names directly below a directory. *)
Definition child_of (p : path) (kn : path * node) : option (bytes * bool) :=
  match last kn.1 with
  | Some name =>
      if decide (kn.1 = p ++ [name])
      then Some (name, match kn.2 with Dir => true | File _ => false end) else None
  | None => None
  end.

(** Byte-wise lexicographic order, the order of [os.ReadDir] and
    [sort.Strings]. *)
Fixpoint bytes_leb (s t : bytes) : bool :=
  match s, t with
  | [], _ => true
  | _ :: _, [] => false
  | a :: s', b :: t' => (code a <? code b) || ((code a =? code b) && bytes_leb s' t')
  end.
Definition bytes_le (s t : bytes) : Prop := bytes_leb s t = true.
Definition entry_le (e1 e2 : bytes * bool) : Prop := bytes_le e1.1 e2.1.

#[export] Instance bytes_le_dec : RelDecision bytes_le.
Proof. unfold bytes_le. intros s t. apply _. Defined.
#[export] Instance entry_le_dec : RelDecision entry_le.
Proof. unfold entry_le. intros s t. apply _. Defined.

Definition sort_Strings (l : list bytes) : list bytes := merge_sort bytes_le l.

Definition entries (f : tree) (p : path) : list (bytes * bool) :=
  merge_sort entry_le (omap (child_of p) (map_to_list f)).

Definition under (p : path) (kn : path * node) : Prop := p `prefix_of` kn.1.
#[export] Instance under_dec p kn : Decision (under p kn).
Proof. unfold under. apply _. Defined.

Definition prefixes (p : path) : list path := (λ n, take (S n) p) <$> seq 0 (length p).

Definition mkdirs (f : tree) (p : path) : tree :=
  foldr (λ q g, match g !! q with Some _ => g | None => <[q := Dir]> g end) f (prefixes p).

Definition relocate (old new : path) (f : tree) : tree :=
  list_to_map ((λ kn, (new ++ drop (length old) kn.1, kn.2)) <$> map_to_list (filter (under old) f))
  ∪ filter (λ kn, ¬ under old kn) f.

(** ** System calls *)

Definition next_fault : M fault := λ w,
  match w_faults w with
  | [] => (NoFault, w)
  | x :: xs => (x, World (w_fs w) (w_now w) (w_rand w) xs)
  end.

(** A change of the file tree that yields a value. *)
Definition on_tree {A} (body : tree → A * tree) : M A := λ w,
  let '(r, f) := body (w_fs w) in (r, set_fs f w).

(** A call that a fault makes fail without effect. *)
Definition syscall {A} (body : tree → result A * tree) : M (result A) :=
  x ← next_fault;
  match x with
  | NoFault => on_tree body
  | _ => mret (Err os_ErrIO)
  end.

Definition os_ReadFile (p : path) : M (result content) := syscall (λ f,
  (match f !! p with
   | None => Err os_ErrNotExist
   | Some Dir => Err os_ErrIO
   | Some (File c) => Ok c
   end, f)).

Definition os_Stat (p : path) : M (result unit) := syscall (λ f,
  (if dirb f p then Ok tt else match f !! p with None => Err os_ErrNotExist | Some _ => Ok tt end, f)).

Definition os_ReadDir (p : path) : M (result (list (bytes * bool))) := syscall (λ f,
  (if dirb f p then Ok (entries f p)
   else match f !! p with None => Err os_ErrNotExist | Some _ => Err os_ErrIO end, f)).

Definition os_MkdirAll (p : path) : M (result unit) := syscall (λ f,
  if forallb (λ q, match f !! q with Some (File _) => false | _ => true end) (prefixes p)
  then (Ok tt, mkdirs f p) else (Err os_ErrIO, f)).

(** [os.WriteFile] truncates before it writes, so a failure may leave an
    empty file. *)
Definition os_WriteFile (p : path) (c : content) : M (result unit) :=
  x ← next_fault;
  on_tree (λ f,
    match x with
    | Refused => (Err os_ErrIO, f)
    | _ =>
        if dirb f p then (Err os_ErrIO, f)
        else if dirb f (parent p) then
          match x with
          | Torn => (Err os_ErrIO, <[p := File (Raw [])]> f)
          | _ => (Ok tt, <[p := File c]> f)
          end
        else (Err os_ErrNotExist, f)
    end).

Definition os_Remove (p : path) : M (result unit) := syscall (λ f,
  match f !! p with
  | None => (Err os_ErrNotExist, f)
  | Some (File _) => (Ok tt, delete p f)
  | Some Dir => match entries f p with [] => (Ok tt, delete p f) | _ => (Err os_ErrIO, f) end
  end).

Definition os_RemoveAll (p : path) : M (result unit) := syscall (λ f,
  (Ok tt, filter (λ kn, ¬ under p kn) f)).

(** [os.Rename] refuses an existing directory as the target. *)
Definition os_Rename (old new : path) : M (result unit) := syscall (λ f,
  match f !! old with
  | None => (Err os_ErrNotExist, f)
  | Some _ =>
      if dirb f new then (Err os_ErrExist, f)
      else if decide (old `prefix_of` new) then (Err os_ErrIO, f)
      else match f !! new with
           | Some _ => (Err os_ErrIO, f)
           | None =>
               if dirb f (parent new) then (Ok tt, relocate old new f) else (Err os_ErrNotExist, f)
           end
  end).

(** [os.ReadFile] followed by [json.Unmarshal]. *)
Definition read_json {A} `{Codec A} (p : path) : M (result A) :=
  c ←? os_ReadFile p;
  mret (match c with
        | Json j => match unmarshal j with Some a => Ok a | None => Err ErrUnmarshal end
        | Raw _ => Err ErrUnmarshal
        end).

Definition Now : M Z := gets w_now.

(** [t.Unix()] of an instant in nanoseconds. *)
Definition time_Unix (t : Z) : Z := t / 10 ^ 9.

(** [rand.Read(make([]byte, n))] *)
Definition rand_Read (n : nat) : M (result bytes) := λ w,
  if decide (length (w_rand w) < n)%nat then (Err ErrRand, w)
  else (Ok (take n (w_rand w)), World (w_fs w) (w_now w) (drop n (w_rand w)) (w_faults w)).

(** ** Facts about paths *)

Lemma clean_plain_go acc p : Forall plain p → foldl clean_step acc p = acc ++ p.
Proof.
  intros H. revert acc. induction H as [| c p (H1 & H2 & H3 & H4) _ IH]; intros acc; simpl.
  { by rewrite app_nil_r. }
  rewrite IH. unfold clean_step. rewrite decide_False by naive_solver.
  rewrite decide_False by done. by rewrite <- app_assoc.
Qed.

Lemma clean_plain p : Forall plain p → clean p = p.
Proof. apply clean_plain_go. Qed.

Lemma Join_plain base elems : Forall plain base → Forall plain elems → Join base elems = base ++ elems.
Proof.
  intros Hb He. unfold Join. replace (concat _) with elems.
  { apply clean_plain. by apply Forall_app. }
  induction He as [| e elems (H1 & H2 & H3 & H4) _ IH]; [done |].
  rewrite fmap_cons. simpl. rewrite Split_no_sep by done. simpl. by f_equal.
Qed.

Lemma plain_FormatInt z : plain (FormatInt z).
Proof.
  pose proof (FormatInt_class z) as Hc.
  assert (∀ c, c ∈ FormatInt z → is_digit (code c) = true ∨ c = "-"%char) as Hin.
  { intros c. rewrite Forall_forall in Hc. apply Hc. }
  repeat split.
  - apply FormatInt_nonempty.
  - intros Hz. destruct (Hin "."%char); [rewrite Hz; by left | done | done].
  - intros Hz. destruct (Hin "."%char); [rewrite Hz; by left | done | done].
  - intros Hz. by destruct (Hin _ Hz).
Qed.

(** ** Facts about the tree *)

(** The file at a path, if there is one. *)
Definition file_in (f : tree) (p : path) : option content :=
  match f !! p with Some (File c) => Some c | _ => None end.

(** Every path below the root has a directory above it. *)
Definition tree_wf (f : tree) : Prop :=
  f !! [] = None ∧ ∀ p name n, f !! (p ++ [name]) = Some n → dirb f p = true.

(** Nothing but the fault script changed. *)
Definition quiet (w w' : world) : Prop :=
  w_fs w' = w_fs w ∧ w_now w' = w_now w ∧ w_rand w' = w_rand w.

#[export] Instance quiet_preorder : PreOrder quiet.
Proof. unfold quiet. split; [by intros w | intros w1 w2 w3; naive_solver congruence]. Qed.

(** The next calls meet no failure. *)
Definition healthy (w : world) : Prop := w_faults w = [].

Lemma bytes_leb_total s t : bytes_leb s t = true ∨ bytes_leb t s = true.
Proof.
  revert t. induction s as [| a s IH]; intros [| b t]; simpl; auto.
  destruct (IH t) as [H | H]; rewrite H; lia.
Qed.

Lemma bytes_leb_trans s t u :
  bytes_leb s t = true → bytes_leb t u = true → bytes_leb s u = true.
Proof.
  revert t u. induction s as [| a s IH]; intros [| b t] [| c u]; simpl; try done.
  intros H1 H2. specialize (IH t u).
  destruct (bytes_leb s t), (bytes_leb t u), (bytes_leb s u); lia.
Qed.

Lemma bytes_leb_antisymm s t : bytes_leb s t = true → bytes_leb t s = true → s = t.
Proof.
  revert t. induction s as [| a s IH]; intros [| b t]; simpl; try done.
  intros H1 H2. specialize (IH t).
  f_equal; [apply code_inj | apply IH]; destruct (bytes_leb s t), (bytes_leb t s); lia.
Qed.

#[export] Instance bytes_le_total : Total bytes_le.
Proof. intros s t. apply bytes_leb_total. Qed.
#[export] Instance bytes_le_trans : Transitive bytes_le.
Proof. intros s t u. apply bytes_leb_trans. Qed.
#[export] Instance bytes_le_antisymm : AntiSymm (=) bytes_le.
Proof. intros s t. apply bytes_leb_antisymm. Qed.
#[export] Instance entry_le_total : Total entry_le.
Proof. intros s t. apply bytes_leb_total. Qed.
#[export] Instance entry_le_trans : Transitive entry_le.
Proof. intros s t u. apply bytes_leb_trans. Qed.

Lemma dirb_spec f p : dirb f p = true ↔ p = [] ∨ f !! p = Some Dir.
Proof.
  destruct p as [| c p]; simpl; [naive_solver |].
  destruct (f !! (c :: p)) as [[| ?] |]; naive_solver.
Qed.

Lemma parent_snoc p c : parent (p ++ [c]) = p.
Proof. apply removelast_last. Qed.

Lemma child_of_Some p kn name d :
  child_of p kn = Some (name, d) ↔ kn.1 = p ++ [name] ∧ d = match kn.2 with Dir => true | _ => false end.
Proof.
  unfold child_of. destruct (last kn.1) as [l |] eqn:El.
  - case_decide as Hd.
    + split; [intros [= <- <-]; done |]. intros [Hk ->].
      rewrite Hk in Hd. apply app_inj_tail in Hd as [_ ->]. done.
    + split; [done |]. intros [Hk _]. rewrite Hk, last_snoc in El. naive_solver.
  - split; [done |]. intros [Hk _]. by rewrite Hk, last_snoc in El.
Qed.

Lemma elem_of_entries f p name d :
  (name, d) ∈ entries f p ↔
  ∃ n, f !! (p ++ [name]) = Some n ∧ d = match n with Dir => true | _ => false end.
Proof.
  unfold entries. rewrite merge_sort_Permutation, list_elem_of_omap. split.
  - intros ([k n] & Hin & [Hk ->]%child_of_Some). simpl in *. subst.
    apply elem_of_map_to_list in Hin. eauto.
  - intros (n & Hn & ->). exists (p ++ [name], n).
    split; [by apply elem_of_map_to_list | by apply child_of_Some].
Qed.

Lemma NoDup_omap_child p (l : list (path * node)) :
  NoDup l.*1 → NoDup (omap (child_of p) l).*1.
Proof.
  induction l as [| kn l IH]; simpl; [constructor |].
  intros [Hn Hl]%NoDup_cons. destruct (child_of p kn) as [[name d] |] eqn:E; [| by apply IH].
  simpl. apply NoDup_cons. split; [| by apply IH].
  apply child_of_Some in E as [Ek _]. intros Hin. apply Hn.
  apply list_elem_of_fmap in Hin as ([name' d'] & Hname & Hin). simpl in Hname. subst name'.
  apply list_elem_of_omap in Hin as (kn' & Hin & [Ek' _]%child_of_Some).
  rewrite Ek, <- Ek'. apply list_elem_of_fmap. eauto.
Qed.

Lemma NoDup_entries f p : NoDup (entries f p).*1.
Proof.
  unfold entries. rewrite merge_sort_Permutation.
  apply NoDup_omap_child, NoDup_fst_map_to_list.
Qed.

Lemma Sorted_entries f p : Sorted entry_le (entries f p).
Proof. unfold entries. apply Sorted_merge_sort. apply _. Qed.

Lemma elem_of_prefixes p q : q ∈ prefixes p ↔ q ≠ [] ∧ q `prefix_of` p.
Proof.
  unfold prefixes. rewrite list_elem_of_fmap. split.
  - intros (n & -> & Hn%elem_of_seq). split; [| apply prefix_take].
    destruct p; [simpl in Hn; lia | done].
  - intros [Hq [r ->]]. destruct q as [| c q]; [done |]. exists (length q).
    rewrite elem_of_seq. simpl. rewrite take_app_length. split; [done |].
    rewrite length_app. lia.
Qed.

Lemma mkdirs_lookup f p q :
  mkdirs f p !! q =
  match f !! q with
  | Some n => Some n
  | None => if decide (q ∈ prefixes p) then Some Dir else None
  end.
Proof.
  unfold mkdirs. induction (prefixes p) as [| r rs IH]; simpl.
  { by destruct (f !! q). }
  set (g := foldr _ f rs) in *. destruct (decide (r = q)) as [-> | Hne].
  - rewrite (decide_True (P := q ∈ q :: rs)) by set_solver.
    destruct (g !! q) as [n |] eqn:Eg.
    + rewrite Eg, IH. destruct (f !! q); [done |]. case_decide; [done |]. congruence.
    + rewrite lookup_insert_eq. destruct (f !! q); [congruence | done].
  - transitivity (g !! q).
    { destruct (g !! r); [done |]. by rewrite lookup_insert_ne. }
    rewrite IH. destruct (f !! q); [done |].
    destruct (decide (q ∈ rs)), (decide (q ∈ r :: rs)); set_solver.
Qed.
