(* ===== verification/WorldFacts.v ===== *)
(** * WorldFacts: what each system call can do

    One inversion lemma per call, for every outcome including failures, one
    evaluation lemma per call for a healthy system, and the preservation of
    the tree's well-formedness. *)

From S2P Require Import Prelude GoStrings Strconv World.

(** ** Directories and files *)

Lemma file_in_mkdirs f p q : file_in (mkdirs f p) q = file_in f q.
Proof.
  unfold file_in. rewrite mkdirs_lookup. destruct (f !! q) as [[] |]; [done .. |].
  by case_decide.
Qed.

Lemma file_in_insert f p c q :
  file_in (<[p := File c]> f) q = if decide (p = q) then Some c else file_in f q.
Proof. unfold file_in. rewrite lookup_insert. by case_decide. Qed.

Lemma file_in_Some f p c : file_in f p = Some c ↔ f !! p = Some (File c).
Proof. unfold file_in. destruct (f !! p) as [[] |]; naive_solver. Qed.

Lemma dirb_mkdirs_prefix f p q :
  q `prefix_of` p → (∀ q, q `prefix_of` p → file_in f q = None) → dirb (mkdirs f p) q = true.
Proof.
  intros Hq Hf. rewrite dirb_spec. destruct q as [| c q]; [by left |]. right.
  rewrite mkdirs_lookup. destruct (f !! (c :: q)) as [[| ct] |] eqn:E; [done | |].
  - apply Hf in Hq. apply file_in_Some in E. congruence.
  - by rewrite decide_True by (by apply elem_of_prefixes).
Qed.

Lemma dirb_mkdirs_mono f p q : dirb f q = true → dirb (mkdirs f p) q = true.
Proof. rewrite !dirb_spec, mkdirs_lookup. intros [-> | ->]; auto. Qed.

(** In a well-formed tree every proper prefix of a path is a directory. *)
Lemma tree_wf_prefix f p q n :
  tree_wf f → f !! p = Some n → q `prefix_of` p → q ≠ p → dirb f q = true.
Proof.
  intros [_ Hwf] Hp [r ->]. revert n Hp. induction r as [| x r IH] using rev_ind.
  { by rewrite app_nil_r. }
  intros n Hp _. rewrite app_assoc in Hp. pose proof (Hwf _ _ _ Hp) as Hd.
  destruct (decide (r = [])) as [-> | Hr]; [by rewrite app_nil_r in Hd |].
  apply dirb_spec in Hd as [Hd | Hd]; [destruct q, r; done |].
  apply (IH _ Hd). intros Heq. rewrite <- (app_nil_r q) in Heq at 1.
  apply app_inv_head in Heq. congruence.
Qed.

Lemma tree_wf_insert_file f p c :
  tree_wf f → p ≠ [] → dirb f p = false → dirb f (parent p) = true → tree_wf (<[p := File c]> f).
Proof.
  intros [Hroot Hwf] Hp Hnd Hd. split; [by rewrite lookup_insert_ne |].
  intros q name n Hq.
  assert (dirb f q = true) as Hdq.
  { rewrite lookup_insert in Hq. case_decide as E.
    - subst p. by rewrite parent_snoc in Hd.
    - by eapply Hwf. }
  rewrite dirb_spec in *. destruct Hdq as [-> | Hdq]; [by left |]. right.
  rewrite lookup_insert_ne; [done |]. intros ->. rewrite <- not_true_iff_false, dirb_spec in Hnd.
  naive_solver.
Qed.

Lemma tree_wf_mkdirs f p :
  tree_wf f → (∀ q, q `prefix_of` p → file_in f q = None) → tree_wf (mkdirs f p).
Proof.
  intros [Hroot Hwf] Hf. split.
  { rewrite mkdirs_lookup, Hroot, decide_False; [done |]. rewrite elem_of_prefixes. naive_solver. }
  intros q name n Hq. rewrite mkdirs_lookup in Hq.
  destruct (f !! (q ++ [name])) as [n' |] eqn:E.
  - apply dirb_mkdirs_mono. by eapply Hwf.
  - case_decide as Hin; [| done]. apply elem_of_prefixes in Hin as [_ Hin].
    apply dirb_mkdirs_prefix; [| done]. etrans; [| exact Hin]. by apply prefix_app_r.
Qed.

Lemma tree_wf_removeall f p : p ≠ [] → tree_wf f → tree_wf (filter (λ kn, ¬ under p kn) f).
Proof.
  intros Hp [Hroot Hwf]. split.
  { apply map_lookup_filter_None. by left. }
  intros q name n [Hq Hnu]%map_lookup_filter_Some.
  apply Hwf in Hq. rewrite dirb_spec in *. destruct Hq as [-> | Hq]; [by left |]. right.
  apply map_lookup_filter_Some. split; [done |]. unfold under in *. simpl in *.
  intros Hpq. apply Hnu. by apply prefix_app_r.
Qed.

(** ** Faults *)

Lemma next_fault_inv w x w' : next_fault w = (x, w') → quiet w w'.
Proof.
  unfold next_fault, quiet. destruct (w_faults w); intros [= <- <-]; done.
Qed.

Lemma next_fault_healthy w : healthy w → next_fault w = (NoFault, w).
Proof. unfold healthy, next_fault. by intros ->. Qed.

Lemma set_fs_fs f w : w_fs (set_fs f w) = f.
Proof. done. Qed.
Lemma set_fs_id w : set_fs (w_fs w) w = w.
Proof. by destruct w. Qed.
Lemma set_fs_set_fs f g w : set_fs f (set_fs g w) = set_fs f w.
Proof. done. Qed.
Lemma healthy_set_fs f w : healthy (set_fs f w) ↔ healthy w.
Proof. done. Qed.
#[export] Hint Rewrite set_fs_fs set_fs_set_fs : go_rw.

(** [steps f w w']: the tree became [f], clock and random source did not move. *)
Definition steps (f : tree) (w w' : world) : Prop :=
  w_fs w' = f ∧ w_now w' = w_now w ∧ w_rand w' = w_rand w.

Lemma syscall_inv {A} (body : tree → result A * tree) w r w' :
  syscall body w = (r, w') →
  (r = Err os_ErrIO ∧ quiet w w') ∨
  (∃ f, body (w_fs w) = (r, f) ∧ steps f w w').
Proof.
  unfold syscall, on_tree. intros H. st_inv. apply next_fault_inv in E as (Hf & Hn & Hr).
  destruct a; [| st_inv; left; done ..].
  right. rewrite Hf in H. destruct (body (w_fs w)) as [r' f]. injection H as -> <-.
  exists f. done.
Qed.

Lemma syscall_healthy {A} (body : tree → result A * tree) w r f :
  healthy w → body (w_fs w) = (r, f) → syscall body w = (r, set_fs f w).
Proof.
  intros Hh Hb. unfold syscall. rewrite (st_bind_eq _ _ _ _ _ (next_fault_healthy w Hh)).
  unfold on_tree. by rewrite Hb.
Qed.

(** ** Reading *)

Lemma os_ReadFile_inv p w r w' :
  os_ReadFile p w = (r, w') →
  quiet w w' ∧
  match r with
  | Ok c => file_in (w_fs w) p = Some c
  | Err e => e = os_ErrIO ∨ e = os_ErrNotExist ∧ w_fs w !! p = None
  end.
Proof.
  unfold os_ReadFile. intros [[-> Hq] | (f & Hb & Hs)]%syscall_inv.
  { split; [done | by left]. }
  destruct (w_fs w !! p) as [[| c] |] eqn:E; injection Hb as <- <-;
    (split; [exact Hs |]); auto. by apply file_in_Some.
Qed.

Lemma os_ReadFile_ok p w c :
  healthy w → file_in (w_fs w) p = Some c → os_ReadFile p w = (Ok c, w).
Proof.
  intros Hh Hf%file_in_Some. unfold os_ReadFile.
  erewrite syscall_healthy; [by rewrite set_fs_id | done |]. simpl. by rewrite Hf.
Qed.

Lemma os_ReadFile_missing p w :
  healthy w → w_fs w !! p = None → os_ReadFile p w = (Err os_ErrNotExist, w).
Proof.
  intros Hh Hf. unfold os_ReadFile.
  erewrite syscall_healthy; [by rewrite set_fs_id | done |]. simpl. by rewrite Hf.
Qed.

Lemma os_Stat_inv p w r w' :
  os_Stat p w = (r, w') →
  quiet w w' ∧ match r with Ok _ => p = [] ∨ is_Some (w_fs w !! p) | Err e => e = os_ErrIO ∨ w_fs w !! p = None end.
Proof.
  unfold os_Stat. intros [[-> Hq] | (f & Hb & Hs)]%syscall_inv.
  { split; [done | by left]. }
  destruct (dirb (w_fs w) p) eqn:Ed.
  { injection Hb as <- <-. split; [exact Hs |].
    apply dirb_spec in Ed as [-> | ->]; [by left | right; eauto]. }
  destruct (w_fs w !! p) eqn:E; injection Hb as <- <-; (split; [exact Hs |]); eauto.
Qed.

Lemma os_Stat_healthy p w :
  healthy w → p ≠ [] →
  os_Stat p w = (match w_fs w !! p with Some _ => Ok tt | None => Err os_ErrNotExist end, w).
Proof.
  intros Hh Hp. unfold os_Stat. rewrite <- (set_fs_id w) at 3.
  apply syscall_healthy; [done |]. destruct p as [| c p]; [done |]. simpl.
  by destruct (w_fs w !! (c :: p)) as [[] |].
Qed.

Lemma os_ReadDir_inv p w r w' :
  os_ReadDir p w = (r, w') →
  quiet w w' ∧
  match r with
  | Ok es => es = entries (w_fs w) p ∧ dirb (w_fs w) p = true
  | Err e => e = os_ErrIO ∨ e = os_ErrNotExist ∧ w_fs w !! p = None
  end.
Proof.
  unfold os_ReadDir. intros [[-> Hq] | (f & Hb & Hs)]%syscall_inv.
  { split; [done | by left]. }
  destruct (dirb (w_fs w) p) eqn:Ed; [injection Hb as <- <-; by split |].
  destruct (w_fs w !! p) eqn:E; injection Hb as <- <-; (split; [exact Hs |]); auto.
Qed.

Lemma os_ReadDir_ok p w :
  healthy w → dirb (w_fs w) p = true → os_ReadDir p w = (Ok (entries (w_fs w) p), w).
Proof.
  intros Hh Hd. unfold os_ReadDir.
  erewrite syscall_healthy; [by rewrite set_fs_id | done |]. simpl. by rewrite Hd.
Qed.

Lemma os_ReadDir_missing p w :
  healthy w → p ≠ [] → w_fs w !! p = None → os_ReadDir p w = (Err os_ErrNotExist, w).
Proof.
  intros Hh Hp Hd. unfold os_ReadDir.
  erewrite syscall_healthy; [by rewrite set_fs_id | done |]. simpl.
  destruct p as [| c p]; [done |]. simpl. by rewrite Hd.
Qed.

(** ** Writing *)

Lemma os_WriteFile_inv p c w r w' :
  os_WriteFile p c w = (r, w') →
  w_now w' = w_now w ∧ w_rand w' = w_rand w ∧
  ((r = Ok tt ∧ w_fs w' = <[p := File c]> (w_fs w) ∧
    dirb (w_fs w) p = false ∧ dirb (w_fs w) (parent p) = true) ∨
   (∃ e, r = Err e ∧
      (w_fs w' = w_fs w ∨
       w_fs w' = <[p := File (Raw [])]> (w_fs w) ∧
       dirb (w_fs w) p = false ∧ dirb (w_fs w) (parent p) = true))).
Proof.
  unfold os_WriteFile, on_tree. intros H. st_inv. apply next_fault_inv in E as (Hf & Hn & Hr).
  rewrite Hf in H.
  destruct a; [| injection H as <- <-; simpl; split; [done |]; split; [done |]; right; eauto |];
    destruct (dirb (w_fs w) p) eqn:Ed, (dirb (w_fs w) (parent p)) eqn:Ep;
    injection H as <- <-; simpl; (split; [done |]; split; [done |]); auto; right; eauto 10.
Qed.

Lemma os_WriteFile_ok p c w :
  healthy w → dirb (w_fs w) p = false → dirb (w_fs w) (parent p) = true →
  os_WriteFile p c w = (Ok tt, set_fs (<[p := File c]> (w_fs w)) w).
Proof.
  intros Hh Hd Hp. unfold os_WriteFile.
  rewrite (st_bind_eq _ _ _ _ _ (next_fault_healthy w Hh)).
  unfold on_tree. by rewrite Hd, Hp.
Qed.

Lemma forallb_prefixes f p :
  forallb (λ q, match f !! q with Some (File _) => false | _ => true end) (prefixes p) = true →
  f !! [] = None → ∀ q, q `prefix_of` p → file_in f q = None.
Proof.
  rewrite forallb_forall. intros H Hroot q Hq. unfold file_in.
  destruct (decide (q = [])) as [-> | Hne]; [by rewrite Hroot |].
  specialize (H q). rewrite <- list_elem_of_In, elem_of_prefixes in H.
  by destruct (f !! q) as [[] |]; [| specialize (H (conj Hne Hq)) |].
Qed.

Lemma os_MkdirAll_inv p w r w' :
  os_MkdirAll p w = (r, w') →
  w_now w' = w_now w ∧ w_rand w' = w_rand w ∧
  ((r = Ok tt ∧ w_fs w' = mkdirs (w_fs w) p ∧
    (w_fs w !! [] = None → ∀ q, q `prefix_of` p → file_in (w_fs w) q = None)) ∨
   (r = Err os_ErrIO ∧ w_fs w' = w_fs w)).
Proof.
  unfold os_MkdirAll. intros [[-> (Hf & Hn & Hr)] | (f & Hb & Hs & Hn & Hr)]%syscall_inv; [auto |].
  destruct (forallb _ _) eqn:E; injection Hb as <- <-; (split; [done |]; split; [done |]); [left | by right].
  split; [done |]. split; [done |]. intros Hroot. by apply forallb_prefixes.
Qed.

Lemma os_MkdirAll_ok p w :
  healthy w → (∀ q, q `prefix_of` p → file_in (w_fs w) q = None) →
  os_MkdirAll p w = (Ok tt, set_fs (mkdirs (w_fs w) p) w).
Proof.
  intros Hh Hf. unfold os_MkdirAll. apply syscall_healthy; [done |].
  match goal with |- context [forallb ?g ?l] => replace (forallb g l) with true; [done |] end.
  symmetry. apply forallb_forall. intros q [_ Hq]%list_elem_of_In%elem_of_prefixes.
  apply Hf in Hq. unfold file_in in Hq. by destruct (w_fs w !! q) as [[] |].
Qed.

(** ** Renaming a directory *)

Lemma relocate_lookup (f : tree) old new q :
  (∀ q n, f !! q = Some n → ¬ new `prefix_of` q) →
  relocate old new f !! q =
  if decide (new `prefix_of` q) then f !! (old ++ drop (length new) q)
  else if decide (old `prefix_of` q) then None else f !! q.
Proof.
  intros Hnew. unfold relocate.
  set (l := (λ kn, (new ++ drop (length old) kn.1, kn.2)) <$> map_to_list (filter (under old) f)).
  assert (∀ k n, (k, n) ∈ l ↔ ∃ r, k = new ++ r ∧ f !! (old ++ r) = Some n) as Hl.
  { intros k n. subst l. rewrite list_elem_of_fmap. split.
    - intros ([k' n'] & [= -> ->] & [Hk [r Hr]]%elem_of_map_to_list%map_lookup_filter_Some).
      simpl in *. subst k'. rewrite drop_app_length. by exists r.
    - intros (r & -> & Hr). exists (old ++ r, n). simpl. rewrite drop_app_length. split; [done |].
      apply elem_of_map_to_list, map_lookup_filter_Some. split; [done | by eexists]. }
  assert (NoDup l.*1) as Hnd.
  { subst l. rewrite <- list_fmap_compose. apply NoDup_fmap_2_strong; [| apply NoDup_map_to_list].
    intros [k1 n1] [k2 n2] [H1 [r1 E1]]%elem_of_map_to_list%map_lookup_filter_Some
      [H2 [r2 E2]]%elem_of_map_to_list%map_lookup_filter_Some Heq.
    simpl in *. subst. rewrite !drop_app_length in Heq. apply app_inv_head in Heq. simplify_eq. done. }
  rewrite lookup_union. case_decide as Hq.
  - destruct Hq as [r ->]. rewrite drop_app_length.
    assert (filter (λ kn, ¬ under old kn) f !! (new ++ r) = None) as ->.
    { apply map_lookup_filter_None. left. destruct (f !! (new ++ r)) eqn:E; [| done].
      apply Hnew in E. by destruct E; eexists. }
    rewrite (right_id_L None (∪)). destruct (f !! (old ++ r)) as [n |] eqn:E.
    + apply elem_of_list_to_map; [done |]. apply Hl. eauto.
    + apply not_elem_of_list_to_map. intros ([k n] & Hk & Hin)%list_elem_of_fmap. simpl in Hk. subst k.
      apply Hl in Hin as (r' & Hr & Hf). apply app_inv_head in Hr as <-. congruence.
  - assert ((list_to_map l : tree) !! q = None) as ->.
    { apply not_elem_of_list_to_map. intros ([k n] & Hk & Hin)%list_elem_of_fmap. simpl in Hk. subst k.
      apply Hl in Hin as (r & -> & _). by apply Hq; eexists. }
    rewrite (left_id_L None (∪)). destruct (filter _ f !! q) as [n |] eqn:E.
    + apply map_lookup_filter_Some in E as [E Hn]. unfold under in Hn. simpl in Hn. by rewrite decide_False.
    + case_decide as Hp; [done |]. destruct (f !! q) as [n |] eqn:Ef; [| done].
      apply map_lookup_filter_None in E as [E | E]; [congruence |]. exfalso. by eapply E.
Qed.
