(* ===== verification/Accounts.v ===== *)
(** * Accounts: the user store ([auth/auth.go], [auth/account.go])

    User records live in [<root>/<UID>/user.json].  This file models the
    record and its JSON form, the store's operations on the file tree and the
    register and login handlers; [AccountsFacts] proves them correct. *)

From S2P Require Import Prelude GoStrings Strconv World.

(** ** HTTP responses *)

(** What a handler passes to [c.JSON]: the status code and the [gin.H]. *)
Record response := JSON { status : Z; fields : list (bytes * json) }.

Definition gin_status (code : Z) : bytes * json := (B "status", JNumber code 0).

(** [c.JSON(code, gin.H{"status": code})] and the variant with an [err]. *)
Definition reply (code : Z) : response := JSON code [gin_status code].
Definition reply_err (code err : Z) : response :=
  JSON code [gin_status code; (B "err", JNumber err 0)].

(** ** Libraries the package calls *)

(** [golang.org/x/crypto/bcrypt].  The salt is the random input of
    [GenerateFromPassword], which refuses passwords of more than 72 bytes. *)
Class Bcrypt := {
  GenerateFromPassword : bytes → bytes → option bytes;
  CompareHashAndPassword : bytes → bytes → bool;
  Compare_Generate salt pw h :
    GenerateFromPassword salt pw = Some h → CompareHashAndPassword h pw = true;
  Generate_too_long salt pw : (72 < length pw)%nat → GenerateFromPassword salt pw = None;
}.

(** [net/mail.ParseAddress]: the [Address] field, when the text parses. *)
Class AddressParser := { ParseAddress : bytes → option bytes }.

(** ** Patterns *)

Definition id_char (c : ascii) : bool := is_alnum (code c) || bool_decide (c = "_"%char).
Definition pwd_char (c : ascii) : bool := id_char c || bool_decide (c ∈ B "!@#$%^&*").

(** [idPattern.MatchString], [pwdPattern.MatchString] *)
Definition idPattern (s : bytes) : bool := bool_decide (s ≠ []) && forallb id_char s.
Definition pwdPattern (s : bytes) : bool := bool_decide (s ≠ []) && forallb pwd_char s.

(** ** The user record *)

Record user := User {
  ID : bytes;
  Email : bytes;
  Password : bytes;
  UID : Z;
  Profile : option (gmap bytes json);
  TOTPSecret : bytes;
  TOTPVerified : bool;
  RecoveryCodes : list bytes;
}.

Definition json_map (fs : list (bytes * json)) : gmap bytes json :=
  foldl (λ m kv, <[kv.1 := kv.2]> m) ∅ fs.

Definition json_object (o : option json) : option (option (gmap bytes json)) :=
  match o with
  | None | Some JNull => Some None
  | Some (JObject fs) => Some (Some (json_map fs))
  | _ => None
  end.

Definition marshal_user (u : user) : json :=
  JObject (
    [(B "id", JString (ID u)); (B "email", JString (Email u)); (B "password", JString (Password u));
     (B "UID", JNumber (UID u) 0);
     (B "profile", match Profile u with None => JNull | Some m => JObject (map_to_list m) end)]
    ++ (if decide (TOTPSecret u = []) then [] else [(B "totp_secret", JString (TOTPSecret u))])
    ++ (if TOTPVerified u then [(B "totp_verified", JBool true)] else [])
    ++ (if decide (RecoveryCodes u = []) then []
        else [(B "recovery_codes", JArray (JString <$> RecoveryCodes u))])).

Definition unmarshal_user (j : json) : option user :=
  match j with
  | JNull => Some (User [] [] [] 0 None [] false [])
  | JObject fs =>
      let get k := json_field (B k) fs in
      id ← json_string (get "id"); email ← json_string (get "email");
      password ← json_string (get "password"); uid ← json_int (get "UID");
      profile ← json_object (get "profile"); secret ← json_string (get "totp_secret");
      verified ← json_bool (get "totp_verified"); codes ← json_strings (get "recovery_codes");
      Some (User id email password uid profile secret verified codes)
  | _ => None
  end.

#[export] Instance user_codec : Codec user := {| marshal := marshal_user; unmarshal := unmarshal_user |}.

Definition decode_user (c : content) : option user :=
  match c with Json j => unmarshal_user j | Raw _ => None end.

(** ** The store *)

Record UserStore := NewUserStore { root : path }.

Definition ProfileKeyUsername : bytes := B "username".
Definition ProfileKeyRegister : bytes := B "register".

Record registerRequest := RegisterRequest {
  rr_Username : bytes; rr_ID : bytes; rr_Email : bytes; rr_Password : bytes }.
Record loginRequest := LoginRequest { lr_Query : bytes; lr_Password : bytes }.

Record Account := NewAccount { acc_ID : bytes; acc_UID : Z; acc_Email : bytes }.
Definition Address (a : Account) (domain : bytes) : bytes := acc_ID a ++ B "@" ++ domain.
Definition accountOf (u : user) : Account := NewAccount (ID u) (UID u) (Email u).

Definition userPath (s : UserStore) (uid : Z) : path := Join (root s) [FormatInt uid; B "user.json"].
Definition UserDir (s : UserStore) (uid : Z) : path := Join (root s) [FormatInt uid].

Definition readUser (s : UserStore) (uid : Z) : M (result (option user)) :=
  if uid <? 1 then mret (Ok None)
  else
    r ← os_ReadFile (userPath s uid);
    mret (match r with
          | Err os_ErrNotExist => Ok None
          | Err e => Err e
          | Ok c => match decode_user c with Some u => Ok (Some u) | None => Err ErrUnmarshal end
          end).

Definition writeUser (s : UserStore) (u : user) : M (result unit) :=
  _ ←? os_MkdirAll (parent (userPath s (UID u)));
  os_WriteFile (userPath s (UID u)) (Json (marshal u)).

Fixpoint load_entries (s : UserStore) (es : list (bytes * bool)) : M (result (list user)) :=
  match es with
  | [] => mret (Ok [])
  | (name, isdir) :: es' =>
      if negb isdir then load_entries s es'
      else
        r ← os_ReadFile (Join (root s) [name; B "user.json"]);
        match r with
        | Err os_ErrNotExist => load_entries s es'
        | Err e => mret (Err e)
        | Ok c =>
            match decode_user c with
            | None => mret (Err ErrUnmarshal)
            | Some u => us ←? load_entries s es'; mret (Ok (u :: us))
            end
        end
  end.

Definition loadUsers (s : UserStore) : M (result (list user)) :=
  r ← os_ReadDir (root s);
  match r with
  | Err os_ErrNotExist => mret (Ok [])
  | Err e => mret (Err e)
  | Ok es => load_entries s es
  end.

Section Operations.
Context {U : UnicodeTables} {Bc : Bcrypt} {Ap : AddressParser}.

(** The first record that collides with a registration: 2 for the ID, 3 for
    the e-mail address, 0 for none. *)
Fixpoint conflict (users : list user) (req : registerRequest) : Z :=
  match users with
  | [] => 0
  | existing :: users' =>
      if decide (ID existing = rr_ID req) then 2
      else if EqualFold (Email existing) (rr_Email req) then 3
      else conflict users' req
  end.

Definition next_uid (users : list user) : Z :=
  foldl (λ uid existing, if uid <=? UID existing then int64 (UID existing + 1) else uid) 1 users.

Definition bcrypt_Generate (pw : bytes) : M (result bytes) :=
  salt ←? rand_Read 16;
  mret (match GenerateFromPassword salt pw with Some h => Ok h | None => Err ErrBcrypt end).

(** The record [register] writes. *)
Definition new_user (req : registerRequest) (uid : Z) (hash : bytes) (now : Z) : user :=
  User (rr_ID req) (rr_Email req) hash uid
    (Some (<[ProfileKeyRegister := JNumber (time_Unix now) 0]>
           {[ProfileKeyUsername := JString (rr_Username req)]})) [] false [].

(** [(uid, errCode)] *)
Definition register (s : UserStore) (req : registerRequest) : M (result (Z * Z)) :=
  users ←? loadUsers s;
  let errCode := conflict users req in
  if decide (errCode ≠ 0) then mret (Ok (0, errCode))
  else
    let uid := next_uid users in
    hash ←? bcrypt_Generate (rr_Password req);
    now ← Now;
    _ ←? writeUser s (new_user req uid hash now);
    mret (Ok (uid, 0)).

(** Does [existing] answer to [query] ... *)
Definition matches_query (query : bytes) (existing : user) : bool :=
  bool_decide (ID existing = query) || EqualFold (Email existing) query.
(** ... and to the password? *)
Definition credentials (query password : bytes) (existing : user) : bool :=
  matches_query query existing && CompareHashAndPassword (Password existing) password.

(** [verifyPassword] of [totp.go]: the first user the credentials fit. *)
Definition verifyPassword (s : UserStore) (query password : bytes) : M (option user) :=
  r ← loadUsers s;
  mret (match r with
        | Err _ => None
        | Ok users => List.find (credentials query password) users
        end).

Definition login (s : UserStore) (query password : bytes) : M (option bytes) :=
  r ← loadUsers s;
  mret (match r with
        | Err _ => None
        | Ok users => ID <$> List.find (credentials query password) users
        end).

Definition Authenticate (s : UserStore) (query password : bytes) : M (option Account) :=
  target ← verifyPassword s query password;
  mret (accountOf <$> target).

(** The case-insensitive pass of [FindByID]: the last match and how many. *)
Definition fold_matches (users : list user) (id : bytes) : option Account * Z :=
  foldl (λ acc existing,
    if EqualFold (ID existing) id then (Some (accountOf existing), acc.2 + 1) else acc)
    (None, 0) users.

Definition find_account (users : list user) (id : bytes) : option Account :=
  match List.find (λ existing, bool_decide (ID existing = id)) users with
  | Some existing => Some (accountOf existing)
  | None => let '(folded, matches) := fold_matches users id in
            if matches =? 1 then folded else None
  end.

Definition FindByID (s : UserStore) (id : bytes) : M (option Account) :=
  r ← loadUsers s;
  mret (match r with
        | Err _ => None
        | Ok users => find_account users id
        end).

(** ** Handlers *)

Definition validateRegister (req : registerRequest) : Z :=
  if decide (rr_Username req = []) then 1
  else if ContainsAny (rr_Username req) [chr 13; chr 10] then 1
  else if negb (idPattern (rr_ID req)) then 2
  else if (match ParseAddress (rr_Email req) with
           | None => true
           | Some address =>
               bool_decide (address ≠ rr_Email req) || negb (ContainsByte (rr_Email req) "@"%char)
           end) then 3
  else if negb (pwdPattern (rr_Password req)) then 4
  else 0.

(** [body] is what [c.ShouldBindJSON] decoded, [None] when it failed. *)
Definition RegisterHandler (s : UserStore) (mailDomain : bytes)
    (body : option registerRequest) : M response :=
  match body with
  | None => mret (reply_err 400 0)
  | Some req =>
      let errCode := validateRegister req in
      if decide (errCode ≠ 0) then mret (reply_err 400 errCode)
      else
        r ← register s req;
        mret (match r with
              | Err _ => reply 500
              | Ok (uid, errCode) =>
                  if decide (errCode ≠ 0) then reply_err 400 errCode
                  else if decide (mailDomain = []) then
                    JSON 201 [gin_status 201; (B "UID", JNumber uid 0)]
                  else
                    JSON 201 [gin_status 201; (B "UID", JNumber uid 0);
                              (B "mail", JString (rr_ID req ++ B "@" ++ mailDomain))]
              end)
  end.

End Operations.
