(* ===== verification/AccountsFacts.v ===== *)
(** * AccountsFacts: correctness of the user store

    The store refines a finite map from UID to user record.  [represents]
    relates the file tree to the map, [accounts_ok] is the invariant of the
    map, and each operation of [Accounts] is proved against them. *)

From S2P Require Import Prelude GoStrings Strconv World WorldFacts Accounts.

(** ** JSON round trip *)

Lemma json_map_lookup fs k : json_map fs !! k = json_field k fs.
Proof.
  unfold json_map. induction fs as [| [k' v] fs IH] using rev_ind; [done |].
  rewrite foldl_snoc. simpl. rewrite lookup_insert, IH. clear IH.
  induction fs as [| [k'' v''] fs IH]; simpl; [done |].
  rewrite <- IH. by case_decide.
Qed.

Lemma json_field_None fs k : k ∉ fs.*1 → json_field k fs = None.
Proof.
  induction fs as [| [k' v] fs IH]; simpl; [done |].
  intros [Hk Hn]%not_elem_of_cons. rewrite IH by done. by rewrite decide_False by congruence.
Qed.

Lemma json_field_Some fs k v : NoDup fs.*1 → (k, v) ∈ fs → json_field k fs = Some v.
Proof.
  induction fs as [| [k' v'] fs IH]; simpl; [by intros _ ?%elem_of_nil |].
  intros [Hn Hnd]%NoDup_cons [[= -> ->] | Hin]%elem_of_cons.
  - rewrite json_field_None by done. by rewrite decide_True.
  - by rewrite IH.
Qed.

Lemma json_map_to_list m : json_map (map_to_list m) = m.
Proof.
  apply map_eq. intros k. rewrite json_map_lookup. destruct (m !! k) as [v |] eqn:E.
  - apply json_field_Some; [apply NoDup_fst_map_to_list |]. by apply elem_of_map_to_list.
  - apply json_field_None. intros ([k' v] & -> & Hin)%list_elem_of_fmap.
    apply elem_of_map_to_list in Hin. simpl in *. congruence.
Qed.

Lemma json_strings_roundtrip l : mapM (λ j, json_string (Some j)) (JString <$> l) = Some l.
Proof. apply mapM_Some, Forall2_fmap_l, Forall_Forall2_diag, Forall_true. done. Qed.

#[local] Arguments mapM : simpl never.

Lemma user_roundtrip u : is_int64 (UID u) → unmarshal_user (marshal_user u) = Some u.
Proof.
  intros Hu. destruct u as [id email pw uid prof secret ver codes]. simpl in Hu.
  unfold marshal_user, unmarshal_user, json_strings.
  cbn [ID Email Password UID Profile TOTPSecret TOTPVerified RecoveryCodes].
  destruct prof as [m |], (decide (secret = [])) as [-> |], ver, (decide (codes = [])) as [-> |];
    simpl; rewrite ?decide_True by done; simpl;
    rewrite ?json_map_to_list, ?json_strings_roundtrip; done.
Qed.

Lemma decode_marshal u : is_int64 (UID u) → decode_user (Json (marshal u)) = Some u.
Proof. apply user_roundtrip. Qed.

(** ** The abstraction *)

(** Where the record of the directory [name] is. *)
Definition record_path (s : UserStore) (name : bytes) : path := root s ++ [name; B "user.json"].

Record represents (s : UserStore) (f : tree) (m : gmap Z user) : Prop := {
  rep_root : Forall plain (root s) ∧ root s ≠ [];
  rep_tree : tree_wf f;
  rep_above q : q `prefix_of` root s → file_in f q = None;
  rep_names name n : f !! (root s ++ [name]) = Some n → plain name ∧ n = Dir;
  rep_records name n :
    f !! record_path s name = Some n →
    ∃ uid u c, name = FormatInt uid ∧ m !! uid = Some u ∧ n = File c ∧ decode_user c = Some u;
  rep_users uid u :
    m !! uid = Some u →
    ∃ c, file_in f (record_path s (FormatInt uid)) = Some c ∧ decode_user c = Some u;
}.

(** What registration maintains about the map. *)
Record accounts_ok (m : gmap Z user) : Prop := {
  ok_uid uid u : m !! uid = Some u → UID u = uid ∧ 1 <= uid < 2 ^ 63;
  ok_id uid u : m !! uid = Some u → idPattern (ID u) = true;
  ok_email uid u : m !! uid = Some u → "@"%char ∈ Email u;
  ok_unique_id uid1 uid2 u1 u2 :
    m !! uid1 = Some u1 → m !! uid2 = Some u2 → ID u1 = ID u2 → uid1 = uid2;
}.

Definition emails_unique {U : UnicodeTables} (m : gmap Z user) : Prop :=
  ∀ uid1 uid2 u1 u2, m !! uid1 = Some u1 → m !! uid2 = Some u2 →
    EqualFold (Email u1) (Email u2) = true → uid1 = uid2.

(** A healthy store: the tree represents the accounts [m] and the accounts
    satisfy what registration maintains. *)
Record store_ok {U : UnicodeTables} (s : UserStore) (w : world) (m : gmap Z user) : Prop := {
  sok_rep : represents s (w_fs w) m;
  sok_accounts : accounts_ok m;
  sok_emails : emails_unique m;
}.

(** The users in the order the directory lists them. *)
Definition listing (s : UserStore) (f : tree) : list user :=
  omap (λ e : bytes * bool,
    if e.2 then file_in f (record_path s e.1) ≫= decode_user else None) (entries f (root s)).

(** ** Paths *)

Lemma plain_user_json : plain (B "user.json").
Proof. by vm_compute; repeat split; try done; set_solver. Qed.

Lemma Join_record s name :
  Forall plain (root s) → plain name → Join (root s) [name; B "user.json"] = record_path s name.
Proof.
  intros Hr Hn. apply Join_plain; [done |].
  constructor; [done |]. constructor; [apply plain_user_json | constructor].
Qed.

Lemma userPath_eq s uid : Forall plain (root s) → userPath s uid = record_path s (FormatInt uid).
Proof. intros Hr. apply Join_record; [done | apply plain_FormatInt]. Qed.

Lemma UserDir_eq s uid : Forall plain (root s) → UserDir s uid = root s ++ [FormatInt uid].
Proof.
  intros Hr. apply Join_plain; [done |]. constructor; [apply plain_FormatInt | constructor].
Qed.

Lemma record_path_snoc s name : record_path s name = (root s ++ [name]) ++ [B "user.json"].
Proof. unfold record_path. by rewrite <- app_assoc. Qed.

Lemma record_path_nonempty s name : record_path s name ≠ [].
Proof. rewrite record_path_snoc. intros H. by apply app_nil in H as [_ ?]. Qed.

Lemma parent_record_path s name : parent (record_path s name) = root s ++ [name].
Proof. rewrite record_path_snoc. apply parent_snoc. Qed.

Lemma record_path_inj s n1 n2 : record_path s n1 = record_path s n2 → n1 = n2.
Proof. unfold record_path. intros H%app_inv_head. by injection H. Qed.

(** ** Loading *)

Lemma load_entries_inv s es w r w' :
  Forall plain (root s) → Forall (λ e, plain e.1) es →
  load_entries s es w = (r, w') →
  quiet w w' ∧
  match r with
  | Ok us =>
      us = omap (λ e : bytes * bool,
        if e.2 then file_in (w_fs w) (record_path s e.1) ≫= decode_user else None) es
  | Err e => e = os_ErrIO ∨ e = ErrUnmarshal ∧
      ∃ name c, (name, true) ∈ es ∧ file_in (w_fs w) (record_path s name) = Some c ∧ decode_user c = None
  end.
Proof.
  intros Hroot Hes. revert w r w'.
  induction Hes as [| [name d] es Hp _ IH]; intros w r w' H; simpl in H; [by st_inv |].
  destruct d; simpl in H; cycle 1.
  { apply IH in H as [Hq Hr]. split; [done |]. destruct r; [done |].
    destruct Hr as [? | (? & n & c & Hin & ?)]; [by left | right].
    split; [done |]. exists n, c. set_solver. }
  rewrite Join_record in H by done. simpl.
  apply st_bind_inv in H as (x & w1 & Hread & H). apply os_ReadFile_inv in Hread as [Hq1 Hx].
  destruct x as [c | e].
  - rewrite Hx. simpl. destruct (decode_user c) as [u |] eqn:Hu.
    + apply try_bind_inv in H as [(us & w2 & Hl & H) | (e & Hl & ->)].
      * st_inv. apply IH in Hl as [Hq2 ->]. split; [by etrans |].
        by destruct Hq1 as [-> _].
      * apply IH in Hl as [Hq2 He]. split; [by etrans |]. destruct Hq1 as [Hf _]. rewrite Hf in He.
        destruct He as [? | (? & n & c' & Hin & ?)]; [by left | right].
        split; [done |]. exists n, c'. set_solver.
    + st_inv. split; [done |]. right. split; [done |]. exists name, c. set_solver.
  - destruct Hx as [-> | [-> Hnone]].
    + st_inv. split; [done |]. by left.
    + apply IH in H as [Hq2 Hr]. split; [by etrans |]. destruct Hq1 as [Hf _]. rewrite Hf in Hr.
      destruct r as [us | e].
      * rewrite Hr. unfold file_in at 2. by rewrite Hnone.
      * destruct Hr as [? | (? & n & c' & Hin & ?)]; [by left | right].
        split; [done |]. exists n, c'. set_solver.
Qed.


Lemma entries_not_dir f p : tree_wf f → dirb f p = false → entries f p = [].
Proof.
  intros [_ Hwf] Hd. destruct (entries f p) as [| [name d] es] eqn:E; [done |].
  assert ((name, d) ∈ entries f p) as (n & Hn & _)%elem_of_entries by (rewrite E; by left).
  apply Hwf in Hn. congruence.
Qed.

Lemma represents_plain_entries s f m :
  represents s f m → Forall (λ e, plain e.1) (entries f (root s)).
Proof.
  intros Hrep. apply Forall_forall. intros [name d] (n & Hn & _)%elem_of_entries.
  by eapply rep_names in Hn as [? _].
Qed.

Lemma loadUsers_inv s w m r w' :
  represents s (w_fs w) m → loadUsers s w = (r, w') →
  quiet w w' ∧ match r with Ok us => us = listing s (w_fs w) | Err e => e = os_ErrIO end.
Proof.
  intros Hrep H. unfold loadUsers in H. apply st_bind_inv in H as (x & w1 & Hd & H).
  apply os_ReadDir_inv in Hd as [Hq1 Hx]. pose proof (rep_root _ _ _ Hrep) as [Hroot Hne].
  destruct x as [es | e].
  - destruct Hx as [-> Hd]. apply load_entries_inv in H as [Hq2 Hr]; [| done |].
    2: { by eapply represents_plain_entries. }
    pose proof Hq1 as [Hf _]. rewrite Hf in Hr. split; [by etrans |].
    destruct r as [us | e]; [done |].
    destruct Hr as [? | (-> & name & c & Hin & Hc & Hdec)]; [done |]. exfalso.
    apply file_in_Some in Hc. eapply rep_records in Hc as (uid & u & c' & _ & _ & [= ->] & ?); [| done].
    congruence.
  - destruct Hx as [-> | [-> Hnone]]; st_inv; [done |]. split; [done |].
    unfold listing. rewrite entries_not_dir; [done | apply Hrep |].
    apply not_true_is_false. rewrite dirb_spec. intros [? | ?]; [done | congruence].
Qed.

Lemma load_entries_healthy s es w :
  Forall plain (root s) → healthy w → Forall (λ e, plain e.1) es →
  (∀ name n, (name, true) ∈ es → w_fs w !! record_path s name = Some n →
     ∃ c u, n = File c ∧ decode_user c = Some u) →
  ∃ us, load_entries s es w = (Ok us, w).
Proof.
  intros Hroot Hh Hes. induction Hes as [| [name d] es Hp _ IH]; intros Hok; [by eexists |].
  destruct IH as (us & IH). { intros n' c' Hin. apply Hok. by right. }
  simpl. destruct d; simpl; [| by exists us]. rewrite Join_record by done.
  destruct (w_fs w !! record_path s name) as [n |] eqn:E.
  - destruct (Hok name n) as (c & u & -> & Hu); [by left | done |].
    rewrite (st_bind_eq _ _ _ _ _ (os_ReadFile_ok _ _ c Hh ltac:(by apply file_in_Some))).
    rewrite Hu. rewrite (try_bind_ok _ _ _ _ _ IH). by eexists.
  - rewrite (st_bind_eq _ _ _ _ _ (os_ReadFile_missing _ _ Hh E)). by exists us.
Qed.

Lemma loadUsers_healthy s w m :
  represents s (w_fs w) m → healthy w → loadUsers s w = (Ok (listing s (w_fs w)), w).
Proof.
  intros Hrep Hh. destruct (loadUsers s w) as [r w'] eqn:E.
  assert (w' = w ∧ ∃ us, r = Ok us) as [-> [us ->]].
  2: { by apply (loadUsers_inv _ _ m) in E as [_ ->]. }
  pose proof (rep_root _ _ _ Hrep) as [Hroot Hne]. unfold loadUsers in E.
  destruct (dirb (w_fs w) (root s)) eqn:Hd.
  - rewrite (st_bind_eq _ _ _ _ _ (os_ReadDir_ok _ _ Hh Hd)) in E.
    destruct (load_entries_healthy s (entries (w_fs w) (root s)) w) as (us & Hl); [done | done | ..].
    { by eapply represents_plain_entries. }
    { intros name n _ Hn. eapply rep_records in Hn as (uid & u & c & _ & _ & -> & ?); [| done]. eauto. }
    rewrite Hl in E. injection E as <- <-. eauto.
  - assert (w_fs w !! root s = None) as Hnone.
    { destruct (w_fs w !! root s) as [[| c] |] eqn:Er; [| | done].
      - rewrite <- not_true_iff_false, dirb_spec in Hd. naive_solver.
      - apply file_in_Some in Er. by rewrite (rep_above _ _ _ Hrep) in Er. }
    rewrite (st_bind_eq _ _ _ _ _ (os_ReadDir_missing _ _ Hh Hne Hnone)) in E. st_inv. eauto.
Qed.

Lemma elem_of_listing s f m u :
  represents s f m → u ∈ listing s f ↔ ∃ uid, m !! uid = Some u.
Proof.
  intros Hrep. unfold listing. rewrite list_elem_of_omap. split.
  - intros ([name d] & _ & Hu). simpl in Hu. destruct d; [| done].
    destruct (file_in f (record_path s name)) as [c |] eqn:E; [| done]. simpl in Hu.
    apply file_in_Some in E. eapply rep_records in E as (uid & u' & c' & _ & Hm & [= ->] & ?); [| done].
    exists uid. congruence.
  - intros (uid & Hm). eapply rep_users in Hm as (c & Hc & Hu); [| done].
    exists (FormatInt uid, true). simpl. rewrite Hc. split; [| done].
    apply elem_of_entries. apply file_in_Some in Hc. exists Dir. split; [| done].
    rewrite record_path_snoc in Hc. destruct (rep_tree _ _ _ Hrep) as [_ Hwf].
    apply Hwf, dirb_spec in Hc as [Hc | Hc]; [by destruct (root s) | done].
Qed.

Lemma NoDup_listing s f m : represents s f m → accounts_ok m → NoDup (listing s f).
Proof.
  intros Hrep Hok. apply (NoDup_omap_key fst); [apply NoDup_entries |].
  assert (∀ name d u, (if d : bool then file_in f (record_path s name) ≫= decode_user else None) = Some u →
    name = FormatInt (UID u)) as Hname.
  { intros name d u Hu. destruct d; [| done].
    destruct (file_in f (record_path s name)) as [c |] eqn:E; [| done].
    change (decode_user c = Some u) in Hu.
    apply file_in_Some in E. eapply rep_records in E as (uid & u' & c' & -> & Hm & [= ->] & Hd); [| done].
    rewrite Hu in Hd. injection Hd as <-. by apply (ok_uid _ Hok) in Hm as [<- _]. }
  intros [n1 d1] [n2 d2] u _ _ H1%Hname H2%Hname. by rewrite H1, H2.
Qed.

(** ** Writing one record *)

Lemma root_not_record s name p : p `prefix_of` root s → p ≠ record_path s name.
Proof.
  intros [r Hr] ->. unfold record_path in Hr. apply (f_equal length) in Hr.
  rewrite !length_app in Hr. simpl in Hr. lia.
Qed.

Lemma name_not_record s name name' : root s ++ [name] ≠ record_path s name'.
Proof.
  unfold record_path. intros H%(f_equal length). rewrite !length_app in H. simpl in H. lia.
Qed.

Lemma record_not_prefix s name name' : ¬ record_path s name' `prefix_of` (root s ++ [name]).
Proof.
  intros [r Hr]. unfold record_path in Hr. apply (f_equal length) in Hr.
  rewrite !length_app in Hr. simpl in Hr. lia.
Qed.

(** Making the directory of a record does not disturb the store. *)
Lemma represents_mkdirs s f m uid :
  represents s f m →
  (∀ q, q `prefix_of` (root s ++ [FormatInt uid]) → file_in f q = None) →
  represents s (mkdirs f (root s ++ [FormatInt uid])) m.
Proof.
  intros Hrep Hfree. pose proof (rep_root _ _ _ Hrep) as [Hroot Hne]. constructor.
  - done.
  - apply tree_wf_mkdirs; [apply Hrep | done].
  - intros q Hq. rewrite file_in_mkdirs. by eapply rep_above.
  - intros name n. rewrite mkdirs_lookup. destruct (f !! (root s ++ [name])) eqn:E.
    + intros [= <-]. by eapply rep_names.
    + case_decide as Hin; [| done]. intros [= <-]. split; [| done].
      apply elem_of_prefixes in Hin as [_ [r Hr]]. rewrite <- app_assoc in Hr.
      apply app_inv_head in Hr. destruct r; [| done]. injection Hr as <-. apply plain_FormatInt.
  - intros name n. rewrite mkdirs_lookup. destruct (f !! record_path s name) eqn:E.
    + intros [= <-]. by eapply rep_records.
    + case_decide as Hin; [| done]. apply elem_of_prefixes in Hin as [_ Hin].
      by apply record_not_prefix in Hin.
  - intros uid' u Hm. eapply rep_users in Hm; [| done]. by rewrite file_in_mkdirs.
Qed.

(** Storing a record updates the map. *)
Lemma represents_insert s f m uid u :
  represents s f m → UID u = uid → is_int64 uid →
  dirb f (root s ++ [FormatInt uid]) = true →
  represents s (<[record_path s (FormatInt uid) := File (Json (marshal u))]> f) (<[uid := u]> m).
Proof.
  intros Hrep Hu H64 Hd. pose proof (rep_root _ _ _ Hrep) as [Hroot Hne]. constructor.
  - done.
  - apply tree_wf_insert_file; [apply Hrep | apply record_path_nonempty | | by rewrite parent_record_path].
    apply not_true_is_false. rewrite dirb_spec. intros [Hx | Hx].
    { by apply record_path_nonempty in Hx. }
    by eapply rep_records in Hx as (? & ? & ? & _ & _ & [=] & _).
  - intros q Hq. rewrite file_in_insert, decide_False.
    { by eapply rep_above. } intros Hx. by eapply root_not_record.
  - intros name n. rewrite lookup_insert_ne by (apply not_eq_sym, name_not_record).
    by eapply rep_names.
  - intros name n. rewrite lookup_insert. case_decide as Hp.
    + apply record_path_inj in Hp as <-. intros [= <-].
      exists uid, u, (Json (marshal u)). rewrite lookup_insert_eq, decode_marshal by congruence. done.
    + intros Hn. eapply rep_records in Hn as (uid' & u' & c & -> & Hm & -> & Hdec); [| done].
      exists uid', u', c. rewrite lookup_insert_ne; [done |]. congruence.
  - intros uid' u'. rewrite lookup_insert, file_in_insert. case_decide as Heq.
    + intros [= <-]. subst uid'. rewrite decide_True by done. eexists. split; [done |].
      apply decode_marshal. congruence.
    + intros Hm. rewrite decide_False by (intros H%record_path_inj%FormatInt_inj; done).
      by eapply rep_users.
Qed.

Lemma dirb_root_mkdirs f m s uid :
  represents s f m →
  (∀ q, q `prefix_of` (root s ++ [FormatInt uid]) → file_in f q = None) →
  dirb (mkdirs f (root s ++ [FormatInt uid])) (root s ++ [FormatInt uid]) = true.
Proof. intros Hrep Hfree. by apply dirb_mkdirs_prefix. Qed.

Lemma represents_free s f m uid q :
  represents s f m → q `prefix_of` (root s ++ [FormatInt uid]) → file_in f q = None.
Proof.
  intros Hrep [Hq | ->]%prefix_snoc_cases; [by eapply rep_above |].
  unfold file_in. destruct (f !! _) as [n |] eqn:E; [| done].
  by eapply rep_names in E as [_ ->].
Qed.

Lemma writeUser_inv s w m u r w' :
  represents s (w_fs w) m → is_int64 (UID u) → writeUser s u w = (r, w') →
  w_now w' = w_now w ∧ w_rand w' = w_rand w ∧
  (∀ q, q ≠ record_path s (FormatInt (UID u)) → file_in (w_fs w') q = file_in (w_fs w) q) ∧
  match r with
  | Ok _ => represents s (w_fs w') (<[UID u := u]> m)
  | Err _ => True
  end.
Proof.
  intros Hrep H64 H. unfold writeUser in H. pose proof (rep_root _ _ _ Hrep) as [Hroot _].
  rewrite userPath_eq, parent_record_path in H by done.
  apply try_bind_inv in H as [([] & w1 & Hm & H) | (e & Hm & ->)];
    apply os_MkdirAll_inv in Hm as (Hn1 & Hr1 & [(? & Hf1 & Hfree) | (? & Hf1)]);
    try discriminate; cycle 1.
  { by rewrite Hf1. }
  specialize (Hfree (proj1 (rep_tree _ _ _ Hrep))).
  apply os_WriteFile_inv in H as (Hn2 & Hr2 & Hw).
  rewrite Hn2, Hr2, Hn1, Hr1. do 2 (split; [done |]). rewrite Hf1 in Hw.
  destruct Hw as [(-> & -> & Hd & Hp) | (e & -> & [-> | (-> & _)])].
  - split; [| apply represents_insert; [by apply represents_mkdirs | done | done |
               by apply dirb_mkdirs_prefix]].
    intros q Hq. rewrite file_in_insert, decide_False by congruence. apply file_in_mkdirs.
  - split; [| done]. intros q _. apply file_in_mkdirs.
  - split; [| done]. intros q Hq. rewrite file_in_insert, decide_False by congruence.
    apply file_in_mkdirs.
Qed.

Lemma writeUser_healthy s w m u :
  represents s (w_fs w) m → healthy w →
  ∃ f, writeUser s u w = (Ok tt, set_fs f w).
Proof.
  intros Hrep Hh. unfold writeUser. pose proof (rep_root _ _ _ Hrep) as [Hroot _].
  rewrite userPath_eq, parent_record_path by done.
  assert (∀ q, q `prefix_of` (root s ++ [FormatInt (UID u)]) → file_in (w_fs w) q = None) as Hfree.
  { intros q. by eapply represents_free. }
  rewrite (try_bind_ok _ _ _ _ _ (os_MkdirAll_ok _ _ Hh Hfree)).
  eexists. rewrite os_WriteFile_ok; [by rewrite set_fs_set_fs | done | |].
  - simpl. apply not_true_is_false. rewrite dirb_spec. intros [Hx | Hx].
    { by apply record_path_nonempty in Hx. }
    eapply (rep_records s _ m) in Hx as (? & ? & ? & _ & _ & [=] & _).
    by apply represents_mkdirs.
  - simpl. rewrite parent_record_path. by apply dirb_mkdirs_prefix.
Qed.

(** ** Registration *)

Section Registration.
Context {U : UnicodeTables} {Bc : Bcrypt} {Ap : AddressParser}.

Lemma conflict_spec users req :
  (conflict users req = 0 ∧
     ∀ u, u ∈ users → ID u ≠ rr_ID req ∧ EqualFold (Email u) (rr_Email req) = false) ∨
  (conflict users req = 2 ∧ ∃ u, u ∈ users ∧ ID u = rr_ID req) ∨
  (conflict users req = 3 ∧ ∃ u, u ∈ users ∧ EqualFold (Email u) (rr_Email req) = true).
Proof.
  induction users as [| x users IH]; simpl.
  { left. split; [done |]. by intros u ?%elem_of_nil. }
  case_decide as Hid; [right; left; split; [done |]; exists x; split; [by left | done] |].
  destruct (EqualFold (Email x) _) eqn:He.
  { right; right. split; [done |]. exists x. split; [by left | done]. }
  destruct IH as [[-> IH] | [(-> & u & Hu & ?) | (-> & u & Hu & ?)]].
  - left. split; [done |]. intros u [-> | Hu]%elem_of_cons; auto.
  - right; left. split; [done |]. exists u. split; [by right | done].
  - right; right. split; [done |]. exists u. split; [by right | done].
Qed.

Lemma next_uid_go users acc :
  1 <= acc → Forall (λ u, 1 <= UID u < 2 ^ 63 - 1) users →
  let n := foldl (λ uid u, if uid <=? UID u then int64 (UID u + 1) else uid) acc users in
  acc <= n ∧ Forall (λ u, UID u < n) users ∧ (n = acc ∨ ∃ u, u ∈ users ∧ n = UID u + 1).
Proof.
  intros Hacc Hall. revert acc Hacc. induction Hall as [| x users Hx _ IH]; intros acc Hacc; simpl.
  { split; [lia |]. split; [constructor | by left]. }
  rewrite int64_id by (unfold is_int64; lia).
  destruct (acc <=? UID x) eqn:E.
  - destruct (IH (UID x + 1)) as (H1 & H2 & H3); [lia |]. split; [lia |].
    split; [constructor; [lia | done] |].
    right. destruct H3 as [-> | (u & Hu & ->)]; [exists x | exists u]; set_solver.
  - destruct (IH acc) as (H1 & H2 & H3); [lia |]. split; [lia |].
    split; [constructor; [lia | done] |].
    destruct H3 as [-> | (u & Hu & ->)]; [by left | right; exists u; set_solver].
Qed.

Lemma next_uid_spec users :
  Forall (λ u, 1 <= UID u < 2 ^ 63 - 1) users →
  1 <= next_uid users < 2 ^ 63 ∧ Forall (λ u, UID u < next_uid users) users.
Proof.
  intros H. destruct (next_uid_go users 1) as (H1 & H2 & H3); [lia | done |].
  split; [| done]. split; [done |]. fold (next_uid users) in H3.
  destruct H3 as [-> | (u & Hu & ->)]; [lia |].
  rewrite Forall_forall in H. specialize (H u Hu). lia.
Qed.

Lemma accounts_ok_insert m uid u :
  accounts_ok m → UID u = uid → 1 <= uid < 2 ^ 63 → idPattern (ID u) = true → "@"%char ∈ Email u →
  (∀ uid' u', m !! uid' = Some u' → ID u' ≠ ID u) → accounts_ok (<[uid := u]> m).
Proof.
  intros Hok Hu Hr Hid Hem Hn. constructor.
  - intros uid' u' [[<- <-] | [Hne Hm]]%lookup_insert_Some; [done | by apply Hok].
  - intros uid' u' [[<- <-] | [Hne Hm]]%lookup_insert_Some; [done | by eapply Hok].
  - intros uid' u' [[<- <-] | [Hne Hm]]%lookup_insert_Some; [done | by eapply Hok].
  - intros i j x y [[<- <-] | [Hi Hx]]%lookup_insert_Some [[<- <-] | [Hj Hy]]%lookup_insert_Some Heq;
      [done | by destruct (Hn _ _ Hy) | by destruct (Hn _ _ Hx) |].
    by apply (ok_unique_id _ Hok i j x y).
Qed.

Lemma emails_unique_insert m uid u :
  emails_unique m → (∀ uid' u', m !! uid' = Some u' → EqualFold (Email u') (Email u) = false) →
  emails_unique (<[uid := u]> m).
Proof.
  intros Hun Hn i j x y [[<- <-] | [Hi Hx]]%lookup_insert_Some [[<- <-] | [Hj Hy]]%lookup_insert_Some Heq.
  - done.
  - rewrite EqualFold_sym, (Hn _ _ Hy) in Heq. done.
  - by rewrite (Hn _ _ Hx) in Heq.
  - by eapply Hun.
Qed.

Lemma bcrypt_Generate_inv pw w r w' :
  bcrypt_Generate pw w = (r, w') →
  w_fs w' = w_fs w ∧ w_now w' = w_now w ∧
  match r with Ok h => CompareHashAndPassword h pw = true | Err _ => True end.
Proof.
  unfold bcrypt_Generate, rand_Read. intros H.
  apply try_bind_inv in H as [(salt & w1 & Hr & H) | (e & Hr & ->)]; case_decide; try discriminate;
    injection Hr as <- <-.
  - apply st_ret_inv in H as [-> ->]. split; [done |]. split; [done |].
    destruct (GenerateFromPassword _ _) eqn:E; [by eapply Compare_Generate | done].
  - done.
Qed.

(** Room for one more account. *)
Definition uids_bounded (m : gmap Z user) : Prop := ∀ uid u, m !! uid = Some u → uid < 2 ^ 63 - 1.

Lemma listing_uids s f m :
  represents s f m → accounts_ok m → uids_bounded m →
  Forall (λ u, 1 <= UID u < 2 ^ 63 - 1) (listing s f).
Proof.
  intros Hrep Hok Hb. apply Forall_forall. intros u Hu.
  eapply elem_of_listing in Hu as (uid & Hm); [| done].
  pose proof (ok_uid _ Hok _ _ Hm) as [-> ?]. pose proof (Hb _ _ Hm). lia.
Qed.

(** What a registration that found no collision does. *)
Lemma register_fresh s w m req uid hash now :
  represents s (w_fs w) m → accounts_ok m → emails_unique m → uids_bounded m →
  idPattern (rr_ID req) = true → "@"%char ∈ rr_Email req →
  conflict (listing s (w_fs w)) req = 0 → uid = next_uid (listing s (w_fs w)) →
  let u := new_user req uid hash now in
  is_int64 (UID u) ∧ accounts_ok (<[uid := u]> m) ∧ emails_unique (<[uid := u]> m) ∧
  (∀ uid' u', m !! uid' = Some u' →
     uid' < uid ∧ ID u' ≠ rr_ID req ∧ EqualFold (Email u') (rr_Email req) = false).
Proof.
  intros Hrep Hok Hun Hb Hid Hem Hc ->.
  pose proof (listing_uids _ _ _ Hrep Hok Hb) as Hl.
  destruct (next_uid_spec _ Hl) as [Hr Hlt].
  destruct (conflict_spec (listing s (w_fs w)) req) as [[_ Hn] | [[? _] | [? _]]]; [| lia | lia].
  assert (∀ uid' u', m !! uid' = Some u' →
    uid' < next_uid (listing s (w_fs w)) ∧ ID u' ≠ rr_ID req ∧
    EqualFold (Email u') (rr_Email req) = false) as Hall.
  { intros uid' u' Hm. assert (u' ∈ listing s (w_fs w)) as Hin.
    { eapply elem_of_listing; [done | eauto]. }
    rewrite Forall_forall in Hlt. specialize (Hlt u' Hin).
    apply (ok_uid _ Hok) in Hm as [Hm _]. rewrite Hm in Hlt. split; [done |]. by apply Hn. }
  split; [unfold is_int64; simpl; lia |]. split; [| split; [| done]].
  - apply accounts_ok_insert; [done | done | done | done | done |].
    intros uid' u' Hm. by apply Hall in Hm as (_ & ? & _).
  - apply emails_unique_insert; [done |]. intros uid' u' Hm. by apply Hall in Hm as (_ & _ & ?).
Qed.

Lemma register_inv s w m req r w' :
  represents s (w_fs w) m → accounts_ok m → emails_unique m → uids_bounded m →
  idPattern (rr_ID req) = true → "@"%char ∈ rr_Email req →
  register s req w = (r, w') →
  w_now w' = w_now w ∧
  match r with
  | Ok (uid, code) =>
      (code = 0 ∧ ∃ hash,
         let u := new_user req uid hash (w_now w) in
         CompareHashAndPassword hash (rr_Password req) = true ∧
         represents s (w_fs w') (<[uid := u]> m) ∧
         accounts_ok (<[uid := u]> m) ∧ emails_unique (<[uid := u]> m) ∧
         (∀ uid' u', m !! uid' = Some u' →
            uid' < uid ∧ ID u' ≠ rr_ID req ∧ EqualFold (Email u') (rr_Email req) = false)) ∨
      (uid = 0 ∧ w_fs w' = w_fs w ∧
       ((code = 2 ∧ ∃ uid' u', m !! uid' = Some u' ∧ ID u' = rr_ID req) ∨
        (code = 3 ∧ ∃ uid' u', m !! uid' = Some u' ∧ EqualFold (Email u') (rr_Email req) = true)))
  | Err _ =>
      ∀ uid' u', m !! uid' = Some u' →
        file_in (w_fs w') (record_path s (FormatInt uid')) =
        file_in (w_fs w) (record_path s (FormatInt uid'))
  end.
Proof.
  intros Hrep Hok Hun Hb Hid Hem H. unfold register in H.
  apply try_bind_inv in H as [(us & w1 & Hl & H) | (e & Hl & ->)];
    eapply loadUsers_inv in Hl as [(Hf1 & Hn1 & _) Hus]; [| done | | done]; cycle 1.
  { rewrite Hn1, Hf1. done. }
  subst us. destruct (conflict_spec (listing s (w_fs w)) req) as [[Hc _] | Hcol].
  - rewrite Hc in H. rewrite decide_False in H by lia. set (uid := next_uid _) in H.
    apply try_bind_inv in H as [(hash & w2 & Hg & H) | (e & Hg & ->)];
      apply bcrypt_Generate_inv in Hg as (Hf2 & Hn2 & Hh); rewrite Hf1 in Hf2; rewrite Hn1 in Hn2.
    2: { rewrite Hn2, Hf2. done. }
    rewrite (st_bind_eq Now _ w2 (w_now w2) w2 eq_refl), Hn2 in H.
    pose proof (register_fresh s w m req uid hash (w_now w) Hrep Hok Hun Hb Hid Hem Hc eq_refl)
      as (H64 & Hok' & Hun' & Hall). cbn zeta in *.
    rewrite <- Hf2 in Hrep.
    apply try_bind_inv in H as [([] & w3 & Hw & H) | (e & Hw & ->)];
      eapply writeUser_inv in Hw as (Hn3 & _ & Hfr & Hrep'); [| done | done | | done | done].
    + st_inv. split; [congruence |]. left. split; [done |]. exists hash. done.
    + split; [congruence |]. intros uid' u' Hm. rewrite Hfr, Hf2; [done |].
      intros [=]%record_path_inj%FormatInt_inj. apply Hall in Hm. simpl in *. lia.
  - rewrite decide_True in H by (destruct Hcol as [[-> _] | [-> _]]; done). st_inv.
    split; [congruence |]. right. split; [done |]. split; [done |].
    destruct Hcol as [(-> & u & Hu & ?) | (-> & u & Hu & ?)]; [left | right]; (split; [done |]);
      eapply elem_of_listing in Hu as (uid' & ?); eauto.
Qed.

Lemma register_healthy s w m req :
  represents s (w_fs w) m → accounts_ok m → emails_unique m → uids_bounded m →
  idPattern (rr_ID req) = true → "@"%char ∈ rr_Email req →
  healthy w → (16 <= length (w_rand w))%nat →
  (∀ salt, is_Some (GenerateFromPassword salt (rr_Password req))) →
  ∃ uid code w', register s req w = (Ok (uid, code), w') ∧ healthy w'.
Proof.
  intros Hrep Hok Hun Hb Hid Hem Hh Hrand Hgen. unfold register.
  rewrite (try_bind_ok _ _ _ _ _ (loadUsers_healthy _ _ _ Hrep Hh)).
  case_decide as Hc; [eauto |].
  unfold bcrypt_Generate, try_bind at 2, rand_Read.
  destruct (Hgen (take 16 (w_rand w))) as [hash Hhash].
  unfold try_bind at 1. unfold mbind, st_bind.
  rewrite decide_False by lia. unfold mret, st_ret. rewrite Hhash. unfold Now, gets.
  set (w2 := World _ _ _ _). assert (healthy w2) as Hh2 by exact Hh.
  destruct (writeUser_healthy s w2 m (new_user req (next_uid (listing s (w_fs w))) hash (w_now w2)))
    as [f Hw]; [exact Hrep | done |].
  unfold try_bind, mbind, st_bind. rewrite Hw. unfold mret, st_ret. eauto.
Qed.

(** *** When registration fails *)

(** No file got contents: at most one was left empty by a write cut short. *)
Definition nothing_written (f f' : tree) : Prop :=
  ∀ q, file_in f' q = file_in f q ∨ file_in f' q = Some (Raw []).

Lemma bcrypt_Generate_cases pw w r w' :
  bcrypt_Generate pw w = (r, w') →
  (healthy w → healthy w') ∧
  match r with
  | Ok _ => True
  | Err _ => (length (w_rand w) < 16)%nat ∨ ∃ salt, GenerateFromPassword salt pw = None
  end.
Proof.
  unfold bcrypt_Generate, rand_Read. intros [(salt & w1 & Hr & H) | (e & Hr & ->)]%try_bind_inv; case_decide; try discriminate;
    injection Hr as <- <-.
  - apply st_ret_inv in H as [-> ->]. split; [done |]. destruct (GenerateFromPassword _ _) eqn:E; [done | right; by eexists].
  - split; [done | by left].
Qed.

Lemma writeUser_failed s u w e w' : writeUser s u w = (Err e, w') → nothing_written (w_fs w) (w_fs w').
Proof.
  unfold writeUser. intros [([] & w1 & Hm & H) | (e' & Hm & _)]%try_bind_inv q;
    apply os_MkdirAll_inv in Hm as (_ & _ & [(? & Hf & _) | (? & Hf)]); try discriminate; [| left; by rewrite Hf].
  apply os_WriteFile_inv in H as (_ & _ & [(? & _) | (x & _ & [-> | (-> & _)])]); [done | |]; rewrite Hf.
  - left. apply file_in_mkdirs.
  - rewrite file_in_insert. case_decide; [by right | left; apply file_in_mkdirs].
Qed.

(** Why [register] reports an error. *)
Lemma register_failed s w m req e w' :
  represents s (w_fs w) m → register s req w = (Err e, w') →
  (¬ healthy w ∧ w_fs w' = w_fs w) ∨
  ((∀ uid u, m !! uid = Some u → ID u ≠ rr_ID req ∧ EqualFold (Email u) (rr_Email req) = false) ∧
   ((((length (w_rand w) < 16)%nat ∨ ∃ salt, GenerateFromPassword salt (rr_Password req) = None) ∧ w_fs w' = w_fs w) ∨
    (¬ healthy w ∧ nothing_written (w_fs w) (w_fs w')))).
Proof.
  intros Hrep H. unfold register in H. apply try_bind_inv in H as [(us & w1 & Hl & H) | (x & Hl & _)]; cycle 1.
  { left. split; [intros Hh; by rewrite (loadUsers_healthy _ _ _ Hrep Hh) in Hl |].
    eapply loadUsers_inv in Hl as [(Hf & _) _]; done. }
  assert (healthy w → healthy w1) as Hh1.
  { intros Hh. rewrite (loadUsers_healthy _ _ _ Hrep Hh) in Hl. by injection Hl as _ <-. }
  eapply loadUsers_inv in Hl as [(Hf1 & _ & Hr1) ->]; [| done]. right.
  destruct (conflict_spec (listing s (w_fs w)) req) as [[Hc Hall] | Hcol].
  2: { rewrite decide_True in H by (destruct Hcol as [[-> _] | [-> _]]; done). done. }
  rewrite Hc in H. rewrite decide_False in H by lia. split; [intros uid u Hm; apply Hall; eapply elem_of_listing; eauto |].
  apply try_bind_inv in H as [(hash & w2 & Hg & H) | (x & Hg & _)];
    pose proof Hg as [Hh2 Hx]%bcrypt_Generate_cases; apply bcrypt_Generate_inv in Hg as (Hf2 & _).
  2: { rewrite Hr1 in Hx. left. split; [done | congruence]. }
  right. rewrite (st_bind_eq Now _ w2 _ _ eq_refl) in H. apply try_bind_inv in H as [([] & w3 & _ & H) | (x & Hw & _)]; [done |].
  split.
  - intros Hh. rewrite <- Hf1, <- Hf2 in Hrep. destruct (writeUser_healthy s w2 m (new_user req (next_uid (listing s (w_fs w))) hash (w_now w2)) Hrep)
      as [f Hok]; [by apply Hh2, Hh1 |]. rewrite Hok in Hw. done.
  - apply writeUser_failed in Hw. by rewrite Hf2, Hf1 in Hw.
Qed.

End Registration.

(** ** Logging in *)

Section Login.
Context {U : UnicodeTables} {Bc : Bcrypt}.

Lemma idPattern_no_at id : idPattern id = true → "@"%char ∉ id.
Proof.
  unfold idPattern. intros [_ H]%andb_true_iff Hin. rewrite forallb_forall in H.
  apply list_elem_of_In, H in Hin. by vm_compute in Hin.
Qed.

(** An ID never looks like an e-mail address, so a query selects one user. *)
Lemma matches_query_unique m uid1 uid2 u1 u2 q :
  accounts_ok m → emails_unique m →
  m !! uid1 = Some u1 → m !! uid2 = Some u2 →
  matches_query q u1 = true → matches_query q u2 = true → uid1 = uid2.
Proof.
  intros Hok Hun H1 H2. unfold matches_query. rewrite !orb_true_iff, !bool_decide_eq_true.
  assert (∀ uid u uid' u', m !! uid = Some u → m !! uid' = Some u' →
    ID u = q → EqualFold (Email u') q = true → False) as Hmix.
  { intros uid u uid' u' Hu Hu' Hid He. apply (ok_email _ Hok) in Hu'.
    apply (EqualFold_at _ _ He) in Hu'. subst q.
    apply (ok_id _ Hok), idPattern_no_at in Hu. done. }
  intros [Hq1 | Hq1] [Hq2 | Hq2].
  - eapply ok_unique_id; [done | done | done | congruence].
  - by destruct (Hmix uid1 u1 uid2 u2).
  - by destruct (Hmix uid2 u2 uid1 u1).
  - eapply Hun; [done | done |]. eapply EqualFold_trans; [exact Hq1 |]. by rewrite EqualFold_sym.
Qed.

Lemma find_credentials s f m q p u :
  represents s f m → accounts_ok m → emails_unique m →
  List.find (credentials q p) (listing s f) = Some u ↔
  (∃ uid, m !! uid = Some u) ∧ credentials q p u = true.
Proof.
  intros Hrep Hok Hun. split.
  - intros [Hin Hc]%find_Some. split; [| done]. by eapply elem_of_listing in Hin.
  - intros [[uid Hm] Hc]. apply find_unique; [eapply elem_of_listing; eauto | done |].
    intros v Hin Hv. eapply elem_of_listing in Hin as [uid' Hm']; [| done].
    unfold credentials in Hc, Hv. apply andb_true_iff in Hc as [Hc _], Hv as [Hv _].
    assert (uid' = uid) as -> by (by eapply matches_query_unique). congruence.
Qed.

Lemma verifyPassword_healthy s w m q p :
  represents s (w_fs w) m → healthy w →
  verifyPassword s q p w = (List.find (credentials q p) (listing s (w_fs w)), w).
Proof.
  intros Hrep Hh. unfold verifyPassword.
  by rewrite (st_bind_eq _ _ _ _ _ (loadUsers_healthy _ _ _ Hrep Hh)).
Qed.

(** Whatever fails, a login that succeeds found a user the credentials fit,
    and nothing was written. *)
Lemma verifyPassword_inv s w m q p r w' :
  represents s (w_fs w) m → verifyPassword s q p w = (r, w') →
  quiet w w' ∧ ∀ u, r = Some u → (∃ uid, m !! uid = Some u) ∧ credentials q p u = true.
Proof.
  intros Hrep H. unfold verifyPassword in H. apply st_bind_inv in H as (x & w1 & Hl & H).
  st_inv. eapply loadUsers_inv in Hl as [Hq Hx]; [| done]. split; [done |].
  intros u Hu. destruct x as [us | e]; [| done]. subst us.
  apply find_Some in Hu as [Hin Hc]. split; [by eapply elem_of_listing in Hin | done].
Qed.

Lemma login_verifyPassword s q p w :
  login s q p w = (let '(r, w') := verifyPassword s q p w in (ID <$> r, w')).
Proof.
  unfold login, verifyPassword, mbind, st_bind, mret, st_ret.
  by destruct (loadUsers s w) as [[us | e] w'].
Qed.

(** ** Resolving a recipient *)

Lemma fold_matches_spec users id :
  let fs := filter (λ u, EqualFold (ID u) id = true) users in
  fold_matches users id = (accountOf <$> last fs, Z.of_nat (length fs)).
Proof.
  induction users as [| u users IH] using rev_ind; [done |].
  unfold fold_matches in *. rewrite foldl_snoc. cbn zeta in *. rewrite IH, filter_app.
  rewrite filter_cons, filter_nil. case_decide as Hd.
  - rewrite Hd, last_snoc, length_app. simpl. f_equal. lia.
  - rewrite app_nil_r. by destruct (EqualFold (ID u) id).
Qed.

Lemma find_account_spec users id a :
  NoDup users → (∀ u v, u ∈ users → v ∈ users → ID u = ID v → u = v) →
  find_account users id = Some a ↔
  (∃ u, u ∈ users ∧ ID u = id ∧ a = accountOf u) ∨
  ((∀ u, u ∈ users → ID u ≠ id) ∧
   ∃ u, u ∈ users ∧ EqualFold (ID u) id = true ∧ a = accountOf u ∧
     ∀ v, v ∈ users → EqualFold (ID v) id = true → v = u).
Proof.
  intros Hnd Hinj. unfold find_account. destruct (List.find _ users) as [u |] eqn:E.
  - apply find_Some in E as [Hu Hid%bool_decide_eq_true]. split.
    + intros [= <-]. left. eauto.
    + intros [(v & Hv & Hidv & ->) | [Hno _]].
      * do 2 f_equal. apply Hinj; congruence.
      * by apply Hno in Hu.
  - rewrite find_None in E.
    assert (∀ u, u ∈ users → ID u ≠ id) as Hno.
    { intros u Hu. apply E in Hu. by apply bool_decide_eq_false in Hu. }
    rewrite fold_matches_spec. cbn zeta iota. set (fs := filter _ users).
    assert (∀ u, u ∈ fs ↔ u ∈ users ∧ EqualFold (ID u) id = true) as Hfs.
    { intros u. unfold fs. rewrite list_elem_of_filter. tauto. }
    assert (NoDup fs) as Hndf by (by apply NoDup_filter). clearbody fs.
    destruct (Z.of_nat (length fs) =? 1) eqn:Hl.
    + destruct fs as [| u [| v fs']]; [done | | apply Z.eqb_eq in Hl; cbn [length] in Hl; lia].
      assert (u ∈ [u]) as Hu%Hfs by (by left). simpl. split.
      * intros [= <-]. right. split; [done |]. exists u. destruct Hu. repeat (split; [done |]).
        intros v Hv Hfv. assert (v ∈ [u]) as Hin by (by apply Hfs). by apply list_elem_of_singleton in Hin.
      * intros [(v & Hv & Hid & _) | (_ & v & Hv & Hfv & -> & _)]; [by apply Hno in Hv |].
        assert (v ∈ [u]) as ->%list_elem_of_singleton by (by apply Hfs). done.
    + split; [done |]. intros [(v & Hv & Hid & _) | (_ & u & Hu & Hfu & -> & Huniq)].
      { by apply Hno in Hv. }
      exfalso. destruct fs as [| x [| y fs']].
      * assert (u ∈ ([] : list user)) as ?%elem_of_nil by (by apply Hfs). done.
      * done.
      * apply NoDup_cons in Hndf as [Hxy _]. apply Hxy.
        assert (x = u) as -> by (apply Huniq; apply Hfs; by left).
        assert (y = u) as -> by (apply Huniq; apply Hfs; right; by left). by left.
Qed.

End Login.

(** ** Reading one record *)

Lemma readUser_inv s w m uid r w' :
  represents s (w_fs w) m → accounts_ok m → readUser s uid w = (r, w') →
  quiet w w' ∧ match r with Ok o => o = m !! uid | Err e => e = os_ErrIO end.
Proof.
  intros Hrep Hok H. unfold readUser in H. destruct (uid <? 1) eqn:Hu.
  { st_inv. split; [done |]. destruct (m !! uid) eqn:E; [| done].
    apply (ok_uid _ Hok) in E. lia. }
  rewrite userPath_eq in H by apply Hrep.
  apply st_bind_inv in H as (x & w1 & Hx & H). apply os_ReadFile_inv in Hx as [Hq Hx]. st_inv.
  split; [done |]. destruct x as [c | e].
  - apply file_in_Some in Hx. eapply rep_records in Hx as (uid' & u & c' & Heq & Hm & [= ->] & Hd); [| done].
    apply FormatInt_inj in Heq as <-. by rewrite Hd.
  - destruct Hx as [-> | [-> Hnone]]; [done |].
    destruct (m !! uid) as [u |] eqn:E; [| done]. eapply rep_users in E as (c & Hc & _); [| done].
    apply file_in_Some in Hc. congruence.
Qed.

Lemma readUser_healthy s w m uid :
  represents s (w_fs w) m → accounts_ok m → healthy w → readUser s uid w = (Ok (m !! uid), w).
Proof.
  intros Hrep Hok Hh. unfold readUser. destruct (uid <? 1) eqn:Hu.
  { destruct (m !! uid) eqn:E; [| done]. apply (ok_uid _ Hok) in E. lia. }
  rewrite userPath_eq by apply Hrep. destruct (m !! uid) as [u |] eqn:E.
  - eapply rep_users in E as (c & Hc & Hd); [| done].
    rewrite (st_bind_eq _ _ _ _ _ (os_ReadFile_ok _ _ c Hh Hc)). by rewrite Hd.
  - destruct (w_fs w !! record_path s (FormatInt uid)) as [n |] eqn:En.
    + eapply rep_records in En as (uid' & u & c & Heq & Hm & _); [| done].
      apply FormatInt_inj in Heq as <-. congruence.
    + by rewrite (st_bind_eq _ _ _ _ _ (os_ReadFile_missing _ _ Hh En)).
Qed.

(** ** Replacing a record *)

(** The owner, the UID and the address of a record. *)
Definition same_account (u u' : user) : Prop := UID u' = UID u ∧ ID u' = ID u ∧ Email u' = Email u.

(** The records of all accounts but [uid] are as they were. *)
Definition others_untouched (s : UserStore) (uid : Z) (f f' : tree) : Prop :=
  ∀ uid', uid' ≠ uid →
    file_in f' (record_path s (FormatInt uid')) = file_in f (record_path s (FormatInt uid')).

Lemma accounts_ok_replace m uid u u' :
  accounts_ok m → m !! uid = Some u → same_account u u' → accounts_ok (<[uid := u']> m).
Proof.
  intros Hok Hm (Hu & Hid & Hem). destruct (ok_uid _ Hok _ _ Hm) as [HU Hr]. constructor.
  - intros i x [[<- <-] | [_ Hx]]%lookup_insert_Some; [split; congruence | by apply Hok].
  - intros i x [[<- <-] | [_ Hx]]%lookup_insert_Some; [rewrite Hid |]; by eapply Hok.
  - intros i x [[<- <-] | [_ Hx]]%lookup_insert_Some; [rewrite Hem |]; by eapply Hok.
  - intros i j x y [[<- <-] | [Hi Hx]]%lookup_insert_Some [[<- <-] | [Hj Hy]]%lookup_insert_Some Heq;
      [done | | |]; eapply (ok_unique_id _ Hok); try done; congruence.
Qed.

Lemma emails_unique_replace {U : UnicodeTables} m uid u u' :
  emails_unique m → m !! uid = Some u → same_account u u' → emails_unique (<[uid := u']> m).
Proof.
  intros Hun Hm (_ & _ & Hem).
  intros i j x y [[<- <-] | [Hi Hx]]%lookup_insert_Some [[<- <-] | [Hj Hy]]%lookup_insert_Some Heq;
    [done | | |]; eapply Hun; try done; congruence.
Qed.

Lemma store_update {U : UnicodeTables} s w m uid u u' r w' :
  store_ok s w m → m !! uid = Some u → same_account u u' → writeUser s u' w = (r, w') →
  w_now w' = w_now w ∧ w_rand w' = w_rand w ∧ others_untouched s uid (w_fs w) (w_fs w') ∧
  match r with
  | Ok _ => store_ok s w' (<[uid := u']> m)
  | Err _ => True
  end.
Proof.
  intros [Hrep Hok Hun] Hm Hsame H. destruct (ok_uid _ Hok _ _ Hm) as [HU Hr].
  assert (UID u' = uid) as HU' by (destruct Hsame; congruence).
  eapply writeUser_inv in H as (Hn & Hrd & Hfr & Hrep'); [| done | unfold is_int64; lia].
  rewrite HU' in *. do 2 (split; [done |]). split.
  - intros uid' Hne. apply Hfr. by intros ?%record_path_inj%FormatInt_inj.
  - destruct r; [| done]. split; [done | by eapply accounts_ok_replace | by eapply emails_unique_replace].
Qed.

Lemma store_update_healthy {U : UnicodeTables} s w m uid u u' :
  store_ok s w m → m !! uid = Some u → same_account u u' → healthy w →
  ∃ f, writeUser s u' w = (Ok tt, set_fs f w) ∧ store_ok s (set_fs f w) (<[uid := u']> m).
Proof.
  intros Hst Hm Hsame Hh. destruct (writeUser_healthy s w m u' (sok_rep _ _ _ Hst) Hh) as [f Hw].
  exists f. split; [done |]. by eapply store_update in Hw as (_ & _ & _ & ?).
Qed.

Lemma others_untouched_refl s uid f : others_untouched s uid f f.
Proof. done. Qed.
#[export] Hint Resolve others_untouched_refl : go.

Lemma store_quiet {U : UnicodeTables} s w w' m : store_ok s w m → quiet w w' → store_ok s w' m.
Proof. intros [Hrep Hok Hun] [Hf _]. split; [by rewrite Hf | done | done]. Qed.

(** Only operating system errors come out of a write. *)
Lemma os_WriteFile_error p c w e w' : os_WriteFile p c w = (Err e, w') → e = os_ErrIO ∨ e = os_ErrNotExist.
Proof.
  unfold os_WriteFile, on_tree. intros H. st_inv. revert H.
  repeat case_match; intros [=]; subst; simplify_eq; auto.
Qed.

Lemma writeUser_error s u w e w' : writeUser s u w = (Err e, w') → e = os_ErrIO ∨ e = os_ErrNotExist.
Proof.
  unfold writeUser. intros [([] & w1 & _ & H) | (e' & H & Heq)]%try_bind_inv.
  - by apply os_WriteFile_error in H.
  - injection Heq as ->. apply os_MkdirAll_inv in H as (_ & _ & [(? & _) | ([= ->] & _)]); [done | auto].
Qed.
