(* ===== verification/Token.v ===== *)
(** * Token: stateless login tokens ([auth/token.go]) and the login handler

    A token is [aat_<id>_<issued at>_<hex HMAC-SHA256>].  [IssueAt] and
    [VerifyAt] take the Unix time as an argument; [Issue] and [Verify] read
    the clock. *)

From S2P Require Import Prelude GoStrings Strconv Crypto World Accounts.

Definition tokenPrefix : bytes := B "aat".

Record TokenIssuer := NewTokenIssuer { secret : bytes; validSecs : Z }.

Definition sign (t : TokenIssuer) (payload : bytes) : bytes :=
  EncodeToString (hmac_sha256 (secret t) payload).

(** [cutLast]: around the last instance of [sep]. *)
Definition cutLast (s sep : bytes) : option (bytes * bytes) :=
  match LastIndex s sep with
  | None => None
  | Some index => Some (take index s, drop (index + length sep) s)
  end.

Definition payload_of (id : bytes) (issuedAt : bytes) : bytes :=
  tokenPrefix ++ B "_" ++ id ++ B "_" ++ issuedAt.

Definition IssueAt (t : TokenIssuer) (now : Z) (id : bytes) : bytes :=
  let payload := payload_of id (FormatInt now) in
  payload ++ B "_" ++ sign t payload.

Definition Issue (t : TokenIssuer) (id : bytes) : M bytes :=
  now ← Now; mret (IssueAt t (time_Unix now) id).

Definition VerifyAt (t : TokenIssuer) (now : Z) (token : bytes) : option bytes :=
  '(payload, signature) ← cutLast token (B "_");
  '(rest, issuedAtRaw) ← cutLast payload (B "_");
  id ← CutPrefix rest (tokenPrefix ++ B "_");
  if negb (idPattern id) then None
  else
    issuedAt ← ParseInt issuedAtRaw;
    if bool_decide (signature ≠ sign t payload) then None
    else
      let age := int64 (now - issuedAt) in
      if (age <? 0) || (validSecs t <=? age) then None else Some id.

Definition Verify (t : TokenIssuer) (token : bytes) : M (option bytes) :=
  now ← Now; mret (VerifyAt t (time_Unix now) token).

(** [LoginHandler] of [auth.go]. *)
Definition LoginHandler {U : UnicodeTables} {Bc : Bcrypt} (s : UserStore) (issuer : TokenIssuer)
    (body : option loginRequest) : M response :=
  match body with
  | None => mret (reply 400)
  | Some req =>
      if decide (lr_Query req = [] ∨ lr_Password req = []) then mret (reply 400)
      else
        r ← login s (lr_Query req) (lr_Password req);
        match r with
        | None => mret (reply 400)
        | Some id =>
            token ← Issue issuer id;
            mret (JSON 200 [gin_status 200; (B "token", JString token)])
        end
  end.

(** ** Facts *)

#[global] Arguments sign : simpl never.

Lemma sign_no_underscore t p : "_"%char ∉ sign t p.
Proof.
  intros Hin. pose proof (EncodeToString_class (hmac_sha256 (secret t) p)) as H.
  rewrite Forall_forall in H. specialize (H _ Hin). by vm_compute in H.
Qed.

Lemma FormatInt_no_underscore z : "_"%char ∉ FormatInt z.
Proof. by apply FormatInt_notin. Qed.

Lemma cutLast_app s r c : c ∉ r → cutLast (s ++ c :: r) [c] = Some (s, r).
Proof.
  intros Hc. unfold cutLast. rewrite LastIndex_app by done. f_equal.
  rewrite take_app_length. f_equal. rewrite drop_app_ge by lia.
  by replace (length s + length [c] - length s)%nat with 1%nat by (simpl; lia).
Qed.

Lemma cutLast_underscore s r :
  "_"%char ∉ r → cutLast (s ++ B "_" ++ r) (B "_") = Some (s, r).
Proof. apply cutLast_app. Qed.

Lemma cutLast_inv s c a b : cutLast s [c] = Some (a, b) → s = a ++ c :: b ∧ c ∉ b.
Proof.
  unfold cutLast. destruct (LastIndex s [c]) as [i |] eqn:E; [| done].
  intros [= <- <-]. apply LastIndex_inv in E. simpl. by rewrite Nat.add_1_r.
Qed.

(** Both fields are cut off the right end, wherever the ID has underscores. *)
Lemma payload_cut id raw :
  "_"%char ∉ raw → cutLast (payload_of id raw) (B "_") = Some (tokenPrefix ++ B "_" ++ id, raw).
Proof.
  intros H. unfold payload_of.
  replace (tokenPrefix ++ B "_" ++ id ++ B "_" ++ raw)
    with ((tokenPrefix ++ B "_" ++ id) ++ "_"%char :: raw) by (by rewrite <- !app_assoc).
  by apply cutLast_app.
Qed.

Lemma VerifyAt_inv t now token id :
  VerifyAt t now token = Some id →
  ∃ raw issuedAt,
    token = payload_of id raw ++ B "_" ++ sign t (payload_of id raw) ∧
    ("_"%char ∉ raw) ∧ ParseInt raw = Some issuedAt ∧ idPattern id = true ∧
    0 <= int64 (now - issuedAt) < validSecs t.
Proof.
  unfold VerifyAt. destruct (cutLast token (B "_")) as [[payload signature] |] eqn:E1; [| done].
  apply cutLast_inv in E1 as [-> Hs]. cbn [mbind option_bind].
  destruct (cutLast payload (B "_")) as [[rest raw] |] eqn:E2; [| done].
  apply cutLast_inv in E2 as [-> Hr]. cbn [mbind option_bind].
  destruct (CutPrefix rest (tokenPrefix ++ B "_")) as [i |] eqn:E3; [| done].
  apply CutPrefix_inv in E3 as ->. cbn [mbind option_bind].
  destruct (idPattern i) eqn:Hid; [| done]. cbn [negb].
  destruct (ParseInt raw) as [issuedAt |] eqn:Hp; [| done]. cbn [mbind option_bind].
  case_bool_decide as Hsig; [done |].
  destruct (_ || _) eqn:Hage; [done |]. intros [= ->].
  exists raw, issuedAt.
  replace (((tokenPrefix ++ B "_") ++ id) ++ "_"%char :: raw) with (payload_of id raw) in *
    by (unfold payload_of; by rewrite <- !app_assoc).
  rewrite Hsig. repeat split; try done; lia.
Qed.

Lemma VerifyAt_intro t now id raw issuedAt :
  "_"%char ∉ raw → ParseInt raw = Some issuedAt → idPattern id = true →
  VerifyAt t now (payload_of id raw ++ B "_" ++ sign t (payload_of id raw)) =
  if (int64 (now - issuedAt) <? 0) || (validSecs t <=? int64 (now - issuedAt)) then None else Some id.
Proof.
  intros Hr Hp Hid. unfold VerifyAt.
  rewrite cutLast_underscore by apply sign_no_underscore. cbn [mbind option_bind negb].
  rewrite payload_cut by done. cbn [mbind option_bind negb].
  rewrite (app_assoc tokenPrefix), CutPrefix_app.
  cbn [mbind option_bind negb]. rewrite Hid. cbn [mbind option_bind negb]. rewrite Hp. cbn [mbind option_bind negb]. by rewrite bool_decide_false by (intros ?; done).
Qed.

(** The payload determines the ID and the issue time. *)
Lemma payload_inj id1 id2 raw1 raw2 :
  "_"%char ∉ raw1 → "_"%char ∉ raw2 →
  payload_of id1 raw1 = payload_of id2 raw2 → id1 = id2 ∧ raw1 = raw2.
Proof.
  intros H1 H2 Heq. pose proof (payload_cut id1 raw1 H1) as C1.
  rewrite Heq, payload_cut in C1 by done. by injection C1 as -> ->.
Qed.

(** [Verify] reads the clock and changes nothing. *)
Lemma Verify_eq t token w : Verify t token w = (VerifyAt t (time_Unix (w_now w)) token, w).
Proof. done. Qed.
Lemma Issue_eq t id w : Issue t id w = (IssueAt t (time_Unix (w_now w)) id, w).
Proof. done. Qed.
