(* ===== verification/Profile.v ===== *)
(** * Profile: profile keys, editing and viewing ([auth/profile.go], and
    [updateProfile] of [auth/auth.go]) *)

From S2P Require Import Prelude GoStrings Strconv World Accounts Token.

(** ** Schema *)

Inductive profileValueType := profileTypeString | profileTypeNumber | profileTypeBool.

Record profileField := ProfileField {
  valueType : profileValueType;
  private : bool;
  immutable : bool;
  builtin : bool;
}.

Definition builtinFields : gmap bytes profileField :=
  <[ProfileKeyUsername := ProfileField profileTypeString false false true]>
  {[ProfileKeyRegister := ProfileField profileTypeNumber false true true]}.

Abbreviation ProfileSchema := (gmap bytes profileField).

(** What [ParseProfileSchema] reports, with the text it quotes. *)
Inductive schemaError :=
| BadShape (entry : bytes)
| EmptyName (entry : bytes)
| BuiltIn (name : bytes)
| Duplicate (name : bytes)
| UnknownType (name type : bytes)
| UnknownVisibility (name visibility : bytes).

Section Schema.
Context {U : UnicodeTables}.

Definition field_type (s : bytes) : option profileValueType :=
  let t := ToLower (TrimSpace s) in
  if decide (t = B "string") then Some profileTypeString
  else if decide (t = B "number") then Some profileTypeNumber
  else if decide (t = B "bool") then Some profileTypeBool
  else None.

(** The private flag of a visibility. *)
Definition field_visibility (s : bytes) : option bool :=
  let t := ToLower (TrimSpace s) in
  if decide (t = B "public") then Some false
  else if decide (t = B "private") then Some true
  else None.

Definition declare (fields : ProfileSchema) (name type : bytes) (visibility : option bytes)
    : schemaError + ProfileSchema :=
  let name := TrimSpace name in
  match fields !! name with
  | Some existing => inl (if builtin existing then BuiltIn name else Duplicate name)
  | None =>
      match field_type type with
      | None => inl (UnknownType name type)
      | Some ty =>
          match visibility with
          | None => inr (<[name := ProfileField ty false false false]> fields)
          | Some v =>
              match field_visibility v with
              | None => inl (UnknownVisibility name v)
              | Some p => inr (<[name := ProfileField ty p false false]> fields)
              end
          end
      end
  end.

Definition parse_entry (fields : ProfileSchema) (entry : bytes) : schemaError + ProfileSchema :=
  let entry := TrimSpace entry in
  if decide (entry = []) then inr fields
  else
    let check name type visibility :=
      if decide (TrimSpace name = []) then inl (EmptyName entry)
      else declare fields name type visibility in
    match Split entry ":"%char with
    | [name; type] => check name type None
    | [name; type; visibility] => check name type (Some visibility)
    | _ => inl (BadShape entry)
    end.

Fixpoint parse_entries (fields : ProfileSchema) (entries : list bytes) : schemaError + ProfileSchema :=
  match entries with
  | [] => inr fields
  | entry :: entries =>
      match parse_entry fields entry with
      | inl e => inl e
      | inr fields => parse_entries fields entries
      end
  end.

Definition ParseProfileSchema (raw : bytes) : schemaError + ProfileSchema :=
  parse_entries builtinFields (Split raw ","%char).

End Schema.

Definition Len (s : ProfileSchema) : nat := size s.

Definition type_matches (ty : profileValueType) (value : json) : bool :=
  match ty, value with
  | profileTypeString, JString _ => true
  | profileTypeNumber, JNumber _ _ => true
  | profileTypeBool, JBool _ => true
  | _, _ => false
  end.

Definition accepts (s : ProfileSchema) (key : bytes) (value : json) : bool :=
  match s !! key with
  | None => false
  | Some field => if immutable field then false else type_matches (valueType field) value
  end.

Definition visible (s : ProfileSchema) (key : bytes) (authenticated : bool) : bool :=
  match s !! key with
  | None => false
  | Some field => authenticated || negb (private field)
  end.

(** ** Editing *)

Record profileEntry := ProfileEntry { pe_Key : json; pe_Value : json }.
Record profileEditRequest := ProfileEditRequest {
  pq_UID : Z; pq_Token : bytes; pq_Content : list profileEntry }.
Record profileViewRequest := ProfileViewRequest { pv_UID : Z; pv_Token : bytes }.

Definition with_profile (u : user) (p : option (gmap bytes json)) : user :=
  User (ID u) (Email u) (Password u) (UID u) p (TOTPSecret u) (TOTPVerified u) (RecoveryCodes u).

(** [for key, value := range updates { target.Profile[key] = value }] *)
Definition merge_profile (u : user) (updates : gmap bytes json) : user :=
  with_profile u (Some (updates ∪ default ∅ (Profile u))).

Definition updateProfile (s : UserStore) (uid : Z) (token : bytes) (issuer : TokenIssuer)
    (updates : gmap bytes json) : M (result unit) :=
  found ←? readUser s uid;
  match found with
  | None => mret (Err errProfileDenied)
  | Some target =>
      id ← Verify issuer token;
      if decide (id ≠ Some (ID target)) then mret (Err errProfileDenied)
      else if decide (updates = ∅) then mret (Ok tt)
      else writeUser s (merge_profile target updates)
  end.

(** The rejected keys in request order, and the accepted updates; a key given
    twice keeps its last value. *)
Definition collect_step (schema : ProfileSchema) (acc : list json * gmap bytes json) (entry : profileEntry)
    : list json * gmap bytes json :=
  let '(invalid, updates) := acc in
  match pe_Key entry with
  | JString key =>
      if accepts schema key (pe_Value entry) then (invalid, <[key := pe_Value entry]> updates)
      else (invalid ++ [pe_Key entry], updates)
  | k => (invalid ++ [k], updates)
  end.
Definition collect (schema : ProfileSchema) (content : list profileEntry) : list json * gmap bytes json :=
  foldl (collect_step schema) ([], ∅) content.

Definition ProfileEditHandler (s : UserStore) (issuer : TokenIssuer) (schema : ProfileSchema)
    (body : option profileEditRequest) : M response :=
  match body with
  | None => mret (reply 400)
  | Some req =>
      let '(invalid, updates) := collect schema (pq_Content req) in
      if decide (invalid ≠ []) then
        mret (JSON 400 [gin_status 400; (B "invalid", JArray invalid)])
      else
        r ← updateProfile s (pq_UID req) (pq_Token req) issuer updates;
        mret (match r with
              | Err errProfileDenied => reply 400
              | Err _ => reply 500
              | Ok _ => reply 200
              end)
  end.

(** ** Viewing *)

Definition visible_profile (schema : ProfileSchema) (authenticated : bool) (u : user) : gmap bytes json :=
  filter (λ kv, visible schema kv.1 authenticated = true) (default ∅ (Profile u)).

(** Does the token, if any, belong to [target]? *)
Definition owner_view (issuer : TokenIssuer) (token : bytes) (target : user) : M bool :=
  if decide (token = []) then mret false
  else id ← Verify issuer token; mret (bool_decide (id = Some (ID target))).

Definition ProfileViewHandler (s : UserStore) (issuer : TokenIssuer) (schema : ProfileSchema)
    (body : option profileViewRequest) : M response :=
  match body with
  | None => mret (reply 400)
  | Some req =>
      r ← readUser s (pv_UID req);
      match r with
      | Err _ => mret (reply 500)
      | Ok None => mret (reply 400)
      | Ok (Some target) =>
          authenticated ← owner_view issuer (pv_Token req) target;
          mret (JSON 200 [gin_status 200;
            (B "content", JObject (map_to_list (visible_profile schema authenticated target)))])
      end
  end.
