(* ===== verification/Fixtures.v ===== *)
(** * Fixtures: concrete libraries and a concrete store for the witnesses

    Executable instances of the third-party interfaces ([Bcrypt],
    [AddressParser]) and a small file tree with two registered users. *)

From S2P Require Import Prelude GoStrings Strconv World WorldFacts Accounts AccountsFacts.

(** A hash that is the password behind a marker: enough to satisfy the
    interface, and easy to read in a computed world. *)
Definition marker_hash (pw : bytes) : bytes := B "$2a$10$" ++ pw.

#[export, refine] Instance marker_bcrypt : Bcrypt := {|
  GenerateFromPassword _ pw :=
    if decide (72 < length pw)%nat then None else Some (marker_hash pw);
  CompareHashAndPassword h pw := bool_decide (h = marker_hash pw);
|}.
Proof.
  - intros _ pw h. case_decide; [done |]. intros [= <-]. by apply bool_decide_eq_true.
  - intros _ pw H. by rewrite decide_True.
Defined.

(** Bare addresses with one [@] and no blank. *)
#[export] Instance bare_addresses : AddressParser := {|
  ParseAddress s :=
    match Split s "@"%char with
    | [a; b] =>
        if decide (a = [] ∨ b = [] ∨ " "%char ∈ s ∨ "<"%char ∈ s ∨ ">"%char ∈ s) then None else Some s
    | _ => None
    end;
|}.

#[export] Existing Instance latin_tables.

Definition store : UserStore := NewUserStore [B "data"; B "user"].

(** 2024-01-01T00:00:00Z *)
Definition new_year : Z := 1704067200 * 10 ^ 9.

Definition fresh_world : world := World ∅ new_year (replicate 400 "x"%char) [].

Definition alice_req : registerRequest :=
  RegisterRequest (B "Alice") (B "alice_1") (B "alice@example.org") (B "pa55word").
Definition bob_req : registerRequest :=
  RegisterRequest (B "Bob") (B "Bob") (B "bob@example.org") (B "hunter2!").

Definition alice : user := new_user alice_req 1 (marker_hash (B "pa55word")) new_year.
Definition bob : user := new_user bob_req 2 (marker_hash (B "hunter2!")) new_year.

(** The world after storing [u] in [w]. *)
Definition stored (u : user) (w : world) : world := (writeUser store u w).2.

Definition alice_world : world := stored alice fresh_world.
Definition two_world : world := stored bob alice_world.

Lemma represents_empty : represents store ∅ ∅.
Proof.
  constructor.
  - split; [by apply (bool_decide_unpack _) | done].
  - split; [done |]. intros p name n. by rewrite lookup_empty.
  - done.
  - intros name n. by rewrite lookup_empty.
  - intros name n. by rewrite lookup_empty.
  - intros uid u. by rewrite lookup_empty.
Qed.

Lemma represents_stored u w m :
  represents store (w_fs w) m → healthy w → is_int64 (UID u) →
  represents store (w_fs (stored u w)) (<[UID u := u]> m) ∧ healthy (stored u w).
Proof.
  intros Hrep Hh H64. destruct (writeUser_healthy store w m u Hrep Hh) as [f Hw].
  unfold stored. rewrite Hw. split; [| done].
  by eapply writeUser_inv in Hw as (_ & _ & _ & ?); [| done | done].
Qed.

Lemma accounts_ok_empty : accounts_ok ∅.
Proof. by constructor; intros *; rewrite lookup_empty. Qed.
Lemma emails_unique_empty `{UnicodeTables} : emails_unique ∅.
Proof. intros ? ? ? ?. by rewrite lookup_empty. Qed.

Definition two_users : gmap Z user := <[2 := bob]> {[1 := alice]}.

Lemma fresh_ok : store_ok store fresh_world ∅.
Proof. split; [apply represents_empty | apply accounts_ok_empty | apply emails_unique_empty]. Qed.

Lemma alice_world_ok : store_ok store alice_world {[1 := alice]} ∧ healthy alice_world.
Proof.
  destruct (represents_stored alice fresh_world ∅) as [Hrep Hh];
    [apply represents_empty | done | done |]. split; [| done]. split; [done | |].
  - apply (accounts_ok_insert ∅); [apply accounts_ok_empty | done | simpl; lia | done | | done].
    by apply (bool_decide_unpack _).
  - by apply (emails_unique_insert ∅); [apply emails_unique_empty |].
Qed.

Lemma two_world_ok : store_ok store two_world two_users ∧ healthy two_world.
Proof.
  destruct alice_world_ok as [[Hrep Hok Hun] Hh].
  destruct (represents_stored bob alice_world {[1 := alice]}) as [Hrep' Hh']; [done | done | done |].
  split; [| done]. split; [done | |].
  - apply accounts_ok_insert; [done | done | simpl; lia | done | by apply (bool_decide_unpack _) |].
    intros uid' u' [<- <-]%lookup_singleton_Some. by vm_compute.
  - apply emails_unique_insert; [done |].
    intros uid' u' [<- <-]%lookup_singleton_Some. by vm_compute.
Qed.

Lemma two_users_bounded : uids_bounded two_users.
Proof.
  unfold two_users. intros uid u [[<- <-] | [_ [<- <-]%lookup_singleton_Some]]%lookup_insert_Some; lia.
Qed.
