(* ===== verification/AccountsSpec.v ===== *)
(** * AccountsSpec: what the user store promises

    The abstract store is a finite map from UID to record.  [register_spec]
    says what one registration may do to it; the theorems show that the
    operations of [Accounts] on the file tree implement the map, whatever the
    operating system refuses. *)

From S2P Require Import Prelude GoStrings Strconv World WorldFacts Accounts AccountsFacts Fixtures.

Section Spec.
Context {U : UnicodeTables} {Bc : Bcrypt} {Ap : AddressParser}.

(** One registration on the abstract store: the answer [(uid, code)] and the
    accounts afterwards. *)
Inductive register_spec (m : gmap Z user) (req : registerRequest) (now : Z) :
    Z * Z → gmap Z user → Prop :=
| spec_id_taken uid u :
    m !! uid = Some u → ID u = rr_ID req → register_spec m req now (0, 2) m
| spec_email_taken uid u :
    m !! uid = Some u → EqualFold (Email u) (rr_Email req) = true → register_spec m req now (0, 3) m
| spec_created uid hash :
    (∀ uid' u', m !! uid' = Some u' →
       uid' < uid ∧ ID u' ≠ rr_ID req ∧ EqualFold (Email u') (rr_Email req) = false) →
    CompareHashAndPassword hash (rr_Password req) = true →
    register_spec m req now (uid, 0) (<[uid := new_user req uid hash now]> m).

(** What [validateRegister] guarantees about a request it passes. *)
Lemma validateRegister_0 req :
  validateRegister req = 0 →
  idPattern (rr_ID req) = true ∧ ParseAddress (rr_Email req) = Some (rr_Email req) ∧
  "@"%char ∈ rr_Email req ∧ pwdPattern (rr_Password req) = true ∧ rr_Username req ≠ [].
Proof.
  unfold validateRegister. case_decide as Hu; [done |].
  destruct (ContainsAny _ _); [done |].
  destruct (idPattern (rr_ID req)) eqn:Hid; [| done]. cbn [negb].
  destruct (ParseAddress (rr_Email req)) as [a |] eqn:Ha; [| done].
  destruct (bool_decide (a ≠ rr_Email req)) eqn:Hd; [done |].
  apply bool_decide_eq_false in Hd. apply dec_stable in Hd. subst a.
  destruct (ContainsByte (rr_Email req) "@"%char) eqn:Hc; [| done]. cbn [negb orb].
  destruct (pwdPattern _) eqn:Hp; [| done]. intros _.
  repeat split; try done. unfold ContainsByte in Hc. by apply bool_decide_eq_true in Hc.
Qed.

Lemma register_step s w m req r w' :
  store_ok s w m → uids_bounded m → validateRegister req = 0 → register s req w = (r, w') →
  match r with
  | Ok out => ∃ m', register_spec m req (w_now w) out m' ∧ store_ok s w' m'
  | Err _ =>
      ∀ uid u, m !! uid = Some u →
        file_in (w_fs w') (record_path s (FormatInt uid)) =
        file_in (w_fs w) (record_path s (FormatInt uid))
  end.
Proof.
  intros [Hrep Hok Hun] Hb (Hid & _ & Hem & _)%validateRegister_0 H.
  eapply register_inv in H as [_ H]; [| done ..].
  destruct r as [[uid code] | e]; [| done].
  destruct H as [(-> & hash & Hh & Hrep' & Hok' & Hun' & Hall) | (-> & Hf & Hc)].
  - eexists. split; [by apply spec_created |]. done.
  - exists m. assert (store_ok s w' m) as Hst by (split; [by rewrite Hf | done | done]).
    destruct Hc as [(-> & uid' & u' & Hm & Hu) | (-> & uid' & u' & Hm & Hu)];
      (split; [| done]); [by eapply spec_id_taken | by eapply spec_email_taken].
Qed.

(** C1: [register] implements the abstract store, whatever system calls fail.
    When it answers, the answer and the new accounts are a step of
    [register_spec] (a fresh UID above all others with a unique ID and e-mail
    address, or code 2 or 3 for a collision with nothing changed) and the
    store invariant holds again; when it reports an error, the record of every
    existing account is untouched. *)
Theorem register_refines s w m req r w' :
  store_ok s w m → uids_bounded m → validateRegister req = 0 → register s req w = (r, w') →
  match r with
  | Ok out => ∃ m', register_spec m req (w_now w) out m' ∧ store_ok s w' m'
  | Err _ =>
      ∀ uid u, m !! uid = Some u →
        file_in (w_fs w') (record_path s (FormatInt uid)) =
        file_in (w_fs w) (record_path s (FormatInt uid))
  end.
Proof. apply register_step. Qed.

(** On a healthy system [register] always answers: with enough entropy
    and a password bcrypt takes (at most 72 bytes), it creates the account
    exactly when neither the ID nor, up to case, the e-mail address is in use. *)
Theorem register_total s w m req :
  store_ok s w m → uids_bounded m → validateRegister req = 0 →
  healthy w → (16 <= length (w_rand w))%nat →
  (∀ salt, is_Some (GenerateFromPassword salt (rr_Password req))) →
  ∃ uid code w', register s req w = (Ok (uid, code), w') ∧ healthy w' ∧
    (code = 0 ↔ ∀ uid' u, m !! uid' = Some u →
                  ID u ≠ rr_ID req ∧ EqualFold (Email u) (rr_Email req) = false).
Proof.
  intros Hst Hb Hv Hh Hr Hg. pose proof Hst as [Hrep Hok Hun].
  pose proof (validateRegister_0 _ Hv) as (Hid & _ & Hem & _).
  destruct (register_healthy s w m req) as (uid & code & w' & Hreg & Hh'); [done .. |].
  exists uid, code, w'. split; [done |]. split; [done |].
  eapply register_step in Hreg as (m' & Hspec & _); [| done ..]. split.
  - intros -> uid' u Hm. inversion Hspec as [| | ? ? Hall]; subst. naive_solver.
  - intros Hall. inversion Hspec as [? u Hm Hu | ? u Hm Hu |]; subst; [..| done].
    + by destruct (Hall _ _ Hm).
    + destruct (Hall _ _ Hm) as [_ Hf]. by rewrite Hu in Hf.
Qed.

(** A password that [pwdPattern] accepts but bcrypt refuses for its length
    (more than 72 bytes) makes a fresh registration end in a plain 500 answer,
    with no account created. *)
Theorem RegisterHandler_long_password s w m domain req :
  store_ok s w m → healthy w → validateRegister req = 0 →
  (72 < length (rr_Password req))%nat →
  (∀ uid' u, m !! uid' = Some u → ID u ≠ rr_ID req ∧ EqualFold (Email u) (rr_Email req) = false) →
  ∃ w', RegisterHandler s domain (Some req) w = (reply 500, w') ∧ w_fs w' = w_fs w.
Proof.
  intros [Hrep Hok Hun] Hh Hv Hlen Hall. unfold RegisterHandler.
  rewrite Hv, decide_False by lia. unfold register.
  assert (conflict (listing s (w_fs w)) req = 0) as Hc.
  { destruct (conflict_spec (listing s (w_fs w)) req) as [[? _] | [(_ & u & Hu & Hx) | (_ & u & Hu & Hx)]];
      [done | ..]; eapply elem_of_listing in Hu as [uid Hm]; try done; destruct (Hall _ _ Hm) as [Hi Hf];
      [done | congruence]. }
  unfold mbind at 1, st_bind at 1.
  rewrite (try_bind_ok _ _ _ _ _ (loadUsers_healthy _ _ _ Hrep Hh)).
  rewrite Hc, decide_False by lia. unfold bcrypt_Generate, rand_Read, try_bind, mbind, st_bind.
  destruct (decide (length (w_rand w) < 16)%nat); simpl.
  - eexists. by split.
  - rewrite Generate_too_long by done. eexists. by split.
Qed.

(** C31: Every response of the registration handler, with its reason and the
    state it leaves.  201 with a UID means that the request was valid and the
    account now exists under that UID; a 400 names the invalid or colliding
    field and changes nothing; 500 answers a valid request only, without
    an account, and only when the accounts could not be read (a system call
    failed), or when nothing collides and either bcrypt or its randomness
    failed or the record could not be written; then the existing records are
    as they were and at most an empty file was left. *)
Theorem RegisterHandler_response s w m domain body rsp w' :
  store_ok s w m → uids_bounded m → RegisterHandler s domain body w = (rsp, w') →
  (∃ req uid hash, body = Some req ∧ validateRegister req = 0 ∧ status rsp = 201 ∧
     json_field (B "UID") (fields rsp) = Some (JNumber uid 0) ∧
     json_field (B "mail") (fields rsp) =
       (if decide (domain = []) then None else Some (JString (rr_ID req ++ B "@" ++ domain))) ∧
     m !! uid = None ∧ store_ok s w' (<[uid := new_user req uid hash (w_now w)]> m)) ∨
  (status rsp = 400 ∧ w_fs w' = w_fs w ∧
     ((body = None ∧ rsp = reply_err 400 0) ∨
      (∃ req, body = Some req ∧ rsp = reply_err 400 (validateRegister req) ∧ validateRegister req ≠ 0) ∨
      (∃ req uid u, body = Some req ∧ validateRegister req = 0 ∧ m !! uid = Some u ∧
         ((rsp = reply_err 400 2 ∧ ID u = rr_ID req) ∨
          (rsp = reply_err 400 3 ∧ EqualFold (Email u) (rr_Email req) = true))))) ∨
  (rsp = reply 500 ∧ ∃ req, body = Some req ∧ validateRegister req = 0 ∧
     (∀ uid u, m !! uid = Some u →
        file_in (w_fs w') (record_path s (FormatInt uid)) = file_in (w_fs w) (record_path s (FormatInt uid))) ∧
     ((¬ healthy w ∧ w_fs w' = w_fs w) ∨
      ((∀ uid u, m !! uid = Some u → ID u ≠ rr_ID req ∧ EqualFold (Email u) (rr_Email req) = false) ∧
       ((((length (w_rand w) < 16)%nat ∨ ∃ salt, GenerateFromPassword salt (rr_Password req) = None) ∧ w_fs w' = w_fs w) ∨
        (¬ healthy w ∧ nothing_written (w_fs w) (w_fs w')))))).
Proof.
  intros Hst Hb H. unfold RegisterHandler in H. destruct body as [req |].
  2: { st_inv. right; left. do 2 (split; [done |]). by left. }
  case_decide as Hv. { st_inv. right; left. do 2 (split; [done |]). right; left. eauto. }
  apply st_bind_inv in H as (r & w1 & Hreg & H).
  assert (validateRegister req = 0) as Hv0 by lia.
  pose proof Hst as [Hrep Hok Hun]. pose proof (validateRegister_0 _ Hv0) as (Hid & _ & Hem & _).
  pose proof Hreg as Hreg'. eapply register_inv in Hreg as [_ Hreg]; [| done ..].
  destruct r as [[uid code] | e].
  2: { apply (register_failed s w m) in Hreg'; [| done]. st_inv. right; right. split; [done |]. by exists req. }
  destruct Hreg as [(-> & hash & Hh & Hrep' & Hok' & Hun' & Hall) | (-> & Hf & Hc)].
  - rewrite decide_False in H by lia. left. exists req, uid, hash.
    assert (m !! uid = None) as Hnone.
    { destruct (m !! uid) eqn:E; [| done]. apply Hall in E. lia. }
    case_decide; st_inv; repeat (split; [done |]); by split.
  - right; left. destruct Hc as [(-> & uid' & u' & Hm & Hu) | (-> & uid' & u' & Hm & Hu)];
      rewrite decide_True in H by done; st_inv; (do 2 (split; [done |])); right; right;
      exists req, uid', u'; auto 6.
Qed.

(** Storing a record and reading it back by UID gives the record: every
    field survives the JSON round trip through the file tree, and the other
    accounts read as before. *)
Theorem writeUser_readUser s w m u :
  represents s (w_fs w) m → accounts_ok (<[UID u := u]> m) → healthy w →
  ∃ w', writeUser s u w = (Ok tt, w') ∧
    ∀ uid, readUser s uid w' = (Ok (<[UID u := u]> m !! uid), w').
Proof.
  intros Hrep Hok Hh. destruct (writeUser_healthy s w m u) as [f Hw]; [done | done |].
  eexists. split; [done |]. intros uid. apply readUser_healthy; [| done | done].
  eapply writeUser_inv in Hw as (_ & _ & _ & ?); [done | done |].
  destruct (ok_uid _ Hok (UID u) u) as [_ ?]; [by rewrite lookup_insert_eq |].
  unfold is_int64. lia.
Qed.

(** C2: [login] is exact on a healthy system: it returns an ID if and only if
    some account answers to the query (by exact ID, or by e-mail up to case)
    and the password fits its hash, and that account is the only one the
    query can select; the world is unchanged. *)
Theorem login_correct s w m query password id :
  store_ok s w m → healthy w →
  login s query password w = (Some id, w) ↔
  ∃ uid u, m !! uid = Some u ∧ ID u = id ∧ matches_query query u = true ∧
    CompareHashAndPassword (Password u) password = true ∧
    ∀ uid' u', m !! uid' = Some u' → matches_query query u' = true → uid' = uid.
Proof.
  intros [Hrep Hok Hun] Hh. rewrite login_verifyPassword, (verifyPassword_healthy _ _ m) by done.
  split.
  - destruct (List.find _ _) as [u |] eqn:E; [| done]. intros [= <-].
    eapply find_credentials in E as [[uid Hm] Hc]; [| done ..].
    unfold credentials in Hc. apply andb_true_iff in Hc as [Hq Hp].
    exists uid, u. repeat split; try done. intros. by eapply matches_query_unique.
  - intros (uid & u & Hm & <- & Hq & Hp & _).
    assert (List.find (credentials query password) (listing s (w_fs w)) = Some u) as ->; [| done].
    eapply find_credentials; [done | done | done |]. split; [eauto |].
    unfold credentials. by rewrite Hq, Hp.
Qed.

(** Register, then log in: after a registration answered with a UID, the
    new password logs in under the ID and under any spelling of the e-mail
    address. *)
Theorem register_then_login s w m req uid w1 query :
  store_ok s w m → uids_bounded m → validateRegister req = 0 → healthy w →
  register s req w = (Ok (uid, 0), w1) → healthy w1 →
  query = rr_ID req ∨ EqualFold (rr_Email req) query = true →
  login s query (rr_Password req) w1 = (Some (rr_ID req), w1).
Proof.
  intros Hst Hb Hv Hh Hreg Hh1 Hq.
  eapply register_step in Hreg as (m' & Hspec & [Hrep' Hok' Hun']); [| done ..].
  inversion Hspec as [| | uid' hash Hall Hhash]; subst.
  rewrite login_verifyPassword, (verifyPassword_healthy _ _ _ _ _ Hrep') by done.
  assert (List.find (credentials query (rr_Password req)) (listing s (w_fs w1)) =
    Some (new_user req uid hash (w_now w))) as ->; [| done].
  eapply find_credentials; [done | done | done |].
  split; [exists uid; by rewrite lookup_insert_eq |].
  unfold credentials, matches_query. simpl. rewrite Hhash.
  destruct Hq as [-> | ->]; [by rewrite bool_decide_true | by rewrite orb_true_r].
Qed.

(** Recipients resolve to the right account: [FindByID] returns the account
    with exactly that ID if there is one, otherwise the one account whose ID
    matches up to case, and nothing when several do. *)
Theorem FindByID_correct s w m id a :
  store_ok s w m → healthy w →
  FindByID s id w = (Some a, w) ↔
  (∃ uid u, m !! uid = Some u ∧ ID u = id ∧ a = accountOf u) ∨
  ((∀ uid u, m !! uid = Some u → ID u ≠ id) ∧
   ∃ uid u, m !! uid = Some u ∧ EqualFold (ID u) id = true ∧ a = accountOf u ∧
     ∀ uid' u', m !! uid' = Some u' → EqualFold (ID u') id = true → u' = u).
Proof.
  intros [Hrep Hok Hun] Hh. unfold FindByID.
  rewrite (st_bind_eq _ _ _ _ _ (loadUsers_healthy _ _ _ Hrep Hh)).
  assert (∀ P : user → Prop, (∃ u, u ∈ listing s (w_fs w) ∧ P u) ↔ ∃ uid u, m !! uid = Some u ∧ P u) as Hex.
  { intros P. setoid_rewrite elem_of_listing; [| done]. naive_solver. }
  assert (∀ P : user → Prop, (∀ u, u ∈ listing s (w_fs w) → P u) ↔ ∀ uid u, m !! uid = Some u → P u) as Hall.
  { intros P. setoid_rewrite elem_of_listing; [| done]. naive_solver. }
  transitivity (find_account (listing s (w_fs w)) id = Some a).
  { unfold mret, st_ret. split; [by intros [= ->] | by intros ->]. }
  rewrite find_account_spec.
  - rewrite !Hex, (Hall (λ u, ID u ≠ id)). by setoid_rewrite Hall.
  - by eapply NoDup_listing.
  - intros u v [i Hu]%(elem_of_listing _ _ m) [j Hv]%(elem_of_listing _ _ m) Heq; try done.
    assert (i = j) as -> by (by eapply ok_unique_id). congruence.
Qed.

End Spec.

(** ** Witnesses *)

Definition bob_out : result (Z * Z) * world := register store bob_req alice_world.

Lemma bob_out_eq : register store bob_req alice_world = (Ok (2, 0), bob_out.2).
Proof.
  fold bob_out. assert (bob_out.1 = Ok (2, 0)) as <- by (vm_compute; reflexivity).
  apply surjective_pairing.
Qed.

Lemma bob_valid : validateRegister bob_req = 0.
Proof. by vm_compute. Qed.

Lemma alice_bounded : uids_bounded {[1 := alice]}.
Proof. intros uid u [<- <-]%lookup_singleton_Some. lia. Qed.

Lemma register_refines_witness :
  ∃ m', register_spec {[1 := alice]} bob_req (w_now alice_world) (2, 0) m' ∧ store_ok store bob_out.2 m'.
Proof.
  exact (register_refines store alice_world {[1 := alice]} bob_req (Ok (2, 0)) bob_out.2
    (proj1 alice_world_ok) alice_bounded bob_valid bob_out_eq).
Defined.

Lemma register_total_witness :
  ∃ uid code w', register store bob_req alice_world = (Ok (uid, code), w') ∧ healthy w' ∧
    (code = 0 ↔ ∀ uid' u, ({[1 := alice]} : gmap Z user) !! uid' = Some u →
       ID u ≠ B "Bob" ∧ EqualFold (Email u) (B "bob@example.org") = false).
Proof.
  apply (register_total store alice_world {[1 := alice]} bob_req).
  - apply alice_world_ok.
  - apply alice_bounded.
  - apply bob_valid.
  - apply alice_world_ok.
  - by apply (bool_decide_unpack _).
  - intros salt. by eexists.
Defined.

Definition long_req : registerRequest :=
  RegisterRequest (B "Lena") (B "lena") (B "lena@example.org") (replicate 73 "a"%char).

Lemma RegisterHandler_long_password_witness :
  pwdPattern (rr_Password long_req) = true ∧
  ∃ w', RegisterHandler store (B "example.org") (Some long_req) alice_world = (reply 500, w') ∧
        w_fs w' = w_fs alice_world.
Proof.
  split; [by vm_compute |].
  apply (RegisterHandler_long_password store alice_world {[1 := alice]}).
  - apply alice_world_ok.
  - apply alice_world_ok.
  - by vm_compute.
  - by apply (bool_decide_unpack _).
  - intros uid' u [<- <-]%lookup_singleton_Some. by vm_compute.
Defined.

Lemma RegisterHandler_response_witness :
  let out := RegisterHandler store (B "example.org") (Some bob_req) alice_world in
  status out.1 = 201 ∧
  ∃ uid hash, json_field (B "UID") (fields out.1) = Some (JNumber uid 0) ∧
    store_ok store out.2 (<[uid := new_user bob_req uid hash new_year]> {[1 := alice]}).
Proof.
  destruct (RegisterHandler store (B "example.org") (Some bob_req) alice_world) as [rsp w'] eqn:E.
  assert (status rsp = 201) as Hs.
  { change rsp with (rsp, w').1. rewrite <- E. by vm_compute. }
  destruct (RegisterHandler_response store alice_world {[1 := alice]} _ _ _ _
    (proj1 alice_world_ok) alice_bounded E)
    as [(req & uid & hash & [= <-] & _ & _ & Hu & _ & _ & Hok) | [(Hx & _) | [-> _]]].
  - split; [done |]. exists uid, hash. by split.
  - rewrite Hs in Hx. discriminate Hx.
  - discriminate Hs.
Defined.

Lemma writeUser_readUser_witness :
  ∃ w', writeUser store bob alice_world = (Ok tt, w') ∧
    ∀ uid, readUser store uid w' = (Ok (two_users !! uid), w').
Proof.
  apply (writeUser_readUser store alice_world {[1 := alice]} bob).
  - apply alice_world_ok.
  - apply two_world_ok.
  - apply alice_world_ok.
Defined.

Lemma login_correct_witness :
  login store (B "BOB@example.ORG") (B "hunter2!") two_world = (Some (B "Bob"), two_world).
Proof.
  apply (login_correct store two_world two_users); [apply two_world_ok | apply two_world_ok |].
  exists 2, bob. split; [done |]. split; [done |]. split; [by vm_compute |]. split; [by vm_compute |].
  unfold two_users. intros uid' u' [[<- <-] | [_ [<- <-]%lookup_singleton_Some]]%lookup_insert_Some; [done |].
  by vm_compute.
Defined.

Lemma register_then_login_witness :
  login store (B "Bob@Example.Org") (B "hunter2!") bob_out.2 = (Some (B "Bob"), bob_out.2).
Proof.
  apply (register_then_login store alice_world {[1 := alice]} bob_req 2 bob_out.2).
  - apply alice_world_ok.
  - apply alice_bounded.
  - apply bob_valid.
  - apply alice_world_ok.
  - apply bob_out_eq.
  - by vm_compute.
  - right. by vm_compute.
Defined.

Lemma FindByID_correct_witness :
  FindByID store (B "BOB") two_world = (Some (accountOf bob), two_world).
Proof.
  apply (FindByID_correct store two_world two_users); [apply two_world_ok | apply two_world_ok |].
  right. split.
  - unfold two_users. by intros uid u [[<- <-] | [_ [<- <-]%lookup_singleton_Some]]%lookup_insert_Some.
  - exists 2, bob. split; [done |]. split; [by vm_compute |]. split; [done |]. unfold two_users.
    intros uid' u' [[<- <-] | [_ [<- <-]%lookup_singleton_Some]]%lookup_insert_Some; [done |].
    by vm_compute.
Defined.
