(* ===== verification/TokenSpec.v ===== *)
(** * TokenSpec: what login tokens promise

    Issued tokens verify exactly within their window, accepted tokens carry a
    valid tag, and a tag cannot be moved to another user or another time. *)

From S2P Require Import Prelude GoStrings Strconv Crypto World WorldFacts Accounts AccountsFacts Token Fixtures AccountsSpec.

(** Seconds a clock can show. *)
Definition clock (n : Z) : Prop := 0 <= n < 2 ^ 63.

Lemma VerifyAt_IssueAt t now1 now2 id :
  idPattern id = true → clock now1 → clock now2 →
  VerifyAt t now2 (IssueAt t now1 id) =
  if (now1 <=? now2) && (now2 <? now1 + validSecs t) then Some id else None.
Proof.
  unfold clock. intros Hid H1 H2. unfold IssueAt.
  rewrite (VerifyAt_intro _ _ _ _ now1);
    [| apply FormatInt_no_underscore | apply ParseInt_FormatInt; unfold is_int64; lia | done].
  rewrite int64_id by (unfold is_int64; lia).
  destruct (_ || _) eqn:E1, (_ && _) eqn:E2; try done; exfalso; lia.
Qed.

(** A token verifies as the user it was issued to exactly while it is
    valid: from the second of issue (never earlier, whatever the clock did)
    until [validSecs] seconds later, exclusively; outside it verifies as
    nobody. *)
Theorem Verify_Issue t id w1 w2 token w1' :
  idPattern id = true → clock (time_Unix (w_now w1)) → clock (time_Unix (w_now w2)) →
  Issue t id w1 = (token, w1') →
  w1' = w1 ∧
  Verify t token w2 =
    (if (time_Unix (w_now w1) <=? time_Unix (w_now w2)) &&
        (time_Unix (w_now w2) <? time_Unix (w_now w1) + validSecs t) then Some id else None, w2).
Proof.
  intros Hid H1 H2 H. unfold Issue, Now in H. st_inv. split; [done |].
  unfold Verify. rewrite (st_bind_eq Now _ w2 (w_now w2) w2 eq_refl).
  by rewrite VerifyAt_IssueAt.
Qed.

(** C14: [Verify] accepts nothing but signed tokens: a token verifies as [id]
    if and only if it is [aat_<id>_<time>_<tag>] with an ID of the ID
    alphabet, a decimal 64-bit time whose age is inside the window, and the
    tag that the issuer's secret gives for exactly that text. *)
Theorem Verify_accepts t now token id :
  VerifyAt t now token = Some id ↔
  ∃ raw issuedAt,
    token = payload_of id raw ++ B "_" ++ sign t (payload_of id raw) ∧
    ("_"%char ∉ raw) ∧ ParseInt raw = Some issuedAt ∧ idPattern id = true ∧
    0 <= int64 (now - issuedAt) < validSecs t.
Proof.
  split; [apply VerifyAt_inv |]. intros (raw & issuedAt & -> & Hr & Hp & Hid & Hage).
  rewrite (VerifyAt_intro _ _ _ _ issuedAt) by done.
  destruct (_ || _) eqn:E; [lia | done].
Qed.

(** C30: A tag cannot be transplanted.  A token that is accepted as [id'] and
    ends in the tag of a token issued to [id] at [now1] is that very token, so
    [id'] is [id], unless two different payloads have the same HMAC:
    underscores in IDs make no two payloads alike. *)
Theorem Verify_no_splice t now now1 id id' front :
  VerifyAt t now (front ++ B "_" ++ sign t (payload_of id (FormatInt now1))) = Some id' →
  (id' = id ∧ front ++ B "_" ++ sign t (payload_of id (FormatInt now1)) = IssueAt t now1 id) ∨
  ∃ raw, payload_of id' raw ≠ payload_of id (FormatInt now1) ∧
    sign t (payload_of id' raw) = sign t (payload_of id (FormatInt now1)).
Proof.
  intros (raw & issuedAt & Heq & Hr & _ & _ & _)%VerifyAt_inv.
  pose proof (cutLast_underscore front _ (sign_no_underscore t (payload_of id (FormatInt now1)))) as C1.
  rewrite Heq, cutLast_underscore in C1 by apply sign_no_underscore.
  injection C1 as Hfront Htag.
  destruct (decide (payload_of id' raw = payload_of id (FormatInt now1))) as [Hp | Hp]; [left | right; eauto].
  rewrite Hp in Heq. apply payload_inj in Hp as [-> _];
    [| done | apply FormatInt_no_underscore]. done.
Qed.

(** C15: The login handler answers 200 exactly for credentials that fit an
    account, and the token it hands out verifies as that account's ID at every
    later clock reading inside the window; every other request gets a bare
    400 that does not tell why. *)
Theorem LoginHandler_token {U : UnicodeTables} {Bc : Bcrypt} s w m issuer body rsp w' :
  store_ok s w m → healthy w → clock (time_Unix (w_now w)) →
  LoginHandler s issuer body w = (rsp, w') →
  w' = w ∧
  ((∃ req uid u, body = Some req ∧ m !! uid = Some u ∧
      credentials (lr_Query req) (lr_Password req) u = true ∧
      status rsp = 200 ∧ ∃ token, json_field (B "token") (fields rsp) = Some (JString token) ∧
      ∀ now, clock now →
        VerifyAt issuer now token = Some (ID u) ↔
        time_Unix (w_now w) <= now < time_Unix (w_now w) + validSecs issuer) ∨
   (rsp = reply 400 ∧
      ∀ req, body = Some req → lr_Query req = [] ∨ lr_Password req = [] ∨
        ∀ uid u, m !! uid = Some u → credentials (lr_Query req) (lr_Password req) u = false)).
Proof.
  intros [Hrep Hok Hun] Hh Hc H. unfold LoginHandler in H. destruct body as [req |].
  2: { st_inv. split; [done |]. by right. }
  case_decide as He. { st_inv. split; [done |]. right. split; [done |]. intros ? [= <-]. tauto. }
  apply st_bind_inv in H as (o & w1 & Hl & H).
  rewrite login_verifyPassword, (verifyPassword_healthy _ _ m) in Hl by done. injection Hl as <- <-.
  destruct (List.find _ _) as [u |] eqn:E; simpl in H.
  - eapply find_credentials in E as [[uid Hm] Hcr]; [| done ..].
    pose proof (ok_id _ Hok _ _ Hm) as Hid. unfold Issue, Now in H. st_inv. split; [done |]. left.
    exists req, uid, u. repeat (split; [done |]). eexists. split; [done |].
    intros now Hnow. rewrite VerifyAt_IssueAt by done.
    destruct (_ && _) eqn:Ha; (split; intros; [first [discriminate | lia] | first [done | exfalso; lia]]).
  - st_inv. split; [done |]. right. split; [done |]. intros ? [= <-]. right; right. intros uid u Hm.
    destruct (credentials _ _ u) eqn:Ec; [| done]. exfalso.
    assert (List.find (credentials (lr_Query req) (lr_Password req)) (listing s (w_fs w)) = Some u)
      by (eapply find_credentials; eauto). congruence.
Qed.

(** ** Witnesses *)

Definition issuer : TokenIssuer := NewTokenIssuer (B "top secret") 3600.

Lemma Verify_Issue_witness :
  let w2 := set_now (new_year + 3599 * 10 ^ 9) fresh_world in
  ∃ token, Issue issuer (B "alice_1") fresh_world = (token, fresh_world) ∧
    Verify issuer token w2 = (Some (B "alice_1"), w2).
Proof.
  eexists. split; [reflexivity |].
  apply (Verify_Issue issuer (B "alice_1") fresh_world
    (set_now (new_year + 3599 * 10 ^ 9) fresh_world) _ fresh_world eq_refl); [| | reflexivity];
    unfold clock; vm_compute; split; congruence.
Defined.

Lemma Verify_no_splice_witness :
  let front := payload_of (B "a_1") (FormatInt 5) in
  VerifyAt issuer 7 (front ++ B "_" ++ sign issuer front) = Some (B "a_1") ∧
  ((B "a_1" = B "a_1" ∧ front ++ B "_" ++ sign issuer front = IssueAt issuer 5 (B "a_1")) ∨
   ∃ raw, payload_of (B "a_1") raw ≠ front ∧ sign issuer (payload_of (B "a_1") raw) = sign issuer front).
Proof.
  cbv zeta. assert (VerifyAt issuer 7 (IssueAt issuer 5 (B "a_1")) = Some (B "a_1")) as H.
  { rewrite VerifyAt_IssueAt; [done | done | by unfold clock | by unfold clock]. }
  split; [exact H |].
  exact (Verify_no_splice issuer 7 5 (B "a_1") (B "a_1") (payload_of (B "a_1") (FormatInt 5)) H).
Defined.

Definition bob_login : loginRequest := LoginRequest (B "Bob") (B "hunter2!").

Lemma LoginHandler_token_witness :
  let out := LoginHandler store issuer (Some bob_login) two_world in
  out.2 = two_world ∧ status out.1 = 200.
Proof.
  destruct (LoginHandler store issuer (Some bob_login) two_world) as [rsp w'] eqn:E.
  destruct two_world_ok as [Hok Hh].
  assert (clock (time_Unix (w_now two_world))) as Hc by (vm_compute; split; congruence).
  destruct (LoginHandler_token store two_world two_users issuer _ _ _ Hok Hh Hc E)
    as [-> [(req & uid & u & _ & _ & _ & Hs & _) | [_ Hno]]]; [by split |].
  destruct (Hno _ eq_refl) as [Hx | [Hx | Hx]]; [discriminate Hx | discriminate Hx |].
  pose proof (Hx 2 bob eq_refl) as Hf. vm_compute in Hf. discriminate Hf.
Defined.
