(* ===== verification/ProfileSpec.v ===== *)
(** * ProfileSpec: what the profile handlers promise

    Configured schemas keep the built-in keys, an edit is all or nothing and
    never reaches a key the client may not write, and a view shows private
    keys to the owner only. *)

From S2P Require Import Prelude GoStrings Strconv World WorldFacts Accounts AccountsFacts Token Profile Fixtures AccountsSpec TokenSpec.

(** ** Schemas *)

(** The built-in keys are as declared, and no configured key is built in,
    immutable, empty or untrimmed. *)
Record schema_wf {U : UnicodeTables} (s : ProfileSchema) : Prop := {
  swf_builtin : builtinFields ⊆ s;
  swf_declared name f :
    s !! name = Some f → builtinFields !! name = None →
    immutable f = false ∧ builtin f = false ∧ name ≠ [] ∧ ∃ raw, name = TrimSpace raw;
}.

(** The configuration text of a field. *)
Definition type_name (ty : profileValueType) : bytes :=
  match ty with
  | profileTypeString => B "string"
  | profileTypeNumber => B "number"
  | profileTypeBool => B "bool"
  end.
Definition visibility_name (p : bool) : bytes := if p then B "private" else B "public".
Definition print_field (nf : bytes * profileField) : bytes :=
  nf.1 ++ B ":" ++ type_name (valueType nf.2) ++ B ":" ++ visibility_name (private nf.2).

(** A field that a configuration can declare. *)
Definition declarable (nf : bytes * profileField) : Prop :=
  idPattern nf.1 = true ∧ builtinFields !! nf.1 = None ∧ immutable nf.2 = false ∧ builtin nf.2 = false.

Section Schema.
Context {U : UnicodeTables}.

Lemma builtinFields_register : builtinFields !! ProfileKeyRegister = Some (ProfileField profileTypeNumber false true true).
Proof. done. Qed.

Lemma declare_inv fields name type visibility s :
  declare fields name type visibility = inr s →
  ∃ ty p, fields !! TrimSpace name = None ∧ s = <[TrimSpace name := ProfileField ty p false false]> fields.
Proof.
  unfold declare. destruct (fields !! TrimSpace name) eqn:E; [done |].
  destruct (field_type type); [| done]. destruct visibility as [v |].
  - destruct (field_visibility v); [| done]. intros [= <-]. eauto.
  - intros [= <-]. eauto.
Qed.

Definition blank (entry : bytes) : Prop := TrimSpace entry = [].
#[export] Instance blank_dec entry : Decision (blank entry).
Proof. unfold blank. apply _. Defined.

Lemma parse_entry_inv fields entry s :
  parse_entry fields entry = inr s →
  (blank entry ∧ s = fields) ∨
  (¬ blank entry ∧ ∃ raw ty p, TrimSpace raw ≠ [] ∧ fields !! TrimSpace raw = None ∧
     s = <[TrimSpace raw := ProfileField ty p false false]> fields).
Proof.
  unfold parse_entry, blank. case_decide as Hb; [intros [= <-]; by left |]. intros H. right.
  split; [done |].
  destruct (Split _ _) as [| name [| type [| v [| ? ?]]]]; try done; cbv zeta in H;
    (case_decide as Hn; [done |]); apply declare_inv in H as (ty & p & Hnone & ->); eauto 10.
Qed.

Lemma parse_entries_inv fields es s :
  parse_entries fields es = inr s → schema_wf fields →
  schema_wf s ∧ size s = (size fields + length (filter (λ e, ¬ blank e) es))%nat.
Proof.
  revert fields. induction es as [| e es IH]; intros fields H Hwf; simpl in H.
  { injection H as ->. rewrite filter_nil. simpl. split; [done | lia]. }
  destruct (parse_entry fields e) as [| g] eqn:E; [done |].
  rewrite filter_cons. apply parse_entry_inv in E as [[Hb ->] | (Hb & raw & ty & p & Hne & Hnone & ->)].
  { rewrite decide_False by auto. by apply IH. }
  rewrite decide_True by done.
  apply IH in H as [Hs Hsz].
  - split; [done |]. rewrite Hsz, map_size_insert_None by done. simpl. lia.
  - destruct Hwf as [Hsub Hdecl]. constructor.
    + transitivity fields; [done |]. by apply insert_subseteq.
    + intros name f [[<- <-] | [_ Hf]]%lookup_insert_Some; [eauto |]. by apply Hdecl.
Qed.

Lemma builtin_wf : schema_wf builtinFields.
Proof. constructor; [done |]. intros name f H1 H2. congruence. Qed.

(** Whatever ALLOWED_PROFILE_KEY says, a schema that parses has both
    built-in keys exactly as the server declares them ([register] immutable),
    declares no other immutable key, trims every name, and has one key per
    non-blank entry: no entry is dropped or overwrites another. *)
Theorem ParseProfileSchema_wf raw s :
  ParseProfileSchema raw = inr s →
  schema_wf s ∧ Len s = (2 + length (filter (λ e, ¬ blank e) (Split raw ","%char)))%nat.
Proof.
  unfold ParseProfileSchema, Len. intros H. apply parse_entries_inv in H as [Hs Hsz]; [| apply builtin_wf].
  split; [done |]. by rewrite Hsz.
Qed.

Lemma plain_text s :
  Forall (λ c, id_char c = true ∨ c = ":"%char) s → TrimSpace s = s.
Proof.
  intros H. apply TrimSpace_id. eapply Forall_impl; [exact H |].
  intros c Hc. revert Hc. all_bytes c; vm_compute; intros [? | ?]; split; congruence.
Qed.

Lemma idPattern_chars s : idPattern s = true → s ≠ [] ∧ Forall (λ c, id_char c = true) s.
Proof.
  unfold idPattern. intros [H1%bool_decide_eq_true H2]%andb_true_iff. split; [done |].
  apply Forall_forall. intros c Hc. rewrite forallb_forall in H2. by apply H2, list_elem_of_In.
Qed.

Lemma id_char_not c d : id_char c = true → id_char d = false → c ≠ d.
Proof. intros H1 H2 ->. congruence. Qed.

Lemma idPattern_notin s d : idPattern s = true → id_char d = false → d ∉ s.
Proof.
  intros [_ H]%idPattern_chars Hd Hin. rewrite Forall_forall in H. apply H in Hin. congruence.
Qed.

Lemma type_name_plain ty : idPattern (type_name ty) = true.
Proof. by destruct ty. Qed.

Lemma field_type_name ty : field_type (type_name ty) = Some ty.
Proof.
  unfold field_type. rewrite plain_text.
  2: { eapply Forall_impl; [apply idPattern_chars, type_name_plain | by left]. }
  rewrite ToLower_id by (destruct ty; by apply (bool_decide_unpack _)).
  by destruct ty.
Qed.

Lemma field_visibility_name p : field_visibility (visibility_name p) = Some p.
Proof.
  unfold field_visibility. rewrite plain_text.
  2: { destruct p; by apply (bool_decide_unpack _). }
  rewrite ToLower_id by (destruct p; by apply (bool_decide_unpack _)).
  by destruct p.
Qed.

#[local] Arguments type_name : simpl never.
#[local] Arguments visibility_name : simpl never.

Lemma visibility_plain p : idPattern (visibility_name p) = true.
Proof. by destruct p. Qed.

Lemma id_text s : idPattern s = true → Forall (λ c, id_char c = true ∨ c = ":"%char) s.
Proof. intros [_ H]%idPattern_chars. eapply Forall_impl; [exact H | by left]. Qed.

Lemma print_field_text nf :
  declarable nf → Forall (λ c, id_char c = true ∨ c = ":"%char) (print_field nf) ∧ print_field nf ≠ [].
Proof.
  intros (Hid & _). unfold print_field. split.
  - rewrite !Forall_app. repeat split; try (by apply id_text; auto using type_name_plain, visibility_plain);
      (constructor; [by right | constructor]).
  - intros [_ ?]%app_nil. done.
Qed.

Lemma parse_entry_print fields nf :
  declarable nf → fields !! nf.1 = None → parse_entry fields (print_field nf) = inr (<[nf.1 := nf.2]> fields).
Proof.
  intros Hd Hnone. destruct (print_field_text nf Hd) as [Htext Hne].
  destruct nf as [name f], Hd as (Hid & _ & Him & Hbu). cbn [fst snd] in *.
  assert (TrimSpace name = name) as Htn by (by apply plain_text, id_text).
  unfold parse_entry. rewrite plain_text, decide_False by done.
  unfold print_field. cbn [fst snd]. change (B ":" ++ ?x) with (":"%char :: x).
  rewrite Split_app by (by apply idPattern_notin).
  change (B ":" ++ ?x) with (":"%char :: x).
  rewrite Split_app by (by apply idPattern_notin; [apply type_name_plain |]).
  rewrite Split_no_sep by (by apply idPattern_notin; [apply visibility_plain |]).
  rewrite Htn, decide_False by (by apply idPattern_chars).
  unfold declare. rewrite Htn, Hnone, field_type_name, field_visibility_name.
  destruct f as [ty p im bu]. simpl in *. by subst.
Qed.

Lemma parse_entries_print l fields :
  NoDup l.*1 → Forall declarable l → (∀ nf, nf ∈ l → fields !! nf.1 = None) →
  parse_entries fields (print_field <$> l) = inr (list_to_map l ∪ fields).
Proof.
  revert fields. induction l as [| nf l IH]; intros fields Hnd Hall Hnew.
  { simpl. by rewrite (left_id_L ∅ (∪)). }
  apply Forall_cons in Hall as [Hd Hall]. rewrite fmap_cons in Hnd. apply NoDup_cons in Hnd as [Hn Hnd].
  rewrite fmap_cons. cbn [parse_entries]. rewrite parse_entry_print by (auto; apply Hnew; by left).
  rewrite IH; [| done | done |].
  - f_equal. destruct nf as [name f]. cbn [list_to_map foldr]. simpl.
    rewrite <- insert_union_r by (by apply not_elem_of_list_to_map). by rewrite insert_union_l.
  - intros nf' Hin. rewrite lookup_insert_ne; [apply Hnew; by right |].
    intros Heq. apply Hn. rewrite Heq. by apply list_elem_of_fmap_2.
Qed.

(** C37: Round trip: printing any non-empty list of distinct declarable fields
    as ALLOWED_PROFILE_KEY and parsing it gives exactly these fields on top of
    the built-in ones. *)
Theorem ParseProfileSchema_print l :
  l ≠ [] → NoDup l.*1 → Forall declarable l →
  ParseProfileSchema (GoStrings.Join (print_field <$> l) ","%char) =
  inr (list_to_map l ∪ builtinFields).
Proof.
  intros Hne Hnd Hall. unfold ParseProfileSchema. rewrite Split_Join.
  - apply parse_entries_print; [done | done |]. intros nf Hin.
    rewrite Forall_forall in Hall. by apply Hall.
  - by destruct l.
  - apply Forall_fmap. eapply Forall_impl; [exact Hall |]. intros nf Hd Hin.
    destruct (print_field_text nf Hd) as [Ht _]. rewrite Forall_forall in Ht.
    by destruct (Ht _ Hin).
Qed.

End Schema.

(** ** Editing *)

(** The accepted entries in order, and the rejected keys in order. *)
Definition accepted (schema : ProfileSchema) (e : profileEntry) : option (bytes * json) :=
  match pe_Key e with
  | JString key => if accepts schema key (pe_Value e) then Some (key, pe_Value e) else None
  | _ => None
  end.
Definition rejected (schema : ProfileSchema) (e : profileEntry) : option json :=
  match accepted schema e with Some _ => None | None => Some (pe_Key e) end.

Lemma collect_spec schema content :
  collect schema content =
  (omap (rejected schema) content, list_to_map (reverse (omap (accepted schema) content))).
Proof.
  unfold collect. induction content as [| e content IH] using rev_ind; [done |].
  rewrite foldl_snoc, IH. rewrite !omap_app, reverse_app. unfold collect_step, rejected, accepted.
  simpl. destruct (pe_Key e); simpl; rewrite ?app_nil_r; try done.
  case_match; simpl; by rewrite ?app_nil_r.
Qed.

Lemma collect_accepts schema content key v :
  (collect schema content).2 !! key = Some v → accepts schema key v = true.
Proof.
  rewrite collect_spec. simpl. intros Hin%elem_of_list_to_map_2.
  apply elem_of_reverse, list_elem_of_omap in Hin as (e & _ & He). unfold accepted in He.
  destruct (pe_Key e); try done. case_match eqn:Ha; [| done]. by injection He as <- <-.
Qed.

(** What the record holds after an accepted request. *)
Definition edited (target : user) (updates : gmap bytes json) : user :=
  if decide (updates = ∅) then target else merge_profile target updates.

Lemma edited_same target updates : same_account target (edited target updates).
Proof. unfold edited. by case_decide. Qed.

Lemma edited_profile target updates key :
  default ∅ (Profile (edited target updates)) !! key =
  match updates !! key with Some v => Some v | None => default ∅ (Profile target) !! key end.
Proof.
  unfold edited. case_decide as H; [by rewrite H, lookup_empty |]. simpl.
  rewrite lookup_union. by destruct (updates !! key), (default ∅ (Profile target) !! key).
Qed.

Lemma updateProfile_inv {U : UnicodeTables} s w m uid token issuer updates r w' :
  store_ok s w m → updateProfile s uid token issuer updates w = (r, w') →
  w_now w' = w_now w ∧ others_untouched s uid (w_fs w) (w_fs w') ∧
  match r with
  | Ok _ =>
      ∃ target, m !! uid = Some target ∧
        VerifyAt issuer (time_Unix (w_now w)) token = Some (ID target) ∧
        store_ok s w' (<[uid := edited target updates]> m)
  | Err errProfileDenied =>
      w_fs w' = w_fs w ∧
      ∀ target, m !! uid = Some target → VerifyAt issuer (time_Unix (w_now w)) token ≠ Some (ID target)
  | Err _ => True
  end.
Proof.
  intros Hst H. unfold updateProfile in H. pose proof Hst as [Hrep Hok Hun].
  apply try_bind_inv in H as [(found & w1 & Hr & H) | (e & Hr & ->)];
    eapply readUser_inv in Hr as [Hq Hf]; [| done | done | | done | done]; pose proof Hq as (Hfs & Hn & _); cycle 1.
  { subst e. split; [done |]. split; [| done]. rewrite Hfs. apply others_untouched_refl. }
  subst found. destruct (m !! uid) as [target |] eqn:Hm.
  2: { st_inv. split; [done |]. split; [by rewrite Hfs |]. split; [done |]. by intros ? [=]. }
  rewrite (st_bind_eq _ _ _ _ _ (Verify_eq _ _ _)), Hn in H.
  case_decide as Hid.
  { st_inv. split; [done |]. split; [by rewrite Hfs |]. split; [done |]. by intros ? [= <-]. }
  pose proof (store_quiet _ _ _ _ Hst Hq) as Hst1.
  case_decide as He.
  - st_inv. split; [done |]. split; [by rewrite Hfs |].
    exists target. repeat (split; [done |]). unfold edited. rewrite decide_True by done.
    by rewrite insert_id.
  - replace (merge_profile target updates) with (edited target updates) in H
      by (unfold edited; by rewrite decide_False).
    pose proof (store_update s w1 m uid target _ r w' Hst1 Hm (edited_same target updates) H)
      as (Hn2 & _ & Hfr & Hr).
    split; [congruence |]. split; [by rewrite <- Hfs |]. destruct r as [[] | e]; [by exists target |].
    by destruct (writeUser_error _ _ _ _ _ H) as [-> | ->].
Qed.

Section Handlers.
Context {U : UnicodeTables}.

Lemma ProfileEditHandler_ok s w m issuer schema req rsp w' :
  store_ok s w m → ProfileEditHandler s issuer schema (Some req) w = (rsp, w') →
  (omap (rejected schema) (pq_Content req) ≠ [] ∧ w' = w ∧
     rsp = JSON 400 [gin_status 400; (B "invalid", JArray (omap (rejected schema) (pq_Content req)))]) ∨
  (omap (rejected schema) (pq_Content req) = [] ∧
     ∃ r, updateProfile s (pq_UID req) (pq_Token req) issuer (collect schema (pq_Content req)).2 w = (r, w') ∧
       rsp = match r with Ok _ => reply 200 | Err errProfileDenied => reply 400 | Err _ => reply 500 end).
Proof.
  intros Hst H. unfold ProfileEditHandler in H. rewrite collect_spec in *. cbn [snd].
  case_decide as Hinv.
  - st_inv. by left.
  - right. split; [done |].
    apply st_bind_inv in H as (r & w1 & Hr & H). st_inv. exists r. split; [done |].
    by destruct r as [| []].
Qed.

(** On a healthy system the owner's edit goes through. *)
Lemma ProfileEditHandler_healthy s w m issuer schema req target :
  store_ok s w m → healthy w → m !! pq_UID req = Some target →
  VerifyAt issuer (time_Unix (w_now w)) (pq_Token req) = Some (ID target) →
  omap (rejected schema) (pq_Content req) = [] →
  ∃ f, ProfileEditHandler s issuer schema (Some req) w = (reply 200, set_fs f w) ∧
    store_ok s (set_fs f w) (<[pq_UID req := edited target (collect schema (pq_Content req)).2]> m).
Proof.
  intros Hst Hh Hm Hv Hrej. pose proof Hst as [Hrep Hok _].
  unfold ProfileEditHandler. rewrite collect_spec, Hrej. cbn [snd]. rewrite decide_False by (intros H; done).
  set (updates := list_to_map _). unfold updateProfile, edited.
  unfold mbind at 1, st_bind at 1.
  rewrite (try_bind_ok _ _ _ _ _ (readUser_healthy _ _ _ (pq_UID req) Hrep Hok Hh)), Hm.
  rewrite (st_bind_eq _ _ _ _ _ (Verify_eq _ _ _)), Hv, decide_False by (intros H; done).
  case_decide as Hu.
  - exists (w_fs w). rewrite set_fs_id, insert_id by done. by split.
  - destruct (store_update_healthy s w m (pq_UID req) target (merge_profile target updates))
      as (f & Hw & Hst'); [done .. |].
    exists f. rewrite Hw. by split.
Qed.

(** C12: A profile edit is all or nothing.  With a rejected entry the answer is
    400 with exactly the rejected keys in request order, and nothing is even
    read; otherwise 200 means the token is valid for the account of that UID
    and its profile now holds the updates, 400 that it is not, with nothing
    changed, and 500 that the system failed.  No other account's record is
    ever touched. *)
Theorem ProfileEditHandler_correct s w m issuer schema req rsp w' :
  store_ok s w m → ProfileEditHandler s issuer schema (Some req) w = (rsp, w') →
  let invalid := omap (rejected schema) (pq_Content req) in
  let updates := (collect schema (pq_Content req)).2 in
  others_untouched s (pq_UID req) (w_fs w) (w_fs w') ∧
  ((invalid ≠ [] ∧ w' = w ∧ rsp = JSON 400 [gin_status 400; (B "invalid", JArray invalid)]) ∨
   (invalid = [] ∧ rsp = reply 200 ∧ ∃ target,
      m !! pq_UID req = Some target ∧
      VerifyAt issuer (time_Unix (w_now w)) (pq_Token req) = Some (ID target) ∧
      store_ok s w' (<[pq_UID req := edited target updates]> m)) ∨
   (invalid = [] ∧ rsp = reply 400 ∧ w_fs w' = w_fs w ∧
      ∀ target, m !! pq_UID req = Some target →
        VerifyAt issuer (time_Unix (w_now w)) (pq_Token req) ≠ Some (ID target)) ∨
   (invalid = [] ∧ rsp = reply 500)).
Proof.
  intros Hst H. cbv zeta. eapply ProfileEditHandler_ok in H; [| done].
  destruct H as [(Hne & -> & ->) | (Hemp & r & Hr & ->)].
  - split; [apply others_untouched_refl |]. by left.
  - eapply updateProfile_inv in Hr as (_ & Hfr & Hr); [| done]. split; [done |]. right.
    destruct r as [[] | e]; [left; by split |].
    destruct (decide (e = errProfileDenied)) as [-> |]; [right; left; by split |].
    right; right. split; [done |]. by destruct e.
Qed.

(** What an edit can change: after any successful edit under a schema that
    came from the configuration, the account keeps its ID, e-mail address,
    password, UID, second factor and registration time, and every profile
    key that differs is one the schema lets clients write with the type it
    now has. *)
Theorem edit_frame schema raw content target :
  ParseProfileSchema raw = inr schema →
  let u := edited target (collect schema content).2 in
  u = with_profile target (Profile u) ∧
  default ∅ (Profile u) !! ProfileKeyRegister = default ∅ (Profile target) !! ProfileKeyRegister ∧
  ∀ key, default ∅ (Profile u) !! key ≠ default ∅ (Profile target) !! key →
    ∃ field v, schema !! key = Some field ∧ immutable field = false ∧
      default ∅ (Profile u) !! key = Some v ∧ type_matches (valueType field) v = true.
Proof.
  intros H. cbv zeta. apply parse_entries_inv in H as [[Hsub _] _]; [| apply builtin_wf]. split.
  { unfold edited. case_decide; [by destruct target | done]. }
  assert (∀ key v, (collect schema content).2 !! key = Some v →
    ∃ field, schema !! key = Some field ∧ immutable field = false ∧
      type_matches (valueType field) v = true) as Hall.
  { intros key v Hv%collect_accepts. unfold accepts in Hv.
    destruct (schema !! key) as [field |]; [| done]. destruct (immutable field) eqn:Him; [done |].
    by exists field. }
  setoid_rewrite edited_profile. split.
  - destruct (_ !! ProfileKeyRegister) as [v |] eqn:E; [| done].
    apply Hall in E as (field & Hf & Him & _).
    eapply lookup_weaken in Hsub; [| exact builtinFields_register].
    pose proof (eq_trans (eq_sym Hf) Hsub) as [= ->]. done.
  - intros key Hne. destruct ((collect schema content).2 !! key) as [v |] eqn:E; [| done].
    apply Hall in E as (field & ? & ? & ?). by exists field, v.
Qed.

(** ** Types *)

(** Every stored key is declared, and its value has the declared type. *)
Definition typed (schema : ProfileSchema) (u : user) : Prop :=
  ∀ key v, default ∅ (Profile u) !! key = Some v →
    ∃ field, schema !! key = Some field ∧ type_matches (valueType field) v = true.

Lemma typed_edited schema target content :
  typed schema target → typed schema (edited target (collect schema content).2).
Proof.
  intros Ht key v. rewrite edited_profile. destruct (_ !! key) as [v' |] eqn:E; [| apply Ht].
  intros [= <-]. apply collect_accepts in E. unfold accepts in E.
  destruct (schema !! key) as [field |]; [| done]. destruct (immutable field); [done |]. by exists field.
Qed.

Lemma typed_new schema req uid hash now : builtinFields ⊆ schema → typed schema (new_user req uid hash now).
Proof.
  intros Hsub key v Hk. unfold new_user in Hk. cbn [Profile default id] in Hk.
  apply lookup_insert_Some in Hk as [[<- <-] | [_ [<- <-]%lookup_singleton_Some]].
  - by eexists; split; [apply (lookup_weaken _ _ _ _ builtinFields_register Hsub) |].
  - eexists. split; [refine (lookup_weaken _ _ _ _ _ Hsub); reflexivity | done].
Qed.

(** C28: Profiles stay well-typed: with a schema that came from the
    configuration, once every stored profile holds only declared keys with
    values of their declared types, this is so again after every registration
    that answers and every edit that is confirmed, whatever system calls
    fail. *)
Theorem profiles_typed {Bc : Bcrypt} {Ap : AddressParser} s w m issuer schema raw :
  ParseProfileSchema raw = inr schema → store_ok s w m → uids_bounded m → map_Forall (λ _, typed schema) m →
  (∀ req out w', validateRegister req = 0 → register s req w = (Ok out, w') →
     ∃ m', store_ok s w' m' ∧ map_Forall (λ _, typed schema) m') ∧
  (∀ req w', ProfileEditHandler s issuer schema (Some req) w = (reply 200, w') →
     ∃ m', store_ok s w' m' ∧ map_Forall (λ _, typed schema) m').
Proof.
  intros Hraw Hst Hb Ht. apply parse_entries_inv in Hraw as [[Hsub _] _]; [| apply builtin_wf]. split.
  - intros req out w' Hv H. eapply register_step in H as (m' & Hspec & Hst'); [| done ..]. exists m'. split; [done |].
    destruct Hspec; [done | done |]. apply map_Forall_insert_2; [by apply typed_new | done].
  - intros req w' H. eapply ProfileEditHandler_ok in H; [| done].
    destruct H as [(_ & _ & H) | (_ & r & Hr & Hx)]; [discriminate H |].
    eapply updateProfile_inv in Hr as (_ & _ & Hr); [| done].
    destruct r as [[] | []]; try (discriminate Hx). destruct Hr as (target & Hm & _ & Hst'). eexists. split; [exact Hst' |].
    apply map_Forall_insert_2; [| done]. apply typed_edited. by apply (Ht _ _ Hm).
Qed.

(** ** Viewing *)

Lemma json_object_filter schema auth u key v :
  json_field key (map_to_list (visible_profile schema auth u)) = Some v ↔
  default ∅ (Profile u) !! key = Some v ∧ visible schema key auth = true.
Proof.
  rewrite <- json_map_lookup, json_map_to_list. unfold visible_profile.
  by rewrite map_lookup_filter_Some.
Qed.

Lemma owner_view_eq issuer token target w :
  owner_view issuer token target w =
  (bool_decide (token ≠ [] ∧ VerifyAt issuer (time_Unix (w_now w)) token = Some (ID target)), w).
Proof.
  unfold owner_view. case_decide as Ht.
  - rewrite bool_decide_false by naive_solver. done.
  - rewrite (st_bind_eq _ _ _ _ _ (Verify_eq _ _ _)). unfold mret, st_ret. f_equal.
    apply bool_decide_ext. naive_solver.
Qed.

(** C18: A profile view shows exactly what the schema allows: the content of a
    200 answer has a key if and only if the account's profile has it with
    that value, the schema declares it, and it is public or the request
    carries a valid token of that very account.  Viewing changes nothing. *)
Theorem ProfileViewHandler_correct s w m issuer schema req rsp w' :
  store_ok s w m → ProfileViewHandler s issuer schema (Some req) w = (rsp, w') →
  w_fs w' = w_fs w ∧
  ((∃ target content, m !! pv_UID req = Some target ∧
      rsp = JSON 200 [gin_status 200; (B "content", JObject content)] ∧
      ∀ key v, json_field key content = Some v ↔
        default ∅ (Profile target) !! key = Some v ∧
        ∃ field, schema !! key = Some field ∧
          (private field = false ∨
           pv_Token req ≠ [] ∧
           VerifyAt issuer (time_Unix (w_now w)) (pv_Token req) = Some (ID target))) ∨
   (m !! pv_UID req = None ∧ rsp = reply 400) ∨
   rsp = reply 500).
Proof.
  intros [Hrep Hok Hun] H. unfold ProfileViewHandler in H.
  apply st_bind_inv in H as (r & w1 & Hr & H). eapply readUser_inv in Hr as [(Hfs & Hn & _) Hf]; [| done ..].
  destruct r as [[target |] | e]; [| st_inv; split; [done | right; left; done] | st_inv; split; [done | by right; right]].
  rewrite (st_bind_eq _ _ _ _ _ (owner_view_eq _ _ _ _)) in H. st_inv. split; [done |]. left.
  exists target. eexists. split; [done |]. split; [done |]. intros key v.
  rewrite json_object_filter, Hn. unfold visible. destruct (schema !! key) as [field |]; [| naive_solver].
  rewrite orb_true_iff, negb_true_iff, bool_decide_eq_true. naive_solver.
Qed.

(** A view takes no lock.  [os.WriteFile] truncates the record before it
    writes it; a view that comes in between, while a registered user's profile
    is being edited, answers with an internal error. *)
Theorem view_during_write s w issuer schema req :
  healthy w → 1 <= pv_UID req →
  let w' := set_fs (<[userPath s (pv_UID req) := File (Raw [])]> (w_fs w)) w in
  ProfileViewHandler s issuer schema (Some req) w' = (reply 500, w').
Proof.
  intros Hh Hu w'.
  assert (os_ReadFile (userPath s (pv_UID req)) w' = (Ok (Raw []), w')) as Hr.
  { apply os_ReadFile_ok; [done |]. unfold w'. cbn [w_fs set_fs]. by rewrite file_in_insert, decide_True. }
  assert (readUser s (pv_UID req) w' = (Err ErrUnmarshal, w')) as Hu'.
  { unfold readUser. rewrite (proj2 (Z.ltb_ge _ 1)) by done. by rewrite (st_bind_eq _ _ _ _ _ Hr). }
  unfold ProfileViewHandler. by rewrite (st_bind_eq _ _ _ _ _ Hu').
Qed.

(** Edit, then view: after a successful edit on a healthy system the owner
    sees, under the same token, the last value sent for every key of the
    request. *)
Theorem edit_then_view s w m issuer schema req w1 :
  store_ok s w m → healthy w → healthy w1 →
  ProfileEditHandler s issuer schema (Some req) w = (reply 200, w1) →
  pq_Token req ≠ [] →
  ∃ content,
    ProfileViewHandler s issuer schema (Some (ProfileViewRequest (pq_UID req) (pq_Token req))) w1 =
      (JSON 200 [gin_status 200; (B "content", JObject content)], w1) ∧
    ∀ key v, (collect schema (pq_Content req)).2 !! key = Some v → json_field key content = Some v.
Proof.
  intros Hst Hh Hh1 H Htok. eapply ProfileEditHandler_ok in H; [| done].
  destruct H as [(_ & _ & Hx) | (_ & r & Hr & Hrsp)]; [done |].
  assert (r = Ok tt) as -> by (by destruct r as [[] | []]).
  eapply updateProfile_inv in Hr as (Hn & _ & target & Hm & Hv & [Hrep Hok Hun]); [| done].
  unfold ProfileViewHandler. cbn [pv_UID pv_Token].
  rewrite (st_bind_eq _ _ _ _ _ (readUser_healthy _ _ _ (pq_UID req) Hrep Hok Hh1)).
  rewrite lookup_insert_eq, (st_bind_eq _ _ _ _ _ (owner_view_eq _ _ _ _)).
  rewrite Hn, (proj1 (proj2 (edited_same target _))), Hv, bool_decide_true by done.
  eexists. split; [done |]. intros key v Hk. apply json_object_filter. split.
  - by rewrite edited_profile, Hk.
  - apply collect_accepts in Hk. unfold accepts in Hk. unfold visible. by destruct (schema !! key).
Qed.

End Handlers.

(** ** Witnesses *)

Definition config_text : bytes := B "bio:string, age : Number ,phone:string:private,".
Definition config_schema : ProfileSchema :=
  match ParseProfileSchema config_text with inr s => s | inl _ => ∅ end.

Lemma config_parses : ParseProfileSchema config_text = inr config_schema.
Proof.
  assert ((if ParseProfileSchema config_text is inr _ then true else false) = true) as H by (vm_compute; reflexivity).
  unfold config_schema. by destruct (ParseProfileSchema config_text).
Qed.

Lemma ParseProfileSchema_wf_witness : schema_wf config_schema ∧ Len config_schema = 5%nat.
Proof.
  destruct (ParseProfileSchema_wf config_text config_schema config_parses) as [Hs Hl].
  split; [exact Hs |]. rewrite Hl. by vm_compute.
Defined.

Definition two_fields : list (bytes * profileField) :=
  [(B "bio", ProfileField profileTypeString false false false);
   (B "phone", ProfileField profileTypeNumber true false false)].

Lemma ParseProfileSchema_print_witness :
  ParseProfileSchema (B "bio:string:public,phone:number:private") =
  inr (list_to_map two_fields ∪ builtinFields).
Proof.
  apply (ParseProfileSchema_print two_fields).
  - done.
  - by apply (bool_decide_unpack _).
  - by repeat constructor.
Defined.

(** Alice edits her name and adds a private phone number. *)
Definition alice_token : bytes := IssueAt issuer (time_Unix new_year) (B "alice_1").
Definition alice_edit : profileEditRequest :=
  ProfileEditRequest 1 alice_token
    [ProfileEntry (JString (B "username")) (JString (B "Al"));
     ProfileEntry (JString (B "phone")) (JString (B "555"))].
Definition edit_out : response * world := ProfileEditHandler store issuer config_schema (Some alice_edit) two_world.

#[local] Strategy expand [edit_out].

Lemma edit_out_status : edit_out.1 = reply 200.
Proof. vm_compute. reflexivity. Qed.

Lemma edit_out_eq : edit_out = (reply 200, edit_out.2).
Proof. rewrite <- edit_out_status. apply surjective_pairing. Qed.

Lemma ProfileEditHandler_correct_witness :
  ∃ target, two_users !! 1 = Some target ∧
    store_ok store edit_out.2 (<[1 := edited target (collect config_schema (pq_Content alice_edit)).2]> two_users).
Proof.
  destruct (ProfileEditHandler_correct store two_world two_users issuer config_schema alice_edit _ _
    (proj1 two_world_ok) edit_out_eq) as [_ [(_ & _ & Hx) | [(_ & _ & target & Hm & _ & Hok) | [(_ & Hx & _) | (_ & Hx)]]]].
  - discriminate Hx.
  - exists target. split; [exact Hm | exact Hok].
  - discriminate Hx.
  - discriminate Hx.
Defined.

Lemma edit_frame_witness :
  let u := edited alice (collect config_schema (pq_Content alice_edit)).2 in
  u = with_profile alice (Profile u) ∧
  default ∅ (Profile u) !! ProfileKeyRegister = default ∅ (Profile alice) !! ProfileKeyRegister.
Proof.
  destruct (edit_frame config_schema config_text (pq_Content alice_edit) alice config_parses)
    as (H1 & H2 & _). split; [exact H1 | exact H2].
Defined.

Lemma profiles_typed_witness :
  ∃ m', store_ok store edit_out.2 m' ∧ map_Forall (λ _, typed config_schema) m'.
Proof.
  destruct (profiles_typed store two_world two_users issuer config_schema config_text config_parses (proj1 two_world_ok) two_users_bounded)
    as [_ H]; [| apply (H alice_edit), edit_out_eq].
  assert (builtinFields ⊆ config_schema) as Hsub by (by apply (ParseProfileSchema_wf config_text)).
    apply map_Forall_insert_2; [by apply typed_new |]. intros uid u [_ <-]%lookup_singleton_Some. by apply typed_new.
Defined.

Definition view_out : response * world :=
  ProfileViewHandler store issuer config_schema (Some (ProfileViewRequest 2 alice_token)) edit_out.2.

#[local] Strategy expand [view_out].

(** Alice looks at Bob's profile: her token is not his. *)
Lemma ProfileViewHandler_correct_witness :
  ∃ content, view_out.1 = JSON 200 [gin_status 200; (B "content", JObject content)] ∧
    json_field (B "username") content = Some (JString (B "Bob")).
Proof.
  destruct (ProfileEditHandler_correct_witness) as (target & [= <-] & Hok).
  destruct (ProfileViewHandler_correct store edit_out.2 _ issuer config_schema
    (ProfileViewRequest 2 alice_token) _ _ Hok (surjective_pairing view_out))
    as [_ [(target & content & Hm & Hrsp & Hc) | [[Hx _] | Hx]]].
  - exists content. split; [exact Hrsp |]. apply Hc.
    rewrite lookup_insert_ne in Hm by done. injection Hm as <-. split; [reflexivity |].
    exists (ProfileField profileTypeString false false true). split; [vm_compute; reflexivity | by left].
  - discriminate Hx.
  - exfalso. assert (status view_out.1 = 200) as Hs by (vm_compute; reflexivity).
    rewrite Hx in Hs. discriminate Hs.
Defined.

Lemma edit_then_view_witness :
  ∃ content,
    ProfileViewHandler store issuer config_schema (Some (ProfileViewRequest 1 alice_token)) edit_out.2 =
      (JSON 200 [gin_status 200; (B "content", JObject content)], edit_out.2) ∧
    json_field (B "phone") content = Some (JString (B "555")).
Proof.
  destruct (edit_then_view store two_world two_users issuer config_schema alice_edit edit_out.2
    (proj1 two_world_ok) (proj2 two_world_ok)) as (content & H & Hall).
  - vm_compute. reflexivity.
  - exact edit_out_eq.
  - done.
  - exists content. split; [exact H |]. apply Hall. vm_compute. reflexivity.
Defined.
