(* ===== verification/Totp.v ===== *)
(** * Totp: second factor and recovery codes ([auth/totp.go])

    The handlers hold the store's lock while they look the user up and write
    the changed record later without it.  A handler is therefore a [proc]: a
    sequence of atomic segments, between which other requests may run.
    [serve] runs one request alone, [interleave] runs several under a
    schedule. *)

From S2P Require Import Prelude GoStrings Strconv Crypto World Accounts Token.

(** ** Requests as sequences of atomic segments *)

Inductive proc :=
| Respond (rsp : response)
| Atomic (segment : world → proc * world).

Fixpoint serve (p : proc) (w : world) : response * world :=
  match p with
  | Respond rsp => (rsp, w)
  | Atomic segment => match segment w with (p', w') => serve p' w' end
  end.

(** One segment of one request. *)
Definition advance (p : proc) : M proc := λ w,
  match p with
  | Respond _ => (p, w)
  | Atomic segment => segment w
  end.

(** The requests in flight, run segment by segment in the order of the schedule. *)
Fixpoint interleave (ps : list proc) (schedule : list nat) : M (list proc) :=
  match schedule with
  | [] => mret ps
  | i :: schedule =>
      match ps !! i with
      | None => interleave ps schedule
      | Some p => p' ← advance p; interleave (<[i := p']> ps) schedule
      end
  end.

(** ** Libraries *)

(** [github.com/pquerna/otp/totp].  [Generate] is given the account name and
    20 random bytes and yields the secret and the otpauth URL; [Validate]
    looks at the clock. *)
Class OTP := {
  totp_Generate : bytes → bytes → option (bytes * bytes);
  totp_Validate : bytes → bytes → Z → bool;
  Generate_secret account entropy secret url :
    totp_Generate account entropy = Some (secret, url) → secret ≠ [];
}.

Record totpSignRequest := TotpSignRequest { ts_Query : bytes; ts_Password : bytes }.
Record totpVerifyRequest := TotpVerifyRequest { tv_Query : bytes; tv_Password : bytes; tv_Code : bytes }.
Record totpUnsignRequest := TotpUnsignRequest { tu_Query : bytes; tu_Password : bytes }.
Record totpLoginRequest := TotpLoginRequest { tl_Query : bytes; tl_Code : bytes }.
Record recoveryCodeLoginRequest := RecoveryCodeLoginRequest { rl_Query : bytes; rl_RecoveryCode : bytes }.

Definition with_totp (u : user) (secret : bytes) (verified : bool) (codes : list bytes) : user :=
  User (ID u) (Email u) (Password u) (UID u) (Profile u) secret verified codes.

Section Totp.
Context {U : UnicodeTables} {Bc : Bcrypt} {Ot : OTP}.

(** ** Recovery codes *)

(** [raw[:4] + "-" + raw[4:8] + "-" + raw[8:12] + "-" + raw[12:]] of the
    first 16 characters. *)
Definition recovery_code (entropy : bytes) : bytes :=
  let raw := take 16 (ToUpper (base32_EncodeToString entropy)) in
  take 4 raw ++ B "-" ++ take 4 (drop 4 raw) ++ B "-" ++ take 4 (drop 8 raw) ++ B "-" ++ drop 12 raw.

Fixpoint recovery_codes (n : nat) : M (result (list bytes)) :=
  match n with
  | O => mret (Ok [])
  | S n =>
      entropy ←? rand_Read 10;
      codes ←? recovery_codes n;
      mret (Ok (recovery_code entropy :: codes))
  end.

Definition generateRecoveryCodes : M (result (list bytes)) := recovery_codes 10.

(** ** Handlers *)

Definition write_then (s : UserStore) (u : user) (rsp : response) : M proc :=
  r ← writeUser s u;
  mret (Respond (match r with Ok _ => rsp | Err _ => reply 500 end)).

Definition TotpSignHandler (s : UserStore) (body : option totpSignRequest) : proc :=
  match body with
  | None => Respond (reply 400)
  | Some req =>
      if decide (ts_Query req = [] ∨ ts_Password req = []) then Respond (reply 400)
      else Atomic (
        found ← verifyPassword s (ts_Query req) (ts_Password req);
        mret (match found with
        | None => Respond (reply 400)
        | Some target =>
            if TOTPVerified target then Respond (reply_err 400 1)
            else Atomic (
              entropy ← rand_Read 20;
              match (match entropy with Ok e => totp_Generate (ID target) e | Err _ => None end) with
              | None => mret (Respond (reply 500))
              | Some (secret, url) =>
                  write_then s (with_totp target secret false [])
                    (JSON 200 [gin_status 200; (B "otpauth_url", JString url)])
              end)
        end))
  end.

Definition TotpVerifyHandler (s : UserStore) (body : option totpVerifyRequest) : proc :=
  match body with
  | None => Respond (reply 400)
  | Some req =>
      if decide (tv_Query req = [] ∨ tv_Password req = [] ∨ tv_Code req = []) then Respond (reply 400)
      else Atomic (
        found ← verifyPassword s (tv_Query req) (tv_Password req);
        mret (match found with
        | None => Respond (reply 400)
        | Some target =>
            if decide (TOTPSecret target = [] ∨ TOTPVerified target = true) then Respond (reply 400)
            else Atomic (
              now ← Now;
              if negb (totp_Validate (tv_Code req) (TOTPSecret target) now)
              then write_then s (with_totp target [] false []) (reply 400)
              else
                codes ← generateRecoveryCodes;
                match codes with
                | Err _ => mret (Respond (reply 500))
                | Ok recoveryCodes =>
                    write_then s (with_totp target (TOTPSecret target) true recoveryCodes)
                      (JSON 200 [gin_status 200; (B "recovery_codes", JArray (JString <$> recoveryCodes))])
                end)
        end))
  end.

Definition TotpUnsignHandler (s : UserStore) (body : option totpUnsignRequest) : proc :=
  match body with
  | None => Respond (reply 400)
  | Some req =>
      if decide (tu_Query req = [] ∨ tu_Password req = []) then Respond (reply 400)
      else Atomic (
        found ← verifyPassword s (tu_Query req) (tu_Password req);
        mret (match found with
        | None => Respond (reply 400)
        | Some target =>
            if decide (TOTPSecret target = []) then Respond (reply_err 400 2)
            else Atomic (write_then s (with_totp target [] false []) (reply 200))
        end))
  end.

(** The look-up both login handlers start with. *)
Definition find_query (s : UserStore) (query : bytes) : M (result (option user)) :=
  users ←? loadUsers s;
  mret (Ok (List.find (matches_query query) users)).

Definition TotpLoginHandler (s : UserStore) (issuer : TokenIssuer) (body : option totpLoginRequest) : proc :=
  match body with
  | None => Respond (reply 400)
  | Some req =>
      if decide (tl_Query req = [] ∨ tl_Code req = []) then Respond (reply 400)
      else Atomic (
        found ← find_query s (tl_Query req);
        mret (match found with
        | Err _ => Respond (reply 500)
        | Ok None => Respond (reply 400)
        | Ok (Some target) =>
            if decide (TOTPVerified target = false ∨ TOTPSecret target = []) then Respond (reply 400)
            else Atomic (
              now ← Now;
              if negb (totp_Validate (tl_Code req) (TOTPSecret target) now) then mret (Respond (reply 400))
              else
                token ← Issue issuer (ID target);
                mret (Respond (JSON 200 [gin_status 200; (B "token", JString token)])))
        end))
  end.

(** The loop over the stored codes: the first that matches is dropped. *)
Definition consume (codes : list bytes) (upperCode : bytes) : bool * list bytes :=
  foldl (λ acc code,
    if EqualFold code upperCode && negb acc.1 then (true, acc.2) else (acc.1, acc.2 ++ [code]))
    (false, []) codes.

Definition RecoveryCodeLoginHandler (s : UserStore) (issuer : TokenIssuer)
    (body : option recoveryCodeLoginRequest) : proc :=
  match body with
  | None => Respond (reply 400)
  | Some req =>
      if decide (rl_Query req = [] ∨ rl_RecoveryCode req = []) then Respond (reply 400)
      else Atomic (
        found ← find_query s (rl_Query req);
        mret (match found with
        | Err _ => Respond (reply 500)
        | Ok None => Respond (reply 400)
        | Ok (Some target) =>
            if decide (TOTPVerified target = false ∨ RecoveryCodes target = []) then Respond (reply 400)
            else
              let '(found, newCodes) := consume (RecoveryCodes target) (ToUpper (rl_RecoveryCode req)) in
              if negb found then Respond (reply 400)
              else Atomic (
                r ← writeUser s (with_totp target (TOTPSecret target) (TOTPVerified target) newCodes);
                match r with
                | Err _ => mret (Respond (reply 500))
                | Ok _ =>
                    token ← Issue issuer (ID target);
                    mret (Respond (JSON 200 [gin_status 200; (B "token", JString token)]))
                end)
        end))
  end.

End Totp.

(** ** The requests of this file as one type *)

Inductive totp_request :=
| Sign (body : totpSignRequest)
| VerifyTotp (body : totpVerifyRequest)
| Unsign (body : totpUnsignRequest)
| TotpLogin (body : totpLoginRequest)
| RecoveryLogin (body : recoveryCodeLoginRequest).

Definition handle {U : UnicodeTables} {Bc : Bcrypt} {Ot : OTP} (s : UserStore) (issuer : TokenIssuer)
    (req : totp_request) : proc :=
  match req with
  | Sign b => TotpSignHandler s (Some b)
  | VerifyTotp b => TotpVerifyHandler s (Some b)
  | Unsign b => TotpUnsignHandler s (Some b)
  | TotpLogin b => TotpLoginHandler s issuer (Some b)
  | RecoveryLogin b => RecoveryCodeLoginHandler s issuer (Some b)
  end.
