(* ===== verification/TotpSpec.v ===== *)
(** * TotpSpec: what the second factor promises

    Served one at a time, the handlers implement a three-state machine per
    account (off, pending, active) and every recovery code works once.  Run
    concurrently they do not: the last section shows what interleaving
    breaks. *)

From S2P Require Import Prelude GoStrings Strconv Crypto World WorldFacts Accounts AccountsFacts Token Profile Totp Fixtures AccountsSpec TokenSpec ProfileSpec.

(** ** Recovery codes *)

(** The base 32 alphabet. *)
Definition base32_class (c : ascii) : bool :=
  is_upper (code c) || (50 <=? code c) && (code c <=? 55).

Lemma base32_char_class d : 0 <= d < 32 → base32_class (base32_char d) = true.
Proof.
  intros H. unfold base32_char, base32_class, is_upper.
  rewrite code_chr by (case_match; lia). case_match; lia.
Qed.

Lemma base32_group_class a b c d e :
  0 <= a < 256 → 0 <= b < 256 → 0 <= c < 256 → 0 <= d < 256 → 0 <= e < 256 →
  Forall (λ x, base32_class x = true) (base32_group a b c d e).
Proof.
  intros. unfold base32_group. simpl. repeat constructor; apply base32_char_class; lia_div.
Qed.

Section Codes.
Context {U : UnicodeTables}.

Lemma ToUpper_id s :
  Forall (λ c, base32_class c = true) s → ToUpper s = s.
Proof.
  intros H. unfold ToUpper.
  assert (Forall (λ c, is_ascii c ∧ is_lower (code c) = false) s) as Hall.
  { eapply Forall_impl; [exact H |]. intros c. unfold base32_class, is_upper, is_lower, is_ascii.
    pose proof (code_range c). lia. }
  assert (Forall is_ascii s) as Ha by (eapply Forall_impl; [exact Hall | by intros c []]).
  rewrite runes_ascii by done. rewrite <- (encode_runes_ascii s) at 2 by done. f_equal.
  rewrite <- list_fmap_compose. apply list_fmap_ext. intros i c Hc. simpl.
  apply list_elem_of_lookup_2 in Hc. rewrite Forall_forall in Hall. destruct (Hall _ Hc) as [Hac Hu].
  pose proof (code_range c). unfold is_ascii in Hac. rewrite ToUpper_ascii by lia.
  unfold ascii_upper. by rewrite Hu.
Qed.

(** Four groups of four base 32 characters joined by dashes. *)
Definition recovery_format (code : bytes) : Prop :=
  ∃ g1 g2 g3 g4, code = g1 ++ B "-" ++ g2 ++ B "-" ++ g3 ++ B "-" ++ g4 ∧
    Forall (λ g, length g = 4%nat ∧ Forall (λ c, base32_class c = true) g) [g1; g2; g3; g4].

Lemma base32_ten entropy :
  length entropy = 10%nat →
  length (base32_EncodeToString entropy) = 16%nat ∧
  Forall (λ c, base32_class c = true) (base32_EncodeToString entropy).
Proof.
  intros H. do 10 (destruct entropy as [| ? entropy]; [done |]).
  destruct entropy; [| done]. split; [done |].
  unfold base32_EncodeToString. cbn [fmap list_fmap base32_codes]. rewrite app_nil_r.
  apply Forall_app; split; apply base32_group_class; apply code_range.
Qed.

Lemma recovery_code_format entropy : length entropy = 10%nat → recovery_format (recovery_code entropy).
Proof.
  intros [Hl Hc]%base32_ten. unfold recovery_code.
  rewrite ToUpper_id by done. set (raw := base32_EncodeToString entropy) in *. clearbody raw.
  rewrite (take_ge raw 16) by lia.
  exists (take 4 raw), (take 4 (drop 4 raw)), (take 4 (drop 8 raw)), (drop 12 raw). split; [done |].
  repeat constructor; rewrite ?length_take, ?length_drop, ?Hl; try done;
    repeat first [done | apply Forall_take | apply Forall_drop].
Qed.

Lemma recovery_codes_inv n w r w' :
  recovery_codes n w = (r, w') →
  w_fs w' = w_fs w ∧ w_now w' = w_now w ∧ w_faults w' = w_faults w ∧
  (length (w_rand w) <= length (w_rand w') + 10 * n)%nat ∧
  match r with
  | Ok codes => length codes = n ∧ Forall recovery_format codes
  | Err _ => (length (w_rand w) < 10 * n)%nat
  end.
Proof.
  revert w r w'. induction n as [| n IH]; intros w r w' H; simpl in H.
  { st_inv. repeat (split; [done || lia |]). done. }
  unfold rand_Read in H at 1. apply try_bind_inv in H as [(e & w1 & Hr & H) | (e & Hr & ->)];
    case_decide as Hlen; try discriminate; injection Hr as <- <-; [| cbn [w_fs w_now w_faults w_rand]; repeat (split; [done || lia |]); lia].
  apply try_bind_inv in H as [(codes & w2 & Hc & H) | (e & Hc & ->)];
    apply IH in Hc as (? & ? & ? & Hl & Hc); simpl in *; rewrite length_drop in Hl.
  - st_inv. destruct Hc as [<- Hf]. repeat (split; [done || lia |]). constructor; [| done].
    apply recovery_code_format. rewrite length_take. lia.
  - rewrite length_drop in Hc. repeat (split; [done || lia |]). lia.
Qed.

(** The loop drops the first stored code that matches, if one does. *)
Lemma consume_spec codes upper :
  (∃ l1 c l2, codes = l1 ++ c :: l2 ∧ EqualFold c upper = true ∧
     Forall (λ c, EqualFold c upper = false) l1 ∧ consume codes upper = (true, l1 ++ l2)) ∨
  (Forall (λ c, EqualFold c upper = false) codes ∧ consume codes upper = (false, codes)).
Proof.
  induction codes as [| x codes IH] using rev_ind; [right; by split |].
  unfold consume in *. rewrite foldl_snoc.
  destruct IH as [(l1 & c & l2 & -> & Hc & H1 & ->) | [Hall ->]]; cbn [fst snd].
  - left. exists l1, c, (l2 ++ [x]). rewrite andb_false_r. cbn [fst snd].
    rewrite <- !app_assoc. by repeat split.
  - destruct (EqualFold x upper) eqn:Hx; cbn [andb negb fst snd].
    + left. exists codes, x, []. by rewrite app_nil_r.
    + right. split; [| done]. apply Forall_app. by repeat constructor.
Qed.

End Codes.

(** ** The state machine of one account *)

Inductive totp_state := Off | Pending (secret : bytes) | Active (secret : bytes) (codes : list bytes).

(** The state a record encodes, when it encodes one. *)
Definition state_of (u : user) : option totp_state :=
  match TOTPVerified u, TOTPSecret u, RecoveryCodes u with
  | false, [], [] => Some Off
  | false, _ :: _, [] => Some (Pending (TOTPSecret u))
  | true, _ :: _, codes => Some (Active (TOTPSecret u) codes)
  | _, _, _ => None
  end.

(** The record of an account in a given state. *)
Definition encode_state (u : user) (st : totp_state) : user :=
  match st with
  | Off => with_totp u [] false []
  | Pending secret => with_totp u secret false []
  | Active secret codes => with_totp u secret true codes
  end.

Definition totp_ok (m : gmap Z user) : Prop := ∀ uid u, m !! uid = Some u → is_Some (state_of u).

Lemma state_of_Some u st : state_of u = Some st → encode_state u st = u.
Proof.
  destruct u as [? ? ? ? ? [| c secret] [] [| r codes]]; unfold state_of; simpl; intros [= <-]; done.
Qed.

Lemma state_of_Active u secret codes :
  secret ≠ [] → state_of (with_totp u secret true codes) = Some (Active secret codes).
Proof. by destruct secret. Qed.

Lemma state_of_Pending u secret : secret ≠ [] → state_of (with_totp u secret false []) = Some (Pending secret).
Proof. by destruct secret. Qed.

Lemma state_of_cases u st :
  state_of u = Some st →
  (st = Off ∧ TOTPSecret u = [] ∧ TOTPVerified u = false) ∨
  (st = Pending (TOTPSecret u) ∧ TOTPSecret u ≠ [] ∧ TOTPVerified u = false) ∨
  (st = Active (TOTPSecret u) (RecoveryCodes u) ∧ TOTPSecret u ≠ [] ∧ TOTPVerified u = true).
Proof.
  unfold state_of.
  destruct (TOTPVerified u), (TOTPSecret u), (RecoveryCodes u); intros [= <-]; naive_solver.
Qed.

Section Machine.
Context {U : UnicodeTables} {Bc : Bcrypt} {Ot : OTP}.

Definition token_reply (issuer : TokenIssuer) (now : Z) (u : user) : response :=
  JSON 200 [gin_status 200; (B "token", JString (IssueAt issuer (time_Unix now) (ID u)))].

(** The machine: what one request may do to the account [u], and the answer
    that goes with it. *)
Inductive totp_step (issuer : TokenIssuer) (now : Z) (u : user) :
    totp_request → totp_state → totp_state → response → Prop :=
| step_sign body st entropy secret url :
    credentials (ts_Query body) (ts_Password body) u = true →
    st = Off ∨ (∃ old, st = Pending old) → totp_Generate (ID u) entropy = Some (secret, url) →
    totp_step issuer now u (Sign body) st (Pending secret)
      (JSON 200 [gin_status 200; (B "otpauth_url", JString url)])
| step_verify body secret codes :
    credentials (tv_Query body) (tv_Password body) u = true →
    totp_Validate (tv_Code body) secret now = true →
    length codes = 10%nat → Forall recovery_format codes →
    totp_step issuer now u (VerifyTotp body) (Pending secret) (Active secret codes)
      (JSON 200 [gin_status 200; (B "recovery_codes", JArray (JString <$> codes))])
| step_verify_wrong body secret :
    credentials (tv_Query body) (tv_Password body) u = true →
    totp_Validate (tv_Code body) secret now = false →
    totp_step issuer now u (VerifyTotp body) (Pending secret) Off (reply 400)
| step_unsign body st :
    credentials (tu_Query body) (tu_Password body) u = true → st ≠ Off →
    totp_step issuer now u (Unsign body) st Off (reply 200)
| step_totp_login body secret codes :
    matches_query (tl_Query body) u = true → totp_Validate (tl_Code body) secret now = true →
    totp_step issuer now u (TotpLogin body) (Active secret codes) (Active secret codes)
      (token_reply issuer now u)
| step_recovery_login body secret l1 c l2 :
    matches_query (rl_Query body) u = true → EqualFold c (ToUpper (rl_RecoveryCode body)) = true →
    Forall (λ c, EqualFold c (ToUpper (rl_RecoveryCode body)) = false) l1 →
    totp_step issuer now u (RecoveryLogin body) (Active secret (l1 ++ c :: l2)) (Active secret (l1 ++ l2))
      (token_reply issuer now u).

(** A request without one of its fields. *)
Definition incomplete (req : totp_request) : Prop :=
  match req with
  | Sign b => ts_Query b = [] ∨ ts_Password b = []
  | VerifyTotp b => tv_Query b = [] ∨ tv_Password b = [] ∨ tv_Code b = []
  | Unsign b => tu_Query b = [] ∨ tu_Password b = []
  | TotpLogin b => tl_Query b = [] ∨ tl_Code b = []
  | RecoveryLogin b => rl_Query b = [] ∨ rl_RecoveryCode b = []
  end.

(** The account a request is about; the password is part of the question,
    where the request has one. *)
Definition concerns (req : totp_request) (u : user) : bool :=
  match req with
  | Sign b => credentials (ts_Query b) (ts_Password b) u
  | VerifyTotp b => credentials (tv_Query b) (tv_Password b) u
  | Unsign b => credentials (tu_Query b) (tu_Password b) u
  | TotpLogin b => matches_query (tl_Query b) u
  | RecoveryLogin b => matches_query (rl_Query b) u
  end.
Definition asks_password (req : totp_request) : Prop :=
  match req with Sign _ | VerifyTotp _ | Unsign _ => True | _ => False end.

Definition inactive (st : totp_state) : Prop := match st with Active _ _ => False | _ => True end.

(** The machine does not move in these states. *)
Inductive rejects (now : Z) : totp_request → totp_state → response → Prop :=
| rej_sign body secret codes : rejects now (Sign body) (Active secret codes) (reply_err 400 1)
| rej_verify body st : (∀ secret, st ≠ Pending secret) → rejects now (VerifyTotp body) st (reply 400)
| rej_unsign body : rejects now (Unsign body) Off (reply_err 400 2)
| rej_login body st : inactive st → rejects now (TotpLogin body) st (reply 400)
| rej_login_code body secret codes :
    totp_Validate (tl_Code body) secret now = false → rejects now (TotpLogin body) (Active secret codes) (reply 400)
| rej_recovery body st : inactive st → rejects now (RecoveryLogin body) st (reply 400)
| rej_recovery_code body secret codes :
    Forall (λ c, EqualFold c (ToUpper (rl_RecoveryCode body)) = false) codes →
    rejects now (RecoveryLogin body) (Active secret codes) (reply 400).

(** Why a request may be refused, and how.  [failing]: system calls fail;
    then a request with a password may not find its account. *)
Inductive refused (failing : Prop) (now : Z) (m : gmap Z user) (req : totp_request) : response → Prop :=
| ref_incomplete : incomplete req → refused failing now m req (reply 400)
| ref_unknown : ¬ incomplete req → (∀ uid u, m !! uid = Some u → concerns req u = false) → refused failing now m req (reply 400)
| ref_unread : failing → asks_password req → refused failing now m req (reply 400)
| ref_state uid u st rsp :
    ¬ incomplete req → m !! uid = Some u → concerns req u = true → state_of u = Some st → rejects now req st rsp →
    refused failing now m req rsp
| ref_no_secret uid u body entropy :
    req = Sign body → ¬ incomplete req → m !! uid = Some u → concerns req u = true → TOTPVerified u = false →
    totp_Generate (ID u) entropy = None → refused failing now m req (reply 500).

Lemma refused_mono (P Q : Prop) now m req rsp : (P → Q) → refused P now m req rsp → refused Q now m req rsp.
Proof.
  intros HPQ [].
  - by apply ref_incomplete.
  - by apply ref_unknown.
  - apply ref_unread; auto.
  - by eapply ref_state.
  - by eapply ref_no_secret.
Qed.

(** No more randomness is used than a request may use. *)
Definition rand_left (w w' : world) : Prop := (length (w_rand w) <= length (w_rand w') + 100)%nat.

(** What serving [req] may lead to: a move of the machine, a refusal with its
    reason, or, if a system call fails or there is no randomness, a 500. *)
Definition outcome (s : UserStore) (issuer : TokenIssuer) (m : gmap Z user) (req : totp_request)
    (w w' : world) (rsp : response) : Prop :=
  (healthy w → healthy w') ∧ rand_left w w' ∧
  ((∃ uid u st st', ¬ incomplete req ∧ m !! uid = Some u ∧ state_of u = Some st ∧
      totp_step issuer (w_now w) u req st st' rsp ∧ store_ok s w' (<[uid := encode_state u st']> m)) ∨
   (refused (¬ healthy w) (w_now w) m req rsp ∧ w_fs w' = w_fs w) ∨
   (rsp = reply 500 ∧ (¬ healthy w ∨ (length (w_rand w) < 100)%nat))).

Lemma encode_state_same u st : same_account u (encode_state u st).
Proof. by destruct st. Qed.

Lemma find_query_inv s w m q r w' :
  store_ok s w m → find_query s q w = (r, w') →
  quiet w w' ∧
  match r with
  | Ok (Some u) => (∃ uid, m !! uid = Some u) ∧ matches_query q u = true
  | Ok None => ∀ uid u, m !! uid = Some u → matches_query q u = false
  | Err _ => True
  end.
Proof.
  intros [Hrep _ _]. unfold find_query. intros [(us & w1 & Hl & H) | (e & Hl & ->)]%try_bind_inv;
    eapply loadUsers_inv in Hl as [Hq Hus]; try done.
  st_inv. split; [done |]. destruct (List.find _ _) as [u |] eqn:E.
  - apply find_Some in E as [Hin Hm]. split; [by eapply elem_of_listing in Hin | done].
  - intros uid u Hm. rewrite find_None in E. apply E. eapply elem_of_listing; [done | eauto].
Qed.

Lemma serve_segment seg (w : world) p w1 : seg w = (p, w1) → serve (Atomic seg) w = serve p w1.
Proof. intros H. simpl. by rewrite H. Qed.

(** The look-up segment changes nothing but the fault script. *)
Record looked_up (s : UserStore) (m : gmap Z user) (w w1 : world) : Prop := {
  lu_store : store_ok s w1 m;
  lu_fs : w_fs w1 = w_fs w;
  lu_now : w_now w1 = w_now w;
  lu_rand : w_rand w1 = w_rand w;
  lu_health : healthy w → healthy w1;
}.

Lemma looked_up_quiet s m w w1 : store_ok s w m → quiet w w1 → (healthy w → healthy w1) → looked_up s m w w1.
Proof. intros Hst Hq Hh. pose proof Hq as (? & ? & ?). split; [by eapply store_quiet | done ..]. Qed.

Lemma healthy_dec w : healthy w ∨ ¬ healthy w.
Proof. unfold healthy. destruct (w_faults w); [by left | by right]. Qed.

Lemma verifyPassword_step s w m q p r w1 :
  store_ok s w m → totp_ok m → verifyPassword s q p w = (r, w1) →
  looked_up s m w w1 ∧
  match r with
  | Some u => credentials q p u = true ∧ ∃ uid st, m !! uid = Some u ∧ state_of u = Some st
  | None => ¬ healthy w ∨ ∀ uid u, m !! uid = Some u → credentials q p u = false
  end.
Proof.
  intros Hst Hok H. pose proof (sok_rep _ _ _ Hst) as Hrep.
  assert (healthy w → r = List.find (credentials q p) (listing s (w_fs w)) ∧ w1 = w) as Hhealthy.
  { intros Hh. rewrite (verifyPassword_healthy _ _ _ _ _ Hrep Hh) in H. by injection H as <- <-. }
  eapply verifyPassword_inv in H as [Hq Hr]; [| apply Hst].
  split; [apply looked_up_quiet; [done .. |]; intros Hh; by rewrite (proj2 (Hhealthy Hh)) |].
  destruct r as [u |].
  - destruct (Hr _ eq_refl) as [[uid Hm] Hc]. split; [done |]. destruct (Hok _ _ Hm) as [st ?]. eauto.
  - destruct (healthy_dec w) as [Hh | ?]; [right | by left]. intros uid u Hm.
    destruct (Hhealthy Hh) as [Hnone%eq_sym _]. rewrite find_None in Hnone. apply Hnone. eapply elem_of_listing; [done | eauto].
Qed.

Lemma find_query_step s w m q r w1 :
  store_ok s w m → totp_ok m → find_query s q w = (r, w1) →
  looked_up s m w w1 ∧
  match r with
  | Ok (Some u) => matches_query q u = true ∧ ∃ uid st, m !! uid = Some u ∧ state_of u = Some st
  | Ok None => ∀ uid u, m !! uid = Some u → matches_query q u = false
  | Err _ => ¬ healthy w
  end.
Proof.
  intros Hst Hok H. pose proof (sok_rep _ _ _ Hst) as Hrep.
  assert (healthy w → (∃ o, r = Ok o) ∧ w1 = w) as Hhealthy.
  { intros Hh. unfold find_query in H. rewrite (try_bind_ok _ _ _ _ _ (loadUsers_healthy _ _ _ Hrep Hh)) in H.
    injection H as <- <-. eauto. }
  eapply find_query_inv in H as [Hq Hr]; [| done].
  split; [apply looked_up_quiet; [done .. |]; intros Hh; by rewrite (proj2 (Hhealthy Hh)) |].
  destruct r as [[u |] | e]; [| done |].
  - destruct Hr as [[uid Hm] Hc]. split; [done |]. destruct (Hok _ _ Hm) as [st ?]. eauto.
  - intros Hh. by destruct (Hhealthy Hh) as [[o ?] _].
Qed.

Lemma looked_up_same s m w : store_ok s w m → looked_up s m w w.
Proof. by split. Qed.

(** A refusal ends the request after the look-up. *)
Lemma outcome_refused s issuer m req w w' rsp :
  refused (¬ healthy w) (w_now w) m req rsp → looked_up s m w w' → outcome s issuer m req w w' rsp.
Proof. intros Hr [_ Hf _ Hrd Hh]. split; [done |]. split; [unfold rand_left; rewrite Hrd; lia |]. right. left. by split. Qed.

(** A write segment ends the request: with its answer and the new state, or
    with a 500. *)
Lemma write_then_outcome s issuer m req w w1 w' uid u st st' rsp rsp' :
  store_ok s w1 m → (healthy w → healthy w1) → rand_left w w1 → ¬ incomplete req → m !! uid = Some u → state_of u = Some st →
  totp_step issuer (w_now w) u req st st' rsp →
  (let '(p, w2) := write_then s (encode_state u st') rsp w1 in serve p w2) = (rsp', w') →
  outcome s issuer m req w w' rsp'.
Proof.
  intros Hst Hh Hl Hi Hm Hu Hstep. unfold write_then, mbind, st_bind, mret, st_ret.
  destruct (writeUser s (encode_state u st') w1) as [r w2] eqn:Hw. simpl.
  assert (healthy w1 → r = Ok tt ∧ healthy w2) as Hhealthy.
  { intros Hh1. destruct (store_update_healthy s w1 m uid u (encode_state u st') Hst Hm (encode_state_same _ _) Hh1) as (f & Hw' & _).
    rewrite Hw in Hw'. by injection Hw' as -> ->. }
  eapply store_update in Hw as (_ & Hrd & _ & Hr); [| done | done | apply encode_state_same].
  intros H. split; [| split].
  - intros Hw. injection H as _ <-. by apply Hhealthy, Hh.
  - injection H as _ <-. unfold rand_left in *. by rewrite Hrd.
  - destruct r; injection H as <- <-.
    + left. by exists uid, u, st, st'.
    + right; right. split; [done |]. left. intros Hw. by destruct (Hhealthy (Hh Hw)) as [? _].
Qed.

(** *** The handlers, one by one *)

Lemma sign_outcome s w m issuer body rsp w' :
  store_ok s w m → totp_ok m →
  serve (TotpSignHandler s (Some body)) w = (rsp, w') → outcome s issuer m (Sign body) w w' rsp.
Proof.
  intros Hst Hok H. unfold TotpSignHandler in H. case_decide as Hi.
  { injection H as <- <-. by apply outcome_refused, looked_up_same; [apply ref_incomplete |]. }
  cbn [serve] in H. unfold mbind at 1, st_bind at 1 in H.
  destruct (verifyPassword s _ _ w) as [r w1] eqn:Hv. cbn [mret st_ret] in H.
  eapply verifyPassword_step in Hv as (Hlu & Hr); [| done ..].
  destruct r as [u |].
  2: { injection H as <- <-. apply outcome_refused; [| done]. destruct Hr; [by apply ref_unread | by apply ref_unknown]. }
  destruct Hr as (Hc & uid & st & Hm & Hu).
  destruct (TOTPVerified u) eqn:Hver.
  { injection H as <- <-. apply outcome_refused; [| done]. eapply ref_state; [done .. |].
    apply state_of_cases in Hu as [(_ & _ & ?) | [(_ & _ & ?) | (-> & _)]]; [congruence .. | apply rej_sign]. }
  cbn [serve] in H. unfold mbind at 1, st_bind at 1 in H. destruct Hlu as [Hst1 Hf Hn Hrd Hh].
  destruct (rand_Read 20 w1) as [e w2] eqn:He.
  assert (w_fs w2 = w_fs w1 ∧ w_faults w2 = w_faults w1 ∧ (length (w_rand w1) <= length (w_rand w2) + 100)%nat ∧
    (∀ x, e = Err x → (length (w_rand w1) < 100)%nat)) as (Hf2 & Hft & Hl2 & Hx).
  { unfold rand_Read in He. case_decide; injection He as <- <-; cbn [w_fs w_faults w_rand]; rewrite ?length_drop;
      (repeat split); (done || lia || (intros; lia)). }
  assert (store_ok s w2 m) as Hst2 by (destruct Hst1; split; [by rewrite Hf2 | done | done]).
  assert (healthy w → healthy w2) as Hh2 by (unfold healthy in *; rewrite Hft; done).
  assert (rand_left w w2) as Hl by (unfold rand_left; rewrite <- Hrd; lia).
  destruct e as [entropy | x].
  2: { injection H as <- <-. split; [done |]. split; [done |]. right; right. split; [done |]. right. rewrite <- Hrd. by eapply Hx. }
  destruct (totp_Generate (ID u) entropy) as [[secret url] |] eqn:Hg.
  - eapply (write_then_outcome _ _ _ _ _ w2 _ uid u st (Pending secret)); [done | done | done | done | done | done | | exact H].
    eapply step_sign; [done | | done].
    apply state_of_cases in Hu as [(-> & _) | [(-> & _) | (_ & _ & ?)]]; [by left | by right; eexists | congruence].
  - injection H as <- <-. split; [done |]. split; [done |]. right; left. split; [by eapply ref_no_secret | congruence].
Qed.

Lemma verify_outcome s w m issuer body rsp w' :
  store_ok s w m → totp_ok m →
  serve (TotpVerifyHandler s (Some body)) w = (rsp, w') → outcome s issuer m (VerifyTotp body) w w' rsp.
Proof.
  intros Hst Hok H. unfold TotpVerifyHandler in H. case_decide as Hi.
  { injection H as <- <-. by apply outcome_refused, looked_up_same; [apply ref_incomplete |]. }
  cbn [serve] in H. unfold mbind at 1, st_bind at 1 in H.
  destruct (verifyPassword s _ _ w) as [r w1] eqn:Hv. cbn [mret st_ret] in H.
  eapply verifyPassword_step in Hv as (Hlu & Hr); [| done ..].
  destruct r as [u |].
  2: { injection H as <- <-. apply outcome_refused; [| done]. destruct Hr; [by apply ref_unread | by apply ref_unknown]. }
  destruct Hr as (Hc & uid & st & Hm & Hu).
  case_decide as Hd.
  { injection H as <- <-. apply outcome_refused; [| done]. eapply ref_state; [done .. |]. apply rej_verify. intros secret ->.
    apply state_of_cases in Hu as [(? & _) | [([= ->] & ? & ?) | (? & _)]]; [done | | done]. destruct Hd; congruence. }
  assert (st = Pending (TOTPSecret u)) as ->.
  { apply state_of_cases in Hu as [(_ & ? & _) | [(-> & _) | (_ & _ & ?)]]; naive_solver. }
  cbn [serve] in H. unfold mbind at 1, st_bind at 1, Now, gets in H. destruct Hlu as [Hst1 Hf Hn Hrd Hh]. rewrite Hn in H.
  assert (rand_left w w1) as Hl by (unfold rand_left; rewrite Hrd; lia).
  destruct (totp_Validate (tv_Code body) (TOTPSecret u) (w_now w)) eqn:Hval; cbn [negb] in H.
  - unfold mbind at 1, st_bind at 1 in H.
    destruct (generateRecoveryCodes w1) as [codes w2] eqn:Hg.
    apply recovery_codes_inv in Hg as (Hf2 & _ & Hft & Hl2 & Hcodes).
    assert (store_ok s w2 m) as Hst2 by (destruct Hst1; split; [by rewrite Hf2 | done | done]).
    assert (healthy w → healthy w2) as Hh2 by (unfold healthy in *; rewrite Hft; done).
    assert (rand_left w w2) as Hl' by (unfold rand_left; rewrite <- Hrd; lia).
    destruct codes as [codes |].
    + destruct Hcodes. eapply (write_then_outcome _ _ _ _ _ w2 _ uid u _ (Active (TOTPSecret u) codes));
        [done | done | done | done | done | done | | exact H]. by apply step_verify.
    + injection H as <- <-. split; [done |]. split; [done |]. right; right. split; [done |]. right. rewrite <- Hrd. lia.
  - eapply (write_then_outcome _ _ _ _ _ w1 _ uid u _ Off); [done | done | done | done | done | done | | exact H].
    by apply step_verify_wrong.
Qed.

Lemma unsign_outcome s w m issuer body rsp w' :
  store_ok s w m → totp_ok m →
  serve (TotpUnsignHandler s (Some body)) w = (rsp, w') → outcome s issuer m (Unsign body) w w' rsp.
Proof.
  intros Hst Hok H. unfold TotpUnsignHandler in H. case_decide as Hi.
  { injection H as <- <-. by apply outcome_refused, looked_up_same; [apply ref_incomplete |]. }
  cbn [serve] in H. unfold mbind at 1, st_bind at 1 in H.
  destruct (verifyPassword s _ _ w) as [r w1] eqn:Hv. cbn [mret st_ret] in H.
  eapply verifyPassword_step in Hv as (Hlu & Hr); [| done ..].
  destruct r as [u |].
  2: { injection H as <- <-. apply outcome_refused; [| done]. destruct Hr; [by apply ref_unread | by apply ref_unknown]. }
  destruct Hr as (Hc & uid & st & Hm & Hu).
  case_decide as Hd.
  { injection H as <- <-. apply outcome_refused; [| done]. eapply ref_state; [done .. |].
    apply state_of_cases in Hu as [(-> & _) | [(_ & ? & _) | (_ & ? & _)]]; [apply rej_unsign | done ..]. }
  destruct Hlu as [Hst1 Hf Hn Hrd Hh].
  eapply (write_then_outcome _ _ _ _ _ w1 _ uid u st Off); [done | done | unfold rand_left; rewrite Hrd; lia | done | done | done | | exact H].
  apply step_unsign; [done |]. intros ->.
  apply state_of_cases in Hu as [(_ & ? & _) | [(? & _) | (? & _)]]; naive_solver.
Qed.

Lemma totp_login_outcome s w m issuer body rsp w' :
  store_ok s w m → totp_ok m →
  serve (TotpLoginHandler s issuer (Some body)) w = (rsp, w') → outcome s issuer m (TotpLogin body) w w' rsp.
Proof.
  intros Hst Hok H. unfold TotpLoginHandler in H. case_decide as Hi.
  { injection H as <- <-. by apply outcome_refused, looked_up_same; [apply ref_incomplete |]. }
  cbn [serve] in H. unfold mbind at 1, st_bind at 1 in H.
  destruct (find_query s _ w) as [r w1] eqn:Hv. cbn [mret st_ret] in H.
  eapply find_query_step in Hv as (Hlu & Hr); [| done ..].
  assert (rand_left w w1) as Hl by (unfold rand_left; rewrite (lu_rand _ _ _ _ Hlu); lia).
  destruct r as [[u |] | e].
  2: { injection H as <- <-. by apply outcome_refused; [apply ref_unknown |]. }
  2: { injection H as <- <-. split; [apply Hlu |]. split; [done |]. right; right. split; [done | by left]. }
  destruct Hr as (Hc & uid & st & Hm & Hu).
  case_decide as Hd.
  { injection H as <- <-. apply outcome_refused; [| done]. eapply ref_state; [done .. |]. apply rej_login.
    apply state_of_cases in Hu as [(-> & _) | [(-> & _) | (_ & ? & ?)]]; [done .. |]. naive_solver congruence. }
  cbn [serve] in H. unfold mbind at 1, st_bind at 1, Now, gets in H. rewrite (lu_now _ _ _ _ Hlu) in H.
  apply state_of_cases in Hu as Hcs. destruct Hcs as [(_ & _ & ?) | [(_ & _ & ?) | (-> & _ & _)]];
    [naive_solver | naive_solver |].
  destruct (totp_Validate (tl_Code body) (TOTPSecret u) (w_now w)) eqn:Hval; cbn [negb] in H.
  2: { injection H as <- <-. apply outcome_refused; [| done]. eapply ref_state; [done .. |]. by apply rej_login_code. }
  rewrite (st_bind_eq _ _ _ _ _ (Issue_eq _ _ _)) in H. rewrite (lu_now _ _ _ _ Hlu) in H. injection H as <- <-.
  split; [apply Hlu |]. split; [done |]. left.
  exists uid, u, (Active (TOTPSecret u) (RecoveryCodes u)), (Active (TOTPSecret u) (RecoveryCodes u)).
  do 3 (split; [done |]). split; [by apply step_totp_login |].
  rewrite (state_of_Some _ _ Hu), insert_id by done. apply Hlu.
Qed.

Lemma recovery_login_outcome s w m issuer body rsp w' :
  store_ok s w m → totp_ok m →
  serve (RecoveryCodeLoginHandler s issuer (Some body)) w = (rsp, w') →
  outcome s issuer m (RecoveryLogin body) w w' rsp.
Proof.
  intros Hst Hok H. unfold RecoveryCodeLoginHandler in H. case_decide as Hi.
  { injection H as <- <-. by apply outcome_refused, looked_up_same; [apply ref_incomplete |]. }
  cbn [serve] in H. unfold mbind at 1, st_bind at 1 in H.
  destruct (find_query s _ w) as [r w1] eqn:Hv. cbn [mret st_ret] in H.
  eapply find_query_step in Hv as (Hlu & Hr); [| done ..].
  assert (rand_left w w1) as Hl by (unfold rand_left; rewrite (lu_rand _ _ _ _ Hlu); lia).
  destruct r as [[u |] | e].
  2: { injection H as <- <-. by apply outcome_refused; [apply ref_unknown |]. }
  2: { injection H as <- <-. split; [apply Hlu |]. split; [done |]. right; right. split; [done | by left]. }
  destruct Hr as (Hc & uid & st & Hm & Hu). apply state_of_cases in Hu as Hcs.
  case_decide as Hd.
  { injection H as <- <-. apply outcome_refused; [| done]. eapply ref_state; [done .. |].
    destruct Hcs as [(-> & _) | [(-> & _) | (-> & _ & Hver)]]; [by apply rej_recovery .. |]. apply rej_recovery_code.
    destruct Hd as [? | Hnil]; [congruence | by rewrite Hnil]. }
  destruct Hcs as [(_ & _ & ?) | [(_ & _ & ?) | (-> & _ & Hver)]]; [naive_solver | naive_solver |].
  destruct (consume_spec (RecoveryCodes u) (ToUpper (rl_RecoveryCode body)))
    as [(l1 & c & l2 & Hcodes & Hx & Hl1 & Hcons) | [Hall Hcons]]; rewrite Hcons in H; cbn [negb] in H.
  2: { injection H as <- <-. apply outcome_refused; [| done]. eapply ref_state; [done .. |]. by apply rej_recovery_code. }
  rewrite Hver in H. change (with_totp u (TOTPSecret u) true (l1 ++ l2))
    with (encode_state u (Active (TOTPSecret u) (l1 ++ l2))) in H.
  cbn [serve] in H. destruct Hlu as [Hst1 Hf Hn Hrd Hh].
  assert (totp_step issuer (w_now w) u (RecoveryLogin body) (Active (TOTPSecret u) (RecoveryCodes u))
    (Active (TOTPSecret u) (l1 ++ l2)) (token_reply issuer (w_now w) u)) as Hstep.
  { rewrite Hcodes. by apply (step_recovery_login _ _ _ _ _ _ c). }
  unfold mbind at 1, st_bind at 1 in H. destruct (writeUser s _ w1) as [r w2] eqn:Hw.
  eapply (write_then_outcome _ _ _ _ _ w1 _ uid u _ (Active (TOTPSecret u) (l1 ++ l2))); [done | done | done | done | done | done | exact Hstep |].
  unfold write_then. rewrite (st_bind_eq _ _ _ _ _ Hw).
  eapply store_update in Hw as (Hn2 & _); [| done | done | apply encode_state_same].
  destruct r; [| exact H]. rewrite (st_bind_eq _ _ _ _ _ (Issue_eq _ _ _)), Hn2, Hn in H. exact H.
Qed.

Lemma handle_outcome s w m issuer req rsp w' :
  store_ok s w m → totp_ok m → serve (handle s issuer req) w = (rsp, w') →
  outcome s issuer m req w w' rsp.
Proof.
  intros Hst Hok H. destruct req; simpl in H.
  - by eapply sign_outcome.
  - by eapply verify_outcome.
  - by eapply unsign_outcome.
  - by eapply totp_login_outcome.
  - by eapply recovery_login_outcome.
Qed.

(** A step starts in the state the record holds and leads to a good record. *)
Lemma totp_step_ok issuer now u req st st' rsp :
  state_of u = Some st → totp_step issuer now u req st st' rsp → is_Some (state_of (encode_state u st')).
Proof.
  intros Hu Hs. assert (∀ secret codes, st = Active secret codes → secret ≠ []) as Hact.
  { intros secret codes ->. apply state_of_cases in Hu as [(? & _) | [(? & _) | ([= -> ->] & ? & _)]]; done. }
  assert (∀ secret, st = Pending secret → secret ≠ []) as Hpend.
  { intros secret ->. apply state_of_cases in Hu as [(? & _) | [([= ->] & ? & _) | (? & _)]]; done. }
  destruct Hs; cbn [encode_state]; try done.
  - rewrite state_of_Pending; [by eexists | by eapply Generate_secret].
  - rewrite state_of_Active; [by eexists | by apply Hpend].
  - rewrite state_of_Active; [by eexists | by eapply Hact].
  - rewrite state_of_Active; [by eexists | by eapply Hact].
Qed.

Lemma totp_ok_insert m uid u :
  totp_ok m → is_Some (state_of u) → totp_ok (<[uid := u]> m).
Proof. intros Hm Hu uid' u' [[<- <-] | [_ Hx]]%lookup_insert_Some; [done | by eapply Hm]. Qed.

(** *** Sequences of requests *)

(** Requests served one after the other, each at its own clock reading. *)
Fixpoint serve_all (s : UserStore) (issuer : TokenIssuer) (reqs : list (Z * totp_request)) : M (list response) :=
  match reqs with
  | [] => mret []
  | (now, req) :: reqs =>
      _ ← modify (set_now now);
      rsp ← serve (handle s issuer req);
      rsps ← serve_all s issuer reqs;
      mret (rsp :: rsps)
  end.

(** The machine of all accounts: each request moves one account, or is
    refused for a reason and moves none. *)
Inductive totp_run (issuer : TokenIssuer) (failing : Prop) :
    gmap Z user → list (Z * totp_request) → list response → gmap Z user → Prop :=
| run_done m : totp_run issuer failing m [] [] m
| run_step m now req reqs rsp rsps uid u st st' m' :
    ¬ incomplete req → m !! uid = Some u → state_of u = Some st → totp_step issuer now u req st st' rsp →
    totp_run issuer failing (<[uid := encode_state u st']> m) reqs rsps m' →
    totp_run issuer failing m ((now, req) :: reqs) (rsp :: rsps) m'
| run_refused m now req reqs rsp rsps m' :
    refused failing now m req rsp → totp_run issuer failing m reqs rsps m' →
    totp_run issuer failing m ((now, req) :: reqs) (rsp :: rsps) m'.

(** C11: Served one at a time, the TOTP handlers implement the state machine of
    the accounts.  On a healthy system with randomness to read, whatever the
    requests and the clock, every request either makes the one move the
    machine has for it, with its answer, or is refused, with the answer for
    the reason: a field is missing, no account answers to the query (and the
    password), the account is not in a state for it, or the code is wrong (a
    wrong code in the verification is a move: it takes the secret away).  The
    stored records are the machine's, and every account stays in one of the
    states off, pending and active.  With [failing] the same holds while
    system calls fail, as long as no answer is a 500, but that a request with
    a password may then be refused without a reason. *)
Theorem totp_refines failing s issuer reqs w m rsps w' :
  store_ok s w m → totp_ok m → serve_all s issuer reqs w = (rsps, w') →
  (healthy w ∧ (100 * length reqs <= length (w_rand w))%nat) ∨ (failing ∧ Forall (λ rsp, rsp ≠ reply 500) rsps) →
  ∃ m', totp_run issuer failing m reqs rsps m' ∧ store_ok s w' m' ∧ totp_ok m'.
Proof.
  revert w m rsps. induction reqs as [| [now req] reqs IH]; intros w m rsps Hst Hok H Hno; simpl in H.
  { st_inv. exists m. split; [constructor | done]. }
  apply st_bind_inv in H as ([] & w1 & Ht & H). unfold modify in Ht. injection Ht as <-.
  apply st_bind_inv in H as (rsp & w2 & Hs & H). apply st_bind_inv in H as (rsps' & w3 & Hr & H). st_inv.
  assert (store_ok s (set_now now w) m) as Hst' by (destruct Hst; by split).
  eapply handle_outcome in Hs as (Hh & Hl & Hs); [| done | done]. unfold rand_left in Hl. cbn [w_rand w_now set_now length] in *.
  assert ((healthy w2 ∧ (100 * length reqs <= length (w_rand w2))%nat) ∨ (failing ∧ Forall (λ rsp, rsp ≠ reply 500) rsps')) as Hno'.
  { destruct Hno as [[? ?] | [? [_ ?]%Forall_cons]]; [left; split; [by apply Hh | lia] | by right]. }
  destruct Hs as [(uid & u & st & st' & Hi & Hm & Hu & Hstep & Hst2) | [[Href Hf] | [-> Hx]]].
  - pose proof (totp_step_ok _ _ _ _ _ _ _ Hu Hstep) as Hgood.
    destruct (IH _ _ _ Hst2 (totp_ok_insert _ uid _ Hok Hgood) Hr Hno') as (m' & Hrun & ?).
    exists m'. split; [| done]. by eapply run_step.
  - assert (store_ok s w2 m) as Hst2 by (destruct Hst'; split; [by rewrite Hf | done | done]).
    destruct (IH _ _ _ Hst2 Hok Hr Hno') as (m' & Hrun & ?).
    exists m'. split; [| done]. apply run_refused; [| done]. eapply refused_mono; [| exact Href].
    intros Hnh. destruct Hno as [[? _] | [? _]]; [by destruct Hnh | done].
  - exfalso. destruct Hno as [[Hw ?] | [_ [? _]%Forall_cons]]; [| done]. destruct Hx as [Hx | Hx]; [by apply Hx | lia].
Qed.

(** *** Logging in on a healthy system *)

Lemma find_query_healthy s w m uid u q :
  store_ok s w m → healthy w → m !! uid = Some u → matches_query q u = true →
  find_query s q w = (Ok (Some u), w).
Proof.
  intros [Hrep Hok Hun] Hh Hm Hq. unfold find_query.
  rewrite (try_bind_ok _ _ _ _ _ (loadUsers_healthy _ _ _ Hrep Hh)).
  rewrite (find_unique (matches_query q) _ u); [done | | done |].
  - eapply elem_of_listing; [done | eauto].
  - intros v [uid' Hv]%(elem_of_listing _ _ m) Hqv; [| done].
    assert (uid' = uid) as -> by (by eapply matches_query_unique). congruence.
Qed.

(** A TOTP login is exact on a healthy system: the account the query
    selects gets a token if and only if its second factor is active (set up
    and verified) and the code is valid for its secret at that moment; in
    every other state the answer is 400, and nothing is written. *)
Theorem TotpLogin_correct s issuer body w m uid u :
  store_ok s w m → totp_ok m → healthy w →
  tl_Query body ≠ [] → tl_Code body ≠ [] → m !! uid = Some u → matches_query (tl_Query body) u = true →
  serve (TotpLoginHandler s issuer (Some body)) w =
  (match state_of u with
   | Some (Active secret _) =>
       if totp_Validate (tl_Code body) secret (w_now w) then token_reply issuer (w_now w) u else reply 400
   | _ => reply 400
   end, w).
Proof.
  intros Hst Hok Hh Hq Hc Hm Hmq. unfold TotpLoginHandler. rewrite decide_False by naive_solver.
  cbn [serve]. rewrite (st_bind_eq _ _ _ _ _ (find_query_healthy _ _ _ _ _ _ Hst Hh Hm Hmq)).
  cbn [mret st_ret]. destruct (Hok _ _ Hm) as [st Hu]. rewrite Hu.
  apply state_of_cases in Hu as [(-> & Hs & Hv) | [(-> & Hs & Hv) | (-> & Hs & Hv)]].
  - by rewrite decide_True by auto.
  - by rewrite decide_True by auto.
  - rewrite decide_False by (intros [? | ?]; congruence). cbn [serve].
    rewrite (st_bind_eq Now _ w (w_now w) w eq_refl).
    by destruct (totp_Validate _ _ _).
Qed.

(** The stored codes that a submitted code stands for. *)
Definition matching (codes : list bytes) (code : bytes) : list bytes :=
  filter (λ c, EqualFold c (ToUpper code) = true) codes.

Lemma matching_none codes code :
  Forall (λ c, EqualFold c (ToUpper code) = false) codes → matching codes code = [].
Proof.
  unfold matching. induction 1 as [| c codes Hc _ IH]; [done |].
  rewrite filter_cons, decide_False; [done | by rewrite Hc].
Qed.

(** What is left after the one matching code was used. *)
Lemma consume_single codes code :
  length (matching codes code) = 1%nat →
  ∃ rest, consume codes (ToUpper code) = (true, rest) ∧ consume rest (ToUpper code) = (false, rest).
Proof.
  intros Hl. destruct (consume_spec codes (ToUpper code)) as [(l1 & c & l2 & -> & Hc & H1 & ->) | [Hn _]].
  2: { rewrite matching_none in Hl by done. done. }
  exists (l1 ++ l2). split; [done |].
  destruct (consume_spec (l1 ++ l2) (ToUpper code)) as [(k1 & d & k2 & Hk & Hd & _) | [_ ->]]; [| done].
  exfalso. assert (d ∈ matching (l1 ++ l2) code) as Hin.
  { apply list_elem_of_filter. split; [done |]. rewrite Hk. set_solver. }
  unfold matching in Hl, Hin. rewrite filter_app, filter_cons, decide_True, length_app in Hl by done.
  simpl in Hl. rewrite filter_app in Hin.
  destruct (filter _ l1), (filter _ l2); simpl in Hl; try lia. by apply elem_of_nil in Hin.
Qed.

(** The look-up segment of a recovery login that found a code to use up. *)
Lemma recovery_lookup s issuer body w m uid u rest :
  store_ok s w m → healthy w → rl_Query body ≠ [] → rl_RecoveryCode body ≠ [] →
  m !! uid = Some u → matches_query (rl_Query body) u = true →
  TOTPVerified u = true → consume (RecoveryCodes u) (ToUpper (rl_RecoveryCode body)) = (true, rest) →
  advance (RecoveryCodeLoginHandler s issuer (Some body)) w =
  (Atomic (
     r ← writeUser s (with_totp u (TOTPSecret u) (TOTPVerified u) rest);
     match r with
     | Err _ => mret (Respond (reply 500))
     | Ok _ => token ← Issue issuer (ID u);
               mret (Respond (JSON 200 [gin_status 200; (B "token", JString token)]))
     end), w).
Proof.
  intros Hst Hh Hq Hc Hm Hmq Hv Hcons. unfold RecoveryCodeLoginHandler.
  rewrite decide_False by naive_solver. cbn [advance].
  rewrite (st_bind_eq _ _ _ _ _ (find_query_healthy _ _ _ _ _ _ Hst Hh Hm Hmq)).
  cbn [mret st_ret]. rewrite decide_False; [by rewrite Hcons |].
  rewrite Hv. intros [? | Hn]; [done |]. rewrite Hn in Hcons. done.
Qed.

(** Its write segment. *)
Lemma recovery_write s issuer w m uid u v rest :
  store_ok s w m → healthy w → m !! uid = Some v → same_account v u →
  ∃ f, store_ok s (set_fs f w) (<[uid := with_totp u (TOTPSecret u) (TOTPVerified u) rest]> m) ∧
    (r ← writeUser s (with_totp u (TOTPSecret u) (TOTPVerified u) rest);
     match r with
     | Err _ => mret (Respond (reply 500))
     | Ok _ => token ← Issue issuer (ID u);
               mret (Respond (JSON 200 [gin_status 200; (B "token", JString token)]))
     end) w = (Respond (token_reply issuer (w_now w) u), set_fs f w).
Proof.
  intros Hst Hh Hm Hsame.
  destruct (store_update_healthy s w m uid v (with_totp u (TOTPSecret u) (TOTPVerified u) rest))
    as (f & Hw & Hst'); [done .. |].
  exists f. split; [done |]. by rewrite (st_bind_eq _ _ _ _ _ Hw).
Qed.

(** One after the other, a recovery code works once: if exactly one stored
    code of an active account matches the submitted one (in any letter case),
    the first login succeeds with a token and the second, with the same
    body, is refused and writes nothing. *)
Theorem recovery_code_once s issuer body w m uid u :
  store_ok s w m → healthy w → rl_Query body ≠ [] → rl_RecoveryCode body ≠ [] →
  m !! uid = Some u → matches_query (rl_Query body) u = true → TOTPVerified u = true →
  length (matching (RecoveryCodes u) (rl_RecoveryCode body)) = 1%nat →
  ∃ w1, serve (RecoveryCodeLoginHandler s issuer (Some body)) w = (token_reply issuer (w_now w) u, w1) ∧
    serve (RecoveryCodeLoginHandler s issuer (Some body)) w1 = (reply 400, w1).
Proof.
  intros Hst Hh Hq Hc Hm Hmq Hv (rest & Hcons & Hcons2)%consume_single.
  destruct (recovery_write s issuer w m uid u u rest Hst Hh Hm) as (f & Hst1 & Hw); [done |].
  exists (set_fs f w). split.
  - pose proof (recovery_lookup s issuer body w m uid u rest Hst Hh Hq Hc Hm Hmq Hv Hcons) as Hl.
    unfold RecoveryCodeLoginHandler in Hl |- *. rewrite decide_False in Hl |- * by naive_solver.
    cbn [advance] in Hl. cbn [serve]. rewrite Hl. cbn [serve]. by rewrite Hw.
  - set (v := with_totp u (TOTPSecret u) (TOTPVerified u) rest) in *.
    unfold RecoveryCodeLoginHandler. rewrite decide_False by naive_solver. cbn [serve].
    rewrite (st_bind_eq _ _ _ _ _ (find_query_healthy s (set_fs f w) _ uid v _ Hst1 Hh
      ltac:(by rewrite lookup_insert_eq) Hmq)).
    cbn [mret st_ret]. case_decide; [done |]. subst v. cbn [RecoveryCodes with_totp].
    by rewrite Hcons2.
Qed.

(** Concurrently, a recovery code works twice: when two logins with the
    same code overlap (both look the account up before either has written,
    which the store's lock does not prevent), both are answered with a
    token. *)
Theorem recovery_code_race s issuer body w m uid u :
  store_ok s w m → healthy w → rl_Query body ≠ [] → rl_RecoveryCode body ≠ [] →
  m !! uid = Some u → matches_query (rl_Query body) u = true → TOTPVerified u = true →
  length (matching (RecoveryCodes u) (rl_RecoveryCode body)) = 1%nat →
  let login := RecoveryCodeLoginHandler s issuer (Some body) in
  ∃ w', interleave [login; login] [0; 1; 0; 1]%nat w =
    ([Respond (token_reply issuer (w_now w) u); Respond (token_reply issuer (w_now w) u)], w').
Proof.
  intros Hst Hh Hq Hc Hm Hmq Hv (rest & Hcons & _)%consume_single. cbv zeta.
  pose proof (recovery_lookup s issuer body w m uid u rest Hst Hh Hq Hc Hm Hmq Hv Hcons) as Hl.
  destruct (recovery_write s issuer w m uid u u rest Hst Hh Hm) as (f & Hst1 & Hw); [done |].
  destruct (recovery_write s issuer (set_fs f w) _ uid u _ rest Hst1 Hh ltac:(by rewrite lookup_insert_eq))
    as (g & _ & Hw2); [done |].
  exists (set_fs g (set_fs f w)). cbn [interleave lookup list_lookup].
  rewrite (st_bind_eq _ _ _ _ _ Hl). cbn [insert list_insert interleave lookup list_lookup].
  rewrite (st_bind_eq _ _ _ _ _ Hl). cbn [insert list_insert interleave lookup list_lookup].
  cbn [advance]. rewrite (st_bind_eq _ _ _ _ _ Hw). cbn [insert list_insert interleave lookup list_lookup].
  cbn [advance]. by rewrite (st_bind_eq _ _ _ _ _ Hw2).
Qed.

(** A profile edit holds the lock from reading to writing: one segment. *)
Definition edit_request (s : UserStore) (issuer : TokenIssuer) (schema : ProfileSchema)
    (req : profileEditRequest) : proc :=
  Atomic (rsp ← ProfileEditHandler s issuer schema (Some req); mret (Respond rsp)).

(** The look-up segment of a [TotpSign] with good credentials. *)
Lemma sign_lookup s body w m uid u :
  store_ok s w m → healthy w → ts_Query body ≠ [] → ts_Password body ≠ [] →
  m !! uid = Some u → credentials (ts_Query body) (ts_Password body) u = true → TOTPVerified u = false →
  ∃ seg, advance (TotpSignHandler s (Some body)) w = (Atomic seg, w) ∧
    ∀ w1 entropy w2 secret url,
      rand_Read 20 w1 = (Ok entropy, w2) → totp_Generate (ID u) entropy = Some (secret, url) →
      seg w1 = write_then s (with_totp u secret false [])
                 (JSON 200 [gin_status 200; (B "otpauth_url", JString url)]) w2.
Proof.
  intros [Hrep Hok Hun] Hh Hq Hp Hm Hcr Hv.
  assert (List.find (credentials (ts_Query body) (ts_Password body)) (listing s (w_fs w)) = Some u) as Hfind.
  { eapply find_credentials; [done .. |]. eauto. }
  unfold TotpSignHandler. rewrite decide_False by naive_solver. cbn [advance].
  eexists. split.
  - rewrite (st_bind_eq _ _ _ _ _ (verifyPassword_healthy _ _ m _ _ Hrep Hh)), Hfind.
    cbn [mret st_ret]. rewrite Hv. reflexivity.
  - intros w1 entropy w2 secret url Hr Hg. cbv beta. rewrite (st_bind_eq _ _ _ _ _ Hr). by rewrite Hg.
Qed.

(** Concurrently, a TOTP request undoes a profile edit: when the edit runs
    between the look-up and the write of a [TotpSign], the edit is answered
    200 but the profile afterwards is the one from before. *)
Theorem profile_edit_lost s issuer schema body req w m uid u entropy secret url :
  store_ok s w m → healthy w → ts_Query body ≠ [] → ts_Password body ≠ [] →
  m !! uid = Some u → credentials (ts_Query body) (ts_Password body) u = true → TOTPVerified u = false →
  (20 <= length (w_rand w))%nat → entropy = take 20 (w_rand w) →
  totp_Generate (ID u) entropy = Some (secret, url) →
  pq_UID req = uid → omap (rejected schema) (pq_Content req) = [] →
  VerifyAt issuer (time_Unix (w_now w)) (pq_Token req) = Some (ID u) →
  ∃ w' m', interleave [TotpSignHandler s (Some body); edit_request s issuer schema req] [0; 1; 0]%nat w =
      ([Respond (JSON 200 [gin_status 200; (B "otpauth_url", JString url)]); Respond (reply 200)], w') ∧
    store_ok s w' m' ∧ m' !! uid = Some (with_totp u secret false []).
Proof.
  intros Hst Hh Hq Hp Hm Hcr Hv Hrand -> Hgen Huid Hrej Hver. subst uid.
  destruct (ProfileEditHandler_healthy s w m issuer schema req u) as (f & Hedit & Hst1); [done .. |].
  set (w1 := set_fs f w) in *. set (v := edited u _) in *.
  destruct (store_update_healthy s (World f (w_now w) (drop 20 (w_rand w)) (w_faults w)) _ (pq_UID req) v
    (with_totp u secret false []) ltac:(by destruct Hst1; split) ltac:(by rewrite lookup_insert_eq))
    as (g & Hw & Hst2); [| done |].
  { subst v. destruct (edited_same u (collect schema (pq_Content req)).2) as (H1 & H2 & H3). by split. }
  eexists _, _. split; [| split; [exact Hst2 | by rewrite lookup_insert_eq]].
  destruct (sign_lookup s body w m (pq_UID req) u) as (seg & Hl & Hseg); [done .. |].
  assert (advance (edit_request s issuer schema req) w = (Respond (reply 200), w1)) as He.
  { unfold edit_request. cbn [advance]. by rewrite (st_bind_eq _ _ _ _ _ Hedit). }
  assert (rand_Read 20 w1 = (Ok (take 20 (w_rand w)), World f (w_now w) (drop 20 (w_rand w)) (w_faults w)))
    as Hr1 by (unfold rand_Read; by rewrite decide_False by (simpl; lia)).
  cbn [interleave lookup list_lookup].
  rewrite (st_bind_eq _ _ _ _ _ Hl). cbn [insert list_insert interleave lookup list_lookup].
  rewrite (st_bind_eq _ _ _ _ _ He). cbn [insert list_insert interleave lookup list_lookup].
  assert (advance (Atomic seg) w1 =
    (Respond (JSON 200 [gin_status 200; (B "otpauth_url", JString url)]),
     set_fs g (World f (w_now w) (drop 20 (w_rand w)) (w_faults w)))) as Hend.
  { cbn [advance]. rewrite (Hseg _ _ _ _ _ Hr1 Hgen). unfold write_then.
    by rewrite (st_bind_eq _ _ _ _ _ Hw). }
  by rewrite (st_bind_eq _ _ _ _ _ Hend).
Qed.

End Machine.

(** [generateRecoveryCodes] always yields ten codes of the form
    XXXX-XXXX-XXXX-XXXX over the base 32 alphabet, and fails only when fewer
    than 100 random bytes are to be had. *)
Theorem generateRecoveryCodes_format {U : UnicodeTables} w :
  (∃ codes w', generateRecoveryCodes w = (Ok codes, w') ∧
     length codes = 10%nat ∧ Forall recovery_format codes ∧ w_fs w' = w_fs w) ∨
  (∃ e w', generateRecoveryCodes w = (Err e, w') ∧ (length (w_rand w) < 100)%nat ∧ w_fs w' = w_fs w).
Proof.
  destruct (generateRecoveryCodes w) as [[codes | e] w'] eqn:E;
    apply recovery_codes_inv in E as (Hf & _ & _ & _ & H); [left | right].
  - destruct H. by exists codes, w'.
  - exists e, w'. split; [done |]. split; [lia | done].
Qed.

(** ** Witnesses *)

(** A toy second factor: the secret is the entropy, a code is its start. *)
#[export, refine] Instance toy_otp : OTP := {|
  totp_Generate account entropy :=
    if decide (entropy = []) then None else Some (entropy, B "otpauth://totp/" ++ account);
  totp_Validate code secret _ := bool_decide (code = take 6 secret);
|}.
Proof. intros account entropy secret url. case_decide; [done |]. by intros [= <- _]. Defined.

Lemma two_users_1 : two_users !! 1 = Some alice.
Proof. unfold two_users. by rewrite lookup_insert_ne, lookup_singleton_eq. Qed.

Definition alice_active : user := with_totp alice (B "SECRETSECRET") true [B "AAAA-BBBB-CCCC-DDDD"; B "EEEE-FFFF-GGGG-HHHH"].
Definition active_world : world := stored alice_active two_world.
Definition active_users : gmap Z user := <[1 := alice_active]> two_users.

Lemma active_world_ok : store_ok store active_world active_users ∧ healthy active_world.
Proof.
  destruct two_world_ok as [Hst Hh].
  destruct (store_update_healthy store two_world two_users 1 alice alice_active Hst two_users_1
    (conj eq_refl (conj eq_refl eq_refl)) Hh) as (f & Hw & Hst').
  unfold active_world, stored. rewrite Hw. by split.
Qed.

Lemma two_users_totp : totp_ok two_users.
Proof.
  unfold two_users. intros uid u [[<- <-] | [_ [<- <-]%lookup_singleton_Some]]%lookup_insert_Some;
    by eexists.
Qed.

Lemma active_users_1 : active_users !! 1 = Some alice_active.
Proof. apply lookup_insert_eq. Qed.

Lemma active_users_totp : totp_ok active_users.
Proof. apply totp_ok_insert; [apply two_users_totp | by eexists]. Qed.

Definition sign_bob : totp_request := Sign (TotpSignRequest (B "Bob") (B "hunter2!")).
Definition verify_bob : totp_request := VerifyTotp (TotpVerifyRequest (B "Bob") (B "hunter2!") (B "xxxxxx")).

Definition bob_session : list (Z * totp_request) :=
  [(new_year, sign_bob); (new_year + 10 ^ 9, verify_bob);
   (new_year + 2 * 10 ^ 9, TotpLogin (TotpLoginRequest (B "Bob") (B "xxxxxx")))].
Definition session_out : list response * world := serve_all store issuer bob_session two_world.
#[local] Strategy expand [session_out].

Lemma session_statuses : status <$> session_out.1 = [200; 200; 200].
Proof. vm_compute. reflexivity. Qed.

Lemma totp_refines_witness :
  ∃ m', totp_run issuer False two_users bob_session session_out.1 m' ∧ store_ok store session_out.2 m' ∧ totp_ok m'.
Proof.
  apply (totp_refines False store issuer bob_session two_world two_users session_out.1 session_out.2).
  - apply two_world_ok.
  - apply two_users_totp.
  - exact (surjective_pairing session_out).
  - left. split; [apply two_world_ok | apply Nat.leb_le; vm_compute; reflexivity].
Defined.

Definition totp_body : totpLoginRequest := TotpLoginRequest (B "alice_1") (B "SECRET").

Lemma TotpLogin_correct_witness :
  serve (TotpLoginHandler store issuer (Some totp_body)) active_world =
  (token_reply issuer (w_now active_world) alice_active, active_world).
Proof.
  rewrite (TotpLogin_correct store issuer totp_body active_world active_users 1 alice_active
    (proj1 active_world_ok) active_users_totp (proj2 active_world_ok)).
  - assert (totp_Validate (tl_Code totp_body) (B "SECRETSECRET") (w_now active_world) = true) as Hv
      by (vm_compute; reflexivity).
    change (state_of alice_active) with (Some (Active (B "SECRETSECRET") (RecoveryCodes alice_active))).
    cbv iota. rewrite Hv. reflexivity.
  - done.
  - done.
  - reflexivity.
  - vm_compute. reflexivity.
Defined.

Definition recovery_body : recoveryCodeLoginRequest :=
  RecoveryCodeLoginRequest (B "alice_1") (B "aaaa-bbbb-cccc-dddd").

Lemma recovery_matches :
  matches_query (rl_Query recovery_body) alice_active = true ∧
  length (matching (RecoveryCodes alice_active) (rl_RecoveryCode recovery_body)) = 1%nat.
Proof. split; vm_compute; reflexivity. Qed.

Lemma recovery_code_once_witness :
  ∃ w1, serve (RecoveryCodeLoginHandler store issuer (Some recovery_body)) active_world =
      (token_reply issuer (w_now active_world) alice_active, w1) ∧
    serve (RecoveryCodeLoginHandler store issuer (Some recovery_body)) w1 = (reply 400, w1).
Proof.
  refine (recovery_code_once store issuer recovery_body active_world active_users 1 alice_active
    (proj1 active_world_ok) (proj2 active_world_ok) _ _ active_users_1
    (proj1 recovery_matches) eq_refl (proj2 recovery_matches)); discriminate.
Defined.

Lemma recovery_code_race_witness :
  let login := RecoveryCodeLoginHandler store issuer (Some recovery_body) in
  ∃ w', interleave [login; login] [0; 1; 0; 1]%nat active_world =
    ([Respond (token_reply issuer (w_now active_world) alice_active);
      Respond (token_reply issuer (w_now active_world) alice_active)], w').
Proof.
  refine (recovery_code_race store issuer recovery_body active_world active_users 1 alice_active
    (proj1 active_world_ok) (proj2 active_world_ok) _ _ active_users_1
    (proj1 recovery_matches) eq_refl (proj2 recovery_matches)); discriminate.
Defined.

Definition sign_alice : totpSignRequest := TotpSignRequest (B "alice_1") (B "pa55word").

Lemma profile_edit_lost_witness :
  ∃ w' m', interleave [TotpSignHandler store (Some sign_alice);
                       edit_request store issuer config_schema alice_edit] [0; 1; 0]%nat two_world =
      ([Respond (JSON 200 [gin_status 200; (B "otpauth_url", JString (B "otpauth://totp/alice_1"))]);
        Respond (reply 200)], w') ∧
    store_ok store w' m' ∧
    m' !! 1 = Some (with_totp alice (replicate 20 "x"%char) false []).
Proof.
  refine (profile_edit_lost store issuer config_schema sign_alice alice_edit two_world two_users 1 alice
    (replicate 20 "x"%char) (replicate 20 "x"%char) (B "otpauth://totp/alice_1")
    (proj1 two_world_ok) (proj2 two_world_ok) _ _ two_users_1 _ eq_refl _ _ _ eq_refl _ _).
  - discriminate.
  - discriminate.
  - vm_compute. reflexivity.
  - apply Nat.leb_le. vm_compute. reflexivity.
  - vm_compute. reflexivity.
  - vm_compute. reflexivity.
  - vm_compute. reflexivity.
  - vm_compute. reflexivity.
Defined.
