(* ===== verification/Flags.v ===== *)
(** * Flags: message flags and addresses ([mail/flags.go], [mail/address.go]) *)

From S2P Require Import Prelude GoStrings.

(** ** Flags *)

Definition FlagSeen : bytes := B "\Seen".
Definition FlagDeleted : bytes := B "\Deleted".
Definition FlagRecent : bytes := B "\Recent".

Inductive FlagOp := FlagsSet | FlagsAdd | FlagsRemove.

#[export] Instance FlagOp_eq_dec : EqDecision FlagOp.
Proof. solve_decision. Defined.

Section Flags.
Context {U : UnicodeTables}.

Definition hasFlag (flags : list bytes) (want : bytes) : bool :=
  existsb (λ flag, EqualFold flag want) flags.

Definition normalise_step (out : list bytes) (flag : bytes) : list bytes :=
  if bool_decide (flag = []) || EqualFold flag FlagRecent then out
  else if negb (hasFlag out flag) then out ++ [flag] else out.
Definition normaliseFlags (flags : list bytes) : list bytes := foldl normalise_step [] flags.

Definition applyFlags (current flags : list bytes) (op : FlagOp) : list bytes :=
  match op with
  | FlagsSet => normaliseFlags flags
  | FlagsAdd => normaliseFlags (current ++ flags)
  | FlagsRemove => filter (λ flag, hasFlag flags flag = false) current
  end.

(** ** Facts about flags *)

(** A flag the server keeps. *)
Definition storable (flag : bytes) : bool := negb (bool_decide (flag = []) || EqualFold flag FlagRecent).

(** Flag lists that the store writes: kept flags, no two equal up to case. *)
Inductive normal : list bytes → Prop :=
| normal_nil : normal []
| normal_snoc fs f : normal fs → storable f = true → hasFlag fs f = false → normal (fs ++ [f]).

Lemma hasFlag_spec fs x : hasFlag fs x = true ↔ ∃ f, f ∈ fs ∧ EqualFold f x = true.
Proof.
  unfold hasFlag. rewrite existsb_exists. split; intros (f & Hf & ?); exists f; split; try done;
    by apply list_elem_of_In.
Qed.

Lemma hasFlag_app fs gs x : hasFlag (fs ++ gs) x = hasFlag fs x || hasFlag gs x.
Proof. apply existsb_app. Qed.

Lemma hasFlag_cong fs x y : EqualFold x y = true → hasFlag fs x = hasFlag fs y.
Proof.
  intros H. unfold hasFlag. induction fs as [| f fs IH]; [done |]. simpl.
  rewrite IH, (EqualFold_sym f x), (EqualFold_sym f y). f_equal. by apply EqualFold_cong_l.
Qed.

Lemma runes_nil s : runes s = [] → s = [].
Proof.
  unfold runes. intros H%fmap_nil_inv. by rewrite <- (chunks_concat s), H.
Qed.

Lemma EqualFold_nil s t : EqualFold s t = true → s = [] ↔ t = [].
Proof.
  intros H%EqualFold_spec. split; intros ->; simpl in H.
  - symmetry in H. apply fmap_nil_inv, runes_nil in H. done.
  - by apply fmap_nil_inv, runes_nil in H.
Qed.

Lemma storable_cong x y : EqualFold x y = true → storable x = storable y.
Proof.
  intros H. unfold storable. rewrite (EqualFold_cong_l x y FlagRecent H).
  by rewrite (bool_decide_ext _ _ (EqualFold_nil x y H)).
Qed.

Lemma normalise_step_eq out f :
  normalise_step out f = if storable f then (if negb (hasFlag out f) then out ++ [f] else out) else out.
Proof. unfold normalise_step, storable. by destruct (_ || _). Qed.

Lemma normalise_go out flags :
  normal out →
  let r := foldl normalise_step out flags in
  normal r ∧ ∀ x, hasFlag r x = hasFlag out x || (hasFlag flags x && storable x).
Proof.
  revert out. induction flags as [| f flags IH]; intros out Hn; simpl.
  { split; [done |]. intros x. by rewrite orb_false_r. }
  rewrite normalise_step_eq. destruct (storable f) eqn:Hs.
  - destruct (hasFlag out f) eqn:Hh; cbn [negb].
    + destruct (IH out Hn) as [H1 H2]. split; [done |]. intros x. rewrite H2.
      destruct (EqualFold f x) eqn:Hf; [| done].
      rewrite <- (hasFlag_cong out f x Hf), Hh. done.
    + destruct (IH (out ++ [f])) as [H1 H2]; [by constructor |]. split; [done |].
      intros x. rewrite H2, hasFlag_app. simpl. rewrite orb_false_r.
      destruct (EqualFold f x) eqn:Hf; simpl; [| by rewrite orb_false_r].
      rewrite <- (storable_cong f x Hf), Hs, !orb_true_r. done.
  - destruct (IH out Hn) as [H1 H2]. split; [done |]. intros x. rewrite H2.
    destruct (EqualFold f x) eqn:Hf; [| done].
    rewrite <- (storable_cong f x Hf), Hs. by rewrite !andb_false_r.
Qed.

Lemma normaliseFlags_spec flags :
  normal (normaliseFlags flags) ∧ ∀ x, hasFlag (normaliseFlags flags) x = hasFlag flags x && storable x.
Proof. apply (normalise_go [] flags). constructor. Qed.

Lemma normalise_normal flags : normal flags → normaliseFlags flags = flags.
Proof.
  induction 1 as [| fs f Hn IH Hs Hh]; [done |]. unfold normaliseFlags in *.
  rewrite foldl_snoc, IH, normalise_step_eq. by rewrite Hs, Hh.
Qed.

Lemma normal_filter fs gs : normal fs → normal (filter (λ f, hasFlag gs f = false) fs).
Proof.
  induction 1 as [| fs f Hn IH Hs Hh]; [constructor |].
  rewrite filter_app, filter_cons, filter_nil. case_decide; [| by rewrite app_nil_r].
  constructor; [done | done |]. apply not_true_is_false. intros (g & Hg & He)%hasFlag_spec.
  apply list_elem_of_filter in Hg as [_ Hg]. apply not_true_iff_false in Hh. apply Hh.
  apply hasFlag_spec. eauto.
Qed.

End Flags.

(** ** Addresses *)

Section Address.
Context {U : UnicodeTables}.

(** [addr] without surrounding blanks and one pair of angle brackets. *)
Definition unwrap_path (addr : bytes) : bytes :=
  TrimSuffix (TrimPrefix (TrimSpace addr) (B "<")) (B ">").

Definition SplitAddress (addr : bytes) : option (bytes * bytes) :=
  let addr := unwrap_path addr in
  match LastIndex addr (B "@") with
  | None => None
  | Some at_ =>
      if (at_ =? 0)%nat || (at_ =? length addr - 1)%nat then None
      else
        let local := take at_ addr in
        let domain := ToLower (drop (S at_) addr) in
        if ContainsAny local (B " " ++ [chr 9; chr 13; chr 10])
           || ContainsAny domain (B " " ++ [chr 9; chr 13; chr 10] ++ B "@") then None
        else Some (local, domain)
  end.

(** [isLocalDomain] of the configured domain and the extra ones. *)
Definition isLocalDomain (Domain : bytes) (ExtraDomains : list bytes) (domain : bytes) : bool :=
  EqualFold domain Domain || existsb (EqualFold domain) ExtraDomains.

(** What the blank check rejects. *)
Definition blanks : bytes := B " " ++ [chr 9; chr 13; chr 10].

Lemma SplitAddress_inv addr local domain :
  SplitAddress addr = Some (local, domain) →
  ∃ raw, unwrap_path addr = local ++ "@"%char :: raw ∧ domain = ToLower raw ∧
    local ≠ [] ∧ raw ≠ [] ∧ ("@"%char ∉ domain) ∧
    (∀ c, c ∈ blanks → (c ∉ local) ∧ (c ∉ domain)).
Proof.
  unfold SplitAddress. destruct (LastIndex _ _) as [i |] eqn:E; [| done].
  destruct ((i =? 0)%nat || _) eqn:Hi; [done |].
  destruct (ContainsAny _ _) eqn:H1; [done |]. cbn [orb]. destruct (ContainsAny (ToLower _) _) eqn:H2; [done |].
  intros [= <- <-]. apply orb_false_iff in Hi as [Hi1%Nat.eqb_neq Hi2%Nat.eqb_neq].
  apply LastIndex_inv in E as [Heq Hno]. set (a := unwrap_path addr) in *.
  exists (drop (S i) a). split; [done |]. split; [done |].
  assert (length (take i a) = i) as Hl.
  { rewrite length_take. apply (f_equal length) in Heq. rewrite length_app, length_take in Heq.
    simpl in Heq. rewrite length_drop in Heq. lia. }
  rewrite ContainsAny_false in H1, H2.
  split; [intros Hn; rewrite Hn in Hl; simpl in Hl; lia |]. split.
  { intros Hn. apply (f_equal length) in Heq. rewrite Hn, length_app, Hl in Heq. simpl in Heq. lia. }
  split.
  - intros Hin. apply H2 in Hin. apply Hin. by apply (bool_decide_unpack _).
  - intros c Hc. split; intros Hin; [by apply H1 in Hin |].
    apply H2 in Hin. apply Hin. rewrite !elem_of_app. unfold blanks in Hc. rewrite elem_of_app in Hc. tauto.
Qed.

End Address.
