(* ===== verification/FlagsSpec.v ===== *)
(** * FlagsSpec: what flag changes and address splitting promise *)

From S2P Require Import Prelude GoStrings Strconv World Accounts Flags Fixtures.

Section Spec.
Context {U : UnicodeTables}.

(** Flag changes are set operations up to letter case: FLAGS replaces,
    +FLAGS unites and -FLAGS subtracts, never storing an empty flag or
    [\Recent]; what is stored has no duplicates up to case, and storing it
    again changes nothing. *)
Theorem applyFlags_correct current flags op :
  normal current →
  let r := applyFlags current flags op in
  normal r ∧ normaliseFlags r = r ∧
  ∀ x, hasFlag r x =
    match op with
    | FlagsSet => hasFlag flags x && storable x
    | FlagsAdd => hasFlag current x || (hasFlag flags x && storable x)
    | FlagsRemove => hasFlag current x && negb (hasFlag flags x)
    end.
Proof.
  intros Hn. cbv zeta. assert (normal (applyFlags current flags op)) as Hr.
  { destruct op; simpl; [apply normaliseFlags_spec | apply normaliseFlags_spec | by apply normal_filter]. }
  split; [done |]. split; [by apply normalise_normal |]. intros x. destruct op; simpl.
  - apply normaliseFlags_spec.
  - rewrite (proj2 (normaliseFlags_spec _)), hasFlag_app.
    destruct (hasFlag current x) eqn:E; [| done]. apply hasFlag_spec in E as (f & Hf & He).
    assert (storable f = true) as Hs.
    { clear -Hn Hf. induction Hn as [| fs g Hn IH Hs Hh]; [by apply elem_of_nil in Hf |].
      apply elem_of_app in Hf as [Hf | ->%list_elem_of_singleton]; [by apply IH | done]. }
    by rewrite <- (storable_cong f x He), Hs.
  - apply eq_true_iff_eq. rewrite andb_true_iff, negb_true_iff, !hasFlag_spec. split.
    + intros (f & [Hg Hf]%list_elem_of_filter & He). split; [eauto |].
      by rewrite <- (hasFlag_cong flags f x He).
    + intros [(f & Hf & He) Hg]. exists f. split; [| done]. apply list_elem_of_filter.
      split; [| done]. by rewrite (hasFlag_cong flags f x He).
Qed.

(** [SplitAddress] cuts at the last [@] outside the angle brackets: the
    local part comes back verbatim, non-empty and without blanks, the domain
    is the lower-cased non-empty rest without blanks or [@]; so an address
    without a local part or a domain is never accepted. *)
Theorem SplitAddress_sound addr local domain :
  SplitAddress addr = Some (local, domain) →
  ∃ raw, TrimSuffix (TrimPrefix (TrimSpace addr) (B "<")) (B ">") = local ++ B "@" ++ raw ∧
    domain = ToLower raw ∧ local ≠ [] ∧ raw ≠ [] ∧ ("@"%char ∉ domain) ∧
    (∀ c, c ∈ blanks → (c ∉ local) ∧ (c ∉ domain)).
Proof. apply SplitAddress_inv. Qed.

End Spec.

Lemma applyFlags_correct_witness :
  applyFlags [B "\Seen"] [B "\SEEN"; B "\Recent"; B "Work"] FlagsAdd = [B "\Seen"; B "Work"] ∧
  normal [B "\Seen"; B "Work"].
Proof.
  assert (normal [B "\Seen"]) as Hn.
  { apply (normal_snoc []); [constructor | by vm_compute | done]. }
  destruct (applyFlags_correct [B "\Seen"] [B "\SEEN"; B "\Recent"; B "Work"] FlagsAdd Hn) as (H & _ & _).
  assert (applyFlags [B "\Seen"] [B "\SEEN"; B "\Recent"; B "Work"] FlagsAdd = [B "\Seen"; B "Work"]) as He
    by (vm_compute; reflexivity).
  split; [exact He |]. rewrite <- He. exact H.
Defined.

Lemma SplitAddress_sound_witness :
  SplitAddress (B " <Bob@Example.ORG> ") = Some (B "Bob", B "example.org") ∧
  ∃ raw, B "example.org" = ToLower raw ∧ B "Bob" ≠ [].
Proof.
  assert (SplitAddress (B " <Bob@Example.ORG> ") = Some (B "Bob", B "example.org")) as He
    by (vm_compute; reflexivity).
  split; [exact He |].
  destruct (SplitAddress_sound _ _ _ He) as (raw & _ & Hd & Hl & _).
  exists raw. split; [exact Hd | exact Hl].
Defined.
