(* ===== verification/MailStore.v ===== *)
(** * MailStore: the mailboxes on disk ([mail/store.go])

    A mailbox is a directory [<user dir>/mail/<encoded name>] with an
    [index.json] and one file per message.  Every operation below runs under
    the store's mutex in the code and is one state-passing function here;
    [Copy], which takes the mutex several times, is the sequence of its
    parts. *)

From S2P Require Import Prelude GoStrings Strconv World Accounts Flags.

(** ** The accounts the mail server depends on *)

(** The [Accounts] interface; [UserStore] implements it below. *)
Class Accounts := {
  accounts_Authenticate : bytes → bytes → M (option Account);
  accounts_FindByID : bytes → M (option Account);
  accounts_UserDir : Z → path;
}.

Definition UserStore_accounts {U : UnicodeTables} {Bc : Bcrypt} (s : UserStore) : Accounts := {|
  accounts_Authenticate := Authenticate s;
  accounts_FindByID := FindByID s;
  accounts_UserDir := UserDir s;
|}.

(** What the mail server relies on: user directories are plain paths none of
    which is inside another. *)
Class AccountsLaws (Acc : Accounts) := {
  UserDir_plain uid : Forall plain (accounts_UserDir uid) ∧ accounts_UserDir uid ≠ [];
  UserDir_apart uid uid' :
    accounts_UserDir uid `prefix_of` accounts_UserDir uid' → uid = uid';
}.

(** ** Mailbox names *)

Definition Inbox : bytes := B "INBOX".
Definition Delimiter : bytes := B "/".

Section Names.
Context {U : UnicodeTables}.

Definition CanonicalMailbox (name : bytes) : bytes :=
  let name := Trim name Delimiter in
  if EqualFold name Inbox then Inbox else name.

(** The runes that stay as they are in a directory name. *)
Definition safe_rune (r : Z) : bool := is_alnum r || (r =? 46) || (r =? 45) || (r =? 95).

Definition encode_mailbox_rune (r : Z) : bytes :=
  if safe_rune r then encode_rune r else B "%" ++ Sprintf_02X r.
Definition encodeMailboxName (name : bytes) : bytes := concat (encode_mailbox_rune <$> runes name).

(** [fmt.Sscanf(ab, "%02X", &r)] on two bytes: blanks are skipped, a sign is
    taken, and what follows the number does not matter. *)
Definition scan_02X (a b : ascii) : option Z :=
  let blank c := bool_decide (c ∈ [chr 9; chr 11; chr 12; chr 13; chr 32]) in
  if blank a then (if bool_decide (a = chr 13 ∧ b = chr 10) then None else digit_val b)
  else if bool_decide (a = "+"%char) then digit_val b
  else if bool_decide (a = "-"%char) then Z.opp <$> digit_val b
  else match digit_val a with
       | None => None
       | Some x => match digit_val b with Some y => Some (16 * x + y) | None => Some x end
       end.

Fixpoint decodeMailboxName (dir : bytes) : bytes :=
  match dir with
  | [] => []
  | c :: tl =>
      match tl with
      | a :: b :: rest =>
          if decide (c = "%"%char) then
            match scan_02X a b with
            | Some r => encode_rune r ++ decodeMailboxName rest
            | None => c :: decodeMailboxName tl
            end
          else c :: decodeMailboxName tl
      | _ => c :: decodeMailboxName tl
      end
  end.

End Names.

(** ** Records *)

Record Message := NewMessage {
  m_UID : Z; m_File : bytes; m_Size : Z; m_Date : Z; m_Flags : list bytes }.

Record mailboxIndex := NewIndex {
  UIDValidity : Z; UIDNext : Z; Subscribed : bool; Messages : list Message }.

(** [Snapshot]: an index with the mailbox's name. *)
Record Snapshot_ := NewSnapshot { Name : bytes; Index : mailboxIndex }.

Definition marshal_message (m : Message) : json :=
  JObject [(B "uid", JNumber (m_UID m) 0); (B "file", JString (m_File m)); (B "size", JNumber (m_Size m) 0);
           (B "date", JTime (m_Date m)); (B "flags", JArray (JString <$> m_Flags m))].
Definition unmarshal_message (j : json) : option Message :=
  match j with
  | JObject fs =>
      let get k := json_field (B k) fs in
      uid ← json_uint32 (get "uid"); file ← json_string (get "file"); size ← json_uint32 (get "size");
      date ← json_time (get "date"); flags ← json_strings (get "flags");
      Some (NewMessage uid file size date flags)
  | _ => None
  end.

Definition marshal_index (i : mailboxIndex) : json :=
  JObject [(B "uidvalidity", JNumber (UIDValidity i) 0); (B "uidnext", JNumber (UIDNext i) 0);
           (B "subscribed", JBool (Subscribed i)); (B "messages", JArray (marshal_message <$> Messages i))].
Definition unmarshal_index (j : json) : option mailboxIndex :=
  match j with
  | JNull => Some (NewIndex 0 0 false [])
  | JObject fs =>
      let get k := json_field (B k) fs in
      validity ← json_uint32 (get "uidvalidity"); next ← json_uint32 (get "uidnext");
      sub ← json_bool (get "subscribed"); msgs ← json_list unmarshal_message (get "messages");
      Some (NewIndex validity next sub msgs)
  | _ => None
  end.

#[export] Instance index_codec : Codec mailboxIndex := {| marshal := marshal_index; unmarshal := unmarshal_index |}.

(** ** The store *)

Section Store.
Context {U : UnicodeTables} {Acc : Accounts}.

Definition mailRoot (uid : Z) : path := Join (accounts_UserDir uid) [B "mail"].
Definition mailboxDir (uid : Z) (name : bytes) : path :=
  Join (mailRoot uid) [encodeMailboxName (CanonicalMailbox name)].
Definition indexPath (uid : Z) (name : bytes) : path := Join (mailboxDir uid name) [B "index.json"].

Definition uidValidity : M Z := now ← Now; mret (uint32 (time_Unix now)).

Definition newMailboxIndex : M mailboxIndex :=
  v ← uidValidity; mret (NewIndex v 1 true []).

(** The repairs [readIndex] makes to an index that lacks its counters. *)
Definition repair (index : mailboxIndex) : M mailboxIndex :=
  v ← (if UIDValidity index =? 0 then uidValidity else mret (UIDValidity index));
  mret (NewIndex v (if UIDNext index =? 0 then 1 else UIDNext index) (Subscribed index) (Messages index)).

Definition readIndex (uid : Z) (name : bytes) : M (result mailboxIndex) :=
  let name := CanonicalMailbox name in
  r ← os_ReadFile (indexPath uid name);
  match r with
  | Err os_ErrNotExist =>
      if decide (name ≠ Inbox) then mret (Err ErrNoSuchMailbox)
      else index ← newMailboxIndex; mret (Ok index)
  | Err e => mret (Err e)
  | Ok (Raw _) => mret (Err ErrUnmarshal)
  | Ok (Json j) =>
      match unmarshal_index j with
      | None => mret (Err ErrUnmarshal)
      | Some index => index ← repair index; mret (Ok index)
      end
  end.

Definition writeIndex (uid : Z) (name : bytes) (index : mailboxIndex) : M (result unit) :=
  let dir := mailboxDir uid name in
  _ ←? os_MkdirAll dir;
  os_WriteFile (Join dir [B "index.json"]) (Json (marshal index)).

Definition ListMailboxes (uid : Z) : M (result (list bytes)) :=
  r ← os_ReadDir (mailRoot uid);
  mret (match r with
        | Err os_ErrNotExist => Ok [Inbox]
        | Err e => Err e
        | Ok entries =>
            Ok (Inbox :: sort_Strings (omap (λ e : bytes * bool,
              if negb e.2 then None
              else let name := decodeMailboxName e.1 in
                   if decide (CanonicalMailbox name = Inbox) then None else Some name) entries))
        end).

Definition CreateMailbox (uid : Z) (name : bytes) : M (result unit) :=
  let name := CanonicalMailbox name in
  if decide (name = []) then mret (Err ErrNoSuchMailbox)
  else
    r ← os_Stat (indexPath uid name);
    match r with
    | Ok _ => mret (Err ErrMailboxExists)
    | Err _ =>
        if decide (name = Inbox) then mret (Err ErrMailboxExists)
        else index ← newMailboxIndex; writeIndex uid name index
    end.

Definition DeleteMailbox (uid : Z) (name : bytes) : M (result unit) :=
  let name := CanonicalMailbox name in
  if decide (name = Inbox) then mret (Err ErrMailboxForbidden)
  else
    r ← os_Stat (indexPath uid name);
    match r with
    | Err _ => mret (Err ErrNoSuchMailbox)
    | Ok _ => os_RemoveAll (mailboxDir uid name)
    end.

Definition RenameMailbox (uid : Z) (from to : bytes) : M (result unit) :=
  let from := CanonicalMailbox from in
  let to := CanonicalMailbox to in
  if decide (from = Inbox ∨ to = Inbox) then mret (Err ErrMailboxForbidden)
  else
    r ← os_Stat (indexPath uid from);
    match r with
    | Err _ => mret (Err ErrNoSuchMailbox)
    | Ok _ =>
        r ← os_Stat (indexPath uid to);
        match r with
        | Ok _ => mret (Err ErrMailboxExists)
        | Err _ =>
            _ ←? os_MkdirAll (parent (mailboxDir uid to));
            os_Rename (mailboxDir uid from) (mailboxDir uid to)
        end
    end.

Definition SetSubscribed (uid : Z) (name : bytes) (subscribed : bool) : M (result unit) :=
  index ←? readIndex uid name;
  writeIndex uid name (NewIndex (UIDValidity index) (UIDNext index) subscribed (Messages index)).

Definition Snapshot (uid : Z) (name : bytes) : M (result Snapshot_) :=
  index ←? readIndex uid name;
  mret (Ok (NewSnapshot (CanonicalMailbox name) index)).

Definition message_file (msgUID : Z) : bytes := Sprintf_08d msgUID ++ B ".eml".

Definition Append (uid : Z) (name : bytes) (flags : list bytes) (date : Z) (body : bytes) : M (result Z) :=
  let name := CanonicalMailbox name in
  r ← readIndex uid name;
  r ← match r with
      | Err ErrNoSuchMailbox => index ← newMailboxIndex; mret (Ok index)
      | r => mret r
      end;
  match r with
  | Err e => mret (Err e)
  | Ok index =>
      date ← (if date =? zero_time then Now else mret date);
      let msgUID := UIDNext index in
      let file := message_file msgUID in
      let dir := mailboxDir uid name in
      _ ←? os_MkdirAll dir;
      _ ←? os_WriteFile (Join dir [file]) (Raw body);
      let msg := NewMessage msgUID file (uint32 (Z.of_nat (length body))) date (normaliseFlags flags) in
      _ ←? writeIndex uid name
             (NewIndex (UIDValidity index) (uint32 (msgUID + 1)) (Subscribed index) (Messages index ++ [msg]));
      mret (Ok msgUID)
  end.

Definition Body (uid : Z) (mailbox : bytes) (msg : Message) : M (result content) :=
  os_ReadFile (Join (mailboxDir uid mailbox) [m_File msg]).

Definition set_message_flags (msg : Message) (flags : list bytes) : Message :=
  NewMessage (m_UID msg) (m_File msg) (m_Size msg) (m_Date msg) flags.

Definition SetFlags (uid : Z) (name : bytes) (uids : list Z) (flags : list bytes) (op : FlagOp) : M (result unit) :=
  index ←? readIndex uid name;
  writeIndex uid name
    (NewIndex (UIDValidity index) (UIDNext index) (Subscribed index)
       ((λ msg, if decide (m_UID msg ∈ uids) then set_message_flags msg (applyFlags (m_Flags msg) flags op)
                else msg) <$> Messages index)).

Definition content_bytes (c : content) : bytes := match c with Raw b => b | Json _ => [] end.

Fixpoint copy_messages (uid : Z) (from to : bytes) (msgs : list Message) (uids : list Z) : M (result unit) :=
  match msgs with
  | [] => mret (Ok tt)
  | msg :: msgs =>
      if decide (m_UID msg ∈ uids) then
        body ←? Body uid from msg;
        _ ←? Append uid to (m_Flags msg) (m_Date msg) (content_bytes body);
        copy_messages uid from to msgs uids
      else copy_messages uid from to msgs uids
  end.

Definition Copy (uid : Z) (from to : bytes) (uids : list Z) : M (result unit) :=
  source ←? Snapshot uid from;
  _ ←? readIndex uid to;
  copy_messages uid from to (Messages (Index source)) uids.

(** The loop of [Remove]: the messages that stay; the files of the others go. *)
Fixpoint remove_messages (uid : Z) (name : bytes) (msgs : list Message) (uids : list Z) : M (result (list Message)) :=
  match msgs with
  | [] => mret (Ok [])
  | msg :: msgs =>
      if decide (m_UID msg ∈ uids) then
        r ← os_Remove (Join (mailboxDir uid name) [m_File msg]);
        match r with
        | Ok _ | Err os_ErrNotExist => remove_messages uid name msgs uids
        | Err e => mret (Err e)
        end
      else kept ←? remove_messages uid name msgs uids; mret (Ok (msg :: kept))
  end.

Definition Remove (uid : Z) (name : bytes) (uids : list Z) : M (result unit) :=
  index ←? readIndex uid name;
  kept ←? remove_messages uid name (Messages index) uids;
  writeIndex uid name (NewIndex (UIDValidity index) (UIDNext index) (Subscribed index) kept).

Definition Deleted (snapshot : Snapshot_) : list Z :=
  m_UID <$> filter (λ msg, hasFlag (m_Flags msg) FlagDeleted = true) (Messages (Index snapshot)).

Definition Unseen (snapshot : Snapshot_) : Z :=
  foldl (λ count msg, if negb (hasFlag (m_Flags msg) FlagSeen) then uint32 (count + 1) else count)
    0 (Messages (Index snapshot)).

Definition TotalSize (snapshot : Snapshot_) : Z :=
  foldl (λ total msg, uint64 (total + m_Size msg)) 0 (Messages (Index snapshot)).

End Store.
