(* ===== verification/MailNames.v ===== *)
(** * MailNames: mailbox names and their directories

    Facts about [CanonicalMailbox], [encodeMailboxName] and
    [decodeMailboxName] of [mail/store.go]: which names survive the round trip
    through a directory name, and which stay inside the mail directory. *)

From S2P Require Import Prelude GoStrings Strconv World Accounts Flags MailStore.

(** A statement about the numbers below a bound, by running over them. *)
Lemma all_below (P : Z → Prop) `{∀ z, Decision (P z)} n :
  forallb (λ k, bool_decide (P (Z.of_nat k))) (seq 0 n) = true →
  ∀ z, 0 <= z < Z.of_nat n → P z.
Proof.
  intros Hall z Hz. rewrite forallb_forall in Hall.
  assert (In (Z.to_nat z) (seq 0 n)) as Hin by (apply in_seq; lia).
  apply Hall, bool_decide_eq_true in Hin. by rewrite Z2Nat.id in Hin by lia.
Qed.

Lemma Sprintf_02X_byte r :
  0 <= r < 256 → Sprintf_02X r = [digit_upper (r / 16); digit_upper (r mod 16)].
Proof.
  apply (all_below (λ r, Sprintf_02X r = [digit_upper (r / 16); digit_upper (r mod 16)]) 256).
  vm_compute. reflexivity.
Qed.

Lemma scan_02X_digits x y :
  0 <= x < 16 → 0 <= y < 16 → scan_02X (digit_upper x) (digit_upper y) = Some (16 * x + y).
Proof.
  intros Hx Hy.
  assert (∀ z, 0 <= z < 256 →
    scan_02X (digit_upper (z / 16)) (digit_upper (z mod 16)) = Some (16 * (z / 16) + z mod 16)) as H.
  { apply (all_below (λ z, scan_02X (digit_upper (z / 16)) (digit_upper (z mod 16)) =
      Some (16 * (z / 16) + z mod 16)) 256). vm_compute. reflexivity. }
  specialize (H (16 * x + y) ltac:(lia)).
  replace ((16 * x + y) / 16) with x in H by lia_div.
  by replace ((16 * x + y) mod 16) with y in H by lia_div.
Qed.

Lemma decode_cons c tl : c ≠ "%"%char → decodeMailboxName (c :: tl) = c :: decodeMailboxName tl.
Proof. intros Hc. destruct tl as [| a [| b rest]]; [done | done |]. simpl. by rewrite decide_False. Qed.

Lemma decode_percent x y rest :
  0 <= x < 16 → 0 <= y < 16 →
  decodeMailboxName ("%"%char :: digit_upper x :: digit_upper y :: rest) =
  encode_rune (16 * x + y) ++ decodeMailboxName rest.
Proof.
  intros Hx Hy. cbn [decodeMailboxName]. rewrite decide_True by done. by rewrite scan_02X_digits.
Qed.

Lemma safe_rune_code r : safe_rune r = true → encode_rune r = [chr r] ∧ chr r ≠ "%"%char ∧ 0 <= r < 128.
Proof.
  intros H.
  assert (0 <= r < 128) as Hr.
  { unfold safe_rune, is_alnum, is_upper, is_lower, is_digit in H. lia. }
  assert (code (chr r) = r) as Hc by (apply code_chr; lia).
  split; [| split; [| done]].
  - rewrite <- Hc at 1. apply encode_rune_ascii. unfold is_ascii. lia.
  - intros Hp. rewrite Hp in Hc. subst r. done.
Qed.

Lemma decode_encode_rune r rest :
  0 <= r < 256 → decodeMailboxName (encode_mailbox_rune r ++ rest) = encode_rune r ++ decodeMailboxName rest.
Proof.
  intros Hr. unfold encode_mailbox_rune. destruct (safe_rune r) eqn:Hs.
  - apply safe_rune_code in Hs as (-> & Hc & _). simpl. by apply decode_cons.
  - rewrite Sprintf_02X_byte by done. cbn [app B String.list_ascii_of_string].
    rewrite decode_percent by lia_div. f_equal. f_equal. lia_div.
Qed.

(** Names of runes up to U+00FF come back from their directory. *)
Lemma decode_encode name :
  valid_utf8 name → Forall (λ r, r < 256) (runes name) →
  decodeMailboxName (encodeMailboxName name) = name.
Proof.
  intros Hv Hr. transitivity (encode_runes (runes name)); [clear Hv | exact Hv].
  unfold encodeMailboxName, encode_runes.
  pose proof (runes_valid name) as Hval. induction Hr as [| r rs Hlt _ IH]; [done |].
  apply Forall_cons in Hval as [Hrv Hval]. rewrite !fmap_cons. cbn [concat].
  assert (0 <= r) by (unfold valid_rune in Hrv; lia).
  rewrite decode_encode_rune by lia. f_equal. by apply IH.
Qed.

(** ** The directory names *)

(** The bytes of a directory name. *)
Definition dir_char (c : ascii) : bool := safe_rune (code c) || bool_decide (c = "%"%char).

Lemma show16_class n : 0 <= n → Forall (λ c, dir_char c = true) (show 16 n).
Proof.
  intros Hn. eapply Forall_impl; [apply show_class; lia |]. intros c Hc. simpl in Hc.
  unfold dir_char, safe_rune, is_alnum.
  by destruct (is_digit (code c)), (is_upper (code c)), (is_lower (code c)).
Qed.

Lemma encode_rune_dir r : 0 <= r → Forall (λ c, dir_char c = true) (encode_mailbox_rune r) ∧ encode_mailbox_rune r ≠ [].
Proof.
  intros Hr. unfold encode_mailbox_rune. destruct (safe_rune r) eqn:Hs.
  - pose proof (safe_rune_code _ Hs) as (-> & _ & ?). split; [| done].
    repeat constructor. unfold dir_char. by rewrite code_chr, Hs by lia.
  - split; [| done]. apply Forall_app. split; [by repeat constructor |].
    unfold Sprintf_02X, zero_pad. apply Forall_app. split; [by apply Forall_replicate |]. by apply show16_class.
Qed.

Lemma runes_nonneg name : Forall (λ r, 0 <= r) (runes name).
Proof.
  eapply Forall_impl; [apply runes_valid |]. intros r Hr. unfold valid_rune in Hr. lia.
Qed.

Lemma encode_dir name : Forall (λ c, dir_char c = true) (encodeMailboxName name).
Proof.
  unfold encodeMailboxName. induction (runes_nonneg name) as [| r rs Hr _ IH]; [done |].
  rewrite fmap_cons. cbn [concat]. apply Forall_app. split; [by apply encode_rune_dir | done].
Qed.

(** A chunk that decodes to an ASCII rune is that byte. *)
Lemma chunks_low s : Forall (λ ck, ck.1 < 128 → ck.2 = [chr ck.1]) (chunks s).
Proof.
  apply (chunks_ind (λ _ cs, Forall (λ ck, ck.1 < 128 → ck.2 = [chr ck.1]) cs)); [constructor | ..].
  - intros a s' IH. constructor; [| done]. cbn [fst snd]. unfold rune1.
    case_match; [intros _; by rewrite chr_code | unfold RuneError; lia].
  - intros a b s' H IH. constructor; [| done]. cbn [fst snd]. unfold utf8_two, cont in H. unfold rune2. lia.
  - intros a b c s' H IH. constructor; [| done]. cbn [fst snd]. unfold utf8_three, cont in H. unfold rune3. lia.
  - intros a b c d s' H IH. constructor; [| done]. cbn [fst snd]. unfold utf8_four, cont in H. unfold rune4. lia.
Qed.

Lemma runes_low s : Forall (λ r, r < 128) (runes s) → s = chr <$> runes s.
Proof.
  intros H. unfold runes in *. rewrite <- (chunks_concat s) at 1.
  pose proof (chunks_low s) as Hlow. induction (chunks s) as [| ck cs IH]; [done |].
  apply Forall_cons in Hlow as [H1 Hlow]. rewrite fmap_cons in H. apply Forall_cons in H as [Hlt H].
  rewrite !fmap_cons. cbn [concat]. rewrite H1 by done. simpl. f_equal. by apply IH.
Qed.

(** Encoding onto safe bytes without [%] is the identity. *)
Lemma encode_to_safe name d :
  encodeMailboxName name = d → "%"%char ∉ d → name = d.
Proof.
  intros <- Hp. assert (Forall (λ r, safe_rune r = true) (runes name)) as Hsafe.
  { unfold encodeMailboxName in Hp. induction (runes name) as [| r rs IH]; [constructor |].
    rewrite fmap_cons in Hp. cbn [concat] in Hp. apply not_elem_of_app in Hp as [H1 H2].
    constructor; [| by apply IH]. destruct (safe_rune r) eqn:E; [done |]. exfalso. apply H1.
    unfold encode_mailbox_rune. rewrite E. apply elem_of_app. left. by left. }
  rewrite (runes_low name) at 1.
  - unfold encodeMailboxName. induction Hsafe as [| r rs Hr _ IH]; [done |].
    rewrite !fmap_cons. cbn [concat]. unfold encode_mailbox_rune at 1. rewrite Hr.
    apply safe_rune_code in Hr as (-> & _ & _). simpl. f_equal. exact IH.
  - eapply Forall_impl; [exact Hsafe |]. intros r Hr. apply safe_rune_code in Hr as (_ & _ & ?). simpl. lia.
Qed.

(** The names whose directory is a plain path component: all but the empty
    one, [.] and [..]. *)
Lemma encode_plain name : plain (encodeMailboxName name) ↔ name ≠ [] ∧ name ≠ B "." ∧ name ≠ B "..".
Proof.
  split.
  - intros (H1 & H2 & H3 & _). repeat split; intros ->; done.
  - intros (H1 & H2 & H3). unfold plain. split; [| split; [| split]].
    + intros H%encode_to_safe; [done | apply not_elem_of_nil].
    + intros H%encode_to_safe; [done |]. by apply (bool_decide_unpack _).
    + intros H%encode_to_safe; [done |]. by apply (bool_decide_unpack _).
    + intros Hin. pose proof (encode_dir name) as Hd. rewrite Forall_forall in Hd.
      apply Hd in Hin. by vm_compute in Hin.
Qed.
