(* ===== verification/MailFacts.v ===== *)
(** * MailFacts: the mailbox directory as an abstract mailbox

    [at_dir f dir o] says that the directory [dir] of the tree [f] holds the
    abstract mailbox [o] ([None]: there is no index).  Each operation of
    [MailStore] is characterised against it, with and without operating
    system failures. *)

From S2P Require Import Prelude GoStrings Strconv World WorldFacts Accounts AccountsFacts Flags MailStore MailNames.

(** ** Abstract mailboxes *)

Record amessage := AMessage { a_uid : Z; a_flags : list bytes; a_date : Z; a_body : bytes }.

Record mailbox := Mailbox {
  mb_validity : Z; mb_next : Z; mb_subscribed : bool; mb_messages : list amessage }.

Definition entry_of (a : amessage) : Message :=
  NewMessage (a_uid a) (message_file (a_uid a)) (uint32 (Z.of_nat (length (a_body a)))) (a_date a) (a_flags a).
Definition index_of (mb : mailbox) : mailboxIndex :=
  NewIndex (mb_validity mb) (mb_next mb) (mb_subscribed mb) (entry_of <$> mb_messages mb).

(** UIDs grow strictly along the mailbox and stay below the next one. *)
Record mailbox_ok {U : UnicodeTables} (mb : mailbox) : Prop := {
  mok_validity : 0 < mb_validity mb < 2 ^ 32;
  mok_next : 1 <= mb_next mb < 2 ^ 32;
  mok_uids : Forall (λ a, 1 <= a_uid a < mb_next mb) (mb_messages mb);
  mok_sorted : StronglySorted Z.lt (a_uid <$> mb_messages mb);
  mok_flags : Forall (λ a, normal (a_flags a)) (mb_messages mb);
}.

(** ** Names of files *)

Definition index_json : bytes := B "index.json".

Lemma message_file_inj u v : 0 <= u → 0 <= v → message_file u = message_file v → u = v.
Proof. intros Hu Hv H%app_inv_tail. by apply Sprintf_08d_inj. Qed.

Lemma message_file_index u : message_file u ≠ index_json.
Proof.
  unfold message_file. intros H%(f_equal reverse). rewrite reverse_app in H. discriminate H.
Qed.

Lemma message_file_plain u : 0 <= u → plain (message_file u).
Proof.
  intros Hu. unfold message_file, plain.
  assert (∀ c, c ∈ Sprintf_08d u → is_digit (code c) = true) as Hd.
  { intros c. unfold Sprintf_08d, zero_pad. rewrite elem_of_app. intros [Hc | Hc].
    - by apply elem_of_replicate in Hc as [-> _].
    - pose proof (show10_class u Hu) as Hs. rewrite Forall_forall in Hs. by apply Hs. }
  split; [intros [_ ?]%app_nil; done |].
  split; [intros H%(f_equal reverse); rewrite reverse_app in H; discriminate H |].
  split; [intros H%(f_equal reverse); rewrite reverse_app in H; discriminate H |].
  intros [Hin | Hin]%elem_of_app; [by apply Hd in Hin | revert Hin; by apply (bool_decide_unpack _)].
Qed.

Lemma index_json_plain : plain index_json.
Proof. by apply (bool_decide_unpack _). Qed.

(** ** JSON round trip of an index *)

Definition index_fits (i : mailboxIndex) : Prop :=
  is_uint32 (UIDValidity i) ∧ is_uint32 (UIDNext i) ∧
  Forall (λ m, is_uint32 (m_UID m) ∧ is_uint32 (m_Size m)) (Messages i).

#[local] Arguments mapM : simpl never.

Lemma message_roundtrip m :
  is_uint32 (m_UID m) → is_uint32 (m_Size m) → unmarshal_message (marshal_message m) = Some m.
Proof.
  intros H1 H2. destruct m as [uid file size date flags]. simpl in *.
  unfold unmarshal_message, marshal_message, json_strings. simpl.
  rewrite !decide_True by done. simpl. by rewrite json_strings_roundtrip.
Qed.

Lemma index_roundtrip i : index_fits i → unmarshal_index (marshal_index i) = Some i.
Proof.
  intros (H1 & H2 & H3). destruct i as [v n s ms]. simpl in *.
  unfold unmarshal_index, marshal_index. simpl. rewrite !decide_True by done. simpl.
  assert (mapM unmarshal_message (marshal_message <$> ms) = Some ms) as ->; [| done].
  apply mapM_Some, Forall2_fmap_l, Forall_Forall2_diag. eapply Forall_impl; [exact H3 |].
  intros m [? ?]. by apply message_roundtrip.
Qed.

Lemma index_of_fits {U : UnicodeTables} mb : mailbox_ok mb → index_fits (index_of mb).
Proof.
  intros [Hv Hn Hu _ _]. unfold index_fits, is_uint32. simpl. split; [lia |]. split; [lia |].
  apply Forall_fmap. eapply Forall_impl; [exact Hu |]. intros a Ha. simpl in *.
  split; [lia | apply uint32_range].
Qed.

(** ** Directories *)

(** A directory in which only files may lie, or that is yet to be made. *)
Record dir_ok (f : tree) (dir : path) : Prop := {
  dok_tree : tree_wf f;
  dok_above q : q `prefix_of` dir → file_in f q = None;
  dok_files name : f !! (dir ++ [name]) ≠ Some Dir;
}.

Lemma snoc_not_prefix {A} (l : list A) x : ¬ (l ++ [x]) `prefix_of` l.
Proof. intros [r Hr]. apply (f_equal length) in Hr. rewrite !length_app in Hr. simpl in Hr. lia. Qed.

Lemma mkdirs_lookup_not f dir q : ¬ q `prefix_of` dir → mkdirs f dir !! q = f !! q.
Proof.
  intros Hq. rewrite mkdirs_lookup. destruct (f !! q); [done |].
  rewrite decide_False; [done |]. by intros [_ ?]%elem_of_prefixes.
Qed.

Lemma dir_ok_mkdirs f dir :
  dir_ok f dir → dir_ok (mkdirs f dir) dir ∧ dirb (mkdirs f dir) dir = true.
Proof.
  intros [Ht Ha Hf]. split; [| by apply dirb_mkdirs_prefix]. constructor.
  - by apply tree_wf_mkdirs.
  - intros q Hq. rewrite file_in_mkdirs. by apply Ha.
  - intros name. rewrite mkdirs_lookup_not; [apply Hf | apply snoc_not_prefix].
Qed.

Lemma dirb_file f dir name : dir_ok f dir → dirb f (dir ++ [name]) = false.
Proof.
  intros Hd. apply not_true_is_false. rewrite dirb_spec. intros [H | H]; [by destruct dir |].
  by apply (dok_files _ _ Hd) in H.
Qed.

Lemma dir_ok_insert f dir name c :
  dir_ok f dir → dirb f dir = true →
  dir_ok (<[dir ++ [name] := File c]> f) dir ∧ dirb (<[dir ++ [name] := File c]> f) dir = true.
Proof.
  intros Hd Hdir. pose proof Hd as [Ht Ha Hf]. split.
  - constructor.
    + apply tree_wf_insert_file; [done | by destruct dir | by apply dirb_file | by rewrite parent_snoc].
    + intros q Hq. rewrite file_in_insert, decide_False; [by apply Ha |].
      intros <-. by apply snoc_not_prefix in Hq.
    + intros name'. rewrite lookup_insert. case_decide; [done | apply Hf].
  - rewrite dirb_spec in *. destruct Hdir as [-> | Hdir]; [by left | right].
    rewrite lookup_insert_ne; [done |]. intros Hx. apply (f_equal length) in Hx.
    rewrite length_app in Hx. simpl in Hx. lia.
Qed.

Lemma dir_ok_delete f dir name :
  dir_ok f dir → dir_ok (delete (dir ++ [name]) f) dir.
Proof.
  intros Hd. pose proof Hd as [[Hroot Hwf] Ha Hf]. constructor.
  - split; [by rewrite lookup_delete_None; right |].
    intros p n nd [Hne Hp]%lookup_delete_Some. apply Hwf in Hp. rewrite dirb_spec in *.
    destruct Hp as [-> | Hp]; [by left | right]. apply lookup_delete_Some. split; [| done].
    intros <-. by apply Hf in Hp.
  - intros q Hq. apply Ha in Hq. unfold file_in in *. rewrite lookup_delete. by case_decide.
  - intros name'. rewrite lookup_delete. case_decide; [done | apply Hf].
Qed.

(** [outside dir f f']: beyond [dir] no file changed, and no directory
    appeared but those above [dir]. *)
Definition outside (dir : path) (f f' : tree) : Prop :=
  ∀ q, ¬ dir `prefix_of` q →
    file_in f' q = file_in f q ∧ (f' !! q = Some Dir → f !! q = Some Dir ∨ q `prefix_of` dir).

#[export] Instance outside_preorder dir : PreOrder (outside dir).
Proof.
  split; [intros f q; by auto |]. intros f g h H1 H2 q Hq.
  destruct (H1 q Hq) as [E1 D1], (H2 q Hq) as [E2 D2]. split; [congruence |]. naive_solver.
Qed.

Lemma outside_mkdirs f dir : outside dir f (mkdirs f dir).
Proof.
  intros q Hq. split; [apply file_in_mkdirs |]. rewrite mkdirs_lookup.
  destruct (f !! q) as [n |]; [by intros [= ->]; left |]. case_decide as Hp; [| done].
  apply elem_of_prefixes in Hp as [_ ?]. by right.
Qed.

Lemma outside_insert f dir name c : outside dir f (<[dir ++ [name] := File c]> f).
Proof.
  intros q Hq. assert (dir ++ [name] ≠ q) as Hne by (intros <-; apply Hq; by eexists).
  rewrite file_in_insert, decide_False, lookup_insert_ne by done. auto.
Qed.

Lemma outside_delete f dir name : outside dir f (delete (dir ++ [name]) f).
Proof.
  intros q Hq. assert (dir ++ [name] ≠ q) as Hne by (intros <-; apply Hq; by eexists).
  unfold file_in. rewrite lookup_delete_ne by done. auto.
Qed.

(** Nothing exists at or below a path. *)
Definition absent (f : tree) (p : path) : Prop := ∀ q n, f !! q = Some n → ¬ p `prefix_of` q.

(** ** The representation *)

Definition stores (f : tree) (dir : path) (o : option mailbox) : Prop :=
  match o with
  | None => file_in f (dir ++ [index_json]) = None
  | Some mb =>
      (∃ j, file_in f (dir ++ [index_json]) = Some (Json j) ∧ unmarshal_index j = Some (index_of mb)) ∧
      Forall (λ a, file_in f (dir ++ [message_file (a_uid a)]) = Some (Raw (a_body a))) (mb_messages mb)
  end.

Record at_dir {U : UnicodeTables} (f : tree) (dir : path) (o : option mailbox) : Prop := {
  ad_dir : dir_ok f dir;
  ad_stores : stores f dir o;
  ad_ok : ∀ mb, o = Some mb → mailbox_ok mb;
}.

Lemma stores_ext f f' dir o :
  (∀ name, file_in f' (dir ++ [name]) = file_in f (dir ++ [name])) → stores f dir o → stores f' dir o.
Proof.
  intros H. destruct o as [mb |]; simpl; rewrite H; [| done].
  intros [Hi Hb]. split; [done |]. eapply Forall_impl; [exact Hb |]. intros a Ha. simpl in *. by rewrite H.
Qed.

Lemma at_dir_mkdirs {U : UnicodeTables} f dir o :
  at_dir f dir o → at_dir (mkdirs f dir) dir o ∧ dirb (mkdirs f dir) dir = true.
Proof.
  intros [Hd Hs Hok]. destruct (dir_ok_mkdirs f dir Hd). split; [| done]. split; [done | | done].
  eapply stores_ext; [| done]. intros name. apply file_in_mkdirs.
Qed.

(** ** Names and directories of one account *)

Section Canonical.
Context {U : UnicodeTables}.

Lemma head_TrimRight s cutset c : head (TrimRight s cutset) = Some c → head s = Some c.
Proof.
  destruct (TrimRight_prefix s cutset) as (t & Hs & _). intros H.
  rewrite Hs. destruct (TrimRight s cutset); [done | exact H].
Qed.

Lemma Trim_idemp s cutset : Trim (Trim s cutset) cutset = Trim s cutset.
Proof.
  unfold Trim. rewrite (TrimLeft_id (TrimRight _ _)).
  - apply TrimRight_id. intros c. apply TrimRight_last.
  - intros c Hc%head_TrimRight. by apply TrimLeft_head in Hc.
Qed.

Lemma Canonical_idemp name : CanonicalMailbox (CanonicalMailbox name) = CanonicalMailbox name.
Proof.
  unfold CanonicalMailbox at 2 3. destruct (EqualFold (Trim name Delimiter) Inbox) eqn:E.
  - unfold CanonicalMailbox. change (Trim Inbox Delimiter) with Inbox. by rewrite EqualFold_refl.
  - unfold CanonicalMailbox. by rewrite Trim_idemp, E.
Qed.

End Canonical.

Section Mailbox.
Context {U : UnicodeTables} {Acc : Accounts} {Laws : AccountsLaws Acc}.

(** Names that are a directory of their own below the mail directory. *)
Definition good_name (name : bytes) : Prop := plain (encodeMailboxName (CanonicalMailbox name)).

Lemma good_name_iff name :
  good_name name ↔
  CanonicalMailbox name ≠ [] ∧ CanonicalMailbox name ≠ B "." ∧ CanonicalMailbox name ≠ B "..".
Proof. apply encode_plain. Qed.

Lemma mail_plain : plain (B "mail").
Proof. by apply (bool_decide_unpack _). Qed.

Lemma mailRoot_eq uid : mailRoot uid = accounts_UserDir uid ++ [B "mail"].
Proof.
  apply Join_plain; [apply UserDir_plain |]. apply Forall_singleton, mail_plain.
Qed.

Lemma mailRoot_plain uid : Forall plain (mailRoot uid).
Proof.
  rewrite mailRoot_eq. apply Forall_app. split; [apply UserDir_plain |].
  apply Forall_singleton, mail_plain.
Qed.

Lemma mailboxDir_eq uid name :
  good_name name → mailboxDir uid name = mailRoot uid ++ [encodeMailboxName (CanonicalMailbox name)].
Proof. intros Hg. apply Join_plain; [apply mailRoot_plain | by apply Forall_singleton]. Qed.

Lemma mailboxDir_canonical uid name : mailboxDir uid (CanonicalMailbox name) = mailboxDir uid name.
Proof. unfold mailboxDir. by rewrite Canonical_idemp. Qed.

Lemma good_canonical name : good_name name → good_name (CanonicalMailbox name).
Proof. unfold good_name. by rewrite Canonical_idemp. Qed.

Lemma in_mailbox uid name file :
  good_name name → plain file → Join (mailboxDir uid name) [file] = mailboxDir uid name ++ [file].
Proof.
  intros Hg Hf. apply Join_plain; [| by apply Forall_singleton]. rewrite mailboxDir_eq by done.
  apply Forall_app. split; [apply mailRoot_plain | by apply Forall_singleton].
Qed.

Lemma indexPath_eq uid name : good_name name → indexPath uid name = mailboxDir uid name ++ [index_json].
Proof. intros Hg. apply in_mailbox; [done | apply index_json_plain]. Qed.

Lemma indexPath_canonical uid name : indexPath uid (CanonicalMailbox name) = indexPath uid name.
Proof. unfold indexPath. by rewrite mailboxDir_canonical. Qed.

(** Different mailboxes of one account lie apart. *)
Lemma mailboxDir_apart uid name name' :
  good_name name → good_name name' → mailboxDir uid name ≠ mailboxDir uid name' →
  ∀ file, ¬ mailboxDir uid name `prefix_of` (mailboxDir uid name' ++ [file]).
Proof.
  intros Hg Hg'. rewrite !mailboxDir_eq by done. intros Hne file [r Hr].
  rewrite <- !app_assoc in Hr. apply app_inv_head in Hr. injection Hr as Hr _. congruence.
Qed.

(** ** Reading an index *)

(** What [readIndex] makes of a directory at a clock reading. *)
Definition fresh_mailbox (now : Z) : mailbox := Mailbox (uint32 (time_Unix now)) 1 true [].

(** A clock reading that gives a non-zero UIDVALIDITY. *)
Definition clock_ok (w : world) : Prop := 0 < uint32 (time_Unix (w_now w)).

Lemma fresh_mailbox_ok w : clock_ok w → mailbox_ok (fresh_mailbox (w_now w)).
Proof.
  unfold clock_ok. intros Hc. pose proof (uint32_range (time_Unix (w_now w))) as [_ ?].
  constructor; simpl; try constructor; try lia.
Qed.

Lemma newMailboxIndex_eq w : newMailboxIndex w = (index_of (fresh_mailbox (w_now w)), w).
Proof. done. Qed.

Lemma repair_ok mb w : mailbox_ok mb → repair (index_of mb) w = (index_of mb, w).
Proof.
  intros [Hv Hn _ _ _]. unfold repair. simpl.
  replace (mb_validity mb =? 0) with false by lia. replace (mb_next mb =? 0) with false by lia. done.
Qed.

(** Reading an index writes nothing. *)
Lemma repair_world i w : (repair i w).2 = w.
Proof. unfold repair. by destruct (UIDValidity i =? 0). Qed.

Lemma readIndex_quiet uid name w r w' : readIndex uid name w = (r, w') → quiet w w'.
Proof.
  unfold readIndex. intros (x & w1 & [Hq _]%os_ReadFile_inv & H)%st_bind_inv. enough (w' = w1) as -> by done.
  destruct x as [[b | j] | e]; [by st_inv | | destruct e; try (by st_inv)].
  2: { case_decide; [by st_inv |]. rewrite (st_bind_eq _ _ _ _ _ (newMailboxIndex_eq w1)) in H. by st_inv. }
  destruct (unmarshal_index j) as [index |]; [| by st_inv].
  apply st_bind_inv in H as (i & w2 & Hr & H). pose proof (repair_world index w1) as Hw. rewrite Hr in Hw. by st_inv.
Qed.

Lemma Snapshot_quiet uid name w r w' : Snapshot uid name w = (r, w') → quiet w w'.
Proof.
  unfold Snapshot. intros [(i & w1 & Hr & H) | (e & Hr & _)]%try_bind_inv; apply readIndex_quiet in Hr; by st_inv.
Qed.

Lemma readIndex_inv uid name w o r w' :
  good_name name → at_dir (w_fs w) (mailboxDir uid name) o → readIndex uid name w = (r, w') →
  quiet w w' ∧
  match r with
  | Ok index =>
      match o with
      | Some mb => index = index_of mb
      | None => CanonicalMailbox name = Inbox ∧ index = index_of (fresh_mailbox (w_now w))
      end
  | Err e => e = os_ErrIO ∨ (e = ErrNoSuchMailbox ∧ o = None ∧ CanonicalMailbox name ≠ Inbox)
  end.
Proof.
  intros Hg [Hd Hs Hok] H. unfold readIndex in H. rewrite indexPath_canonical, indexPath_eq in H by done.
  apply st_bind_inv in H as (x & w1 & Hx & H). apply os_ReadFile_inv in Hx as [Hq Hx].
  destruct x as [c | e].
  - destruct o as [mb |]; simpl in Hs; [| congruence].
    destruct Hs as [(j & Hj & Hu) _]. rewrite Hx in Hj. injection Hj as ->. rewrite Hu in H.
    rewrite (st_bind_eq _ _ _ _ _ (repair_ok mb w1 (Hok _ eq_refl))) in H. st_inv. by split.
  - destruct Hx as [-> | [-> Hnone]]; [st_inv; split; [done | by left] |].
    destruct o as [mb |].
    { destruct Hs as [(j & Hj & _) _]. apply file_in_Some in Hj. congruence. }
    case_decide as Hi.
    + st_inv. split; [done |]. right. done.
    + rewrite (st_bind_eq _ _ _ _ _ (newMailboxIndex_eq w1)) in H. st_inv.
      destruct Hq as (Hf & Hn & Hr). rewrite Hn. by split.
Qed.

Lemma readIndex_healthy uid name w mb :
  good_name name → at_dir (w_fs w) (mailboxDir uid name) (Some mb) → healthy w →
  readIndex uid name w = (Ok (index_of mb), w).
Proof.
  intros Hg [Hd Hs Hok] Hh. unfold readIndex. rewrite indexPath_canonical, indexPath_eq by done.
  destruct Hs as [(j & Hj & Hu) _]. rewrite (st_bind_eq _ _ _ _ _ (os_ReadFile_ok _ _ _ Hh Hj)), Hu.
  by rewrite (st_bind_eq _ _ _ _ _ (repair_ok mb w (Hok _ eq_refl))).
Qed.

Lemma readIndex_missing uid name w :
  good_name name → at_dir (w_fs w) (mailboxDir uid name) None → healthy w →
  readIndex uid name w =
  (if decide (CanonicalMailbox name = Inbox) then Ok (index_of (fresh_mailbox (w_now w)))
   else Err ErrNoSuchMailbox, w).
Proof.
  intros Hg [Hd Hs _] Hh. unfold readIndex. rewrite indexPath_canonical, indexPath_eq by done.
  assert (w_fs w !! (mailboxDir uid name ++ [index_json]) = None) as Hnone.
  { simpl in Hs. destruct (w_fs w !! _) as [[| c] |] eqn:E; [by apply (dok_files _ _ Hd) in E | | done].
    apply file_in_Some in E. congruence. }
  rewrite (st_bind_eq _ _ _ _ _ (os_ReadFile_missing _ _ Hh Hnone)).
  destruct (decide (CanonicalMailbox name = Inbox)) as [-> | Hne].
  - rewrite decide_False by (intros Hx; by apply Hx). done.
  - by rewrite decide_True.
Qed.

(** ** Writing an index *)

(** The index was truncated by a failing write. *)
Definition torn (f : tree) (dir : path) : Prop := file_in f (dir ++ [index_json]) = Some (Raw []).

Lemma put_file_inv dir name c w r w' :
  dir_ok (w_fs w) dir → dirb (w_fs w) dir = true → os_WriteFile (dir ++ [name]) c w = (r, w') →
  w_now w' = w_now w ∧ w_rand w' = w_rand w ∧ outside dir (w_fs w) (w_fs w') ∧
  dir_ok (w_fs w') dir ∧ dirb (w_fs w') dir = true ∧
  (∀ name', name' ≠ name → file_in (w_fs w') (dir ++ [name']) = file_in (w_fs w) (dir ++ [name'])) ∧
  match r with
  | Ok _ => file_in (w_fs w') (dir ++ [name]) = Some c
  | Err _ => file_in (w_fs w') (dir ++ [name]) = file_in (w_fs w) (dir ++ [name]) ∨
             file_in (w_fs w') (dir ++ [name]) = Some (Raw [])
  end.
Proof.
  intros Hd Hdir H. apply os_WriteFile_inv in H as (Hn & Hr & H). do 2 (split; [done |]).
  assert (∀ c', let f := <[dir ++ [name] := File c']> (w_fs w) in
    outside dir (w_fs w) f ∧ dir_ok f dir ∧ dirb f dir = true ∧
    (∀ name', name' ≠ name → file_in f (dir ++ [name']) = file_in (w_fs w) (dir ++ [name'])) ∧
    file_in f (dir ++ [name]) = Some c') as Hins.
  { intros c'. cbv zeta. split; [apply outside_insert |].
    destruct (dir_ok_insert _ _ name c' Hd Hdir). do 2 (split; [done |]). split.
    - intros name' Hne. rewrite file_in_insert, decide_False; [done |].
      intros [=]%app_inv_head. congruence.
    - rewrite file_in_insert. by rewrite decide_True. }
  destruct H as [(-> & -> & _) | (e & -> & [-> | (-> & _)])].
  - destruct (Hins c) as (? & ? & ? & ? & ?). done.
  - repeat (split; [done |]). by left.
  - destruct (Hins (Raw [])) as (? & ? & ? & ? & ?). repeat (split; [done |]). by right.
Qed.

(** Writing the index of [mb] into a directory that has its bodies; a failing
    write leaves every file as it was or truncates the index. *)
Lemma writeIndex_dir uid name w mb r w' :
  good_name name → dir_ok (w_fs w) (mailboxDir uid name) → mailbox_ok mb →
  Forall (λ a, file_in (w_fs w) (mailboxDir uid name ++ [message_file (a_uid a)]) = Some (Raw (a_body a)))
    (mb_messages mb) →
  writeIndex uid name (index_of mb) w = (r, w') →
  w_now w' = w_now w ∧ w_rand w' = w_rand w ∧
  outside (mailboxDir uid name) (w_fs w) (w_fs w') ∧ dir_ok (w_fs w') (mailboxDir uid name) ∧
  (∀ file, file ≠ index_json →
     file_in (w_fs w') (mailboxDir uid name ++ [file]) = file_in (w_fs w) (mailboxDir uid name ++ [file])) ∧
  match r with
  | Ok _ => at_dir (w_fs w') (mailboxDir uid name) (Some mb)
  | Err _ =>
      file_in (w_fs w') (mailboxDir uid name ++ [index_json]) =
        file_in (w_fs w) (mailboxDir uid name ++ [index_json]) ∨
      torn (w_fs w') (mailboxDir uid name)
  end.
Proof.
  intros Hg Hd Hok Hbodies H. unfold writeIndex in H. cbv zeta in H.
  set (dir := mailboxDir uid name) in *.
  change (Join dir [B "index.json"]) with (indexPath uid name) in H. rewrite indexPath_eq in H by done. fold dir in H.
  destruct (dir_ok_mkdirs _ _ Hd) as [Hm Hdir].
  apply try_bind_inv in H as [([] & w1 & Hmk & H) | (e & Hmk & ->)];
    apply os_MkdirAll_inv in Hmk as (Hn1 & Hr1 & [(? & Hf1 & _) | (? & Hf1)]); try discriminate; cycle 1.
  { rewrite Hf1. repeat (split; [done |]). by left. }
  rewrite <- Hf1 in Hm, Hdir. apply put_file_inv in H as (Hn2 & Hr2 & Ho & Hd2 & _ & Hoth & Hx); [| done | done].
  assert (∀ name, name ≠ index_json → file_in (w_fs w') (dir ++ [name]) = file_in (w_fs w) (dir ++ [name])) as Hsame.
  { intros n Hne. rewrite Hoth, Hf1 by done. apply file_in_mkdirs. }
  split; [congruence |]. split; [congruence |]. split; [| split; [done | split; [done |]]].
  { etrans; [| exact Ho]. rewrite Hf1. apply outside_mkdirs. }
  destruct r as [[] | e].
  - split; [done | | by intros ? [= <-]]. split.
    + exists (marshal (index_of mb)). split; [done |]. by apply index_roundtrip, index_of_fits.
    + eapply Forall_impl; [exact Hbodies |]. intros a Ha. simpl in *.
      by rewrite Hsame by apply message_file_index.
  - destruct Hx as [Hx | Hx]; [left | by right]. by rewrite Hx, Hf1, file_in_mkdirs.
Qed.

Lemma writeIndex_inv uid name w o mb r w' :
  good_name name → at_dir (w_fs w) (mailboxDir uid name) o → mailbox_ok mb →
  Forall (λ a, file_in (w_fs w) (mailboxDir uid name ++ [message_file (a_uid a)]) = Some (Raw (a_body a)))
    (mb_messages mb) →
  writeIndex uid name (index_of mb) w = (r, w') →
  w_now w' = w_now w ∧ w_rand w' = w_rand w ∧
  outside (mailboxDir uid name) (w_fs w) (w_fs w') ∧
  match r with
  | Ok _ => at_dir (w_fs w') (mailboxDir uid name) (Some mb)
  | Err _ => at_dir (w_fs w') (mailboxDir uid name) o ∨ torn (w_fs w') (mailboxDir uid name)
  end.
Proof.
  intros Hg Had Hok Hbodies H.
  apply writeIndex_dir in H as (Hn & Hr & Ho & Hd & Hsame & Hx); [| done | apply Had | done | done].
  do 3 (split; [done |]). destruct r as [[] | e]; [done |].
  destruct Hx as [Hx | Hx]; [left | by right]. split; [done | | apply Had].
  eapply stores_ext; [| apply Had]. intros n. destruct (decide (n = index_json)) as [-> |]; [done | by apply Hsame].
Qed.

Lemma writeIndex_healthy uid name w i :
  good_name name → dir_ok (w_fs w) (mailboxDir uid name) → healthy w →
  ∃ f, writeIndex uid name i w = (Ok tt, set_fs f w) ∧ dir_ok f (mailboxDir uid name) ∧
    file_in f (mailboxDir uid name ++ [index_json]) = Some (Json (marshal i)).
Proof.
  intros Hg Had Hh. unfold writeIndex. cbv zeta. set (dir := mailboxDir uid name) in *.
  change (Join dir [B "index.json"]) with (indexPath uid name). rewrite indexPath_eq by done. fold dir.
  destruct (dir_ok_mkdirs _ _ Had) as [Hm Hdir].
  rewrite (try_bind_ok _ _ _ _ _ (os_MkdirAll_ok _ _ Hh (dok_above _ _ Had))).
  exists (<[dir ++ [index_json] := File (Json (marshal i))]> (mkdirs (w_fs w) dir)). split; [| split].
  - rewrite os_WriteFile_ok; [by rewrite set_fs_set_fs | done | by apply dirb_file | by rewrite parent_snoc].
  - by apply dir_ok_insert.
  - rewrite file_in_insert. by rewrite decide_True.
Qed.

(** ** Appending *)

Definition base (o : option mailbox) (now : Z) : mailbox :=
  match o with Some mb => mb | None => fresh_mailbox now end.

Definition appended (mb : mailbox) (flags : list bytes) (date : Z) (body : bytes) : mailbox :=
  Mailbox (mb_validity mb) (mb_next mb + 1) (mb_subscribed mb)
    (mb_messages mb ++ [AMessage (mb_next mb) (normaliseFlags flags) date body]).

Definition stamp (date now : Z) : Z := if date =? zero_time then now else date.

Lemma base_ok f dir o w : at_dir f dir o → clock_ok w → mailbox_ok (base o (w_now w)).
Proof. intros Had Hc. destruct o; [by apply Had | by apply fresh_mailbox_ok]. Qed.

Lemma StronglySorted_snoc {A} (R : A → A → Prop) l x :
  StronglySorted R l → Forall (λ y, R y x) l → StronglySorted R (l ++ [x]).
Proof.
  induction 1 as [| y l Hl IH Hy]; intros Hx; simpl; [by repeat constructor |].
  apply Forall_cons in Hx as [Hyx Hx]. constructor; [by apply IH |].
  apply Forall_app. split; [done |]. by apply Forall_singleton.
Qed.

Lemma appended_ok mb flags date body :
  mailbox_ok mb → mb_next mb < 2 ^ 32 - 1 → mailbox_ok (appended mb flags date body).
Proof.
  intros [Hv Hn Hu Hs Hf] Hlt. constructor; simpl; [done | lia | | |].
  - apply Forall_app. split.
    + eapply Forall_impl; [exact Hu |]. intros a Ha. simpl in *. lia.
    + apply Forall_singleton. simpl. lia.
  - rewrite fmap_app. apply StronglySorted_snoc; [done |]. apply Forall_fmap.
    eapply Forall_impl; [exact Hu |]. intros a Ha. simpl in *. lia.
  - apply Forall_app. split; [done |]. apply Forall_singleton. apply normaliseFlags_spec.
Qed.

Lemma index_of_appended mb flags date body :
  mb_next mb < 2 ^ 32 - 1 → 0 <= mb_next mb →
  index_of (appended mb flags date body) =
  NewIndex (mb_validity mb) (uint32 (mb_next mb + 1)) (mb_subscribed mb)
    ((entry_of <$> mb_messages mb) ++
     [NewMessage (mb_next mb) (message_file (mb_next mb)) (uint32 (Z.of_nat (length body))) date
        (normaliseFlags flags)]).
Proof.
  intros H1 H2. unfold index_of, appended. simpl. rewrite fmap_app.
  by rewrite uint32_id by (unfold is_uint32; lia).
Qed.

(** The part of [Append] after the index was read. *)
Definition append_to (uid : Z) (name : bytes) (index : mailboxIndex) (flags : list bytes) (date : Z)
    (body : bytes) : M (result Z) :=
  date ← (if date =? zero_time then Now else mret date);
  let msgUID := UIDNext index in
  let file := message_file msgUID in
  let dir := mailboxDir uid name in
  _ ←? os_MkdirAll dir;
  _ ←? os_WriteFile (Join dir [file]) (Raw body);
  let msg := NewMessage msgUID file (uint32 (Z.of_nat (length body))) date (normaliseFlags flags) in
  _ ←? writeIndex uid name
         (NewIndex (UIDValidity index) (uint32 (msgUID + 1)) (Subscribed index) (Messages index ++ [msg]));
  mret (Ok msgUID).

Lemma stamp_eq date w : (if date =? zero_time then Now else mret date) w = (stamp date (w_now w), w).
Proof. unfold stamp. by destruct (date =? zero_time). Qed.

(** A body file that no index entry names does not disturb the mailbox. *)
Lemma put_body dir w o u body x w2 :
  at_dir (w_fs w) dir o → dirb (w_fs w) dir = true → 0 <= u →
  (∀ mb, o = Some mb → Forall (λ a, 0 <= a_uid a ∧ a_uid a ≠ u) (mb_messages mb)) →
  os_WriteFile (dir ++ [message_file u]) (Raw body) w = (x, w2) →
  w_now w2 = w_now w ∧ w_rand w2 = w_rand w ∧ outside dir (w_fs w) (w_fs w2) ∧
  at_dir (w_fs w2) dir o ∧
  (x = Ok tt → file_in (w_fs w2) (dir ++ [message_file u]) = Some (Raw body)).
Proof.
  intros Hm Hdir Hu Hfresh Hw.
  apply put_file_inv in Hw as (H1 & H2 & H3 & H4 & _ & H5 & H6); [| apply Hm | done].
  do 3 (split; [done |]). split; [| by intros ->].
  pose proof (message_file_index u) as Hi.
  split; [done | | exact (ad_ok _ _ _ Hm)]. pose proof (ad_stores _ _ _ Hm) as Hs.
  destruct o as [mb |]; simpl in *; rewrite H5 by done; [| done].
  destruct Hs as [Hidx Hb]. split; [done |]. specialize (Hfresh _ eq_refl).
  rewrite Forall_forall in Hb, Hfresh |- *. intros a Ha. destruct (Hfresh _ Ha).
  rewrite H5; [by apply Hb |]. by intros Heq%message_file_inj.
Qed.

Lemma append_to_inv uid name w o mb flags date body r w' :
  good_name name → at_dir (w_fs w) (mailboxDir uid name) o → mailbox_ok mb →
  (∀ mb', o = Some mb' → mb = mb') → (o = None → mb_messages mb = []) → mb_next mb < 2 ^ 32 - 1 →
  append_to uid name (index_of mb) flags date body w = (r, w') →
  w_now w' = w_now w ∧ w_rand w' = w_rand w ∧
  outside (mailboxDir uid name) (w_fs w) (w_fs w') ∧
  match r with
  | Ok u => u = mb_next mb ∧
      at_dir (w_fs w') (mailboxDir uid name) (Some (appended mb flags (stamp date (w_now w)) body))
  | Err _ => at_dir (w_fs w') (mailboxDir uid name) o ∨ torn (w_fs w') (mailboxDir uid name)
  end.
Proof.
  intros Hg Had Hok Hsome Hnone Hlt H. unfold append_to in H.
  rewrite (st_bind_eq _ _ _ _ _ (stamp_eq date w)) in H. cbv zeta in H.
  cbn [UIDNext UIDValidity Subscribed Messages index_of] in H.
  pose proof (mok_next _ Hok) as Hn. rewrite <- index_of_appended in H by lia.
  rewrite in_mailbox in H by (try done; apply message_file_plain; lia).
  set (dir := mailboxDir uid name) in *. destruct (at_dir_mkdirs _ _ _ Had) as [Hm Hdir].
  apply try_bind_inv in H as [([] & w1 & Hmk & H) | (e & Hmk & ->)];
    apply os_MkdirAll_inv in Hmk as (Hn1 & Hr1 & [(? & Hf1 & _) | (? & Hf1)]); try discriminate; cycle 1.
  { rewrite Hf1. split; [done |]. split; [done |]. split; [done | by left]. }
  rewrite <- Hf1 in Hm, Hdir.
  assert (outside dir (w_fs w) (w_fs w1)) as Ho1 by (rewrite Hf1; apply outside_mkdirs).
  assert (∀ mb', o = Some mb' → Forall (λ a, 0 <= a_uid a ∧ a_uid a ≠ mb_next mb) (mb_messages mb')) as Hfresh.
  { intros mb' <-%Hsome. eapply Forall_impl; [apply Hok |]. intros a Ha. simpl in *. lia. }
  apply try_bind_inv in H as [([] & w2 & Hw & H) | (e & Hw & ->)];
    apply (put_body dir w1 o) in Hw as (Hn2 & Hr2 & Ho2 & Had2 & Hbody); try done; try lia; cycle 1.
  { split; [congruence |]. split; [congruence |]. split; [by etrans | by left]. }
  specialize (Hbody eq_refl).
  assert (outside dir (w_fs w) (w_fs w2)) as Ho12 by (by etrans).
  assert (Forall (λ a, file_in (w_fs w2) (dir ++ [message_file (a_uid a)]) = Some (Raw (a_body a)))
    (mb_messages (appended mb flags (stamp date (w_now w)) body))) as Hall.
  { simpl. apply Forall_app. split; [| by apply Forall_singleton].
    destruct o as [mb' |]; [| by rewrite Hnone].
    rewrite (Hsome _ eq_refl). apply (ad_stores _ _ _ Had2). }
  apply try_bind_inv in H as [([] & w3 & Hi & H) | (e & Hi & ->)];
    apply (writeIndex_inv uid name w2 o) in Hi as (Hn3 & Hr3 & Ho3 & Hres); try done;
    try (by apply appended_ok).
  - st_inv. split; [congruence |]. split; [congruence |]. split; [by etrans | by split].
  - split; [congruence |]. split; [congruence |]. split; [by etrans | done].
Qed.

Lemma Append_eq uid name flags date body w :
  Append uid name flags date body w =
  (let '(r, w1) := readIndex uid (CanonicalMailbox name) w in
   match r with
   | Ok index => append_to uid (CanonicalMailbox name) index flags date body w1
   | Err ErrNoSuchMailbox =>
       append_to uid (CanonicalMailbox name) (index_of (fresh_mailbox (w_now w1))) flags date body w1
   | Err e => (Err e, w1)
   end).
Proof.
  unfold Append, append_to. cbv zeta. unfold mbind at 1, st_bind at 1.
  destruct (readIndex _ _ _) as [[index | e] w1]; [done |]. by destruct e.
Qed.

Lemma at_dir_quiet w w' dir o : at_dir (w_fs w) dir o → quiet w w' → at_dir (w_fs w') dir o.
Proof. by intros H [-> _]. Qed.

Lemma Append_inv uid name w o flags date body r w' :
  good_name name → at_dir (w_fs w) (mailboxDir uid name) o → clock_ok w →
  mb_next (base o (w_now w)) < 2 ^ 32 - 1 →
  Append uid name flags date body w = (r, w') →
  w_now w' = w_now w ∧ w_rand w' = w_rand w ∧
  outside (mailboxDir uid name) (w_fs w) (w_fs w') ∧
  match r with
  | Ok u => u = mb_next (base o (w_now w)) ∧
      at_dir (w_fs w') (mailboxDir uid name)
        (Some (appended (base o (w_now w)) flags (stamp date (w_now w)) body))
  | Err _ => at_dir (w_fs w') (mailboxDir uid name) o ∨ torn (w_fs w') (mailboxDir uid name)
  end.
Proof.
  intros Hg Had Hc Hlt H. rewrite Append_eq in H.
  rewrite <- (mailboxDir_canonical uid name) in *. pose proof (good_canonical _ Hg) as Hg'.
  destruct (readIndex uid (CanonicalMailbox name) w) as [x w1] eqn:Hr.
  eapply readIndex_inv in Hr as [Hq Hx]; [| done | done]. pose proof Hq as (Hf & Hn & Hrd).
  pose proof (base_ok _ _ _ _ Had Hc) as Hok.
  assert (∀ r' w2, append_to uid (CanonicalMailbox name) (index_of (base o (w_now w))) flags date body w1 = (r', w2) →
    w_now w2 = w_now w ∧ w_rand w2 = w_rand w ∧
    outside (mailboxDir uid (CanonicalMailbox name)) (w_fs w) (w_fs w2) ∧
    match r' with
    | Ok u => u = mb_next (base o (w_now w)) ∧
        at_dir (w_fs w2) (mailboxDir uid (CanonicalMailbox name))
          (Some (appended (base o (w_now w)) flags (stamp date (w_now w)) body))
    | Err _ => at_dir (w_fs w2) (mailboxDir uid (CanonicalMailbox name)) o ∨
               torn (w_fs w2) (mailboxDir uid (CanonicalMailbox name))
    end) as Happ.
  { intros r' w2 Ha. apply (append_to_inv _ _ _ o) in Ha as (H1 & H2 & H3 & H4);
      [| done | by eapply at_dir_quiet | done | by destruct o; intros ? [=] | by destruct o | done].
    rewrite Hf in H3. rewrite Hn in H4. split; [congruence |]. by split; [congruence |]. }
  destruct x as [index | e].
  - apply Happ. rewrite <- H. f_equal. destruct o as [mb |]; [by rewrite Hx | by destruct Hx as [_ ->]].
  - destruct Hx as [-> | (-> & -> & _)].
    + injection H as <- <-. rewrite Hf. repeat (split; [done |]). by left.
    + rewrite Hn in H. by apply Happ.
Qed.

Definition grown_index (index : mailboxIndex) (flags : list bytes) (date : Z) (body : bytes) : mailboxIndex :=
  NewIndex (UIDValidity index) (uint32 (UIDNext index + 1)) (Subscribed index)
    (Messages index ++ [NewMessage (UIDNext index) (message_file (UIDNext index))
       (uint32 (Z.of_nat (length body))) date (normaliseFlags flags)]).

Lemma append_to_healthy uid name w index flags date body :
  good_name name → dir_ok (w_fs w) (mailboxDir uid name) → healthy w → 0 <= UIDNext index →
  ∃ f, append_to uid name index flags date body w = (Ok (UIDNext index), set_fs f w) ∧
    dir_ok f (mailboxDir uid name) ∧
    file_in f (mailboxDir uid name ++ [index_json]) =
      Some (Json (marshal (grown_index index flags (stamp date (w_now w)) body))).
Proof.
  intros Hg Hd Hh Hnext. unfold append_to.
  rewrite (st_bind_eq _ _ _ _ _ (stamp_eq date w)). cbv zeta.
  rewrite in_mailbox by (try done; by apply message_file_plain).
  set (dir := mailboxDir uid name) in *. destruct (dir_ok_mkdirs _ _ Hd) as [Hm Hdir].
  rewrite (try_bind_ok _ _ _ _ _ (os_MkdirAll_ok _ _ Hh (dok_above _ _ Hd))).
  set (w1 := set_fs (mkdirs (w_fs w) dir) w).
  assert (os_WriteFile (dir ++ [message_file (UIDNext index)]) (Raw body) w1 =
    (Ok tt, set_fs (<[dir ++ [message_file (UIDNext index)] := File (Raw body)]> (w_fs w1)) w1)) as Hw.
  { apply os_WriteFile_ok; [done | by apply dirb_file | by rewrite parent_snoc]. }
  rewrite (try_bind_ok _ _ _ _ _ Hw). set (w2 := set_fs _ w1) in *.
  apply put_file_inv in Hw as (_ & _ & _ & Hd2 & _); [| done | done].
  destruct (writeIndex_healthy uid name w2 (grown_index index flags (stamp date (w_now w)) body))
    as (f & Hi & Hd3 & Hx); [done | done | done |].
  exists f. unfold grown_index in Hi. rewrite (try_bind_ok _ _ _ _ _ Hi). by split.
Qed.

Lemma Append_healthy uid name w o flags date body :
  good_name name → at_dir (w_fs w) (mailboxDir uid name) o → clock_ok w → healthy w →
  mb_next (base o (w_now w)) < 2 ^ 32 - 1 →
  ∃ f, Append uid name flags date body w = (Ok (mb_next (base o (w_now w))), set_fs f w).
Proof.
  intros Hg Had Hc Hh Hlt. pose proof (good_canonical _ Hg) as Hg'. rewrite Append_eq.
  pose proof (mok_next _ (base_ok _ _ _ _ Had Hc)) as Hn. rewrite <- (mailboxDir_canonical uid name) in Had.
  destruct (append_to_healthy uid (CanonicalMailbox name) w (index_of (base o (w_now w))) flags date body)
    as (f & Happ & _); [done | apply Had | done | simpl; lia |].
  exists f. destruct o as [mb |].
  - rewrite (readIndex_healthy _ _ _ _ Hg' Had Hh). exact Happ.
  - rewrite (readIndex_missing _ _ _ Hg' Had Hh). destruct (decide _); exact Happ.
Qed.

(** ** Changing flags and the subscription *)

Definition set_flags (mb : mailbox) (uids : list Z) (flags : list bytes) (op : FlagOp) : mailbox :=
  Mailbox (mb_validity mb) (mb_next mb) (mb_subscribed mb)
    ((λ a, if decide (a_uid a ∈ uids)
           then AMessage (a_uid a) (applyFlags (a_flags a) flags op) (a_date a) (a_body a) else a)
     <$> mb_messages mb).
Definition set_subscribed (mb : mailbox) (b : bool) : mailbox :=
  Mailbox (mb_validity mb) (mb_next mb) b (mb_messages mb).

Lemma applyFlags_normal current flags op : normal current → normal (applyFlags current flags op).
Proof.
  intros Hn. destruct op; simpl; [apply normaliseFlags_spec | apply normaliseFlags_spec | by apply normal_filter].
Qed.

Lemma set_flags_ok mb uids flags op : mailbox_ok mb → mailbox_ok (set_flags mb uids flags op).
Proof.
  intros [Hv Hn Hu Hs Hf]. constructor; simpl; [done | done | | |].
  - apply Forall_fmap. eapply Forall_impl; [exact Hu |]. intros a Ha. simpl. by case_decide.
  - rewrite <- list_fmap_compose. erewrite list_fmap_ext; [exact Hs |].
    intros i a _. simpl. by case_decide.
  - apply Forall_fmap. eapply Forall_impl; [exact Hf |]. intros a Ha. simpl.
    case_decide; [by apply applyFlags_normal | done].
Qed.

Lemma set_subscribed_ok mb b : mailbox_ok mb → mailbox_ok (set_subscribed mb b).
Proof. by intros []. Qed.

(** An update that rewrites the index of the mailbox and keeps the bodies. *)
Lemma update_inv uid name w o g mb' r w' :
  good_name name → at_dir (w_fs w) (mailboxDir uid name) o → clock_ok w →
  g (index_of (base o (w_now w))) = index_of mb' → mailbox_ok mb' →
  (∀ a, a ∈ mb_messages mb' → ∃ a0, a0 ∈ mb_messages (base o (w_now w)) ∧
     a_uid a0 = a_uid a ∧ a_body a0 = a_body a) →
  (index ←? readIndex uid name; writeIndex uid name (g index)) w = (r, w') →
  w_now w' = w_now w ∧ w_rand w' = w_rand w ∧
  outside (mailboxDir uid name) (w_fs w) (w_fs w') ∧
  match r with
  | Ok _ => at_dir (w_fs w') (mailboxDir uid name) (Some mb')
  | Err _ => at_dir (w_fs w') (mailboxDir uid name) o ∨ torn (w_fs w') (mailboxDir uid name)
  end.
Proof.
  intros Hg Had Hc Hgi Hok Hsub H.
  apply try_bind_inv in H as [(index & w1 & Hr & H) | (e & Hr & ->)];
    eapply readIndex_inv in Hr as [Hq Hx]; try done; pose proof Hq as (Hf & Hn & Hrd); cycle 1.
  { rewrite Hf. repeat (split; [done |]). by left. }
  assert (index = index_of (base o (w_now w))) as ->.
  { destruct o as [mb |]; [done | by destruct Hx as [_ ->]]. }
  rewrite Hgi in H. rewrite <- Hf in Had |- *.
  apply (writeIndex_inv _ _ _ o) in H as (Hn2 & Hr2 & Ho & Hres); [| done | done | done |].
  - split; [congruence |]. by split; [congruence |].
  - apply Forall_forall. intros a (a0 & Ha0 & <- & <-)%Hsub. destruct o as [mb |]; [| by apply elem_of_nil in Ha0].
    destruct (ad_stores _ _ _ Had) as [_ Hb]. rewrite Forall_forall in Hb. by apply Hb.
Qed.

Lemma update_healthy uid name w mb g mb' :
  good_name name → at_dir (w_fs w) (mailboxDir uid name) (Some mb) → clock_ok w → healthy w →
  g (index_of mb) = index_of mb' → mailbox_ok mb' →
  (∀ a, a ∈ mb_messages mb' → ∃ a0, a0 ∈ mb_messages mb ∧ a_uid a0 = a_uid a ∧ a_body a0 = a_body a) →
  ∃ f, (index ←? readIndex uid name; writeIndex uid name (g index)) w = (Ok tt, set_fs f w) ∧
    outside (mailboxDir uid name) (w_fs w) f ∧ at_dir f (mailboxDir uid name) (Some mb').
Proof.
  intros Hg Had Hc Hh Hgi Hok Hsub.
  destruct (writeIndex_healthy uid name w (g (index_of mb)) Hg (ad_dir _ _ _ Had) Hh) as (f & Hw & _).
  assert ((index ←? readIndex uid name; writeIndex uid name (g index)) w = (Ok tt, set_fs f w)) as H.
  { by rewrite (try_bind_ok _ _ _ _ _ (readIndex_healthy _ _ _ _ Hg Had Hh)). }
  exists f. split; [done |]. by eapply update_inv in H as (_ & _ & ? & ?).
Qed.

Lemma SetFlags_index mb uids flags op :
  NewIndex (UIDValidity (index_of mb)) (UIDNext (index_of mb)) (Subscribed (index_of mb))
    ((λ msg, if decide (m_UID msg ∈ uids) then set_message_flags msg (applyFlags (m_Flags msg) flags op)
             else msg) <$> Messages (index_of mb)) = index_of (set_flags mb uids flags op).
Proof.
  unfold index_of, set_flags. simpl. f_equal. rewrite <- !list_fmap_compose.
  apply list_fmap_ext. intros i a _. simpl. by case_decide.
Qed.

Lemma set_flags_bodies mb uids flags op a :
  a ∈ mb_messages (set_flags mb uids flags op) →
  ∃ a0, a0 ∈ mb_messages mb ∧ a_uid a0 = a_uid a ∧ a_body a0 = a_body a.
Proof. simpl. intros (a0 & -> & Ha0)%list_elem_of_fmap. exists a0. by case_decide. Qed.

(** ** Removing messages *)

Definition removed (mb : mailbox) (uids : list Z) : mailbox :=
  Mailbox (mb_validity mb) (mb_next mb) (mb_subscribed mb) (filter (λ a, a_uid a ∉ uids) (mb_messages mb)).

Lemma Forall_filter {A} (P Q : A → Prop) `{∀ x, Decision (P x)} l : Forall Q l → Forall Q (filter P l).
Proof. rewrite !Forall_forall. intros Hq x [_ Hx]%list_elem_of_filter. auto. Qed.

Lemma StronglySorted_filter {A C} (R : C → C → Prop) (f : A → C) (P : A → Prop) `{∀ x, Decision (P x)} l :
  StronglySorted R (f <$> l) → StronglySorted R (f <$> filter P l).
Proof.
  induction l as [| x l IH]; intros Hs; [done |]. rewrite fmap_cons in Hs. inversion_clear Hs as [| ? ? Hl Hx].
  rewrite filter_cons. case_decide; [| by apply IH]. rewrite fmap_cons. constructor; [by apply IH |].
  apply Forall_fmap, Forall_filter, Forall_fmap. exact Hx.
Qed.

Lemma removed_ok mb uids : mailbox_ok mb → mailbox_ok (removed mb uids).
Proof.
  intros [Hv Hn Hu Hs Hf]. constructor; simpl; [done | done | by apply Forall_filter | | by apply Forall_filter].
  by apply StronglySorted_filter.
Qed.

Lemma os_Remove_inv p w r w' :
  os_Remove p w = (r, w') → file_in (w_fs w) p ≠ None →
  w_now w' = w_now w ∧ w_rand w' = w_rand w ∧
  ((r = Ok tt ∧ w_fs w' = delete p (w_fs w)) ∨ (r = Err os_ErrIO ∧ w_fs w' = w_fs w)).
Proof.
  unfold os_Remove. intros [[-> (Hf & Hn & Hr)] | (f & Hb & Hs & Hn & Hr)]%syscall_inv Hp.
  { split; [done |]. split; [done |]. by right. }
  unfold file_in in Hp. destruct (w_fs w !! p) as [[| c] |] eqn:E; try done.
  injection Hb as <- <-. split; [done |]. split; [done |]. by left.
Qed.

Lemma os_Remove_ok p w c :
  healthy w → file_in (w_fs w) p = Some c → os_Remove p w = (Ok tt, set_fs (delete p (w_fs w)) w).
Proof.
  intros Hh Hp%file_in_Some. unfold os_Remove. apply syscall_healthy; [done |]. by rewrite Hp.
Qed.

Lemma file_in_delete f p q : file_in (delete p f) q = if decide (p = q) then None else file_in f q.
Proof. unfold file_in. rewrite lookup_delete. by case_decide. Qed.

(** The loop of [Remove] on the entries [l] of a mailbox with distinct UIDs:
    files of other messages and the index stay. *)
Lemma remove_messages_inv uid name l uids w r w' :
  good_name name → dir_ok (w_fs w) (mailboxDir uid name) → NoDup (a_uid <$> l) →
  Forall (λ a, 0 <= a_uid a) l →
  Forall (λ a, file_in (w_fs w) (mailboxDir uid name ++ [message_file (a_uid a)]) = Some (Raw (a_body a))) l →
  remove_messages uid name (entry_of <$> l) uids w = (r, w') →
  w_now w' = w_now w ∧ w_rand w' = w_rand w ∧ dir_ok (w_fs w') (mailboxDir uid name) ∧
  outside (mailboxDir uid name) (w_fs w) (w_fs w') ∧
  (∀ file, (∀ a, a ∈ l → a_uid a ∈ uids → file ≠ message_file (a_uid a)) →
     file_in (w_fs w') (mailboxDir uid name ++ [file]) = file_in (w_fs w) (mailboxDir uid name ++ [file])) ∧
  match r with
  | Ok kept => kept = entry_of <$> filter (λ a, a_uid a ∉ uids) l ∧
      ∀ a, a ∈ l → a_uid a ∈ uids →
        file_in (w_fs w') (mailboxDir uid name ++ [message_file (a_uid a)]) = None
  | Err e => e = os_ErrIO
  end.
Proof.
  intros Hg. set (dir := mailboxDir uid name).
  revert w r w'. induction l as [| a l IH]; intros w r w' Hd Hnd Hnn Hb H; simpl in H.
  { st_inv. repeat (split; [done |]). intros a []%elem_of_nil. }
  rewrite fmap_cons in Hnd. apply NoDup_cons in Hnd as [Hna Hnd].
  apply Forall_cons in Hnn as [Hn0 Hnn]. apply Forall_cons in Hb as [Hb0 Hb].
  rewrite filter_cons. case_decide as Hin; rewrite ?in_mailbox in H by (try done; by apply message_file_plain);
    fold dir in H.
  - rewrite decide_False by (intros Hx; by apply Hx).
    apply st_bind_inv in H as (x & w1 & Hrm & H).
    apply os_Remove_inv in Hrm as (Hn1 & Hr1 & Hx); [| by rewrite Hb0].
    destruct Hx as [[-> Hf1] | [-> Hf1]].
    + pose proof (dir_ok_delete _ _ (message_file (a_uid a)) Hd) as Hd1. rewrite <- Hf1 in Hd1.
      assert (∀ b, b ∈ l → a_uid b ≠ a_uid a) as Hdiff.
      { intros b Hbl Heq. apply Hna. rewrite <- Heq. by apply list_elem_of_fmap_2. }
      apply IH in H as (Hn2 & Hr2 & Hd2 & Ho2 & Hsame & Hres); [| done | done | done |].
      2: { rewrite Forall_forall in Hb, Hnn |- *. intros b Hbl. rewrite Hf1, file_in_delete, decide_False; [by apply Hb |].
           intros Heq%app_inv_head. injection Heq as Heq%message_file_inj; [| done | by apply Hnn].
           by apply Hdiff in Hbl. }
      split; [congruence |]. split; [congruence |]. split; [done |]. split.
      { etrans; [| exact Ho2]. rewrite Hf1. apply outside_delete. }
      split.
      * intros file Hfile. rewrite Hsame by (intros b Hbl; apply Hfile; by right).
        rewrite Hf1, file_in_delete, decide_False; [done |]. intros Heq%app_inv_head. injection Heq as Heq.
        by eapply (Hfile a); [left | |].
      * destruct r as [kept | e]; [| done]. destruct Hres as [-> Hgone]. split; [done |].
        intros b [-> | Hbl]%elem_of_cons Hbu; [| by apply Hgone].
        rewrite Hsame; [by rewrite Hf1, file_in_delete, decide_True |].
        intros b Hbl' _ Heq%message_file_inj; [by apply Hdiff in Hbl' | done |].
        rewrite Forall_forall in Hnn. by apply Hnn.
    + st_inv. rewrite Hf1. repeat (split; [done |]). done.
  - rewrite decide_True by done.
    apply try_bind_inv in H as [(kept & w1 & Hl & H) | (e & Hl & ->)];
      apply IH in Hl as (Hn2 & Hr2 & Hd2 & Ho2 & Hsame & Hres); try done.
    + st_inv. do 4 (split; [done |]). split.
      * intros file Hfile. apply Hsame. intros b Hbl. apply Hfile. by right.
      * destruct Hres as [-> Hgone]. split; [done |].
        intros b [-> | Hbl]%elem_of_cons Hbu; [done | by apply Hgone].
    + do 4 (split; [done |]). split; [| done].
      intros file Hfile. apply Hsame. intros b Hbl. apply Hfile. by right.
Qed.

Lemma remove_messages_healthy uid name l uids w :
  good_name name → dir_ok (w_fs w) (mailboxDir uid name) → NoDup (a_uid <$> l) →
  Forall (λ a, 0 <= a_uid a) l →
  Forall (λ a, file_in (w_fs w) (mailboxDir uid name ++ [message_file (a_uid a)]) = Some (Raw (a_body a))) l →
  healthy w → ∃ kept f, remove_messages uid name (entry_of <$> l) uids w = (Ok kept, set_fs f w).
Proof.
  intros Hg. revert w. induction l as [| a l IH]; intros w Hd Hnd Hnn Hb Hh.
  { exists [], (w_fs w). by rewrite set_fs_id. }
  rewrite fmap_cons in Hnd. rewrite fmap_cons. apply NoDup_cons in Hnd as [Hna Hnd].
  apply Forall_cons in Hnn as [Hn0 Hnn]. apply Forall_cons in Hb as [Hb0 Hb]. simpl.
  case_decide as Hin.
  - rewrite in_mailbox by (try done; by apply message_file_plain).
    rewrite (st_bind_eq _ _ _ _ _ (os_Remove_ok _ _ _ Hh Hb0)).
    edestruct (IH (set_fs (delete (mailboxDir uid name ++ [message_file (a_uid a)]) (w_fs w)) w))
      as (kept & f & Hl); [by apply dir_ok_delete | done | done | | done | by exists kept, f].
    rewrite Forall_forall in Hb, Hnn |- *. intros b Hbl. simpl. rewrite file_in_delete, decide_False; [by apply Hb |].
    intros Heq%app_inv_head. injection Heq as Heq%message_file_inj; [| done | by apply Hnn].
    apply Hna. rewrite Heq. by apply list_elem_of_fmap_2.
  - destruct (IH w) as (kept & f & Hl); try done. rewrite (try_bind_ok _ _ _ _ _ Hl). by eexists _, f.
Qed.

Lemma sorted_NoDup (l : list Z) : StronglySorted Z.lt l → NoDup l.
Proof.
  induction 1 as [| x l Hl IH Hx]; constructor; [| done].
  intros Hin. rewrite Forall_forall in Hx. apply Hx in Hin. lia.
Qed.

(** UIDs below 2^32 leave room for fewer than 2^32 messages. *)
Lemma sorted_length (l : list Z) lo hi :
  lo <= hi → StronglySorted Z.lt l → Forall (λ u, lo <= u < hi) l → Z.of_nat (length l) <= hi - lo.
Proof.
  revert lo. induction l as [| u l IH]; intros lo Hlo Hs Hf; simpl; [lia |].
  apply Forall_cons in Hf as [Hu Hf]. apply StronglySorted_inv in Hs as [Hs Hall].
  assert (Forall (λ v, u + 1 <= v < hi) l) as Hf'.
  { apply Forall_forall. intros v Hv. rewrite Forall_forall in Hall, Hf. specialize (Hall v Hv). specialize (Hf v Hv). simpl in Hf. lia. }
  specialize (IH (u + 1) ltac:(lia) Hs Hf'). lia.
Qed.

Lemma few_messages mb : mailbox_ok mb → Z.of_nat (length (mb_messages mb)) < 2 ^ 32.
Proof.
  intros [_ Hn Hu Hs _]. rewrite <- (length_fmap a_uid). 
  pose proof (sorted_length (a_uid <$> mb_messages mb) 1 (mb_next mb)) as H. 
  assert (Forall (λ u, 1 <= u < mb_next mb) (a_uid <$> mb_messages mb)) as Hf by (by apply Forall_fmap).
  specialize (H ltac:(lia) Hs Hf). lia.
Qed.

Lemma mailbox_nonneg mb : mailbox_ok mb → Forall (λ a, 0 <= a_uid a) (mb_messages mb).
Proof. intros Hok. eapply Forall_impl; [apply Hok |]. intros a Ha. simpl in *. lia. Qed.

(** What [Remove] leaves when the system fails midway: the index still lists
    every message and the bodies of the messages that were to stay. *)
Definition partly_removed (f : tree) (dir : path) (mb : mailbox) (uids : list Z) : Prop :=
  (∃ j, file_in f (dir ++ [index_json]) = Some (Json j) ∧ unmarshal_index j = Some (index_of mb)) ∧
  Forall (λ a, file_in f (dir ++ [message_file (a_uid a)]) = Some (Raw (a_body a)))
    (mb_messages (removed mb uids)).

Lemma Remove_inv uid name w mb uids r w' :
  good_name name → at_dir (w_fs w) (mailboxDir uid name) (Some mb) →
  Remove uid name uids w = (r, w') →
  w_now w' = w_now w ∧ w_rand w' = w_rand w ∧ outside (mailboxDir uid name) (w_fs w) (w_fs w') ∧
  match r with
  | Ok _ => at_dir (w_fs w') (mailboxDir uid name) (Some (removed mb uids)) ∧
      ∀ a, a ∈ mb_messages mb → a_uid a ∈ uids →
        file_in (w_fs w') (mailboxDir uid name ++ [message_file (a_uid a)]) = None
  | Err _ => partly_removed (w_fs w') (mailboxDir uid name) mb uids ∨ torn (w_fs w') (mailboxDir uid name)
  end.
Proof.
  intros Hg Had H. pose proof (ad_ok _ _ _ Had _ eq_refl) as Hok. pose proof (mailbox_nonneg _ Hok) as Hnn.
  pose proof (sorted_NoDup _ (mok_sorted _ Hok)) as Hnd.
  destruct (ad_stores _ _ _ Had) as [(j & Hj & Hu) Hb]. set (dir := mailboxDir uid name) in *.
  assert (Forall (λ a, file_in (w_fs w) (dir ++ [message_file (a_uid a)]) = Some (Raw (a_body a)))
    (mb_messages (removed mb uids))) as Hbr by (by apply Forall_filter).
  unfold Remove in H. apply try_bind_inv in H as [(index & w1 & Hr & H) | (e & Hr & ->)];
    apply (readIndex_inv _ _ _ (Some mb)) in Hr as [Hq Hx]; try done; pose proof Hq as (Hf & Hn & Hrd); cycle 1.
  { rewrite Hf. repeat (split; [done |]). left. split; [eauto | done]. }
  subst index. cbn [Messages index_of UIDValidity UIDNext Subscribed] in H.
  rewrite <- Hf in Hj, Hb, Had, Hbr.
  apply try_bind_inv in H as [(kept & w2 & Hl & H) | (e & Hl & ->)];
    apply remove_messages_inv in Hl as (Hn2 & Hr2 & Hd2 & Ho2 & Hsame & Hres); try done; try apply Had;
    assert (file_in (w_fs _) (dir ++ [index_json]) = Some (Json j)) as Hj2
      by (rewrite Hsame; [exact Hj | intros a _ _; apply not_eq_sym, message_file_index]);
    assert (Forall (λ a, file_in (w_fs _) (dir ++ [message_file (a_uid a)]) = Some (Raw (a_body a)))
      (mb_messages (removed mb uids))) as Hb2
      by (eapply Forall_forall; intros a Ha; rewrite Forall_forall in Hbr; rewrite Hsame; [by apply Hbr |];
          apply list_elem_of_filter in Ha as [Hau Ha]; intros b Hbl Hbu Heq; rewrite Forall_forall in Hnn;
          apply message_file_inj in Heq; [by rewrite Heq in Hau | by apply Hnn | by apply Hnn]); cycle 1.
  { rewrite <- Hf. split; [congruence |]. split; [congruence |]. split; [done |]. left. split; [eauto | done]. }
  destruct Hres as [-> Hgone].
  change (NewIndex (mb_validity mb) (mb_next mb) (mb_subscribed mb)
    (entry_of <$> filter (λ a, a_uid a ∉ uids) (mb_messages mb))) with (index_of (removed mb uids)) in H.
  apply writeIndex_dir in H as (Hn3 & Hr3 & Ho3 & Hd3 & Hs3 & Hres); [| done | done | by apply removed_ok | done].
  rewrite <- Hf. split; [congruence |]. split; [congruence |]. split; [by etrans |].
  destruct r as [[] | e].
  - split; [done |]. intros a Ha Hau. exact (eq_trans (Hs3 _ (message_file_index _)) (Hgone _ Ha Hau)).
  - destruct Hres as [Hx | Hx]; [left | by right].
    split; [exists j; split; [exact (eq_trans Hx Hj2) | done] |].
    eapply Forall_impl; [exact Hb2 |]. intros a Ha. simpl in *.
    exact (eq_trans (Hs3 _ (message_file_index _)) Ha).
Qed.

Lemma Remove_healthy uid name w mb uids :
  good_name name → at_dir (w_fs w) (mailboxDir uid name) (Some mb) → healthy w →
  ∃ f, Remove uid name uids w = (Ok tt, set_fs f w).
Proof.
  intros Hg Had Hh. pose proof (ad_ok _ _ _ Had _ eq_refl) as Hok. unfold Remove.
  rewrite (try_bind_ok _ _ _ _ _ (readIndex_healthy _ _ _ _ Hg Had Hh)).
  destruct (ad_stores _ _ _ Had) as [_ Hb].
  destruct (remove_messages_healthy uid name (mb_messages mb) uids w) as (kept & f & Hl);
    [done | apply Had | apply sorted_NoDup, Hok | by apply mailbox_nonneg | done | done |].
  cbn [Messages index_of]. rewrite (try_bind_ok _ _ _ _ _ Hl).
  apply remove_messages_inv in Hl as (_ & _ & Hd2 & _);
    [| done | apply Had | apply sorted_NoDup, Hok | by apply mailbox_nonneg | done].
  destruct (writeIndex_healthy uid name (set_fs f w)
    (NewIndex (mb_validity mb) (mb_next mb) (mb_subscribed mb) kept) Hg Hd2 Hh) as (g & Hw & _).
  exists g. exact Hw.
Qed.

(** ** Reading bodies and copying *)

Lemma Body_healthy uid name w mb a :
  good_name name → at_dir (w_fs w) (mailboxDir uid name) (Some mb) → a ∈ mb_messages mb → healthy w →
  Body uid name (entry_of a) w = (Ok (Raw (a_body a)), w).
Proof.
  intros Hg Had Ha Hh. pose proof (mailbox_nonneg _ (ad_ok _ _ _ Had _ eq_refl)) as Hnn.
  rewrite Forall_forall in Hnn. unfold Body. simpl.
  rewrite in_mailbox by (try done; by apply message_file_plain, Hnn).
  apply os_ReadFile_ok; [done |]. destruct (ad_stores _ _ _ Had) as [_ Hb].
  rewrite Forall_forall in Hb. by apply Hb.
Qed.

Lemma Snapshot_healthy uid name w mb :
  good_name name → at_dir (w_fs w) (mailboxDir uid name) (Some mb) → healthy w →
  Snapshot uid name w = (Ok (NewSnapshot (CanonicalMailbox name) (index_of mb)), w).
Proof.
  intros Hg Had Hh. unfold Snapshot. by rewrite (try_bind_ok _ _ _ _ _ (readIndex_healthy _ _ _ _ Hg Had Hh)).
Qed.

(** A mailbox is not touched by what happens in another one of the account. *)
Lemma at_dir_outside f f' uid name name' o :
  good_name name → good_name name' → mailboxDir uid name' ≠ mailboxDir uid name →
  at_dir f (mailboxDir uid name) o → tree_wf f' → outside (mailboxDir uid name') f f' →
  at_dir f' (mailboxDir uid name) o.
Proof.
  intros Hg Hg' Hne Had Ht Ho.
  assert (∀ file, ¬ mailboxDir uid name' `prefix_of` (mailboxDir uid name ++ [file])) as Hap
    by (by apply mailboxDir_apart).
  split; [| | apply Had].
  - constructor; [done | |].
    + intros q Hq. destruct (Ho q) as [-> _]; [| by apply (dok_above _ _ (ad_dir _ _ _ Had))].
      intros Hp. apply (Hap []). etrans; [exact Hp |]. etrans; [exact Hq |]. by eexists.
    + intros file Hd. apply (Ho _ (Hap file)) in Hd as [Hd | Hp]; [by apply (dok_files _ _ (ad_dir _ _ _ Had)) in Hd |].
      rewrite !mailboxDir_eq in Hp by done. apply prefix_length in Hp. rewrite !length_app in Hp. simpl in Hp. lia.
  - eapply stores_ext; [| apply Had]. intros file. apply Ho, Hap.
Qed.

End Mailbox.
