(* ===== verification/MailOps.v ===== *)
(** * MailOps: sequences of operations on one mailbox

    The operations of the store on a mailbox, concretely and on the abstract
    mailbox, and that the first implement the second on a healthy system. *)

From S2P Require Import Prelude GoStrings Strconv World WorldFacts Accounts AccountsFacts Flags MailStore.
From S2P Require Import MailNames MailFacts.

(** ** Operations on one mailbox *)

Inductive mailbox_op :=
| OpAppend (flags : list bytes) (date : Z) (body : bytes)
| OpSetFlags (uids : list Z) (flags : list bytes) (op : FlagOp)
| OpSetSubscribed (b : bool)
| OpRemove (uids : list Z).

Section Refinement.
Context {U : UnicodeTables} {Acc : Accounts} {Laws : AccountsLaws Acc}.

Definition run_op (uid : Z) (name : bytes) (op : mailbox_op) : M (result unit) :=
  match op with
  | OpAppend flags date body => _ ←? Append uid name flags date body; mret (Ok tt)
  | OpSetFlags uids flags op => SetFlags uid name uids flags op
  | OpSetSubscribed b => SetSubscribed uid name b
  | OpRemove uids => Remove uid name uids
  end.

Fixpoint run_ops (uid : Z) (name : bytes) (ops : list mailbox_op) : M (result unit) :=
  match ops with
  | [] => mret (Ok tt)
  | op :: ops => _ ←? run_op uid name op; run_ops uid name ops
  end.

(** The same operation on the abstract mailbox. *)
Definition apply_op (now : Z) (mb : mailbox) (op : mailbox_op) : mailbox :=
  match op with
  | OpAppend flags date body => appended mb flags (stamp date now) body
  | OpSetFlags uids flags op => set_flags mb uids flags op
  | OpSetSubscribed b => set_subscribed mb b
  | OpRemove uids => removed mb uids
  end.

Lemma apply_op_next now mb op : mb_next mb <= mb_next (apply_op now mb op) <= mb_next mb + 1.
Proof. destruct op; simpl; lia. Qed.

Lemma run_op_healthy uid name op w mb :
  good_name name → at_dir (w_fs w) (mailboxDir uid name) (Some mb) → clock_ok w → healthy w →
  mb_next mb < 2 ^ 32 - 1 →
  ∃ f, run_op uid name op w = (Ok tt, set_fs f w) ∧ outside (mailboxDir uid name) (w_fs w) f ∧
    at_dir f (mailboxDir uid name) (Some (apply_op (w_now w) mb op)).
Proof.
  intros Hg Had Hc Hh Hlt. pose proof (ad_ok _ _ _ Had _ eq_refl) as Hok.
  destruct op as [flags date body | uids flags op | b | uids]; simpl.
  - destruct (Append_healthy uid name w (Some mb) flags date body) as [f Ha]; [done .. |].
    exists f. rewrite (try_bind_ok _ _ _ _ _ Ha). split; [done |].
    by apply (Append_inv _ _ _ (Some mb)) in Ha as (_ & _ & ? & _ & ?).
  - apply (update_healthy uid name w mb (λ index, NewIndex (UIDValidity index) (UIDNext index) (Subscribed index)
      ((λ msg, if decide (m_UID msg ∈ uids) then set_message_flags msg (applyFlags (m_Flags msg) flags op)
               else msg) <$> Messages index)) (set_flags mb uids flags op)); try done.
    + apply SetFlags_index.
    + by apply set_flags_ok.
    + apply set_flags_bodies.
  - apply (update_healthy uid name w mb (λ index, NewIndex (UIDValidity index) (UIDNext index) b (Messages index))
      (set_subscribed mb b)); try done.
    + by apply set_subscribed_ok.
    + intros a Ha. by exists a.
  - destruct (Remove_healthy uid name w mb uids) as [f Hr]; [done .. |].
    exists f. split; [done |]. by eapply Remove_inv in Hr as (_ & _ & ? & ? & _).
Qed.

Lemma run_ops_healthy uid name ops w mb :
  good_name name → at_dir (w_fs w) (mailboxDir uid name) (Some mb) → clock_ok w → healthy w →
  mb_next mb + Z.of_nat (length ops) < 2 ^ 32 →
  ∃ f, run_ops uid name ops w = (Ok tt, set_fs f w) ∧ outside (mailboxDir uid name) (w_fs w) f ∧
    at_dir f (mailboxDir uid name) (Some (foldl (apply_op (w_now w)) mb ops)).
Proof.
  intros Hg. revert w mb. induction ops as [| op ops IH]; intros w mb Had Hc Hh Hlt.
  { exists (w_fs w). by rewrite set_fs_id. }
  simpl in Hlt. destruct (run_op_healthy uid name op w mb) as (f & H & Ho & Had'); [done .. | lia |].
  pose proof (apply_op_next (w_now w) mb op).
  destruct (IH (set_fs f w) (apply_op (w_now w) mb op)) as (g & Hg' & Ho' & Had''); [done .. | lia |].
  exists g. simpl. rewrite (try_bind_ok _ _ _ _ _ H). split; [exact Hg' |].
  split; [by etrans | done].
Qed.

Lemma foldl_next now ops mb0 : mb_next (foldl (apply_op now) mb0 ops) <= mb_next mb0 + Z.of_nat (length ops).
Proof.
  revert mb0. induction ops as [| op ops IH]; intros mb0; simpl; [lia |].
  specialize (IH (apply_op now mb0 op)). pose proof (apply_op_next now mb0 op). lia.
Qed.

End Refinement.
