(* ===== verification/MailFixtures.v ===== *)
(** * MailFixtures: the mail store on top of the user store, and concrete
    mailboxes for the witnesses *)

From S2P Require Import Prelude GoStrings Strconv World WorldFacts Accounts AccountsFacts Flags MailStore.
From S2P Require Import MailNames MailFacts Fixtures.

(** The user store satisfies what the mail server relies on. *)
Lemma UserStore_laws {U : UnicodeTables} {Bc : Bcrypt} (s : UserStore) :
  Forall plain (root s) → AccountsLaws (UserStore_accounts s).
Proof.
  intros Hr. split; simpl.
  - intros uid. rewrite UserDir_eq by done. split; [| apply snoc_nonempty].
    apply Forall_app. split; [done |]. apply Forall_singleton, plain_FormatInt.
  - intros uid uid'. rewrite !UserDir_eq by done. intros [r Hx]. rewrite <- app_assoc in Hx.
    apply app_inv_head in Hx. injection Hx as Hx _. by apply FormatInt_inj in Hx.
Qed.

#[export] Instance mail_accounts : Accounts := UserStore_accounts store.
#[export] Instance mail_laws : AccountsLaws mail_accounts.
Proof. apply UserStore_laws. by apply (bool_decide_unpack _). Defined.

(** A user directory without mail has no mailbox. *)
Lemma absent_at_dir s f m uid name (Hr : Forall plain (root s)) :
  let _ := UserStore_accounts s in
  represents s f m → absent f (mailRoot uid) → good_name name → at_dir f (mailboxDir uid name) None.
Proof.
  intros Acc Hrep Hab Hg. pose proof (UserStore_laws s Hr) as Laws. fold Acc in Laws.
  pose proof (mailboxDir_eq uid name Hg) as Hdir.
  assert (∀ q, mailRoot uid `prefix_of` q → f !! q = None) as Hnone.
  { intros q Hq. destruct (f !! q) eqn:E; [by apply Hab in E | done]. }
  assert (mailRoot uid = (root s ++ [FormatInt uid]) ++ [B "mail"]) as Hroot.
  { rewrite mailRoot_eq. unfold Acc. cbn [accounts_UserDir UserStore_accounts]. by rewrite UserDir_eq. }
  split; [| | done].
  - constructor; [apply Hrep | |].
    + intros q Hq. rewrite Hdir in Hq. unfold file_in.
      apply prefix_snoc_cases in Hq as [Hq | ->]; [| by rewrite Hnone by by eexists].
      rewrite Hroot in Hq. apply prefix_snoc_cases in Hq as [Hq | ->].
      * by apply (represents_free _ _ _ uid q Hrep) in Hq.
      * by rewrite Hnone by (by rewrite Hroot).
    + intros file. rewrite Hnone; [done |]. rewrite Hdir, <- app_assoc. by eexists.
  - simpl. unfold file_in. rewrite Hnone; [done |]. rewrite Hdir, <- app_assoc. by eexists.
Qed.

Lemma two_world_no_mail : absent (w_fs two_world) (mailRoot 1).
Proof.
  assert (map_Forall (λ q _, ¬ mailRoot 1 `prefix_of` q) (w_fs two_world)) as H.
  { apply (bool_decide_unpack _). vm_compute. exact I. }
  intros q n. apply H.
Qed.

Lemma no_mail name : good_name name → at_dir (w_fs two_world) (mailboxDir 1 name) None.
Proof.
  apply (absent_at_dir store _ two_users).
  - by apply (bool_decide_unpack _).
  - apply two_world_ok.
  - apply two_world_no_mail.
Qed.

Definition work : bytes := B "Work".
Lemma work_good : good_name work ∧ CanonicalMailbox work ≠ Inbox.
Proof. split; [by apply good_name_iff; vm_compute | by vm_compute]. Qed.
Lemma inbox_good : good_name Inbox.
Proof. apply good_name_iff. by vm_compute. Qed.
Lemma two_world_clock : clock_ok two_world.
Proof. by unfold clock_ok; vm_compute. Qed.

(** Room for the outbound queue. *)
Lemma two_world_queue : dir_ok (w_fs two_world) [B "data"; B "queue"].
Proof.
  constructor.
  - apply (dok_tree _ _ (ad_dir _ _ _ (no_mail Inbox inbox_good))).
  - intros q [r Hr]. destruct q as [| a [| b [| c q]]]; simplify_eq/=; vm_compute; reflexivity.
  - assert (map_Forall (λ q _, ¬ [B "data"; B "queue"] `prefix_of` q) (w_fs two_world)) as H.
    { apply (bool_decide_unpack _). vm_compute. exact I. }
    intros name Hx%H. apply Hx. by eexists.
Qed.

(** A mailbox with one message. *)
Definition work_box : mailbox :=
  appended (fresh_mailbox (w_now two_world)) [B "\Seen"] (w_now two_world) (B "hello").

Definition work_world : world := (Append 1 work [B "\Seen"] (w_now two_world) (B "hello") two_world).2.

Lemma work_world_ok :
  Append 1 work [B "\Seen"] (w_now two_world) (B "hello") two_world = (Ok 1, work_world) ∧
  healthy work_world ∧ w_now work_world = w_now two_world ∧
  at_dir (w_fs work_world) (mailboxDir 1 work) (Some work_box) ∧
  at_dir (w_fs work_world) (mailboxDir 1 Inbox) None.
Proof.
  destruct (Append_healthy 1 work two_world None [B "\Seen"] (w_now two_world) (B "hello")) as [f Ha];
    [apply work_good | apply no_mail, work_good | apply two_world_clock | apply two_world_ok | done |].
  unfold work_world. rewrite Ha. split; [done |]. split; [apply two_world_ok |]. split; [done |].
  apply (Append_inv _ _ _ None) in Ha as (_ & _ & Ho & _ & Had);
    [| apply work_good | apply no_mail, work_good | apply two_world_clock | done].
  split; [exact Had |]. apply (at_dir_outside (w_fs two_world) f 1 Inbox work None).
  - apply inbox_good.
  - apply work_good.
  - by vm_compute.
  - apply no_mail, inbox_good.
  - apply Had.
  - exact Ho.
Qed.

Lemma work_world_clock : clock_ok work_world.
Proof. unfold clock_ok. rewrite (proj1 (proj2 (proj2 work_world_ok))). apply two_world_clock. Qed.

Definition work_dir_ok := proj1 (proj2 (proj2 (proj2 work_world_ok))).
Definition work_healthy := proj1 (proj2 work_world_ok).
