(* ===== verification/Directory.v ===== *)
(** * Directory: what the mail server needs from the user store

    [Directory] is the contract between the mail server and the accounts: as
    long as the file tree holds the account records, [Authenticate] and
    [FindByID] answer from a fixed table, change nothing, and mail traffic
    does not disturb the records.  The user store fulfils it. *)

From S2P Require Import Prelude GoStrings Strconv World WorldFacts Accounts AccountsFacts Flags MailStore.
From S2P Require Import MailNames MailFacts Fixtures MailFixtures.

Class Directory {U : UnicodeTables} (Acc : Accounts) := {
  (** The records are on the file tree. *)
  holds : tree → Prop;
  dir_login : bytes → bytes → option Account;
  dir_find : bytes → option Account;
  Authenticate_holds q p w r w' :
    holds (w_fs w) → accounts_Authenticate q p w = (r, w') →
    quiet w w' ∧ (∀ a, r = Some a → dir_login q p = Some a) ∧ (healthy w → r = dir_login q p ∧ w' = w);
  FindByID_holds id w r w' :
    holds (w_fs w) → accounts_FindByID id w = (r, w') →
    quiet w w' ∧ (∀ a, r = Some a → dir_find id = Some a) ∧ (healthy w → r = dir_find id ∧ w' = w);
  holds_outside uid name f f' :
    good_name name → holds f → tree_wf f' → outside (mailboxDir uid name) f f' → holds f';
}.

Section Use.
Context {U : UnicodeTables} {Acc : Accounts} {D : Directory Acc}.

Lemma Authenticate_healthy q p w :
  holds (w_fs w) → healthy w → accounts_Authenticate q p w = (dir_login q p, w).
Proof.
  intros Hd Hh. destruct (accounts_Authenticate q p w) as [r w'] eqn:E.
  apply Authenticate_holds in E as (_ & _ & H); [| done]. by destruct (H Hh) as [-> ->].
Qed.

Lemma FindByID_healthy id w :
  holds (w_fs w) → healthy w → accounts_FindByID id w = (dir_find id, w).
Proof.
  intros Hd Hh. destruct (accounts_FindByID id w) as [r w'] eqn:E.
  apply FindByID_holds in E as (_ & _ & H); [| done]. by destruct (H Hh) as [-> ->].
Qed.

End Use.

(** ** The user store as a directory *)

Section UserStore.
Context {U : UnicodeTables} {Bc : Bcrypt} (s : UserStore) (Hroot : Forall plain (root s)).

#[local] Instance user_accounts : Accounts := UserStore_accounts s.
#[local] Instance user_laws : AccountsLaws user_accounts := UserStore_laws s Hroot.

Lemma user_mailboxDir uid name :
  good_name name →
  mailboxDir uid name = root s ++ [FormatInt uid; B "mail"; encodeMailboxName (CanonicalMailbox name)].
Proof.
  intros Hg. rewrite mailboxDir_eq, mailRoot_eq by done.
  unfold user_accounts. cbn [accounts_UserDir UserStore_accounts]. rewrite UserDir_eq by done.
  by rewrite <- !app_assoc.
Qed.

(** Mail traffic leaves the account records alone. *)
Lemma represents_outside f f' m uid name :
  good_name name → represents s f m → tree_wf f' → outside (mailboxDir uid name) f f' → represents s f' m.
Proof.
  intros Hg Hrep Hwf Ho. rewrite user_mailboxDir in Ho by done.
  set (enc := encodeMailboxName _) in Ho.
  assert (∀ q : path, (length q <= S (S (length (root s))))%nat →
    file_in f' q = file_in f q ∧ (f' !! q = Some Dir → f !! q = Some Dir ∨ q `prefix_of` root s ++ [FormatInt uid; B "mail"; enc])) as Hq.
  { intros q Hl. apply Ho. intros Hp%prefix_length. rewrite length_app in Hp. simpl in Hp. lia. }
  assert (∀ name', length (record_path s name') = S (S (length (root s)))) as Hrl.
  { intros name'. unfold record_path. rewrite length_app. simpl. lia. }
  constructor.
  - apply Hrep.
  - done.
  - intros q Hp. apply prefix_length in Hp as Hl. destruct (Hq q) as [-> _]; [lia |]. by apply Hrep.
  - intros name' n Hn. assert (length (root s ++ [name']) = S (length (root s))) as Hl
      by (rewrite length_app; simpl; lia).
    destruct (Hq (root s ++ [name'])) as [Hf Hd]; [lia |]. destruct n as [| c].
    + destruct (Hd Hn) as [Hn' | Hp]; [by eapply rep_names |]. split; [| done].
      apply prefix_app_inv in Hp. apply prefix_cons_inv_1 in Hp as ->. apply plain_FormatInt.
    + assert (file_in f' (root s ++ [name']) = Some c) as Hc by (by apply file_in_Some).
      rewrite Hf in Hc. apply file_in_Some in Hc. by eapply rep_names.
  - intros name' n Hn. destruct (Hq (record_path s name')) as [Hf Hd]; [rewrite Hrl; lia |].
    destruct n as [| c].
    + destruct (Hd Hn) as [Hn' | Hp]; [by eapply rep_records |].
      apply prefix_app_inv in Hp. apply prefix_cons_inv_2, prefix_cons_inv_1 in Hp. done.
    + assert (file_in f' (record_path s name') = Some c) as Hc by (by apply file_in_Some).
      rewrite Hf in Hc. apply file_in_Some in Hc. by eapply rep_records.
  - intros uid' u Hm. destruct (Hq (record_path s (FormatInt uid'))) as [-> _]; [rewrite Hrl; lia |].
    by apply (rep_users _ _ _ Hrep).
Qed.

Context (m : gmap Z user) (Hok : accounts_ok m) (Hun : emails_unique m).

Definition all_users : list user := (map_to_list m).*2.

Lemma elem_of_all_users u : u ∈ all_users ↔ ∃ uid, m !! uid = Some u.
Proof.
  unfold all_users. rewrite list_elem_of_fmap. split.
  - intros ([uid v] & -> & H%elem_of_map_to_list). eauto.
  - intros [uid H]. exists (uid, u). split; [done |]. by apply elem_of_map_to_list.
Qed.

Lemma NoDup_all_users : NoDup all_users.
Proof.
  apply NoDup_fmap_2_strong; [| apply NoDup_map_to_list].
  intros [i u] [j v] Hi%elem_of_map_to_list Hj%elem_of_map_to_list. simpl. intros ->.
  apply (ok_uid _ Hok) in Hi as [<- _], Hj as [<- _]. done.
Qed.

Lemma same_ID u v : (∃ uid, m !! uid = Some u) → (∃ uid, m !! uid = Some v) → ID u = ID v → u = v.
Proof.
  intros [i Hi] [j Hj] He. assert (i = j) as -> by (by eapply (ok_unique_id _ Hok)). congruence.
Qed.

Lemma find_login f q p :
  represents s f m → List.find (credentials q p) (listing s f) = List.find (credentials q p) all_users.
Proof.
  intros Hrep. apply option_eq. intros u. rewrite (find_credentials s f m q p u) by done. split.
  - intros [Hm Hc]. apply find_unique; [by apply elem_of_all_users | done |].
    intros v [uid' Hv]%elem_of_all_users Hcv. destruct Hm as [uid Hm].
    unfold credentials in Hc, Hcv. apply andb_true_iff in Hc as [Hc _], Hcv as [Hcv _].
    assert (uid' = uid) as -> by (by eapply matches_query_unique). congruence.
  - intros [Hin Hc]%find_Some. by rewrite elem_of_all_users in Hin.
Qed.

Lemma find_id f id : represents s f m → find_account (listing s f) id = find_account all_users id.
Proof.
  intros Hrep. apply option_eq. intros a.
  assert (∀ u, u ∈ listing s f ↔ u ∈ all_users) as Hsame.
  { intros u. rewrite (elem_of_listing _ _ _ _ Hrep), elem_of_all_users. done. }
  rewrite !find_account_spec.
  - setoid_rewrite Hsame. done.
  - apply NoDup_all_users.
  - intros u v Hu%elem_of_all_users Hv%elem_of_all_users. by apply same_ID.
  - by eapply NoDup_listing.
  - intros u v Hu%Hsame%elem_of_all_users Hv%Hsame%elem_of_all_users. by apply same_ID.
Qed.

#[refine] Instance UserStore_directory : Directory user_accounts := {|
  holds f := represents s f m;
  dir_login q p := accountOf <$> List.find (credentials q p) all_users;
  dir_find id := find_account all_users id;
|}.
Proof.
  - intros q p w r w' Hrep H. cbn [accounts_Authenticate user_accounts UserStore_accounts] in H.
    unfold Authenticate in H. apply st_bind_inv in H as (o & w1 & Hv & H). st_inv.
    pose proof Hv as Hv'. eapply verifyPassword_inv in Hv' as [Hq Hs]; [| done]. split; [done |]. split.
    + intros a Ha. destruct o as [u |]; [| done]. destruct (Hs u eq_refl) as [Hm Hc].
      assert (List.find (credentials q p) all_users = Some u) as ->; [| done].
      rewrite <- (find_login (w_fs w)) by done. by eapply find_credentials.
    + intros Hh. rewrite (verifyPassword_healthy _ _ m) in Hv by done. injection Hv as <- <-.
      by rewrite find_login.
  - intros id w r w' Hrep H. cbn [accounts_FindByID user_accounts UserStore_accounts] in H.
    unfold FindByID in H. apply st_bind_inv in H as (o & w1 & Hl & H). st_inv.
    pose proof Hl as Hl'. eapply loadUsers_inv in Hl' as [Hq Hs]; [| done]. split; [done |]. split.
    + intros a Ha. destruct o as [us |]; [| done]. rewrite Hs, find_id in Ha by done. exact Ha.
    + intros Hh. rewrite (loadUsers_healthy _ _ m) in Hl by done. injection Hl as <- <-. by rewrite find_id.
  - intros uid name f f' Hg Hrep Hwf Ho. by eapply represents_outside.
Defined.

End UserStore.

(** ** The accounts of the fixtures *)

Lemma store_root : Forall plain (root store).
Proof. by apply (bool_decide_unpack _). Qed.

#[export] Instance two_directory : Directory mail_accounts :=
  UserStore_directory store store_root two_users
    (sok_accounts _ _ _ (proj1 two_world_ok)) (sok_emails _ _ _ (proj1 two_world_ok)).

Lemma two_world_holds : holds (w_fs two_world).
Proof. apply two_world_ok. Qed.

Definition alice_account : Account := accountOf alice.
Definition bob_account : Account := accountOf bob.

(** INBOX of the first user with two messages. *)
Definition first_box : mailbox :=
  appended (fresh_mailbox (w_now two_world)) [] (w_now two_world) (B "Subject: hi" ++ [chr 13; chr 10; chr 13; chr 10] ++ B ".dot" ++ [chr 13; chr 10]).
Definition inbox_box : mailbox := appended first_box [] (w_now two_world) (B "hello" ++ [chr 13; chr 10]).

Definition first_world : world :=
  (Append 1 Inbox [] (w_now two_world) (B "Subject: hi" ++ [chr 13; chr 10; chr 13; chr 10] ++ B ".dot" ++ [chr 13; chr 10]) two_world).2.
Definition inbox_world : world :=
  (Append 1 Inbox [] (w_now two_world) (B "hello" ++ [chr 13; chr 10]) first_world).2.

(** A delivery on a healthy system. *)
Lemma append_step {U : UnicodeTables} {Acc : Accounts} {Laws : AccountsLaws Acc} {Dr : Directory Acc} uid name w o date body :
  good_name name → at_dir (w_fs w) (mailboxDir uid name) o → clock_ok w → healthy w → holds (w_fs w) →
  mb_next (base o (w_now w)) < 2 ^ 32 - 1 →
  let w' := (Append uid name [] date body w).2 in
  healthy w' ∧ clock_ok w' ∧ w_now w' = w_now w ∧ holds (w_fs w') ∧
  outside (mailboxDir uid name) (w_fs w) (w_fs w') ∧
  at_dir (w_fs w') (mailboxDir uid name) (Some (appended (base o (w_now w)) [] (stamp date (w_now w)) body)).
Proof.
  intros Hg Had Hc Hh Hd Hlt. destruct (Append_healthy uid name w o [] date body) as [f Hf]; [done .. |].
  cbv zeta. rewrite Hf. cbn [snd]. apply (Append_inv _ _ _ o) in Hf as (_ & _ & Ho & _ & Hat); [| done ..].
  repeat (split; [done |]). split; [| done].
  eapply holds_outside; [exact Hg | exact Hd | | exact Ho]. apply Hat.
Qed.

Lemma inbox_world_ok :
  healthy inbox_world ∧ clock_ok inbox_world ∧ holds (w_fs inbox_world) ∧
  at_dir (w_fs inbox_world) (mailboxDir 1 Inbox) (Some inbox_box).
Proof.
  destruct (append_step 1 Inbox two_world None (w_now two_world) (B "Subject: hi" ++ [chr 13; chr 10; chr 13; chr 10] ++ B ".dot" ++ [chr 13; chr 10]))
    as (H1 & H2 & H3 & H4 & _ & H5);
    [apply inbox_good | apply no_mail, inbox_good | apply two_world_clock | apply two_world_ok | apply two_world_holds | done |].
  destruct (append_step 1 Inbox first_world (Some first_box) (w_now two_world) (B "hello" ++ [chr 13; chr 10]))
    as (H6 & H7 & _ & H8 & _ & H9); [apply inbox_good | exact H5 | exact H2 | exact H1 | exact H4 | done |].
  split; [exact H6 |]. split; [exact H7 |]. split; [exact H8 |]. exact H9.
Qed.
