(* ===== verification/MailStoreSpec.v ===== *)
(** * MailStoreSpec: what the mail store promises

    A mailbox directory implements an abstract mailbox: an append-only
    numbering of messages with flags.  The theorems cover every operation of
    [mail/store.go], the failures of the operating system, the names of
    mailboxes, and the places where the store does not keep its promise. *)

From S2P Require Import Prelude GoStrings Strconv World WorldFacts Accounts AccountsFacts Flags MailStore.
From S2P Require Import MailNames MailFacts MailOps Fixtures MailFixtures.

(** ** Sequences of operations *)

Section Refinement.
Context {U : UnicodeTables} {Acc : Accounts} {Laws : AccountsLaws Acc}.

(** C7: The mail store refines the abstract mailbox: on a healthy system any
    sequence of appends, flag changes, subscription changes and removals
    succeeds, leaves the directory representing exactly the result of the
    abstract operations (UIDs strictly increasing below UIDNEXT, flags
    normalised, every body readable), and changes no file outside it. *)
Theorem store_refines uid name ops w mb :
  good_name name → at_dir (w_fs w) (mailboxDir uid name) (Some mb) → clock_ok w → healthy w →
  mb_next mb + Z.of_nat (length ops) < 2 ^ 32 →
  ∃ w', run_ops uid name ops w = (Ok tt, w') ∧
    outside (mailboxDir uid name) (w_fs w) (w_fs w') ∧
    let mb' := foldl (apply_op (w_now w)) mb ops in
    mailbox_ok mb' ∧
    Snapshot uid name w' = (Ok (NewSnapshot (CanonicalMailbox name) (index_of mb')), w') ∧
    ∀ a, a ∈ mb_messages mb' → Body uid name (entry_of a) w' = (Ok (Raw (a_body a)), w').
Proof.
  intros Hg Had Hc Hh Hlt. destruct (run_ops_healthy uid name ops w mb) as (f & H & Ho & Had'); [done .. |].
  exists (set_fs f w). split; [done |]. split; [done |]. cbv zeta. split; [by eapply ad_ok |]. split.
  - by apply Snapshot_healthy.
  - intros a Ha. by eapply Body_healthy.
Qed.

(** The same operations, with the UIDs that the appends report. *)
Fixpoint run_uids (uid : Z) (name : bytes) (ops : list mailbox_op) : M (result (list Z)) :=
  match ops with
  | [] => mret (Ok [])
  | OpAppend flags date body :: ops =>
      u ←? Append uid name flags date body;
      us ←? run_uids uid name ops;
      mret (Ok (u :: us))
  | op :: ops => _ ←? run_op uid name op; run_uids uid name ops
  end.

(** The bodies appended, in order. *)
Definition bodies (ops : list mailbox_op) : list bytes :=
  omap (λ op, match op with OpAppend _ _ body => Some body | _ => None end) ops.

Lemma run_uids_healthy uid name ops w mb :
  good_name name → at_dir (w_fs w) (mailboxDir uid name) (Some mb) → clock_ok w → healthy w →
  mb_next mb + Z.of_nat (length ops) < 2 ^ 32 →
  ∃ f, run_uids uid name ops w = (Ok (seqZ (mb_next mb) (Z.of_nat (length (bodies ops)))), set_fs f w) ∧
    at_dir f (mailboxDir uid name) (Some (foldl (apply_op (w_now w)) mb ops)).
Proof.
  intros Hg. revert w mb. induction ops as [| op ops IH]; intros w mb Had Hc Hh Hlt.
  { exists (w_fs w). by rewrite set_fs_id. }
  simpl in Hlt. destruct (run_op_healthy uid name op w mb) as (f & H & _ & Had'); [done .. | lia |].
  pose proof (apply_op_next (w_now w) mb op).
  destruct (IH (set_fs f w) (apply_op (w_now w) mb op)) as (g & Hg' & Had''); [done .. | lia |].
  exists g. split; [| done]. destruct op as [flags date body | uids flags op | b | uids].
  2-4: cbn [run_uids]; by rewrite (try_bind_ok _ _ _ _ _ H).
  destruct (Append_healthy uid name w (Some mb) flags date body) as [f' Ha]; [done .. | cbn [base]; lia |].
  assert (set_fs f' w = set_fs f w) as Hf.
  { cbn [run_op] in H. rewrite (try_bind_ok _ _ _ _ _ Ha) in H. unfold mret, st_ret in H. congruence. }
  rewrite Hf in Ha. cbn [run_uids bodies omap list_omap length]. rewrite (try_bind_ok _ _ _ _ _ Ha).
  cbn [apply_op appended mb_next] in Hg'. rewrite (try_bind_ok _ _ _ _ _ Hg'). cbn [base].
  rewrite (seqZ_cons (mb_next mb)) by lia. rewrite Nat2Z.inj_succ, Z.pred_succ. unfold Z.succ. done.
Qed.

(** Where a message of the mailbox comes from. *)
Definition old_message (mb : mailbox) (a : amessage) : Prop :=
  ∃ x, x ∈ mb_messages mb ∧ a_uid x = a_uid a ∧ a_body x = a_body a ∧ a_date x = a_date a.
Definition new_message (next : Z) (bs : list bytes) (a : amessage) : Prop :=
  ∃ i, a_uid a = next + Z.of_nat i ∧ bs !! i = Some (a_body a).

Lemma message_origin now ops mb a :
  a ∈ mb_messages (foldl (apply_op now) mb ops) → old_message mb a ∨ new_message (mb_next mb) (bodies ops) a.
Proof.
  revert mb. induction ops as [| op ops IH]; intros mb Ha; [left; by exists a |].
  destruct (IH _ Ha) as [(x & Hx & H1 & H2 & H3) | (i & Hi & Hb)].
  - destruct op as [flags date body | uids flags op | b | uids]; simpl in Hx.
    + apply elem_of_app in Hx as [Hx | ->%list_elem_of_singleton]; [left; by exists x | right; exists 0%nat].
      simpl in *. rewrite <- H1, <- H2. split; [lia | done].
    + apply list_elem_of_fmap in Hx as (y & -> & Hy). left. exists y. split; [done |]. by case_decide.
    + left. by exists x.
    + apply list_elem_of_filter in Hx as [_ Hx]. left. by exists x.
  - right. destruct op as [flags date body | uids flags op | b | uids]; simpl in Hi; [exists (S i); split; [lia | done] | by exists i ..].
Qed.

(** C19: A UID denotes one message for ever: the UIDs which a sequence of
    operations assigns are consecutive, from the UIDNEXT of before, and
    UIDNEXT goes past all of them, so no UID is assigned twice; UIDVALIDITY
    stays; and every message of the mailbox afterwards is one of before, with
    its UID, body and internal date, or has the UID and the body of one of the
    appends. *)
Theorem uid_never_reused uid name ops w mb us w' snap w'' :
  good_name name → at_dir (w_fs w) (mailboxDir uid name) (Some mb) → clock_ok w → healthy w →
  mb_next mb + Z.of_nat (length ops) < 2 ^ 32 →
  run_uids uid name ops w = (Ok us, w') → Snapshot uid name w' = (Ok snap, w'') →
  us = seqZ (mb_next mb) (Z.of_nat (length (bodies ops))) ∧
  UIDNext (Index snap) = mb_next mb + Z.of_nat (length us) ∧ UIDValidity (Index snap) = mb_validity mb ∧
  ∀ msg body, msg ∈ Messages (Index snap) → Body uid name msg w'' = (Ok (Raw body), w'') →
    (∃ a, a ∈ mb_messages mb ∧ a_uid a = m_UID msg ∧ a_body a = body ∧ a_date a = m_Date msg) ∨
    (∃ i, us !! i = Some (m_UID msg) ∧ bodies ops !! i = Some body).
Proof.
  intros Hg Had Hc Hh Hlt Hrun Hsnap.
  destruct (run_uids_healthy uid name ops w mb) as (f & H & Had'); [done .. |].
  rewrite H in Hrun. injection Hrun as <- <-.
  rewrite (Snapshot_healthy _ _ (set_fs f w) _ Hg Had' Hh) in Hsnap. injection Hsnap as <- <-.
  split; [done |]. rewrite length_seqZ, Nat2Z.id. split; [| split].
  - cbn [index_of UIDNext Index]. clear -U. revert mb. induction ops as [| op ops IH]; intros mb; [simpl; lia |].
    cbn [foldl]. rewrite IH. destruct op; simpl; unfold bodies; lia.
  - cbn [index_of UIDValidity Index]. clear -U. revert mb. induction ops as [| op ops IH]; intros mb; [done |].
    cbn [foldl]. rewrite IH. by destruct op.
  - intros msg body (a & -> & Ha)%list_elem_of_fmap Hbody.
    rewrite (Body_healthy _ _ (set_fs f w) _ _ Hg Had' Ha Hh) in Hbody. injection Hbody as <-.
    destruct (message_origin _ _ _ _ Ha) as [(x & Hx & H1 & H2 & H3) | (i & Hi & Hb)]; [left; by exists x | right; exists i].
    split; [| done]. apply lookup_seqZ. split; [done |]. apply lookup_lt_Some in Hb. lia.
Qed.

(** C29: Delivery is safe against system failures: whatever fails, an append
    either reports the UID and the mailbox then holds the message under it
    after all earlier ones, or reports an error and the mailbox is as it was,
    except when the write of the index itself was cut short; no file outside
    the mailbox is touched. *)
Theorem Append_faults uid name w o flags date body r w' :
  good_name name → at_dir (w_fs w) (mailboxDir uid name) o → clock_ok w →
  mb_next (base o (w_now w)) < 2 ^ 32 - 1 →
  Append uid name flags date body w = (r, w') →
  outside (mailboxDir uid name) (w_fs w) (w_fs w') ∧
  match r with
  | Ok u => u = mb_next (base o (w_now w)) ∧ ∃ mb', at_dir (w_fs w') (mailboxDir uid name) (Some mb') ∧
      mb_messages mb' = mb_messages (base o (w_now w)) ++
        [AMessage u (normaliseFlags flags) (stamp date (w_now w)) body] ∧
      mb_next mb' = u + 1
  | Err _ => at_dir (w_fs w') (mailboxDir uid name) o ∨ torn (w_fs w') (mailboxDir uid name)
  end.
Proof.
  intros Hg Had Hc Hlt H. apply (Append_inv _ _ _ o) in H as (_ & _ & Ho & H); try done.
  split; [done |]. destruct r as [u | e]; [| done]. destruct H as [-> H]. split; [done |].
  by eexists.
Qed.

(** A removal that fails midway loses no message that was to stay: the
    index still decodes to the old list and the other bodies are there,
    unless the write of the index was cut short; a removal that succeeds
    leaves exactly the other messages and no body file of the removed ones. *)
Theorem Remove_faults uid name w mb uids r w' :
  good_name name → at_dir (w_fs w) (mailboxDir uid name) (Some mb) →
  Remove uid name uids w = (r, w') →
  outside (mailboxDir uid name) (w_fs w) (w_fs w') ∧
  match r with
  | Ok _ => at_dir (w_fs w') (mailboxDir uid name) (Some (removed mb uids)) ∧
      ∀ a, a ∈ mb_messages mb → a_uid a ∈ uids →
        file_in (w_fs w') (mailboxDir uid name ++ [message_file (a_uid a)]) = None
  | Err _ => partly_removed (w_fs w') (mailboxDir uid name) mb uids ∨ torn (w_fs w') (mailboxDir uid name)
  end.
Proof. intros Hg Had H. by apply (Remove_inv _ _ _ mb) in H as (_ & _ & ? & ?). Qed.

(** ** Copying *)

Definition copied (now : Z) (mb : mailbox) (l : list amessage) : mailbox :=
  foldl (λ mb a, appended mb (a_flags a) (stamp (a_date a) now) (a_body a)) mb l.

Lemma copy_messages_healthy uid from to l uids w mb1 o :
  good_name from → good_name to → mailboxDir uid to ≠ mailboxDir uid from →
  at_dir (w_fs w) (mailboxDir uid from) (Some mb1) → at_dir (w_fs w) (mailboxDir uid to) o →
  (∀ a, a ∈ l → a ∈ mb_messages mb1) → clock_ok w → healthy w →
  mb_next (base o (w_now w)) + Z.of_nat (length l) < 2 ^ 32 →
  ∃ f, copy_messages uid from to (entry_of <$> l) uids w = (Ok tt, set_fs f w) ∧
    outside (mailboxDir uid to) (w_fs w) f ∧
    at_dir f (mailboxDir uid from) (Some mb1) ∧
    (o = None → filter (λ a, a_uid a ∈ uids) l = [] → at_dir f (mailboxDir uid to) None) ∧
    ((∃ mb, o = Some mb) ∨ filter (λ a, a_uid a ∈ uids) l ≠ [] →
     at_dir f (mailboxDir uid to)
       (Some (copied (w_now w) (base o (w_now w)) (filter (λ a, a_uid a ∈ uids) l)))).
Proof.
  intros Hg1 Hg2 Hne. revert w o. induction l as [| a l IH]; intros w o H1 H2 Hl Hc Hh Hlt.
  { exists (w_fs w). simpl. rewrite set_fs_id, filter_nil. repeat (split; [done |]). split; [by intros -> |].
    by intros [[mb ->] | ?]. }
  rewrite fmap_cons. cbn [copy_messages]. rewrite filter_cons. simpl in Hlt.
  case_decide as Hin; simpl in Hin.
  - rewrite decide_True by done.
    assert (a ∈ mb_messages mb1) as Ha by (apply Hl; by left).
    rewrite (try_bind_ok _ _ _ _ _ (Body_healthy _ _ _ _ _ Hg1 H1 Ha Hh)).
    destruct (Append_healthy uid to w o (a_flags a) (a_date a) (a_body a)) as [f Happ]; [done .. | lia |].
    cbn [entry_of m_Flags m_Date content_bytes]. rewrite (try_bind_ok _ _ _ _ _ Happ).
    apply (Append_inv _ _ _ o) in Happ as (_ & _ & Ho & _ & H2'); [| done .. | lia].
    cbn [w_fs set_fs] in Ho, H2'.
    destruct (IH (set_fs f w) (Some (appended (base o (w_now w)) (a_flags a) (stamp (a_date a) (w_now w)) (a_body a))))
      as (g & Hrun & Ho' & H1' & _ & H2''); try done.
    + eapply (at_dir_outside (w_fs w)); try done. apply H2'.
    + intros b Hb. apply Hl. by right.
    + simpl. lia.
    + exists g. split; [exact Hrun |]. split; [by etrans |]. split; [done |]. split; [done |].
      intros _. apply H2''. left. eauto.
  - rewrite decide_False by done.
    destruct (IH w o) as (g & Hrun & ? & ? & ? & ?); try done; [intros b Hb; apply Hl; by right | lia |].
    by exists g.
Qed.

(** [Copy] appends exactly the selected messages, in mailbox order, with
    their flags, dates and bodies, under fresh consecutive UIDs, and leaves
    the source mailbox as it was. *)
Theorem Copy_correct uid from to uids w mb1 mb2 :
  good_name from → good_name to → mailboxDir uid to ≠ mailboxDir uid from →
  at_dir (w_fs w) (mailboxDir uid from) (Some mb1) → at_dir (w_fs w) (mailboxDir uid to) (Some mb2) →
  clock_ok w → healthy w → mb_next mb2 + Z.of_nat (length (mb_messages mb1)) < 2 ^ 32 →
  ∃ f, Copy uid from to uids w = (Ok tt, set_fs f w) ∧
    at_dir f (mailboxDir uid from) (Some mb1) ∧
    at_dir f (mailboxDir uid to)
      (Some (copied (w_now w) mb2 (filter (λ a, a_uid a ∈ uids) (mb_messages mb1)))) ∧
    outside (mailboxDir uid to) (w_fs w) f.
Proof.
  intros Hg1 Hg2 Hne H1 H2 Hc Hh Hlt.
  destruct (copy_messages_healthy uid from to (mb_messages mb1) uids w mb1 (Some mb2))
    as (f & Hrun & Ho & H1' & _ & H2'); try done.
  exists f. unfold Copy. rewrite (try_bind_ok _ _ _ _ _ (Snapshot_healthy _ _ _ _ Hg1 H1 Hh)).
  rewrite (try_bind_ok _ _ _ _ _ (readIndex_healthy _ _ _ _ Hg2 H2 Hh)).
  split; [exact Hrun |]. split; [done |]. split; [| done]. apply H2'. left. eauto.
Qed.

End Refinement.

(** ** Mailbox names *)

(** Names made of runes up to U+00FF survive the trip through the
    directory name: [ListMailboxes] shows them as they were created. *)
Theorem mailbox_name_roundtrip name :
  valid_utf8 name → Forall (λ r, r < 256) (runes name) →
  decodeMailboxName (encodeMailboxName name) = name.
Proof. apply decode_encode. Qed.

Section Names.
Context {U : UnicodeTables} {Acc : Accounts} {Laws : AccountsLaws Acc}.

(** Whatever bytes a client sends as a mailbox name, unless its canonical
    form is empty, [.] or [..] its directory is a direct child of the
    account's mail directory, and every file the store names in it lies in
    that directory; two names of runes up to U+00FF share a directory only if
    they are the same mailbox. *)
Theorem mailboxDir_confined uid name name' :
  CanonicalMailbox name ≠ [] → CanonicalMailbox name ≠ B "." → CanonicalMailbox name ≠ B ".." →
  (∃ dir, mailboxDir uid name = accounts_UserDir uid ++ [B "mail"; dir] ∧ plain dir) ∧
  (∀ u, 0 <= u → Join (mailboxDir uid name) [message_file u] = mailboxDir uid name ++ [message_file u]) ∧
  (valid_utf8 (CanonicalMailbox name) → Forall (λ r, r < 256) (runes (CanonicalMailbox name)) →
   valid_utf8 (CanonicalMailbox name') → Forall (λ r, r < 256) (runes (CanonicalMailbox name')) →
   good_name name' → mailboxDir uid name = mailboxDir uid name' →
   CanonicalMailbox name = CanonicalMailbox name').
Proof.
  intros H1 H2 H3. assert (good_name name) as Hg by (by apply good_name_iff). split; [| split].
  - eexists. split; [| exact Hg]. rewrite mailboxDir_eq, mailRoot_eq by done. by rewrite <- app_assoc.
  - intros u Hu. apply in_mailbox; [done |]. by apply message_file_plain.
  - intros Hv Hr Hv' Hr' Hg'. rewrite !mailboxDir_eq by done. intros [_ Heq]%app_inj_tail.
    rewrite <- (decode_encode (CanonicalMailbox name)), <- (decode_encode (CanonicalMailbox name')) by done.
    by rewrite Heq.
Qed.

(** Two names that differ: [a/16], and [a] followed by U+2F16. *)
Definition ascii_name : bytes := B "a/16".
Definition kangxi_name : bytes := B "a" ++ encode_rune 0x2F16.

(** Beyond U+00FF the directory names collide: two different mailboxes of
    every account share one directory, so that messages filed in one appear
    in the other. *)
Theorem mailbox_names_collide uid :
  encodeMailboxName ascii_name = encodeMailboxName kangxi_name ∧
  ascii_name ≠ kangxi_name ∧
  (CanonicalMailbox ascii_name = ascii_name → CanonicalMailbox kangxi_name = kangxi_name →
   mailboxDir uid ascii_name = mailboxDir uid kangxi_name).
Proof.
  assert (encodeMailboxName ascii_name = encodeMailboxName kangxi_name) as He by (vm_compute; reflexivity).
  split; [done |]. split; [by vm_compute |].
  intros Ha Hk. unfold mailboxDir. by rewrite Ha, Hk, He.
Qed.

(** ** Creating, deleting, renaming *)

Lemma newMailboxIndex_bind {C} (k : mailboxIndex → M C) w :
  (index ← newMailboxIndex; k index) w = k (index_of (fresh_mailbox (w_now w))) w.
Proof. done. Qed.

Lemma index_node f dir o :
  at_dir f dir o → f !! (dir ++ [index_json]) = File <$> file_in f (dir ++ [index_json]).
Proof.
  intros Had. unfold file_in. destruct (f !! _) as [[|] |] eqn:E; try done.
  by apply (dok_files _ _ (ad_dir _ _ _ Had)) in E.
Qed.

Lemma Stat_index uid name w o :
  good_name name → at_dir (w_fs w) (mailboxDir uid name) o → healthy w →
  os_Stat (indexPath uid (CanonicalMailbox name)) w =
  (match o with Some _ => Ok tt | None => Err os_ErrNotExist end, w).
Proof.
  intros Hg Had Hh. rewrite indexPath_canonical, indexPath_eq by done.
  rewrite os_Stat_healthy by (done || apply snoc_nonempty).
  rewrite (index_node _ _ _ Had).
  destruct o as [mb |]; simpl in *.
  - destruct (ad_stores _ _ _ Had) as [(j & Hj & _) _]. by rewrite Hj.
  - by rewrite (ad_stores _ _ _ Had).
Qed.

Lemma CreateMailbox_healthy uid name w :
  good_name name → CanonicalMailbox name ≠ Inbox → at_dir (w_fs w) (mailboxDir uid name) None →
  clock_ok w → healthy w →
  ∃ f, CreateMailbox uid name w = (Ok tt, set_fs f w) ∧
    outside (mailboxDir uid name) (w_fs w) f ∧
    at_dir f (mailboxDir uid name) (Some (fresh_mailbox (w_now w))).
Proof.
  intros Hg Hi Had Hc Hh. unfold CreateMailbox. cbv zeta.
  rewrite decide_False by (by apply good_name_iff in Hg as (? & ? & ?)).
  rewrite (st_bind_eq _ _ _ _ _ (Stat_index _ _ _ _ Hg Had Hh)).
  rewrite decide_False, newMailboxIndex_bind by done.
  rewrite <- (mailboxDir_canonical uid name) in *. pose proof (good_canonical _ Hg) as Hg'.
  destruct (writeIndex_healthy uid (CanonicalMailbox name) w (index_of (fresh_mailbox (w_now w))))
    as (f & Hw & _); [done | apply Had | done |].
  exists f. split; [done |].
  apply (writeIndex_inv _ _ _ None) in Hw as (_ & _ & ? & ?); [done | done | done | by apply fresh_mailbox_ok | constructor].
Qed.

(** Everything below a directory goes. *)
Lemma removeall_lookup (f : tree) dir q :
  (filter (λ kn, ¬ under dir kn) f : tree) !! q = if decide (dir `prefix_of` q) then None else f !! q.
Proof.
  destruct ((filter (λ kn, ¬ under dir kn) f : tree) !! q) as [n |] eqn:E.
  - apply map_lookup_filter_Some in E as [E Hn]. unfold under in Hn. simpl in Hn. by rewrite decide_False.
  - case_decide as Hp; [done |]. destruct (f !! q) as [n |] eqn:Eq; [| done].
    apply map_lookup_filter_None in E as [E | E]; [congruence |]. exfalso. by eapply E.
Qed.

Lemma mailboxDir_nonempty uid name : good_name name → mailboxDir uid name ≠ [].
Proof. intros Hg. rewrite mailboxDir_eq by done. intros [_ ?]%app_nil. done. Qed.

Lemma removeall_at_dir (f : tree) dir o :
  dir ≠ [] → at_dir f dir o → at_dir (filter (λ kn, ¬ under dir kn) f) dir None.
Proof.
  intros Hne [[Ht Ha Hf] _ _]. split; [| | done].
  - constructor.
    + by apply tree_wf_removeall.
    + intros q Hq. apply Ha in Hq as Hfq. unfold file_in in *. rewrite removeall_lookup. by case_decide.
    + intros name. rewrite removeall_lookup. case_decide; [done | apply Hf].
  - simpl. unfold file_in. rewrite removeall_lookup, decide_True; [done | by eexists].
Qed.

Lemma DeleteMailbox_healthy uid name w mb :
  good_name name → CanonicalMailbox name ≠ Inbox → at_dir (w_fs w) (mailboxDir uid name) (Some mb) →
  healthy w →
  ∃ f, DeleteMailbox uid name w = (Ok tt, set_fs f w) ∧
    (∀ q, f !! q = if decide (mailboxDir uid name `prefix_of` q) then None else w_fs w !! q) ∧
    at_dir f (mailboxDir uid name) None.
Proof.
  intros Hg Hi Had Hh. unfold DeleteMailbox. cbv zeta. rewrite decide_False by done.
  rewrite (st_bind_eq _ _ _ _ _ (Stat_index _ _ _ _ Hg Had Hh)), mailboxDir_canonical.
  exists (filter (λ kn, ¬ under (mailboxDir uid name) kn) (w_fs w)). split; [| split].
  - unfold os_RemoveAll. by apply syscall_healthy.
  - intros q. apply removeall_lookup.
  - eapply removeall_at_dir; [by apply mailboxDir_nonempty | done].
Qed.

(** Creating a mailbox that is not there yields an empty one, and deleting
    it removes its directory and nothing else; INBOX can be neither created
    nor deleted, an existing mailbox not created again and a missing one not
    deleted. *)
Theorem create_delete_correct uid name w o :
  good_name name → at_dir (w_fs w) (mailboxDir uid name) o → clock_ok w → healthy w →
  (CanonicalMailbox name = Inbox →
     CreateMailbox uid name w = (Err ErrMailboxExists, w) ∧ DeleteMailbox uid name w = (Err ErrMailboxForbidden, w)) ∧
  (CanonicalMailbox name ≠ Inbox →
     match o with
     | None => DeleteMailbox uid name w = (Err ErrNoSuchMailbox, w) ∧
         ∃ f, CreateMailbox uid name w = (Ok tt, set_fs f w) ∧
           outside (mailboxDir uid name) (w_fs w) f ∧
           at_dir f (mailboxDir uid name) (Some (fresh_mailbox (w_now w)))
     | Some _ => CreateMailbox uid name w = (Err ErrMailboxExists, w) ∧
         ∃ f, DeleteMailbox uid name w = (Ok tt, set_fs f w) ∧ at_dir f (mailboxDir uid name) None ∧
           ∀ q, f !! q = if decide (mailboxDir uid name `prefix_of` q) then None else w_fs w !! q
     end).
Proof.
  intros Hg Had Hc Hh. pose proof (Stat_index _ _ _ _ Hg Had Hh) as Hst.
  assert (CanonicalMailbox name ≠ []) as Hne by (by apply good_name_iff in Hg as (? & ? & ?)). split.
  - intros Hi. split.
    + unfold CreateMailbox. cbv zeta. rewrite decide_False by done.
      rewrite (st_bind_eq _ _ _ _ _ Hst). destruct o; [done |]. by rewrite decide_True.
    + unfold DeleteMailbox. cbv zeta. by rewrite decide_True.
  - intros Hi. destruct o as [mb |]; split.
    + unfold CreateMailbox. cbv zeta. rewrite decide_False by done. by rewrite (st_bind_eq _ _ _ _ _ Hst).
    + destruct (DeleteMailbox_healthy uid name w mb) as (f & ? & ? & ?); [done .. |]. by exists f.
    + unfold DeleteMailbox. cbv zeta. rewrite decide_False by done. by rewrite (st_bind_eq _ _ _ _ _ Hst).
    + by apply CreateMailbox_healthy.
Qed.

End Names.

(** ** Renaming *)

Section Rename.
Context {U : UnicodeTables} {Acc : Accounts} {Laws : AccountsLaws Acc}.

Lemma siblings_apart uid from to :
  good_name from → good_name to → mailboxDir uid to ≠ mailboxDir uid from →
  ¬ mailboxDir uid from `prefix_of` mailboxDir uid to.
Proof.
  intros Hg1 Hg2. rewrite !mailboxDir_eq by done. intros Hne [r Hr].
  rewrite <- app_assoc in Hr. apply app_inv_head in Hr. injection Hr as Hr _. congruence.
Qed.

Lemma relocate_wf (f : tree) old new :
  tree_wf f → absent f new → old ≠ [] → new ≠ [] → dirb f old = true → dirb f (parent new) = true →
  ¬ old `prefix_of` parent new → tree_wf (relocate old new f).
Proof.
  intros [Hroot Hwf] Hab Hold Hnew Hd Hp Hout.
  assert (∀ p, dirb f p = true → ¬ old `prefix_of` p → ¬ new `prefix_of` p → dirb (relocate old new f) p = true) as Hkeep.
  { intros p Hp1 Hp2 Hp3. rewrite dirb_spec in *. destruct Hp1 as [-> | Hp1]; [by left | right].
    by rewrite relocate_lookup, !decide_False. }
  split.
  - rewrite relocate_lookup, decide_False by (done || by intros [r Hr]; destruct new).
    case_decide; [done | exact Hroot].
  - intros p name n. rewrite relocate_lookup by done. case_decide as Hq.
    + destruct Hq as [r Hr]. intros Hn. rewrite Hr, drop_app_length in Hn.
      destruct r as [| x r _] using rev_ind.
      * rewrite app_nil_r in Hr. subst new. rewrite parent_snoc in *. apply Hkeep; [done | done |].
        apply snoc_not_prefix.
      * rewrite !app_assoc in *. apply app_inj_tail in Hr as [-> ->]. apply Hwf in Hn.
        rewrite dirb_spec in *. right. rewrite relocate_lookup, decide_True by (done || by eexists).
        rewrite drop_app_length. destruct Hn as [Hn | Hn]; [| done].
        destruct Hd as [-> | Hd]; [done |]. by apply app_nil in Hn as [-> ->].
    + case_decide as Ho; [done |]. intros Hn. apply Hwf in Hn. apply Hkeep; [done | |].
      * intros Hx. apply Ho. etrans; [exact Hx | by eexists].
      * intros Hx. apply Hq. etrans; [exact Hx | by eexists].
Qed.

Lemma relocate_at_dir (f : tree) old new mb :
  at_dir f old (Some mb) → absent f new → old ≠ [] → new ≠ [] → dirb f (parent new) = true →
  ¬ old `prefix_of` parent new → ¬ old `prefix_of` new → ¬ new `prefix_of` old → dirb f old = true →
  (∀ q, q `prefix_of` new → file_in f q = None) →
  at_dir (relocate old new f) new (Some mb) ∧ at_dir (relocate old new f) old None.
Proof.
  intros [[Ht Ha Hf] Hs Hok] Hab Hold Hnew Hp Hout Hon Hno Hd Hfree.
  assert (tree_wf (relocate old new f)) as Hwf by (by apply relocate_wf).
  assert (∀ file, relocate old new f !! (new ++ [file]) = f !! (old ++ [file])) as Hmoved.
  { intros file. rewrite relocate_lookup, decide_True by (done || by eexists). by rewrite drop_app_length. }
  assert (∀ q, ¬ new `prefix_of` q → file_in (relocate old new f) q = if decide (old `prefix_of` q) then None else file_in f q) as Hrest.
  { intros q Hq. unfold file_in. rewrite relocate_lookup, decide_False by done. by case_decide. }
  assert (∀ file, ¬ new `prefix_of` (old ++ [file])) as Hno'.
  { intros file [Hx | Hx]%prefix_snoc_cases; [done |]. subst new. apply Hon. by eexists. }
  split; split.
  - constructor; [done | |].
    + intros q Hq. destruct (decide (new `prefix_of` q)) as [Hnq |].
      * assert (q = new) as -> by (apply (anti_symm prefix); done).
        unfold file_in. rewrite relocate_lookup, decide_True by done.
        replace (drop (length new) new) with ([] : path) by (by rewrite drop_ge). rewrite app_nil_r.
        apply dirb_spec in Hd as [? | ->]; done.
      * rewrite Hrest by done. case_decide; [done |]. by apply Hfree.
    + intros file. rewrite Hmoved. apply Hf.
  - simpl in *. unfold file_in in *. rewrite Hmoved.
    destruct Hs as [Hi Hb]. split; [done |]. eapply Forall_impl; [exact Hb |]. intros a Hx. simpl in *. by rewrite Hmoved.
  - done.
  - constructor; [done | |].
    + intros q Hq. rewrite Hrest.
      * case_decide; [done |]. by apply Ha.
      * intros Hnq. apply Hno. by etrans.
    + intros file. rewrite relocate_lookup, decide_False by done. rewrite decide_True by by eexists. done.
  - simpl. rewrite Hrest, decide_True by (done || by eexists). done.
  - done.
Qed.

(** Renaming a mailbox to a name nothing exists under moves it whole: the
    new name has the same UIDVALIDITY, UIDs, flags and bodies, the old name
    has no mailbox, and INBOX on either side is refused. *)
Theorem RenameMailbox_correct uid from to w mb :
  good_name from → good_name to → mailboxDir uid to ≠ mailboxDir uid from →
  at_dir (w_fs w) (mailboxDir uid from) (Some mb) → absent (w_fs w) (mailboxDir uid to) → healthy w →
  (CanonicalMailbox from = Inbox ∨ CanonicalMailbox to = Inbox →
     RenameMailbox uid from to w = (Err ErrMailboxForbidden, w)) ∧
  (CanonicalMailbox from ≠ Inbox → CanonicalMailbox to ≠ Inbox →
     ∃ f, RenameMailbox uid from to w = (Ok tt, set_fs f w) ∧
       at_dir f (mailboxDir uid to) (Some mb) ∧ at_dir f (mailboxDir uid from) None).
Proof.
  intros Hg1 Hg2 Hne Had Hab Hh. unfold RenameMailbox. cbv zeta.
  split; [intros Hi; by rewrite decide_True |]. intros Hi1 Hi2. rewrite decide_False by naive_solver.
  rewrite (st_bind_eq _ _ _ _ _ (Stat_index _ _ _ _ Hg1 Had Hh)).
  pose proof (mailboxDir_nonempty uid from Hg1) as Hold. pose proof (mailboxDir_nonempty uid to Hg2) as Hnew.
  set (old := mailboxDir uid from) in *. set (new := mailboxDir uid to) in *.
  assert (w_fs w !! (new ++ [index_json]) = None) as Hnone.
  { destruct (w_fs w !! _) eqn:E; [| done]. apply Hab in E. by destruct E; eexists. }
  assert (parent new = mailRoot uid ∧ parent old = mailRoot uid) as [Hpn Hpo].
  { subst new old. rewrite !mailboxDir_eq by done. by rewrite !parent_snoc. }
  assert (w_fs w !! new = None) as Hnn by (destruct (w_fs w !! new) eqn:E; [by apply Hab in E | done]).
  assert (dirb (w_fs w) old = true) as Hd.
  { destruct (ad_stores _ _ _ Had) as [(j & Hj & _) _]. apply file_in_Some in Hj.
    by apply (dok_tree _ _ (ad_dir _ _ _ Had)) in Hj. }
  assert (dirb (w_fs w) (mailRoot uid) = true) as Hroot.
  { apply dirb_spec in Hd as [? | Hd]; [done |]. subst old. rewrite mailboxDir_eq in Hd by done.
    by apply (dok_tree _ _ (ad_dir _ _ _ Had)) in Hd. }
  assert (∀ q, q `prefix_of` mailRoot uid → file_in (w_fs w) q = None) as Hfree.
  { intros q Hq. apply (dok_above _ _ (ad_dir _ _ _ Had)). etrans; [exact Hq |].
    subst old. rewrite mailboxDir_eq by done. by eexists. }
  rewrite indexPath_canonical, indexPath_eq by done. fold new.
  rewrite (st_bind_eq _ _ _ _ _ (os_Stat_healthy _ _ Hh (snoc_nonempty _ _))), Hnone.
  rewrite !mailboxDir_canonical. fold new old. rewrite Hpn.
  rewrite (try_bind_ok _ _ _ _ _ (os_MkdirAll_ok _ _ Hh Hfree)).
  set (f := mkdirs (w_fs w) (mailRoot uid)).
  assert (∀ q, ¬ q `prefix_of` mailRoot uid → f !! q = w_fs w !! q) as Hf by (intros q; apply mkdirs_lookup_not).
  assert (¬ old `prefix_of` mailRoot uid ∧ ¬ new `prefix_of` mailRoot uid) as [Hor Hnr].
  { subst old new. rewrite !mailboxDir_eq by done. split; apply snoc_not_prefix. }
  assert (¬ old `prefix_of` new ∧ ¬ new `prefix_of` old) as [Hon Hno]
    by (split; apply siblings_apart; done).
  assert (absent f new) as Hab'.
  { intros q n Hq Hnq. unfold f in Hq. rewrite mkdirs_lookup in Hq. destruct (w_fs w !! q) eqn:E; [by apply Hab in E |].
    case_decide as Hp; [| done]. apply elem_of_prefixes in Hp as [_ Hp]. apply Hnr. by etrans. }
  assert (at_dir f old (Some mb)) as Had'.
  { destruct Had as [[Ht Ha Hff] Hs Hok]. split; [| | done].
    - constructor; [by apply tree_wf_mkdirs | intros q Hq; unfold f; rewrite file_in_mkdirs; by apply Ha |].
      intros file. rewrite Hf; [apply Hff |]. intros Hx. apply Hor. etrans; [| exact Hx]. by eexists.
    - eapply stores_ext; [| exact Hs]. intros file. apply file_in_mkdirs. }
  exists (relocate old new f). split.
  - unfold os_Rename. set (w1 := set_fs f w). apply (syscall_healthy _ w1 (Ok tt)); [done |].
    change (w_fs w1) with f. rewrite Hf by done. apply dirb_spec in Hd as [? | ->]; [done |].
    assert (f !! new = None) as Hfn by (by rewrite Hf).
    assert (dirb f new = false) as -> by (destruct new; [done | simpl; by rewrite Hfn]).
    rewrite decide_False, Hfn by done. rewrite Hpn. unfold f. by rewrite dirb_mkdirs_mono.
  - apply relocate_at_dir; try done; rewrite ?Hpn; try done.
    + unfold f. by apply dirb_mkdirs_mono.
    + unfold f. by apply dirb_mkdirs_mono.
    + intros q Hq. unfold f. rewrite file_in_mkdirs.
      destruct (decide (q = new)) as [-> | Hqn]; [unfold file_in; by rewrite Hnn |].
      apply Hfree. rewrite <- Hpn. subst new. rewrite mailboxDir_eq in * by done. rewrite parent_snoc.
      by apply prefix_snoc_cases in Hq as [? | ?].
Qed.

End Rename.

(** ** Where the store breaks its promises *)

Section Limits.
Context {U : UnicodeTables} {Acc : Accounts} {Laws : AccountsLaws Acc}.

(** UIDs wrap: the message numbered 2^32-1 is the last one; its append
    stores UIDNEXT 0, which the next read repairs to 1, so the append after it
    is numbered 1 again and overwrites [00000001.eml]. *)
Theorem Append_wraps uid name w mb flags date body body2 :
  good_name name → at_dir (w_fs w) (mailboxDir uid name) (Some mb) → healthy w →
  mb_next mb = 2 ^ 32 - 1 →
  ∃ w1 w2, Append uid name flags date body w = (Ok (2 ^ 32 - 1), w1) ∧
    Append uid name flags date body2 w1 = (Ok 1, w2).
Proof.
  intros Hg Had Hh Hnext. pose proof (good_canonical _ Hg) as Hg'.
  pose proof (ad_ok _ _ _ Had _ eq_refl) as Hok.
  pose proof (mailboxDir_canonical uid name) as Hdir. rewrite <- Hdir in Had.
  destruct (append_to_healthy uid (CanonicalMailbox name) w (index_of mb) flags date body)
    as (f & Happ & Hd & Hx); [done | apply Had | done | simpl; lia |].
  set (w1 := set_fs f w). exists w1.
  set (index1 := grown_index (index_of mb) flags (stamp date (w_now w)) body) in *.
  assert (index_fits index1) as Hfits.
  { destruct (index_of_fits _ Hok) as (H1 & H2 & H3). unfold index1, grown_index. split; [done |]. split; [apply uint32_range |].
    simpl. apply Forall_app. split; [done |]. apply Forall_singleton. split; [exact H2 | apply uint32_range]. }
  set (index2 := NewIndex (mb_validity mb) 1 (mb_subscribed mb) (Messages index1)).
  assert (readIndex uid (CanonicalMailbox name) w1 = (Ok index2, w1)) as Hread.
  { unfold readIndex. rewrite indexPath_canonical, indexPath_eq by done.
    rewrite (st_bind_eq _ _ _ _ _ (os_ReadFile_ok _ w1 _ Hh Hx)).
    change (marshal index1) with (marshal_index index1). rewrite (index_roundtrip _ Hfits).
    unfold repair, index2, index1, grown_index. cbn [UIDValidity UIDNext Subscribed Messages index_of].
    replace (mb_validity mb =? 0) with false by (pose proof (mok_validity _ Hok); lia).
    replace (uint32 (mb_next mb + 1)) with 0 by (by rewrite Hnext). done. }
  destruct (append_to_healthy uid (CanonicalMailbox name) w1 index2 flags date body2)
    as (g & Happ2 & _); [done | done | done | done |].
  exists (set_fs g w1). rewrite !Append_eq, Hread, (readIndex_healthy _ _ _ _ Hg' Had Hh), Happ.
  simpl. rewrite Hnext. by split.
Qed.

(** UIDVALIDITY does not tell a mailbox from its successor: creating a
    mailbox, filing a message, deleting the mailbox and doing it again within
    one second gives UIDVALIDITY and UID of the first message to the second. *)
Theorem uidvalidity_repeats uid name w body1 body2 :
  good_name name → CanonicalMailbox name ≠ Inbox → at_dir (w_fs w) (mailboxDir uid name) None →
  clock_ok w → healthy w →
  let file := λ body : bytes,
    _ ←? CreateMailbox uid name; Append uid name [] (w_now w) body in
  ∃ w1 w2 mb1 mb2,
    file body1 w = (Ok 1, w1) ∧
    (_ ←? DeleteMailbox uid name; file body2) w1 = (Ok 1, w2) ∧
    at_dir (w_fs w1) (mailboxDir uid name) (Some mb1) ∧ at_dir (w_fs w2) (mailboxDir uid name) (Some mb2) ∧
    mb_validity mb1 = mb_validity mb2 ∧
    (a_body <$> mb_messages mb1) = [body1] ∧ (a_body <$> mb_messages mb2) = [body2].
Proof.
  intros Hg Hi Had Hc Hh. cbv zeta.
  assert (∀ w0 body, w_now w0 = w_now w → at_dir (w_fs w0) (mailboxDir uid name) None → healthy w0 →
    ∃ f, (_ ←? CreateMailbox uid name; Append uid name [] (w_now w) body) w0 = (Ok 1, set_fs f w0) ∧
      at_dir f (mailboxDir uid name)
        (Some (appended (fresh_mailbox (w_now w)) [] (stamp (w_now w) (w_now w)) body))) as Hfile.
  { intros w0 body Hn Had0 Hh0. assert (clock_ok w0) as Hc0 by (unfold clock_ok; by rewrite Hn).
    destruct (CreateMailbox_healthy uid name w0 Hg Hi Had0 Hc0 Hh0) as (f & Hcr & _ & Had1).
    rewrite (try_bind_ok _ _ _ _ _ Hcr).
    destruct (Append_healthy uid name (set_fs f w0) (Some (fresh_mailbox (w_now w0))) [] (w_now w) body)
      as (g & Ha); [done .. |].
    exists g. split; [exact Ha |].
    apply (Append_inv _ _ _ (Some (fresh_mailbox (w_now w0)))) in Ha as (_ & _ & _ & _ & Ha); try done.
    simpl in Ha. by rewrite Hn in Ha. }
  destruct (Hfile w body1) as (f & H1 & Had1); [done .. |].
  destruct (DeleteMailbox_healthy uid name (set_fs f w) _ Hg Hi Had1 Hh) as (g & Hdel & _ & Had2).
  destruct (Hfile (set_fs g w) body2) as (h & H2 & Had3); [done .. |].
  eexists _, _, _, _. split; [exact H1 |]. rewrite (try_bind_ok _ _ _ _ _ Hdel).
  split; [exact H2 |]. split; [exact Had1 |]. split; [exact Had3 |]. done.
Qed.

End Limits.

Section Escape.
Context {U : UnicodeTables} {Bc : Bcrypt}.

Lemma dotdot_canonical : CanonicalMailbox (B "..") = B "..".
Proof.
  unfold CanonicalMailbox. change (Trim (B "..") Delimiter) with (B "..").
  destruct (EqualFold (B "..") Inbox) eqn:E; [| done].
  apply EqualFold_spec in E. by apply (f_equal length) in E.
Qed.

Lemma dotdot_dir s uid :
  Forall plain (root s) → mailboxDir (Acc := UserStore_accounts s) uid (B "..") = UserDir s uid.
Proof.
  intros Hr. unfold mailboxDir. rewrite dotdot_canonical.
  rewrite (mailRoot_eq (Laws := UserStore_laws s Hr)). cbn [accounts_UserDir UserStore_accounts]. rewrite UserDir_eq by done.
  unfold Join. change (concat _) with [B ".."]. unfold clean. rewrite foldl_app.
  rewrite (clean_plain_go [] ((root s ++ [FormatInt uid]) ++ [B "mail"])).
  2: { apply Forall_app. split; [| apply Forall_singleton, mail_plain].
       apply Forall_app. split; [done |]. apply Forall_singleton, plain_FormatInt. }
  rewrite app_nil_l. unfold foldl, clean_step. rewrite decide_False by naive_solver. rewrite decide_True by done.
  rewrite last_snoc, decide_False by done. apply removelast_last.
Qed.

Lemma dotdot_index s uid :
  Forall plain (root s) →
  indexPath (Acc := UserStore_accounts s) uid (B "..") = UserDir s uid ++ [index_json].
Proof.
  intros Hr. unfold indexPath. rewrite dotdot_dir, UserDir_eq by done. apply Join_plain.
  - apply Forall_app. split; [done |]. apply Forall_singleton, plain_FormatInt.
  - apply Forall_singleton, index_json_plain.
Qed.

(** The mailbox name [..] escapes the mail directory: an authenticated
    client that creates the mailbox [..] and deletes it removes the whole
    directory of the account, so that the user record is gone. *)
Theorem dotdot_deletes_account s w m uid u :
  store_ok s w m → m !! uid = Some u → healthy w →
  w_fs w !! (UserDir s uid ++ [index_json]) = None →
  ∃ w1 w2,
    CreateMailbox (Acc := UserStore_accounts s) uid (B "..") w = (Ok tt, w1) ∧
    DeleteMailbox (Acc := UserStore_accounts s) uid (B "..") w1 = (Ok tt, w2) ∧
    readUser s uid w = (Ok (Some u), w) ∧ readUser s uid w2 = (Ok None, w2).
Proof.
  intros [Hrep Hok Hun] Hm Hh Hnone. pose proof (rep_root _ _ _ Hrep) as [Hroot _].
  set (dir := UserDir s uid) in *. pose proof (UserDir_eq s uid Hroot) as Hdir. fold dir in Hdir.
  assert (dirb (w_fs w) dir = true) as Hd.
  { eapply rep_users in Hm as (c & Hc & _); [| done]. apply file_in_Some in Hc.
    rewrite record_path_snoc, <- Hdir in Hc. by apply (rep_tree _ _ _ Hrep) in Hc. }
  assert (∀ q, q `prefix_of` dir → file_in (w_fs w) q = None) as Hfree.
  { intros q. rewrite Hdir. by eapply represents_free. }
  set (f := mkdirs (w_fs w) dir).
  assert (f !! (dir ++ [index_json]) = None) as Hfn.
  { unfold f. rewrite mkdirs_lookup_not; [done | apply snoc_not_prefix]. }
  set (c := Json (marshal (index_of (fresh_mailbox (w_now w))))).
  set (f1 := <[dir ++ [index_json] := File c]> f).
  exists (set_fs f1 w), (set_fs (filter (λ kn, ¬ under dir kn) f1) w). split; [| split; [| split]].
  - unfold CreateMailbox. cbv zeta. rewrite dotdot_canonical, decide_False, dotdot_index by done. fold dir.
    rewrite (st_bind_eq _ _ _ _ _ (os_Stat_healthy _ _ Hh (snoc_nonempty _ _))), Hnone.
    rewrite decide_False, newMailboxIndex_bind by done. unfold writeIndex. cbv zeta.
    change (Join (mailboxDir uid (B "..")) [B "index.json"]) with (indexPath (Acc := UserStore_accounts s) uid (B "..")).
    rewrite dotdot_index, dotdot_dir by done. fold dir.
    rewrite (try_bind_ok _ _ _ _ _ (os_MkdirAll_ok _ _ Hh Hfree)). fold f.
    rewrite os_WriteFile_ok; [done | done | |].
    + simpl. apply not_true_is_false. rewrite dirb_spec, Hfn. intros [Hx | Hx]; [by apply snoc_nonempty in Hx | done].
    + rewrite parent_snoc. by apply dirb_mkdirs_mono.
  - unfold DeleteMailbox. cbv zeta. rewrite dotdot_canonical, decide_False, dotdot_index by done. fold dir.
    rewrite (st_bind_eq _ _ _ _ _ (os_Stat_healthy (dir ++ [index_json]) (set_fs f1 w) Hh (snoc_nonempty _ _))).
    cbn [w_fs set_fs]. assert (f1 !! (dir ++ [index_json]) = Some (File c)) as -> by apply lookup_insert_eq.
    rewrite dotdot_dir by done. exact (syscall_healthy _ (set_fs f1 w) (Ok tt) _ Hh eq_refl).
  - rewrite (readUser_healthy s w m uid) by done. by rewrite Hm.
  - unfold readUser. replace (uid <? 1) with false by (apply (ok_uid _ Hok) in Hm; lia).
    rewrite userPath_eq, record_path_snoc, <- Hdir by done.
    rewrite (st_bind_eq _ _ _ _ _ (os_ReadFile_missing (dir ++ [B "user.json"]) (set_fs (filter (λ kn, ¬ under dir kn) f1) w) Hh
      ltac:(simpl; rewrite removeall_lookup; by rewrite decide_True by by eexists))). done.
Qed.

End Escape.

(** ** Witnesses *)

Definition some_ops : list mailbox_op :=
  [OpAppend [] zero_time (B "second"); OpSetFlags [1] [B "\Deleted"] FlagsAdd; OpRemove [2]].

Lemma store_refines_witness :
  ∃ w', run_ops 1 work some_ops work_world = (Ok tt, w') ∧
    outside (mailboxDir 1 work) (w_fs work_world) (w_fs w') ∧
    let mb' := foldl (apply_op (w_now work_world)) work_box some_ops in
    mailbox_ok mb' ∧
    Snapshot 1 work w' = (Ok (NewSnapshot (CanonicalMailbox work) (index_of mb')), w') ∧
    ∀ a, a ∈ mb_messages mb' → Body 1 work (entry_of a) w' = (Ok (Raw (a_body a)), w').
Proof.
  exact (store_refines 1 work some_ops work_world work_box (proj1 work_good) work_dir_ok work_world_clock
    work_healthy eq_refl).
Defined.

Lemma uid_never_reused_witness :
  ∃ w' snap, run_uids 1 work some_ops work_world = (Ok [2], w') ∧ Snapshot 1 work w' = (Ok snap, w') ∧
    UIDValidity (Index snap) = mb_validity work_box ∧ UIDNext (Index snap) = 3.
Proof.
  destruct (run_uids_healthy 1 work some_ops work_world work_box (proj1 work_good) work_dir_ok work_world_clock
    work_healthy eq_refl) as (f & Hrun & Had).
  pose proof (Snapshot_healthy 1 work (set_fs f work_world) _ (proj1 work_good) Had work_healthy) as Hsnap.
  destruct (uid_never_reused 1 work some_ops work_world work_box _ _ _ _ (proj1 work_good) work_dir_ok
    work_world_clock work_healthy eq_refl Hrun Hsnap) as (_ & Hn & Hv & _).
  eexists _, _. split; [exact Hrun |]. split; [exact Hsnap |]. split; [exact Hv | exact Hn].
Defined.

Lemma Append_faults_witness :
  at_dir (w_fs work_world) (mailboxDir 1 work) None ∨
  ∃ mb', at_dir (w_fs work_world) (mailboxDir 1 work) (Some mb') ∧
    mb_messages mb' = [AMessage 1 [B "\Seen"] (w_now two_world) (B "hello")].
Proof.
  destruct (Append_faults 1 work two_world None [B "\Seen"] (w_now two_world) (B "hello") (Ok 1) work_world
    (proj1 work_good) (no_mail _ (proj1 work_good)) two_world_clock eq_refl (proj1 work_world_ok))
    as [_ (_ & mb' & Had & Hm & _)].
  right. exists mb'. split; [exact Had |]. rewrite Hm. vm_compute. reflexivity.
Defined.

(** The disk refuses the second write of the removal. *)
Definition failing_world : world :=
  World (w_fs work_world) (w_now work_world) (w_rand work_world) [NoFault; NoFault; NoFault; Refused].
Definition remove_out : result unit * world := Remove 1 work [1] failing_world.
#[local] Strategy expand [remove_out].

Lemma Remove_faults_witness :
  remove_out.1 = Err os_ErrIO ∧
  (partly_removed (w_fs remove_out.2) (mailboxDir 1 work) work_box [1] ∨
   torn (w_fs remove_out.2) (mailboxDir 1 work)).
Proof.
  assert (remove_out.1 = Err os_ErrIO) as He by (vm_compute; reflexivity).
  split; [exact He |].
  destruct (Remove_faults 1 work failing_world work_box [1] remove_out.1 remove_out.2
    (proj1 work_good) work_dir_ok (surjective_pairing remove_out)) as [_ H].
  rewrite He in H. exact H.
Defined.

Definition archive : bytes := B "Archive/2024".
Lemma archive_good : good_name archive.
Proof. apply good_name_iff. by vm_compute. Qed.

Lemma archive_world :
  ∃ f, CreateMailbox 1 archive work_world = (Ok tt, set_fs f work_world) ∧
    at_dir f (mailboxDir 1 archive) (Some (fresh_mailbox (w_now work_world))) ∧
    at_dir f (mailboxDir 1 work) (Some work_box).
Proof.
  assert (at_dir (w_fs work_world) (mailboxDir 1 archive) None) as Hnone.
  { destruct (Append_healthy 1 work two_world None [B "\Seen"] (w_now two_world) (B "hello")) as [f Ha];
      [apply work_good | apply no_mail, work_good | apply two_world_clock | apply two_world_ok | done |].
    unfold work_world. rewrite Ha.
    apply (Append_inv _ _ _ None) in Ha as (_ & _ & Ho & _ & Had);
      [| apply work_good | apply no_mail, work_good | apply two_world_clock | done].
    apply (at_dir_outside (w_fs two_world) f 1 archive work None);
      [apply archive_good | apply work_good | by vm_compute | apply no_mail, archive_good | apply Had | exact Ho]. }
  destruct (CreateMailbox_healthy 1 archive work_world) as (f & Hc & Ho & Had);
    [apply archive_good | by vm_compute | done | apply work_world_clock | apply work_healthy |].
  exists f. split; [done |]. split; [done |].
  apply (at_dir_outside (w_fs work_world) f 1 work archive);
    [apply work_good | apply archive_good | by vm_compute | apply work_dir_ok | apply Had | exact Ho].
Qed.

Lemma Copy_correct_witness :
  ∃ f g, at_dir f (mailboxDir 1 work) (Some work_box) ∧
    Copy 1 work archive [1] (set_fs f work_world) = (Ok tt, set_fs g (set_fs f work_world)) ∧
    at_dir g (mailboxDir 1 archive)
      (Some (copied (w_now work_world) (fresh_mailbox (w_now work_world)) (mb_messages work_box))).
Proof.
  destruct archive_world as (f & _ & Ha & Hw). exists f.
  destruct (Copy_correct 1 work archive [1] (set_fs f work_world) work_box (fresh_mailbox (w_now work_world))
    (proj1 work_good) archive_good) as (g & Hc & _ & Hd & _).
  - vm_compute. discriminate.
  - exact Hw.
  - exact Ha.
  - exact work_world_clock.
  - exact work_healthy.
  - reflexivity.
  - exists g. split; [exact Hw |]. split; [exact Hc | exact Hd].
Defined.

Lemma mailbox_name_roundtrip_witness :
  decodeMailboxName (encodeMailboxName (B "Drafts/" ++ encode_rune 233)) = B "Drafts/" ++ encode_rune 233.
Proof.
  apply mailbox_name_roundtrip; [by apply (bool_decide_unpack _) |].
  apply (bool_decide_unpack _). vm_compute. exact I.
Defined.

Lemma mailboxDir_confined_witness :
  ∃ dir, mailboxDir 1 (B "../../etc") = accounts_UserDir 1 ++ [B "mail"; dir] ∧ plain dir.
Proof.
  destruct (mailboxDir_confined 1 (B "../../etc") work) as [H _].
  - vm_compute. discriminate.
  - vm_compute. discriminate.
  - vm_compute. discriminate.
  - exact H.
Defined.

Lemma create_delete_correct_witness :
  CreateMailbox 1 work work_world = (Err ErrMailboxExists, work_world) ∧
  ∃ f, DeleteMailbox 1 work work_world = (Ok tt, set_fs f work_world) ∧ at_dir f (mailboxDir 1 work) None.
Proof.
  destruct (create_delete_correct 1 work work_world (Some work_box) (proj1 work_good) work_dir_ok
    work_world_clock work_healthy) as [_ H].
  destruct (H (proj2 work_good)) as (Hc & f & Hd & Had & _).
  split; [exact Hc |]. exists f. split; [exact Hd | exact Had].
Defined.

Lemma RenameMailbox_correct_witness :
  ∃ f, RenameMailbox 1 work archive work_world = (Ok tt, set_fs f work_world) ∧
    at_dir f (mailboxDir 1 archive) (Some work_box) ∧ at_dir f (mailboxDir 1 work) None.
Proof.
  destruct (RenameMailbox_correct 1 work archive work_world work_box (proj1 work_good) archive_good) as [_ H].
  - vm_compute. discriminate.
  - exact work_dir_ok.
  - assert (map_Forall (λ q _, ¬ mailboxDir 1 archive `prefix_of` q) (w_fs work_world)) as Hm
      by (apply (bool_decide_unpack _); vm_compute; exact I).
    intros q n. apply Hm.
  - exact work_healthy.
  - apply H; vm_compute; discriminate.
Defined.

(** A mailbox about to run out of UIDs. *)
Definition last_box : mailbox := Mailbox 1 (2 ^ 32 - 1) true [].
Definition last_out : result unit * world := writeIndex 1 work (index_of last_box) two_world.
#[local] Strategy expand [last_out].

Lemma last_box_ok : mailbox_ok last_box.
Proof. constructor; simpl; try constructor; lia. Qed.

Lemma Append_wraps_witness :
  healthy last_out.2 ∧
  ∃ w1 w2, Append 1 work [] zero_time (B "last") last_out.2 = (Ok (2 ^ 32 - 1), w1) ∧
    Append 1 work [] zero_time (B "again") w1 = (Ok 1, w2).
Proof.
  destruct (writeIndex_healthy 1 work two_world (index_of last_box) (proj1 work_good)
    (ad_dir _ _ _ (no_mail _ (proj1 work_good))) (proj2 two_world_ok)) as (f & Hw & _).
  assert (last_out = (Ok tt, set_fs f two_world)) as He by exact Hw.
  apply (writeIndex_inv _ _ _ None) in Hw as (_ & _ & _ & Had);
    [| exact (proj1 work_good) | exact (no_mail _ (proj1 work_good)) | exact last_box_ok | constructor].
  rewrite He. split; [exact (proj2 two_world_ok) |].
  exact (Append_wraps 1 work (set_fs f two_world) last_box [] zero_time (B "last") (B "again")
    (proj1 work_good) Had (proj2 two_world_ok) eq_refl).
Defined.

Lemma uidvalidity_repeats_witness :
  ∃ w1 w2 mb1 mb2,
    (_ ←? CreateMailbox 1 work; Append 1 work [] (w_now two_world) (B "a")) two_world = (Ok 1, w1) ∧
    (_ ←? DeleteMailbox 1 work; _ ←? CreateMailbox 1 work; Append 1 work [] (w_now two_world) (B "b")) w1 = (Ok 1, w2) ∧
    at_dir (w_fs w1) (mailboxDir 1 work) (Some mb1) ∧ at_dir (w_fs w2) (mailboxDir 1 work) (Some mb2) ∧
    mb_validity mb1 = mb_validity mb2 ∧
    (a_body <$> mb_messages mb1) = [B "a"] ∧ (a_body <$> mb_messages mb2) = [B "b"].
Proof.
  exact (uidvalidity_repeats 1 work two_world (B "a") (B "b") (proj1 work_good) (proj2 work_good)
    (no_mail _ (proj1 work_good)) two_world_clock (proj2 two_world_ok)).
Defined.

Lemma dotdot_deletes_account_witness :
  ∃ w1 w2,
    CreateMailbox 1 (B "..") two_world = (Ok tt, w1) ∧ DeleteMailbox 1 (B "..") w1 = (Ok tt, w2) ∧
    readUser store 1 two_world = (Ok (Some alice), two_world) ∧ readUser store 1 w2 = (Ok None, w2).
Proof.
  refine (dotdot_deletes_account store two_world two_users 1 alice (proj1 two_world_ok) _ (proj2 two_world_ok) _).
  - unfold two_users. by rewrite lookup_insert_ne, lookup_singleton_eq.
  - vm_compute. reflexivity.
Defined.
