(* ===== verification/Config.v ===== *)
(** * Config: the configuration from the environment ([mail/config.go] and the
    environment part of [main.go])

    The environment is a finite map.  The certificate and key parsers of
    [crypto/x509] and [encoding/pem] are the class [KeyParsers]. *)

From S2P Require Import Prelude GoStrings Strconv World Token.

(** ** Regular expressions

    Enough of package [regexp] to write the domain pattern as it stands in
    the code; matching is by derivatives. *)

Inductive re :=
| Void
| Eps
| Class_ (p : ascii → bool)
| Cat (r s : re)
| Alt (r s : re)
| Star (r : re).

Fixpoint nullable (r : re) : bool :=
  match r with
  | Void | Class_ _ => false
  | Eps | Star _ => true
  | Cat r s => nullable r && nullable s
  | Alt r s => nullable r || nullable s
  end.

Fixpoint deriv (c : ascii) (r : re) : re :=
  match r with
  | Void | Eps => Void
  | Class_ p => if p c then Eps else Void
  | Cat r s => if nullable r then Alt (Cat (deriv c r) s) (deriv c s) else Cat (deriv c r) s
  | Alt r s => Alt (deriv c r) (deriv c s)
  | Star r => Cat (deriv c r) (Star r)
  end.

(** [MatchString] of an anchored pattern [^r$]. *)
Fixpoint MatchString (r : re) (s : bytes) : bool :=
  match s with [] => nullable r | c :: s => MatchString (deriv c r) s end.

(** [r?] and [r+] *)
Definition Opt (r : re) : re := Alt r Eps.
Definition Plus (r : re) : re := Cat r (Star r).

(** [[A-Za-z0-9]] and [[A-Za-z0-9-]] *)
Definition alnum_class : re := Class_ (λ c, is_alnum (code c)).
Definition alnum_dash_class : re := Class_ (λ c, is_alnum (code c) || bool_decide (c = "-"%char)).

(** [[A-Za-z0-9]([A-Za-z0-9-]*[A-Za-z0-9])?] *)
Definition label_pattern : re := Cat alnum_class (Opt (Cat (Star alnum_dash_class) alnum_class)).

Definition domainPattern : re :=
  Cat label_pattern (Plus (Cat (Class_ (λ c, bool_decide (c = "."%char))) label_pattern)).

(** ** The configuration *)

Definition defaultMaxMessageBytes : Z := 25 * 1024 * 1024.
(** Durations are nanoseconds. *)
Definition Second : Z := 10 ^ 9.
Definition Minute : Z := 60 * Second.
Definition Hour : Z := 60 * Minute.
Definition queueRetryInterval : Z := 5 * Minute.
Definition queueMaxAttempts : Z := 12.

Record Config := NewConfig {
  Domain : bytes; ExtraDomains : list bytes; Hostname : bytes;
  SMTPAddr : bytes; SubmissionAddr : bytes; SubmissionTLSAddr : bytes;
  POP3Addr : bytes; POP3TLSAddr : bytes; IMAPAddr : bytes; IMAPTLSAddr : bytes;
  TLSCertFile : bytes; TLSKeyFile : bytes;
  MaxMessageBytes : Z;
  Relay : bool;
  SmarthostAddr : bytes; SmarthostUser : bytes; SmarthostPassword : bytes;
  DKIMDomain : bytes; DKIMSelector : bytes; DKIMKeyFile : bytes;
  QueueDir : path;
}.

(** The errors of [ConfigFromEnv] and [tokenIssuerFromEnv], each with the text
    it quotes. *)
Inductive config_error :=
| ErrMAIL_DOMAIN (got : bytes)
| ErrMAIL_EXTRA_DOMAINS (entry : bytes)
| ErrMAIL_MAX_MESSAGE_BYTES (got : bytes)
| ErrMAIL_RELAY (got : bytes)
| ErrTLSPair
| ErrDKIMPair
| ErrTOKEN_VALID_SECS (got : bytes)
| ErrTokenSecret.

Abbreviation env := (gmap bytes bytes).

Definition Getenv (e : env) (key : bytes) : bytes := default [] (e !! key).

Section FromEnv.
Context {U : UnicodeTables}.

Definition Enabled (c : Config) : bool := bool_decide (Domain c ≠ []).

Definition addrFromEnv (e : env) (key fallback : bytes) : bytes :=
  match e !! key with
  | None => fallback
  | Some raw =>
      let raw := TrimSpace raw in
      if decide (ToLower raw ∈ [[]; B "off"; B "disabled"; B "none"]) then [] else raw
  end.

(** The composite literal at the start of [ConfigFromEnv]. *)
Definition env_config (e : env) : Config :=
  let trimmed k := TrimSpace (Getenv e (B k)) in
  {| Domain := ToLower (trimmed "MAIL_DOMAIN"%string);
     ExtraDomains := [];
     Hostname := ToLower (trimmed "MAIL_HOSTNAME"%string);
     SMTPAddr := addrFromEnv e (B "MAIL_SMTP_ADDR") (B ":25");
     SubmissionAddr := addrFromEnv e (B "MAIL_SUBMISSION_ADDR") (B ":587");
     SubmissionTLSAddr := addrFromEnv e (B "MAIL_SUBMISSION_TLS_ADDR") (B ":465");
     POP3Addr := addrFromEnv e (B "MAIL_POP3_ADDR") (B ":110");
     POP3TLSAddr := addrFromEnv e (B "MAIL_POP3_TLS_ADDR") (B ":995");
     IMAPAddr := addrFromEnv e (B "MAIL_IMAP_ADDR") (B ":143");
     IMAPTLSAddr := addrFromEnv e (B "MAIL_IMAP_TLS_ADDR") (B ":993");
     TLSCertFile := trimmed "MAIL_TLS_CERT_FILE"%string;
     TLSKeyFile := trimmed "MAIL_TLS_KEY_FILE"%string;
     MaxMessageBytes := defaultMaxMessageBytes;
     Relay := true;
     SmarthostAddr := trimmed "MAIL_SMARTHOST_ADDR"%string;
     SmarthostUser := Getenv e (B "MAIL_SMARTHOST_USER");
     SmarthostPassword := Getenv e (B "MAIL_SMARTHOST_PASSWORD");
     DKIMDomain := ToLower (trimmed "MAIL_DKIM_DOMAIN"%string);
     DKIMSelector := trimmed "MAIL_DKIM_SELECTOR"%string;
     DKIMKeyFile := trimmed "MAIL_DKIM_KEY_FILE"%string;
     QueueDir := [] |}.

(** The loop over [MAIL_EXTRA_DOMAINS]. *)
Fixpoint extra_domains (entries : list bytes) : config_error + list bytes :=
  match entries with
  | [] => inr []
  | extra :: entries =>
      let extra := ToLower (TrimSpace extra) in
      if decide (extra = []) then extra_domains entries
      else if negb (MatchString domainPattern extra) then inl (ErrMAIL_EXTRA_DOMAINS extra)
      else match extra_domains entries with inl e => inl e | inr l => inr (extra :: l) end
  end.

Definition max_message_bytes (e : env) : config_error + Z :=
  let raw := TrimSpace (Getenv e (B "MAIL_MAX_MESSAGE_BYTES")) in
  if decide (raw = []) then inr defaultMaxMessageBytes
  else match ParseInt raw with
       | Some parsed => if parsed <=? 0 then inl (ErrMAIL_MAX_MESSAGE_BYTES raw) else inr parsed
       | None => inl (ErrMAIL_MAX_MESSAGE_BYTES raw)
       end.

Definition relay_from_env (e : env) : config_error + bool :=
  match e !! B "MAIL_RELAY" with
  | None => inr true
  | Some raw => match ParseBool (TrimSpace raw) with Some relay => inr relay | None => inl (ErrMAIL_RELAY raw) end
  end.

Definition with_hostname (c : Config) : Config :=
  if decide (Hostname c = []) then
    {| Domain := Domain c; ExtraDomains := ExtraDomains c; Hostname := Domain c;
       SMTPAddr := SMTPAddr c; SubmissionAddr := SubmissionAddr c; SubmissionTLSAddr := SubmissionTLSAddr c;
       POP3Addr := POP3Addr c; POP3TLSAddr := POP3TLSAddr c; IMAPAddr := IMAPAddr c; IMAPTLSAddr := IMAPTLSAddr c;
       TLSCertFile := TLSCertFile c; TLSKeyFile := TLSKeyFile c; MaxMessageBytes := MaxMessageBytes c;
       Relay := Relay c; SmarthostAddr := SmarthostAddr c; SmarthostUser := SmarthostUser c;
       SmarthostPassword := SmarthostPassword c; DKIMDomain := DKIMDomain c; DKIMSelector := DKIMSelector c;
       DKIMKeyFile := DKIMKeyFile c; QueueDir := QueueDir c |}
  else c.

(** [cfg.ExtraDomains], [cfg.MaxMessageBytes], [cfg.Relay] and
    [cfg.DKIMDomain] assigned. *)
Definition with_options (c : Config) (extras : list bytes) (limit : Z) (relay : bool) (dkim : bytes) : Config :=
  {| Domain := Domain c; ExtraDomains := extras; Hostname := Hostname c;
     SMTPAddr := SMTPAddr c; SubmissionAddr := SubmissionAddr c; SubmissionTLSAddr := SubmissionTLSAddr c;
     POP3Addr := POP3Addr c; POP3TLSAddr := POP3TLSAddr c; IMAPAddr := IMAPAddr c; IMAPTLSAddr := IMAPTLSAddr c;
     TLSCertFile := TLSCertFile c; TLSKeyFile := TLSKeyFile c; MaxMessageBytes := limit;
     Relay := relay; SmarthostAddr := SmarthostAddr c; SmarthostUser := SmarthostUser c;
     SmarthostPassword := SmarthostPassword c; DKIMDomain := dkim; DKIMSelector := DKIMSelector c;
     DKIMKeyFile := DKIMKeyFile c; QueueDir := QueueDir c |}.

Definition ConfigFromEnv (e : env) : config_error + Config :=
  let cfg := env_config e in
  if negb (Enabled cfg) then inr cfg
  else if negb (MatchString domainPattern (Domain cfg)) then inl (ErrMAIL_DOMAIN (Domain cfg))
  else
    let cfg := with_hostname cfg in
    match extra_domains (Split (Getenv e (B "MAIL_EXTRA_DOMAINS")) ","%char) with
    | inl err => inl err
    | inr extras =>
    match max_message_bytes e with
    | inl err => inl err
    | inr limit =>
    match relay_from_env e with
    | inl err => inl err
    | inr relay =>
        if negb (eqb (bool_decide (TLSCertFile cfg = [])) (bool_decide (TLSKeyFile cfg = []))) then inl ErrTLSPair
        else if decide (DKIMSelector cfg ≠ [] ∨ DKIMKeyFile cfg ≠ []) then
          if decide (DKIMSelector cfg = [] ∨ DKIMKeyFile cfg = []) then inl ErrDKIMPair
          else inr (with_options cfg extras limit relay
                      (if decide (DKIMDomain cfg = []) then Domain cfg else DKIMDomain cfg))
        else inr (with_options cfg extras limit relay (DKIMDomain cfg))
    end end end.

(** ** [main.go] *)

Definition defaultTokenValidSecs : Z := 3600.

Definition tokenIssuerFromEnv (e : env) : M (config_error + TokenIssuer) :=
  let raw := TrimSpace (Getenv e (B "TOKEN_VALID_SECS")) in
  let validSecs :=
    if decide (raw = []) then inr defaultTokenValidSecs
    else match ParseInt raw with
         | Some parsed => if parsed <=? 0 then inl (ErrTOKEN_VALID_SECS raw) else inr parsed
         | None => inl (ErrTOKEN_VALID_SECS raw)
         end in
  match validSecs with
  | inl err => mret (inl err)
  | inr validSecs =>
      let secret := Getenv e (B "TOKEN_SECRET") in
      if decide (length secret = 0%nat) then
        r ← rand_Read 32;
        mret (match r with
              | Err _ => inl ErrTokenSecret
              | Ok secret => inr (NewTokenIssuer secret validSecs)
              end)
      else mret (inr (NewTokenIssuer secret validSecs))
  end.

Inductive gin_mode := DebugMode | ReleaseMode | TestMode.

(** The mode passed to [gin.SetMode]. *)
Definition configureGinMode (e : env) : gin_mode :=
  let mode := ToLower (TrimSpace (Getenv e (B "GIN_MODE"))) in
  if decide (mode = [] ∨ mode = B "debug") then DebugMode
  else if decide (mode = B "release") then ReleaseMode
  else if decide (mode = B "test") then TestMode
  else DebugMode.

(** The list passed to [r.SetTrustedProxies]; [None] is [nil]. *)
Definition configureTrustedProxies (e : env) : option (list bytes) :=
  let value := TrimSpace (Getenv e (B "GIN_TRUSTED_PROXIES")) in
  if decide (value = []) then None
  else Some (filter (.≠ []) (TrimSpace <$> Split value ","%char)).

End FromEnv.

(** ** Certificates and keys *)

Inductive private_key :=
| RSAKey (key : bytes)
| Ed25519Key (key : bytes)
| OtherKey (type : bytes).

Class KeyParsers := {
  (** [tls.LoadX509KeyPair(certFile, keyFile)]: the chain. *)
  LoadX509KeyPair : bytes → bytes → option bytes;
  (** The bytes of the first block of [pem.Decode]. *)
  pem_Decode : bytes → option bytes;
  ParsePKCS1PrivateKey : bytes → option bytes;
  ParsePKCS8PrivateKey : bytes → option private_key;
}.

Record tls_Config := TLSConfig { Certificates : bytes; ServerName : bytes }.

Section Keys.
Context {K : KeyParsers}.

Definition tlsConfig (c : Config) : result (option tls_Config) :=
  if decide (TLSCertFile c = []) then Ok None
  else match LoadX509KeyPair (TLSCertFile c) (TLSKeyFile c) with
       | None => Err (ErrText (B "load mail TLS certificate"))
       | Some cert => Ok (Some (TLSConfig cert (Hostname c)))
       end.

(** [raw] is what [os.ReadFile(c.DKIMKeyFile)] returned. *)
Definition dkimSigner (c : Config) (raw : result bytes) : result (option private_key) :=
  if decide (DKIMKeyFile c = []) then Ok None
  else match raw with
  | Err _ => Err (ErrText (B "read DKIM key"))
  | Ok raw =>
      match pem_Decode raw with
      | None => Err (ErrText (B "DKIM key is not PEM encoded"))
      | Some block =>
          match ParsePKCS1PrivateKey block with
          | Some key => Ok (Some (RSAKey key))
          | None =>
              match ParsePKCS8PrivateKey block with
              | None => Err (ErrText (B "parse DKIM key"))
              | Some (OtherKey _) => Err (ErrText (B "DKIM key type is not supported, use RSA or Ed25519"))
              | Some key => Ok (Some key)
              end
          end
      end
  end.

End Keys.
