(* ===== verification/ConfigSpec.v ===== *)
(** * ConfigSpec: what an accepted configuration guarantees *)

From S2P Require Import Prelude GoStrings Strconv World Token Config.

(** ** The pattern matcher *)

Inductive matches : re → bytes → Prop :=
| m_eps : matches Eps []
| m_class p c : p c = true → matches (Class_ p) [c]
| m_cat r s x y : matches r x → matches s y → matches (Cat r s) (x ++ y)
| m_alt_l r s x : matches r x → matches (Alt r s) x
| m_alt_r r s x : matches s x → matches (Alt r s) x
| m_star_nil r : matches (Star r) []
| m_star_app r x y : matches r x → matches (Star r) y → matches (Star r) (x ++ y).

Lemma nullable_spec r : nullable r = true ↔ matches r [].
Proof.
  induction r as [| | p | r IHr s IHs | r IHr s IHs | r IHr]; simpl.
  - split; [done | by inversion 1].
  - split; [constructor | done].
  - split; [done | by inversion 1].
  - rewrite andb_true_iff, IHr, IHs. split.
    + intros [H1 H2]. by apply (m_cat r s [] []).
    + inversion 1 as [| | ? ? x y H1 H2 He Heq | | | |]. by apply app_nil in Heq as [-> ->].
  - rewrite orb_true_iff, IHr, IHs. split; [intros [|]; [by apply m_alt_l | by apply m_alt_r] |].
    inversion 1; auto.
  - split; [constructor | done].
Qed.

(** A non-empty word of [r*] starts with a non-empty word of [r]. *)
Lemma star_cons r c s : matches (Star r) (c :: s) → ∃ x y, matches r (c :: x) ∧ matches (Star r) y ∧ s = x ++ y.
Proof.
  intros H. remember (Star r) as q eqn:Hq. remember (c :: s) as w eqn:Hw. revert r c s Hq Hw.
  induction H as [| | | | | | r x y Hx _ Hy IHy]; intros r' a t Hq Hw; try done. injection Hq as ->.
  destruct x as [| d x]; simpl in Hw; [by eapply IHy |].
  injection Hw as -> <-. by exists x, y.
Qed.

Lemma deriv_spec c r s : matches (deriv c r) s ↔ matches r (c :: s).
Proof.
  revert s. induction r as [| | p | r IHr q IHq | r IHr q IHq | r IHr]; intros s; simpl.
  - split; inversion 1.
  - split; inversion 1.
  - destruct (p c) eqn:E.
    + split; [inversion 1; by constructor |]. inversion 1. constructor.
    + split; inversion 1. congruence.
  - assert (matches (Cat (deriv c r) q) s ↔ ∃ x y, matches r (c :: x) ∧ matches q y ∧ s = x ++ y) as Hcat.
    { split.
      - inversion 1 as [| | ? ? x y H1 H2 | | | |]; subst. apply IHr in H1. eauto 6.
      - intros (x & y & H1%IHr & H2 & ->). by constructor. }
    assert (matches (Cat r q) (c :: s) ↔
      (matches r [] ∧ matches q (c :: s)) ∨ ∃ x y, matches r (c :: x) ∧ matches q y ∧ s = x ++ y) as ->.
    { split.
      - inversion 1 as [| | ? ? x y H1 H2 He Heq | | | |]; subst. destruct x as [| d x]; simpl in Heq.
        + subst. by left.
        + injection Heq as -> <-. right. eauto 6.
      - intros [[H1 H2] | (x & y & H1 & H2 & ->)]; [by apply (m_cat r q []) | by apply (m_cat r q (c :: x))]. }
    destruct (nullable r) eqn:E.
    + apply nullable_spec in E. rewrite <- Hcat, <- IHq. split.
      * inversion 1; subst; auto.
      * intros [[_ H] | H]; [by apply m_alt_r | by apply m_alt_l].
    + rewrite Hcat. split; [by right |]. intros [[H _] | H]; [| done].
      apply nullable_spec in H. congruence.
  - split; (inversion 1; subst; [apply m_alt_l; by apply IHr | apply m_alt_r; by apply IHq]).
  - split.
    + inversion 1 as [| | ? ? x y H1 H2 | | | |]; subst. apply IHr in H1. by apply (m_star_app r (c :: x)).
    + intros (x & y & H1%IHr & H2 & ->)%star_cons. by constructor.
Qed.

Lemma MatchString_spec r s : MatchString r s = true ↔ matches r s.
Proof.
  revert r. induction s as [| c s IH]; intros r; simpl; [apply nullable_spec |].
  by rewrite IH, deriv_spec.
Qed.

Lemma matches_class p s : matches (Class_ p) s ↔ ∃ c, p c = true ∧ s = [c].
Proof. split; [inversion 1; eauto |]. intros (c & Hc & ->). by constructor. Qed.

Lemma matches_cat r q s : matches (Cat r q) s ↔ ∃ x y, matches r x ∧ matches q y ∧ s = x ++ y.
Proof. split; [inversion 1; subst; eauto 6 |]. intros (x & y & H1 & H2 & ->). by constructor. Qed.

Lemma matches_opt r s : matches (Opt r) s ↔ matches r s ∨ s = [].
Proof.
  split.
  - inversion 1 as [| | | | ? ? x H1 | |]; subst; [by left |]. inversion H1. by right.
  - intros [H | ->]; [by apply m_alt_l | apply m_alt_r; constructor].
Qed.

Lemma matches_star r s : matches (Star r) s ↔ ∃ l, Forall (matches r) l ∧ s = concat l.
Proof.
  split.
  - intros H. remember (Star r) as q eqn:Hq. induction H as [| | | | | | r' x y Hx _ Hy IHy]; try done.
    + by exists [].
    + injection Hq as ->. destruct IHy as (l & Hl & ->); [done |]. exists (x :: l). by split; [constructor |].
  - intros (l & Hl & ->). induction Hl; simpl; by constructor.
Qed.

Lemma matches_star_class p s : matches (Star (Class_ p)) s ↔ Forall (λ c, p c = true) s.
Proof.
  rewrite matches_star. split.
  - intros (l & Hl & ->). induction Hl as [| x l (c & Hc & ->)%matches_class _ IH]; [constructor |].
    simpl. by constructor.
  - intros H. exists ((λ c, [c]) <$> s). split.
    + apply Forall_fmap. eapply Forall_impl; [exact H |]. intros c Hc. by constructor.
    + clear H. induction s as [| c s IH]; [done |]. rewrite fmap_cons. simpl. by f_equal.
Qed.

(** ** Domain names *)

(** A label: letters, digits and dashes, with no dash at either end. *)
Definition label (s : bytes) : Prop :=
  Forall (λ c, is_alnum (code c) || bool_decide (c = "-"%char) = true) s ∧
  (∃ c, head s = Some c ∧ is_alnum (code c) = true) ∧ (∃ c, last s = Some c ∧ is_alnum (code c) = true).

(** At least two labels separated by dots. *)
Definition domain_name (s : bytes) : Prop :=
  (2 <= length (Split s "."%char))%nat ∧ Forall label (Split s "."%char).

Lemma label_matches s : matches label_pattern s ↔ label s.
Proof.
  unfold label_pattern, alnum_class, alnum_dash_class. rewrite matches_cat. split.
  - intros (x & y & (c & Hc & ->)%matches_class & Hy & ->). apply matches_opt in Hy as [Hy | ->].
    + apply matches_cat in Hy as (z & x & Hz%matches_star_class & (d & Hd & ->)%matches_class & ->).
      split; [| split].
      * apply Forall_app. split; [by apply Forall_singleton; rewrite Hc |].
        apply Forall_app. split; [done | by apply Forall_singleton; rewrite Hd].
      * by exists c.
      * exists d. split; [| done]. by rewrite app_assoc, last_snoc.
    + split; [by apply Forall_singleton; rewrite Hc |]. split; by exists c.
  - intros (Ha & (c & Hh & Hc) & (d & Hl & Hd)). destruct s as [| c' s]; [done |]. injection Hh as ->.
    exists [c], s. split; [by constructor |]. split; [| done]. apply matches_opt.
    destruct s as [| d' s _] using rev_ind; [by right | left].
    rewrite app_comm_cons, last_snoc in Hl. injection Hl as ->.
    apply matches_cat. exists s, [d]. split; [| split; [by constructor | done]].
    apply matches_star_class. by apply Forall_cons in Ha as [_ [Ha _]%Forall_app].
Qed.

Lemma label_no_dot s : label s → "."%char ∉ s.
Proof. intros [H _] Hin. rewrite Forall_forall in H. apply H in Hin. by vm_compute in Hin. Qed.

Lemma domainPattern_spec s : MatchString domainPattern s = true ↔ domain_name s.
Proof.
  rewrite MatchString_spec. unfold domainPattern, Plus, domain_name.
  set (dotted := Cat (Class_ _) label_pattern).
  assert (∀ x, matches dotted x ↔ ∃ l, label l ∧ x = "."%char :: l) as Hd.
  { intros x. unfold dotted. rewrite matches_cat. split.
    - intros (y & l & (c & ->%bool_decide_eq_true & ->)%matches_class & Hl%label_matches & ->). eauto.
    - intros (l & Hl%label_matches & ->). exists ["."%char], l. split; [by constructor | done]. }
  assert (∀ x, matches (Star dotted) x ↔ ∃ ls, Forall label ls ∧ x = concat (cons "."%char <$> ls)) as Hs.
  { intros x. rewrite matches_star. split.
    - intros (l & Hl & ->). induction Hl as [| y l (z & Hz & ->)%Hd _ (ls & Hls & He)]; [by exists [] |].
      exists (z :: ls). split; [by constructor |]. rewrite fmap_cons. simpl. by rewrite He.
    - intros (ls & Hls & ->). exists (cons "."%char <$> ls). split; [| done].
      apply Forall_fmap. eapply Forall_impl; [exact Hls |]. intros l Hl. apply Hd. eauto. }
  assert (∀ l ls, label l → Forall label ls → Split (l ++ concat (cons "."%char <$> ls)) "."%char = l :: ls) as Hsplit.
  { intros l ls Hl Hls. revert l Hl. induction Hls as [| y ls Hy Hls IH]; intros l Hl.
    - rewrite app_nil_r. by apply Split_no_sep, label_no_dot.
    - rewrite fmap_cons. simpl. rewrite Split_app by (by apply label_no_dot). by rewrite IH. }
  rewrite matches_cat. split.
  - intros (l & y & Hl%label_matches & Hy & ->). apply matches_cat in Hy as (x & y' & (m & Hm & ->)%Hd & (ls & Hls & ->)%Hs & ->).
    change (("."%char :: m) ++ concat (cons "."%char <$> ls)) with (concat (cons "."%char <$> m :: ls)).
    rewrite Hsplit; [| done | by constructor]. split; [simpl; lia |].
    constructor; [done | by constructor].
  - intros [H2 Hf]. destruct (Split s "."%char) as [| l [| m ls]] eqn:E; simpl in H2; [lia | lia |].
    apply Forall_cons in Hf as [Hl Hf]. apply Forall_cons in Hf as [Hm Hls].
    exists l, (concat (cons "."%char <$> m :: ls)). split; [by apply label_matches |]. split.
    + apply matches_cat. exists ("."%char :: m), (concat (cons "."%char <$> ls)).
      split; [apply Hd; eauto |]. split; [apply Hs; eauto | done].
    + rewrite <- (Join_Split s "."%char), E. clear. revert l. induction (m :: ls) as [| y r IH]; intros l; simpl.
      * by rewrite app_nil_r.
      * do 2 f_equal. exact (IH y).
Qed.

(** ** Configuration *)

Section Spec.
Context {U : UnicodeTables}.

Lemma extra_domains_inv l extras :
  extra_domains l = inr extras → Forall domain_name extras.
Proof.
  revert extras. induction l as [| x l IH]; intros extras; simpl; [intros [= <-]; constructor |].
  case_decide; [apply IH |]. destruct (MatchString _ _) eqn:E; cbn [negb]; [| done].
  destruct (extra_domains l) as [e | es]; [done |]. intros [= <-]. constructor; [| by apply IH].
  by apply domainPattern_spec.
Qed.

Lemma extra_domains_error l err :
  extra_domains l = inl err →
  ∃ x, x ∈ l ∧ let d := ToLower (TrimSpace x) in d ≠ [] ∧ ¬ domain_name d ∧ err = ErrMAIL_EXTRA_DOMAINS d.
Proof.
  induction l as [| x l IH]; simpl; [done |]. case_decide as Hx.
  { intros (y & Hy & H)%IH. exists y. split; [by right | done]. }
  destruct (MatchString _ _) eqn:E; cbn [negb].
  - destruct (extra_domains l) as [e | es]; [| done]. intros [= ->].
    destruct IH as (y & Hy & H); [done |]. exists y. split; [by right | done].
  - intros [= <-]. exists x. split; [by left |]. split; [done |]. split; [| done].
    intros H%domainPattern_spec. congruence.
Qed.

(** What a configuration that was accepted with mail enabled promises. *)
Record config_ok (c : Config) : Prop := {
  cok_domain : domain_name (Domain c);
  cok_extra : Forall domain_name (ExtraDomains c);
  cok_hostname : Hostname c ≠ [];
  cok_limit : 0 < MaxMessageBytes c < 2 ^ 63;
  cok_tls : TLSCertFile c = [] ↔ TLSKeyFile c = [];
  cok_dkim : (DKIMSelector c = [] ↔ DKIMKeyFile c = []) ∧ (DKIMKeyFile c ≠ [] → DKIMDomain c ≠ []);
}.

(** A listen address: the variable, or its default when it is not set; blank
    or one of three words, in any case, switches the listener off. *)
Inductive address_setting (e : env) (key fallback : bytes) : bytes → Prop :=
| address_default : e !! key = None → address_setting e key fallback fallback
| address_off raw :
    e !! key = Some raw → TrimSpace raw = [] ∨ ToLower (TrimSpace raw) ∈ [[]; B "off"; B "disabled"; B "none"] →
    address_setting e key fallback []
| address_given raw :
    e !! key = Some raw → TrimSpace raw ≠ [] → ToLower (TrimSpace raw) ∉ [[]; B "off"; B "disabled"; B "none"] →
    address_setting e key fallback (TrimSpace raw).

(** Every setting is what its variable says, or the documented default. *)
Record as_documented (e : env) (c : Config) : Prop := {
  ad_domain : Domain c = ToLower (TrimSpace (Getenv e (B "MAIL_DOMAIN")));
  ad_hostname : let h := ToLower (TrimSpace (Getenv e (B "MAIL_HOSTNAME"))) in Hostname c = if decide (h = []) then Domain c else h;
  ad_extra : ExtraDomains c =
    filter (.≠ []) ((λ x, ToLower (TrimSpace x)) <$> Split (Getenv e (B "MAIL_EXTRA_DOMAINS")) ","%char);
  ad_smtp : address_setting e (B "MAIL_SMTP_ADDR") (B ":25") (SMTPAddr c);
  ad_submission : address_setting e (B "MAIL_SUBMISSION_ADDR") (B ":587") (SubmissionAddr c);
  ad_submission_tls : address_setting e (B "MAIL_SUBMISSION_TLS_ADDR") (B ":465") (SubmissionTLSAddr c);
  ad_pop3 : address_setting e (B "MAIL_POP3_ADDR") (B ":110") (POP3Addr c);
  ad_pop3_tls : address_setting e (B "MAIL_POP3_TLS_ADDR") (B ":995") (POP3TLSAddr c);
  ad_imap : address_setting e (B "MAIL_IMAP_ADDR") (B ":143") (IMAPAddr c);
  ad_imap_tls : address_setting e (B "MAIL_IMAP_TLS_ADDR") (B ":993") (IMAPTLSAddr c);
  ad_limit : let raw := TrimSpace (Getenv e (B "MAIL_MAX_MESSAGE_BYTES")) in
    if decide (raw = []) then MaxMessageBytes c = 26214400 else ParseInt raw = Some (MaxMessageBytes c);
  ad_relay :
    match e !! B "MAIL_RELAY" with
    | None => Relay c = true
    | Some raw => ParseBool (TrimSpace raw) = Some (Relay c)
    end;
  ad_tls : TLSCertFile c = TrimSpace (Getenv e (B "MAIL_TLS_CERT_FILE")) ∧
    TLSKeyFile c = TrimSpace (Getenv e (B "MAIL_TLS_KEY_FILE"));
  ad_smarthost : SmarthostAddr c = TrimSpace (Getenv e (B "MAIL_SMARTHOST_ADDR")) ∧
    SmarthostUser c = Getenv e (B "MAIL_SMARTHOST_USER") ∧ SmarthostPassword c = Getenv e (B "MAIL_SMARTHOST_PASSWORD");
  ad_dkim : DKIMSelector c = TrimSpace (Getenv e (B "MAIL_DKIM_SELECTOR")) ∧
    DKIMKeyFile c = TrimSpace (Getenv e (B "MAIL_DKIM_KEY_FILE")) ∧
    let d := ToLower (TrimSpace (Getenv e (B "MAIL_DKIM_DOMAIN"))) in
    DKIMDomain c = if decide (d = [] ∧ DKIMKeyFile c ≠ []) then Domain c else d;
}.

Lemma addrFromEnv_setting e key fallback : address_setting e key fallback (addrFromEnv e key fallback).
Proof.
  unfold addrFromEnv. destruct (e !! key) as [raw |] eqn:He; [| by apply address_default].
  cbv zeta. case_decide as Hd; [eapply address_off; [done | by right] |].
  apply address_given; [done | | done]. intros Hn. apply Hd. rewrite Hn. by left.
Qed.

Lemma extra_domains_filter l extras :
  extra_domains l = inr extras → extras = filter (.≠ []) ((λ x, ToLower (TrimSpace x)) <$> l).
Proof.
  revert extras. induction l as [| x l IH]; intros extras; simpl; [by intros [= <-] |]. rewrite filter_cons.
  case_decide as Hx; [rewrite decide_False by (by intros []); apply IH |]. rewrite decide_True by done.
  destruct (MatchString _ _); cbn [negb]; [| done]. destruct (extra_domains l) as [e | es]; [done |].
  intros [= <-]. f_equal. by apply IH.
Qed.

Lemma max_message_bytes_setting e limit :
  max_message_bytes e = inr limit →
  let raw := TrimSpace (Getenv e (B "MAIL_MAX_MESSAGE_BYTES")) in
  if decide (raw = []) then limit = 26214400 else ParseInt raw = Some limit.
Proof.
  unfold max_message_bytes. cbv zeta. case_decide as Hr; [by intros [= <-] |].
  destruct (ParseInt _); [| done]. case_match; [done |]. by intros [= ->].
Qed.

Lemma relay_from_env_setting e relay :
  relay_from_env e = inr relay →
  match e !! B "MAIL_RELAY" with None => relay = true | Some raw => ParseBool (TrimSpace raw) = Some relay end.
Proof.
  unfold relay_from_env. destruct (e !! B "MAIL_RELAY"); [| by intros [= <-]].
  destruct (ParseBool _); [| done]. by intros [= ->].
Qed.

Lemma with_options_documented e extras limit relay dkim :
  extra_domains (Split (Getenv e (B "MAIL_EXTRA_DOMAINS")) ","%char) = inr extras →
  max_message_bytes e = inr limit → relay_from_env e = inr relay →
  (let c := env_config e in dkim = if decide (DKIMDomain c = [] ∧ DKIMKeyFile c ≠ []) then Domain c else DKIMDomain c) →
  as_documented e (with_options (with_hostname (env_config e)) extras limit relay dkim).
Proof.
  intros Hx Hm Hr Hd. apply extra_domains_filter in Hx. apply max_message_bytes_setting in Hm. apply relay_from_env_setting in Hr.
  cbn [env_config DKIMDomain DKIMKeyFile Domain] in Hd. unfold with_hostname.
  destruct (decide (Hostname (env_config e) = [])) as [Hh | Hh]; cbn [env_config Hostname] in Hh;
    constructor; try apply addrFromEnv_setting; try done.
  - cbn [with_options Hostname Domain env_config]. by rewrite decide_True.
  - cbn [with_options Hostname Domain env_config]. by rewrite decide_False.
Qed.

(** Why a configuration is refused: a variable is set to something unusable. *)
Definition refused (e : env) (err : config_error) : Prop :=
  let get k := TrimSpace (Getenv e k) in
  match err with
  | ErrMAIL_DOMAIN got => got = ToLower (get (B "MAIL_DOMAIN")) ∧ got ≠ [] ∧ ¬ domain_name got
  | ErrMAIL_EXTRA_DOMAINS d =>
      ∃ x, x ∈ Split (Getenv e (B "MAIL_EXTRA_DOMAINS")) ","%char ∧ d = ToLower (TrimSpace x) ∧ d ≠ [] ∧ ¬ domain_name d
  | ErrMAIL_MAX_MESSAGE_BYTES got =>
      got = get (B "MAIL_MAX_MESSAGE_BYTES") ∧ got ≠ [] ∧ ∀ n, ParseInt got = Some n → n <= 0
  | ErrMAIL_RELAY got => e !! B "MAIL_RELAY" = Some got ∧ ParseBool (TrimSpace got) = None
  | ErrTLSPair => ¬ (get (B "MAIL_TLS_CERT_FILE") = [] ↔ get (B "MAIL_TLS_KEY_FILE") = [])
  | ErrDKIMPair => ¬ (get (B "MAIL_DKIM_SELECTOR") = [] ↔ get (B "MAIL_DKIM_KEY_FILE") = [])
  | ErrTOKEN_VALID_SECS _ | ErrTokenSecret => False
  end.

Lemma max_message_bytes_spec e :
  match max_message_bytes e with
  | inr limit => 0 < limit < 2 ^ 63
  | inl err => refused e err
  end.
Proof.
  unfold max_message_bytes, refused. set (raw := TrimSpace _). cbv zeta. case_decide as Hr; [done |].
  destruct (ParseInt raw) as [n |] eqn:E.
  - destruct (n <=? 0) eqn:Hn.
    + split; [done |]. split; [done |]. intros m. rewrite E. intros [= <-]. lia.
    + apply ParseInt_range in E. unfold is_int64 in E. lia.
  - split; [done |]. split; [done |]. by rewrite E.
Qed.

Lemma pair_iff (x y : bytes) : negb (eqb (bool_decide (x = [])) (bool_decide (y = []))) = false ↔ (x = [] ↔ y = []).
Proof. do 2 case_bool_decide; simpl; naive_solver. Qed.

(** C32: [ConfigFromEnv] validates: with [MAIL_DOMAIN] unset or blank it
    returns a disabled configuration and never fails; otherwise it either
    returns a configuration in which the domain and every extra domain are
    well-formed domain names, the hostname is set, the size limit is a
    positive 63-bit number and certificate and DKIM settings are complete
    pairs, and every setting is what its variable says or the documented
    default (the ports 25, 587, 465, 110, 995, 143 and 993, which can be
    switched off, 25 MB, relaying on, the domain as hostname and for DKIM), or
    an error naming a variable whose value is present and unusable. *)
Theorem ConfigFromEnv_correct e :
  let blank := TrimSpace (Getenv e (B "MAIL_DOMAIN")) in
  match ConfigFromEnv e with
  | inr c => if Enabled c then config_ok c ∧ as_documented e c else ToLower blank = []
  | inl err => ToLower blank ≠ [] ∧ refused e err
  end.
Proof.
  cbv zeta. unfold ConfigFromEnv. cbv zeta.
  destruct (Enabled (env_config e)) eqn:He; cbn [negb].
  2: { rewrite He. unfold Enabled in He. apply bool_decide_eq_false in He. by apply dec_stable in He. }
  assert (ToLower (TrimSpace (Getenv e (B "MAIL_DOMAIN"))) ≠ []) as Hne by (by apply bool_decide_eq_true in He).
  destruct (MatchString _ _) eqn:Hd; cbn [negb].
  2: { split; [done |]. split; [done |]. split; [done |]. intros H%domainPattern_spec.
       change (ToLower (TrimSpace (Getenv e (B "MAIL_DOMAIN")))) with (Domain (env_config e)) in H. congruence. }
  apply domainPattern_spec in Hd. set (c := with_hostname (env_config e)).
  assert (Domain c = Domain (env_config e) ∧ Hostname c ≠ [] ∧ TLSCertFile c = TLSCertFile (env_config e) ∧
    TLSKeyFile c = TLSKeyFile (env_config e) ∧ DKIMSelector c = DKIMSelector (env_config e) ∧
    DKIMKeyFile c = DKIMKeyFile (env_config e)) as (Hcd & Hch & Hc1 & Hc2 & Hc3 & Hc4).
  { unfold c, with_hostname. case_decide as Hh; simpl; [| done]. apply bool_decide_eq_true in He. done. }
  destruct (extra_domains _) as [err | extras] eqn:Hx.
  { apply extra_domains_error in Hx as (x & Hx & Hd1 & Hd2 & ->). split; [done |]. by exists x. }
  pose proof Hx as Hx'. apply extra_domains_inv in Hx. pose proof (max_message_bytes_spec e) as Hm.
  destruct (max_message_bytes e) as [err | limit] eqn:Hm'; [done |].
  destruct (relay_from_env e) as [err | relay] eqn:Hr.
  { unfold relay_from_env in Hr. destruct (e !! B "MAIL_RELAY") as [raw |] eqn:E; [| done].
    destruct (ParseBool _) eqn:Hp; [done |]. injection Hr as <-. split; [done |]. by split. }
  destruct (negb _) eqn:Ht.
  { split; [done |]. apply not_false_iff_true in Ht. intros H. apply Ht, pair_iff. rewrite Hc1, Hc2. exact H. }
  apply pair_iff in Ht.
  assert (∀ d, (DKIMSelector c = [] ↔ DKIMKeyFile c = []) → (DKIMKeyFile c ≠ [] → d ≠ []) →
    config_ok (with_options c extras limit relay d)) as Hok.
  { intros d H1 H2. constructor; simpl; try done. by rewrite Hcd. }
  assert (∀ d, Enabled (with_options c extras limit relay d) = true) as Hen.
  { intros d. apply bool_decide_eq_true. simpl. by rewrite Hcd. }
  pose proof (λ d, with_options_documented e extras limit relay d Hx' Hm' Hr) as Hdoc.
  assert (DKIMDomain c = DKIMDomain (env_config e)) as Hc5 by (unfold c, with_hostname; by case_decide).
  case_decide as Hk1; [case_decide as Hk2 |].
  - split; [done |]. unfold refused. rewrite Hc3, Hc4 in Hk1, Hk2. simpl in Hk1, Hk2. tauto.
  - rewrite Hen. split.
    + apply Hok; [tauto |]. intros _. case_decide; [| done]. rewrite Hcd. done.
    + apply Hdoc. rewrite Hc5, Hcd. rewrite Hc4 in Hk2. cbv zeta.
      repeat case_decide; try done; tauto.
  - rewrite Hen. split.
    + apply Hok; [| tauto]. destruct (decide (DKIMSelector c = [])), (decide (DKIMKeyFile c = [])); tauto.
    + apply Hdoc. rewrite Hc5. rewrite Hc4 in Hk1. cbv zeta. case_decide; [| done]. tauto.
Qed.

End Spec.
