(* ===== verification/GoNet.v ===== *)
(** * GoNet: the parts of [net] and [time] that mail headers and addresses use *)

From S2P Require Import Prelude GoStrings Strconv.

(** ** Host and port *)

(** [net.SplitHostPort]; [None] is any of its errors. *)
Definition SplitHostPort (hostport : bytes) : option (bytes * bytes) :=
  match LastIndex hostport (B ":") with
  | None => None
  | Some i =>
      let port := drop (S i) hostport in
      let check (host rest1 rest2 : bytes) :=
        if ContainsByte rest1 "["%char || ContainsByte rest2 "]"%char then None else Some (host, port) in
      if HasPrefix hostport (B "[") then
        match IndexByte hostport "]"%char with
        | None => None
        | Some e =>
            if (S e =? i)%nat then check (take (e - 1) (drop 1 hostport)) (drop 1 hostport) (drop (S e) hostport)
            else None
        end
      else
        let host := take i hostport in
        if ContainsByte host ":"%char then None else check host hostport hostport
  end.

(** [net.JoinHostPort] *)
Definition JoinHostPort (host port : bytes) : bytes :=
  if ContainsByte host ":"%char then B "[" ++ host ++ B "]:" ++ port else host ++ B ":" ++ port.

(** ** Dates *)

(** The local time zone: seconds east of Greenwich at an instant. *)
Class Zone := { zone_offset : Z → Z }.

(** The civil date of a day number counted from 1970-01-01, in the proleptic
    Gregorian calendar: eras of 400 years that start on the first of March. *)
Definition civil_from_days (days : Z) : Z * Z * Z :=
  let z := days + 719468 in
  let era := z / 146097 in
  let doe := z mod 146097 in
  let yoe := (doe - doe / 1460 + doe / 36524 - doe / 146096) / 365 in
  let doy := doe - (365 * yoe + yoe / 4 - yoe / 100) in
  let mp := (5 * doy + 2) / 153 in
  let d := doy - (153 * mp + 2) / 5 + 1 in
  let m := if mp <? 10 then mp + 3 else mp - 9 in
  (yoe + era * 400 + (if m <=? 2 then 1 else 0), m, d).

Definition weekday_names : list bytes := [B "Thu"; B "Fri"; B "Sat"; B "Sun"; B "Mon"; B "Tue"; B "Wed"].
Definition month_names : list bytes :=
  [B "Jan"; B "Feb"; B "Mar"; B "Apr"; B "May"; B "Jun"; B "Jul"; B "Aug"; B "Sep"; B "Oct"; B "Nov"; B "Dec"].

Definition two_digits (n : Z) : bytes := zero_pad 2 (show 10 n).

(** [t.Format(time.RFC1123Z)] of an instant in nanoseconds, in a zone that is
    [offset] seconds east of Greenwich. *)
Definition Format_RFC1123Z (offset t : Z) : bytes :=
  let secs := t / 10 ^ 9 + offset in
  let days := secs / 86400 in
  let s := secs mod 86400 in
  let '(y, m, d) := civil_from_days days in
  default [] (weekday_names !! Z.to_nat (days mod 7)) ++ B ", " ++ two_digits d ++ B " " ++
  default [] (month_names !! Z.to_nat (m - 1)) ++ B " " ++ zero_pad 4 (show 10 y) ++ B " " ++
  two_digits (s / 3600) ++ B ":" ++ two_digits (s / 60 mod 60) ++ B ":" ++ two_digits (s mod 60) ++ B " " ++
  (if offset <? 0 then B "-" else B "+") ++ two_digits (Z.abs offset / 3600) ++ two_digits (Z.abs offset / 60 mod 60).

Example format_new_year :
  Format_RFC1123Z 0 (1704067200 * 10 ^ 9) = B "Mon, 01 Jan 2024 00:00:00 +0000".
Proof. reflexivity. Qed.
Example format_leap_day :
  Format_RFC1123Z (-12600) (1709251199 * 10 ^ 9) = B "Thu, 29 Feb 2024 20:29:59 -0330".
Proof. reflexivity. Qed.
Example split_ipv6 : SplitHostPort (B "[::1]:25") = Some (B "::1", B "25").
Proof. reflexivity. Qed.
Example split_no_port : SplitHostPort (B "mail.example.org") = None.
Proof. reflexivity. Qed.
