(* ===== verification/MailServer.v ===== *)
(** * MailServer: the server that owns the protocols ([mail/server.go]) and the
    login of mail clients ([login] of [mail/smtp.go]) *)

From S2P Require Import Prelude GoStrings Strconv World Accounts Flags MailStore Token Config.

(** What [New] assembles; the store and the accounts are the [Accounts]
    instance. *)
Record Server := NewServer {
  cfg : Config;
  tls : option tls_Config;
  dkim : option private_key;
}.

Section Server.
Context {U : UnicodeTables} {Acc : Accounts}.

(** [raw] is what reading the DKIM key file gave. *)
Definition New {K : KeyParsers} (c : Config) (dataDir : path) (raw : result bytes) : result Server :=
  match tlsConfig c with
  | Err e => Err e
  | Ok tls =>
      match dkimSigner c raw with
      | Err e => Err e
      | Ok signer =>
          let c := if decide (QueueDir c = []) then
                     {| Domain := Domain c; ExtraDomains := ExtraDomains c; Hostname := Hostname c;
                        SMTPAddr := SMTPAddr c; SubmissionAddr := SubmissionAddr c;
                        SubmissionTLSAddr := SubmissionTLSAddr c; POP3Addr := POP3Addr c;
                        POP3TLSAddr := POP3TLSAddr c; IMAPAddr := IMAPAddr c; IMAPTLSAddr := IMAPTLSAddr c;
                        TLSCertFile := TLSCertFile c; TLSKeyFile := TLSKeyFile c;
                        MaxMessageBytes := MaxMessageBytes c; Relay := Relay c;
                        SmarthostAddr := SmarthostAddr c; SmarthostUser := SmarthostUser c;
                        SmarthostPassword := SmarthostPassword c; DKIMDomain := DKIMDomain c;
                        DKIMSelector := DKIMSelector c; DKIMKeyFile := DKIMKeyFile c;
                        QueueDir := Join dataDir [B "queue"] |}
                   else c in
          Ok (NewServer c tls signer)
      end
  end.

(** [s.isLocalDomain] *)
Definition local_domain (srv : Server) (domain : bytes) : bool :=
  isLocalDomain (Domain (cfg srv)) (ExtraDomains (cfg srv)) domain.

(** The name [login] authenticates: a mailbox address of this server is cut
    to its local part. *)
Definition login_name (srv : Server) (username : bytes) : bytes :=
  match SplitAddress username with
  | Some (local, domain) => if local_domain srv domain then local else username
  | None => username
  end.

Definition mail_login (srv : Server) (username password : bytes) : M (option Account) :=
  accounts_Authenticate (login_name srv username) password.

End Server.
