(* ===== verification/ServerFixtures.v ===== *)
(** * ServerFixtures: concrete mail servers for the witnesses *)

From S2P Require Import Prelude GoStrings Strconv World Accounts Fixtures Token Config MailServer.

(** A server for two domains, without and with a certificate. *)
Definition mail_config : Config :=
  match ConfigFromEnv {[B "MAIL_DOMAIN" := B "example.org"; B "MAIL_EXTRA_DOMAINS" := B "example.net"]} with
  | inr c => c
  | inl _ => env_config ∅
  end.
Definition plain_server : Server := NewServer mail_config None None.
Definition secure_server : Server := NewServer mail_config (Some (TLSConfig (B "cert") (B "example.org"))) None.

(** A server that sends everything through a smarthost. *)
Definition smart_config : Config :=
  match ConfigFromEnv {[B "MAIL_DOMAIN" := B "example.org"; B "MAIL_SMARTHOST_ADDR" := B "smtp.example.net:587"]} with
  | inr c => c
  | inl _ => env_config ∅
  end.
Definition smart_server : Server := NewServer smart_config None None.

(** The first server with its queue directory in place. *)
#[export] Instance no_keys : KeyParsers := {|
  LoadX509KeyPair _ _ := None;
  pem_Decode _ := None;
  ParsePKCS1PrivateKey _ := None;
  ParsePKCS8PrivateKey _ := None;
|}.
Definition queue_server : Server :=
  match New mail_config [B "data"] (Err os_ErrNotExist) with Ok srv => srv | Err _ => plain_server end.
