(* ===== verification/Listeners.v ===== *)
(** * Listeners: starting the mail server ([mail/server.go], [startMail] of
    [main.go]); how it stops is in [Process]

    Binding an address is up to the operating system: [net_Listen] gives the
    address actually bound, or the text of its error.  Protocol servers are represented by
    the settings they are started with. *)

From S2P Require Import Prelude GoStrings Strconv World Accounts Flags MailStore Token Config MailServer.

Class Sockets := { net_Listen : bytes → bytes + bytes }.

(** The settings of the protocol server behind a listener. *)
Inductive service :=
| SmtpServer (submission : bool) (srv_Domain : bytes) (srv_MaxMessageBytes srv_MaxRecipients : Z)
    (srv_TLSConfig : option tls_Config) (AllowInsecureAuth : bool)
| Pop3Server
| ImapServer (srv_TLSConfig : option tls_Config) (AllowInsecureAuth : bool).

Record listener := Listener { l_role : bytes; l_bound : bytes; l_implicitTLS : bool; l_open : bool }.

(** The mutable half of the server: [closed], [listeners], [addrs], the
    protocol servers with their listener, and whether the queue worker runs. *)
Record running := Running {
  closed : bool;
  listeners : list listener;
  addrs : gmap bytes bytes;
  servers : list (bytes * service);
  queue_running : bool;
}.
Definition not_started : running := Running false [] ∅ [] false.

Section Listeners.
Context {So : Sockets} (srv : Server).

Abbreviation R := (ST running).

Definition Addr (role : bytes) (r : running) : bytes := default [] (addrs r !! role).

Definition listen (role addr : bytes) (implicitTLS : bool) : R (result (option listener)) :=
  if decide (addr = []) then mret (Ok None)
  else if implicitTLS && bool_decide (tls srv = None) then mret (Ok None)
  else match net_Listen addr with
       | inl text => mret (Err (ErrText (B "listen " ++ addr ++ B ": " ++ text)))
       | inr bound =>
           let l := Listener role bound implicitTLS true in
           _ ← modify (λ r, Running (closed r) (listeners r ++ [l]) (<[role := bound]> (addrs r)) (servers r) (queue_running r));
           mret (Ok (Some l))
       end.

Definition add_server (role : bytes) (s : service) : R unit :=
  modify (λ r, Running (closed r) (listeners r) (addrs r) (servers r ++ [(role, s)]) (queue_running r)).

(** A listener and, if it was opened, its server. *)
Definition start_service (role addr : bytes) (implicitTLS : bool) (s : service) : R (result unit) :=
  l ←? listen role addr implicitTLS;
  match l with
  | None => mret (Ok tt)
  | Some _ => _ ← add_server role s; mret (Ok tt)
  end.

Definition startSMTP (role addr : bytes) (submission implicitTLS : bool) : R (result unit) :=
  start_service role addr implicitTLS
    (SmtpServer submission (Hostname (cfg srv)) (MaxMessageBytes (cfg srv)) 100 (tls srv) (bool_decide (tls srv = None))).
Definition startPOP3 (role addr : bytes) (implicitTLS : bool) : R (result unit) :=
  start_service role addr implicitTLS Pop3Server.
Definition startIMAP (role addr : bytes) (implicitTLS : bool) : R (result unit) :=
  start_service role addr implicitTLS (ImapServer (tls srv) (bool_decide (tls srv = None))).

Definition Start : R (result unit) :=
  let c := cfg srv in
  _ ←? startSMTP (B "smtp") (SMTPAddr c) false false;
  _ ←? startSMTP (B "submission") (SubmissionAddr c) true false;
  _ ←? startSMTP (B "submission-tls") (SubmissionTLSAddr c) true true;
  _ ←? startPOP3 (B "pop3") (POP3Addr c) false;
  _ ←? startPOP3 (B "pop3-tls") (POP3TLSAddr c) true;
  _ ←? startIMAP (B "imap") (IMAPAddr c) false;
  _ ←? startIMAP (B "imap-tls") (IMAPTLSAddr c) true;
  _ ← modify (λ r, Running (closed r) (listeners r) (addrs r) (servers r) (queue_running r || Relay c));
  mret (Ok tt).

End Listeners.

(** [startMail]: no server without a domain. *)
Definition startMail {K : KeyParsers} {So : Sockets} (c : Config) (dataDir : path) (raw : result bytes) :
    result (option (Server * running)) :=
  if negb (Enabled c) then Ok None
  else match New c dataDir raw with
       | Err e => Err e
       | Ok srv =>
           match Start srv not_started with
           | (Err e, _) => Err e
           | (Ok _, r) => Ok (Some (srv, r))
           end
       end.
