(* ===== verification/ListenersSpec.v ===== *)
(** * ListenersSpec: which ports are open *)

From S2P Require Import Prelude GoStrings Strconv World Accounts Flags MailStore Fixtures Token Config MailServer ServerFixtures Listeners.

Section Spec.
Context {So : Sockets} (srv : Server).

(** What the configuration asks for. *)
Record port := Port { pt_role : bytes; pt_addr : bytes; pt_implicitTLS : bool; pt_service : service }.

Definition smtp_service (submission : bool) : service :=
  SmtpServer submission (Hostname (cfg srv)) (MaxMessageBytes (cfg srv)) 100 (tls srv) (bool_decide (tls srv = None)).
Definition imap_service : service := ImapServer (tls srv) (bool_decide (tls srv = None)).

Definition ports : list port :=
  [Port (B "smtp") (SMTPAddr (cfg srv)) false (smtp_service false);
   Port (B "submission") (SubmissionAddr (cfg srv)) false (smtp_service true);
   Port (B "submission-tls") (SubmissionTLSAddr (cfg srv)) true (smtp_service true);
   Port (B "pop3") (POP3Addr (cfg srv)) false Pop3Server;
   Port (B "pop3-tls") (POP3TLSAddr (cfg srv)) true Pop3Server;
   Port (B "imap") (IMAPAddr (cfg srv)) false imap_service;
   Port (B "imap-tls") (IMAPTLSAddr (cfg srv)) true imap_service].

(** A port that is to be opened: it has an address, and a certificate if it
    needs one. *)
Definition enabled (p : port) : Prop := pt_addr p ≠ [] ∧ (pt_implicitTLS p = true → tls srv ≠ None).
#[export] Instance enabled_dec p : Decision (enabled p).
Proof. unfold enabled. apply _. Defined.

(** Starting one port after the other, up to the first that fails. *)
Fixpoint start_ports (ps : list port) : ST running (result unit) :=
  match ps with
  | [] => mret (Ok tt)
  | p :: ps => _ ←? start_service srv (pt_role p) (pt_addr p) (pt_implicitTLS p) (pt_service p); start_ports ps
  end.

Definition run_queue : ST running unit :=
  modify (λ r, Running (closed r) (listeners r) (addrs r) (servers r) (queue_running r || Relay (cfg srv))).

Lemma Start_ports r :
  Start srv r =
    match start_ports ports r with
    | (Ok _, r) => (Ok tt, (run_queue r).2)
    | (Err e, r) => (Err e, r)
    end.
Proof.
  unfold Start, startSMTP, startPOP3, startIMAP, ports, smtp_service, imap_service. cbn [start_ports pt_role pt_addr pt_implicitTLS pt_service].
  unfold try_bind, mbind, st_bind.
  repeat (match goal with |- context [start_service srv ?a ?b ?c ?d ?r] => destruct (start_service srv a b c d r) as [[[] | ?] ?] end;
    [| reflexivity]).
  reflexivity.
Qed.

(** The server while the ports [ps] are open at the addresses [bs]. *)
Definition opened (ps : list port) (bs : list bytes) : running :=
  Running false (zip_with (λ p b, Listener (pt_role p) b (pt_implicitTLS p) true) ps bs)
    (foldl (λ m pb, <[pt_role pb.1 := pb.2]> m) ∅ (zip ps bs))
    ((λ p, (pt_role p, pt_service p)) <$> ps) false.

Definition bound_to (p : port) (b : bytes) : Prop := net_Listen (pt_addr p) = inr b.

Lemma start_port ps bs p :
  length ps = length bs →
  start_service srv (pt_role p) (pt_addr p) (pt_implicitTLS p) (pt_service p) (opened ps bs) =
    if decide (enabled p) then
      match net_Listen (pt_addr p) with
      | inl text => (Err (ErrText (B "listen " ++ pt_addr p ++ B ": " ++ text)), opened ps bs)
      | inr b => (Ok tt, opened (ps ++ [p]) (bs ++ [b]))
      end
    else (Ok tt, opened ps bs).
Proof.
  intros Hlen. unfold start_service, listen. destruct (decide (pt_addr p = [])) as [Ha | Ha].
  { rewrite decide_False by (intros [? _]; done). done. }
  destruct (decide (pt_implicitTLS p = true ∧ tls srv = None)) as [[Hi Ht] | Hn].
  - rewrite decide_False by (intros [_ Hx]; by apply Hx). rewrite Hi, bool_decide_eq_true_2 by done. done.
  - rewrite decide_True.
    2: { split; [done |]. intros Hi Ht. by apply Hn. }
    assert (pt_implicitTLS p && bool_decide (tls srv = None) = false) as ->.
    { destruct (pt_implicitTLS p); [| done]. apply bool_decide_eq_false_2. intros Ht. by apply Hn. }
    destruct (net_Listen (pt_addr p)) as [text | b]; [done |]. unfold try_bind, mbind, st_bind, modify, add_server, mret, st_ret. simpl.
    f_equal. unfold opened. cbn [closed listeners addrs servers queue_running]. f_equal.
    + rewrite zip_with_app by done. done.
    + rewrite zip_with_app by done. by rewrite foldl_app.
    + by rewrite fmap_app.
Qed.

(** Either every enabled port is opened, or the first that cannot be bound is
    reported and those before it stay open. *)
Lemma start_ports_spec ps qs bs :
  Forall2 bound_to qs bs →
  (∃ cs, Forall2 bound_to (filter enabled ps) cs ∧
    start_ports ps (opened qs bs) = (Ok tt, opened (qs ++ filter enabled ps) (bs ++ cs))) ∨
  (∃ pre p post cs text, filter enabled ps = pre ++ p :: post ∧ Forall2 bound_to pre cs ∧
    net_Listen (pt_addr p) = inl text ∧
    start_ports ps (opened qs bs) = (Err (ErrText (B "listen " ++ pt_addr p ++ B ": " ++ text)), opened (qs ++ pre) (bs ++ cs))).
Proof.
  revert qs bs. induction ps as [| p ps IH]; intros qs bs Hq.
  { left. exists []. split; [constructor |]. by rewrite !app_nil_r. }
  pose proof (start_port qs bs p (Forall2_length _ _ _ Hq)) as Hs. cbn [start_ports]. rewrite filter_cons.
  destruct (decide (enabled p)) as [He | He].
  - destruct (net_Listen (pt_addr p)) as [text | b] eqn:Hl.
    + right. exists [], p, (filter enabled ps), [], text. split; [done |]. split; [constructor |]. split; [done |].
      rewrite (try_bind_err _ _ _ _ _ Hs). by rewrite !app_nil_r.
    + rewrite (try_bind_ok _ _ _ _ _ Hs). destruct (IH (qs ++ [p]) (bs ++ [b])) as [(cs & H1 & H2) | (pre & x & post & cs & text & H1 & H2 & H3 & H4)].
      * by apply Forall2_app; [| constructor].
      * left. exists (b :: cs). split; [by constructor |]. rewrite H2. by rewrite <- !app_assoc.
      * right. exists (p :: pre), x, post, (b :: cs), text. split; [by rewrite H1 |]. split; [by constructor |]. split; [done |].
        rewrite H4. by rewrite <- !app_assoc.
  - rewrite (try_bind_ok _ _ _ _ _ Hs). by apply IH.
Qed.

(** No port is served in clear text where the configuration promises TLS, and
    clear-text passwords are allowed only without a certificate. *)
Definition policy (r : running) : Prop :=
  (∀ l, l ∈ listeners r → l_implicitTLS l = true → tls srv ≠ None) ∧
  (∀ role sub d n k t insecure, (role, SmtpServer sub d n k t insecure) ∈ servers r → insecure = true → tls srv = None) ∧
  (∀ role t insecure, (role, ImapServer t insecure) ∈ servers r → insecure = true → tls srv = None).

Lemma ports_insecure :
  Forall (λ p, match pt_service p with
               | SmtpServer _ _ _ _ _ i | ImapServer _ i => i = bool_decide (tls srv = None)
               | Pop3Server => True
               end) ports.
Proof. repeat constructor. Qed.

Lemma opened_listener ps bs l :
  l ∈ zip_with (λ p b, Listener (pt_role p) b (pt_implicitTLS p) true) ps bs →
  ∃ p, p ∈ ps ∧ l_implicitTLS l = pt_implicitTLS p.
Proof.
  revert bs. induction ps as [| p ps IH]; intros [| b bs]; simpl; try (by intros ?%elem_of_nil).
  intros [-> | Hl]%elem_of_cons; [exists p; split; [by left | done] |].
  destruct (IH bs Hl) as (q & Hq & Hlq). exists q. split; [by right | done].
Qed.

Lemma opened_policy ps bs : (∀ p, p ∈ ps → p ∈ filter enabled ports) → policy (opened ps bs).
Proof.
  intros Hps. split; [| split].
  - cbn [listeners opened]. intros l Hl Hi. destruct (opened_listener ps bs l Hl) as (p & Hp & Hlp).
    apply Hps, list_elem_of_filter in Hp as [[_ He] _]. apply He. congruence.
  - cbn [servers opened]. intros role sub d n k t insecure (p & Heq & Hp)%list_elem_of_fmap Hi.
    apply Hps in Hp. apply list_elem_of_filter in Hp as [_ Hp]. pose proof ports_insecure as Hall.
    rewrite Forall_forall in Hall. specialize (Hall p Hp). injection Heq as _ Heq. rewrite <- Heq in Hall. simpl in Hall.
    rewrite Hall in Hi. by apply bool_decide_eq_true in Hi.
  - cbn [servers opened]. intros role t insecure (p & Heq & Hp)%list_elem_of_fmap Hi.
    apply Hps in Hp. apply list_elem_of_filter in Hp as [_ Hp]. pose proof ports_insecure as Hall.
    rewrite Forall_forall in Hall. specialize (Hall p Hp). injection Heq as _ Heq. rewrite <- Heq in Hall. simpl in Hall.
    rewrite Hall in Hi. by apply bool_decide_eq_true in Hi.
Qed.

(** C39: Starting.  [Start] opens exactly the ports the configuration enables,
    in order, each bound to its address and recorded under its role, with the
    protocol server behind it and the queue worker if relaying is on; or it
    stops at the first that cannot be bound and names it, with the ports
    before it open.  No implicit-TLS port is opened without a certificate and
    clear-text passwords are accepted only without one. *)
Theorem Start_correct :
  let '(x, r) := Start srv not_started in
  policy r ∧ closed r = false ∧
  match x with
  | Ok _ =>
      ∃ bs, Forall2 bound_to (filter enabled ports) bs ∧
        listeners r = zip_with (λ p b, Listener (pt_role p) b (pt_implicitTLS p) true) (filter enabled ports) bs ∧
        addrs r = foldl (λ m pb, <[pt_role pb.1 := pb.2]> m) ∅ (zip (filter enabled ports) bs) ∧
        servers r = (λ p, (pt_role p, pt_service p)) <$> filter enabled ports ∧
        queue_running r = Relay (cfg srv)
  | Err e =>
      ∃ pre p post bs text, filter enabled ports = pre ++ p :: post ∧ Forall2 bound_to pre bs ∧
        net_Listen (pt_addr p) = inl text ∧ e = ErrText (B "listen " ++ pt_addr p ++ B ": " ++ text) ∧
        listeners r = zip_with (λ p b, Listener (pt_role p) b (pt_implicitTLS p) true) pre bs ∧
        servers r = ((λ p, (pt_role p, pt_service p)) <$> pre) ∧ queue_running r = false
  end.
Proof.
  rewrite Start_ports. change not_started with (opened [] []).
  destruct (start_ports_spec ports [] [] ltac:(constructor)) as [(cs & H1 & ->) | (pre & p & post & cs & text & H1 & H2 & H3 & ->)].
  - cbn [app run_queue modify snd]. split; [by apply (opened_policy (filter enabled ports) cs) |]. split; [done |].
    by exists cs.
  - cbn [app]. split.
    { apply opened_policy. intros q Hq. rewrite H1. apply elem_of_app. by left. }
    split; [done |]. by exists pre, p, post, cs, text.
Qed.
End Spec.
