(* ===== verification/Service.v ===== *)
(** * Service: the whole program ([main.go])

    Start-up reads every setting and brings up the mail server; afterwards a
    request is answered by the handler its route names, with the store, the
    token issuer and the schema of the start-up.  [SetTrustedProxies] belongs
    to gin. *)

From S2P Require Import Prelude GoStrings Strconv Crypto World Accounts Token Profile Totp Flags MailStore Config MailServer Listeners.

Class Engine := { SetTrustedProxies : option (list bytes) → option error }.

(** What a running program holds. *)
Record application := Application {
  app_store : UserStore;
  app_issuer : TokenIssuer;
  app_schema : ProfileSchema;
  app_mailConfig : Config;
  app_mailServer : option (Server * running);
}.

(** Why [main] gave up. *)
Inductive startup_error :=
| TokenConfiguration (e : config_error)
| ProfileKeys (e : schemaError)
| MailConfiguration (e : config_error)
| MailStart (e : error)
| TrustedProxies (e : error).

(** The routes with the bound bodies ([None]: not a valid document). *)
Inductive request :=
| GetHealth
| PostRegister (body : option registerRequest)
| PostLogin (body : option loginRequest)
| PostLoginTotp (body : option totpLoginRequest)
| PostLoginRecoveryCode (body : option recoveryCodeLoginRequest)
| PostTotpSign (body : option totpSignRequest)
| PostTotpVerify (body : option totpVerifyRequest)
| PostTotpUnsign (body : option totpUnsignRequest)
| PostProfileEdit (body : option profileEditRequest)
| PostProfileView (body : option profileViewRequest).

Section Service.
Context {U : UnicodeTables} {Bc : Bcrypt} {Ap : AddressParser} {Ot : OTP} {K : KeyParsers} {So : Sockets} {En : Engine}.

(** A handler that runs in one piece. *)
Definition at_once (m : M response) : proc := Atomic (λ w, let '(rsp, w') := m w in (Respond rsp, w')).

(** [main] up to the routes; [dkim] is what reading the DKIM key gave. *)
Definition startup (e : env) (dkim : result bytes) : M (startup_error + application) :=
  let dataDir := [B "data"] in
  let store := NewUserStore (Join dataDir [B "user"]) in
  issuer ← tokenIssuerFromEnv e;
  mret (match issuer with
  | inl err => inl (TokenConfiguration err)
  | inr issuer =>
      match ParseProfileSchema (Getenv e (B "ALLOWED_PROFILE_KEY")) with
      | inl err => inl (ProfileKeys err)
      | inr schema =>
          match ConfigFromEnv e with
          | inl err => inl (MailConfiguration err)
          | inr mailConfig =>
              match startMail mailConfig dataDir dkim with
              | Err err => inl (MailStart err)
              | Ok mailServer =>
                  match SetTrustedProxies (configureTrustedProxies e) with
                  | Some err => inl (TrustedProxies err)
                  | None => inr (Application store issuer schema mailConfig mailServer)
                  end
              end
          end
      end
  end).

Definition route (app : application) (r : request) : proc :=
  let s := app_store app in
  match r with
  | GetHealth => Respond (reply 200)
  | PostRegister body => at_once (RegisterHandler s (Domain (app_mailConfig app)) body)
  | PostLogin body => at_once (LoginHandler s (app_issuer app) body)
  | PostLoginTotp body => TotpLoginHandler s (app_issuer app) body
  | PostLoginRecoveryCode body => RecoveryCodeLoginHandler s (app_issuer app) body
  | PostTotpSign body => TotpSignHandler s body
  | PostTotpVerify body => TotpVerifyHandler s body
  | PostTotpUnsign body => TotpUnsignHandler s body
  | PostProfileEdit body => at_once (ProfileEditHandler s (app_issuer app) (app_schema app) body)
  | PostProfileView body => at_once (ProfileViewHandler s (app_issuer app) (app_schema app) body)
  end.

(** One request alone. *)
Definition answer (app : application) (r : request) : M response := serve (route app r).

End Service.
