(* ===== verification/ServiceSpec.v ===== *)
(** * ServiceSpec: the program as a whole

    What a successful start-up guarantees, and the life of an account over the
    routes: register, log in, edit, view. *)

From S2P Require Import Prelude GoStrings Strconv Crypto World WorldFacts Accounts AccountsFacts Token Profile Totp Flags MailStore.
From S2P Require Import Fixtures AccountsSpec TokenSpec ProfileSpec Config ConfigSpec MailServer ServerFixtures Listeners Service TotpSpec.

Section Spec.
Context {U : UnicodeTables} {Bc : Bcrypt} {Ap : AddressParser} {Ot : OTP} {K : KeyParsers} {So : Sockets} {En : Engine}.

(** ** Start-up *)

Lemma issuer_window e w t w' : tokenIssuerFromEnv e w = (inr t, w') → 0 < validSecs t ∧ secret t ≠ [].
Proof.
  unfold tokenIssuerFromEnv. cbv zeta. intros H.
  destruct (if decide (TrimSpace _ = []) then _ else _) as [err | v] eqn:Hx in H; [by st_inv |].
  assert (0 < v) as Hv.
  { clear H. revert Hx. case_decide; [by intros [= <-] |]. destruct (ParseInt _) as [n |]; [| done].
    destruct (n <=? 0) eqn:Hn; [done |]. intros [= <-]. lia. }
  clear Hx.
  case_decide as Hs.
  - apply st_bind_inv in H as (r & w1 & Hr & H). destruct r as [secret | err]; [| by st_inv]. st_inv. simplify_eq. split; [exact Hv |].
    unfold rand_Read in Hr. case_decide; [done |]. injection Hr as <- _. cbn [Token.secret]. intros Hx.
    apply (f_equal length) in Hx. rewrite length_take in Hx. cbn [length] in Hx. lia.
  - st_inv. simplify_eq. split; [exact Hv |]. cbn [Token.secret]. intros Hx. by rewrite Hx in Hs.
Qed.

(** What [main] relies on once it serves requests. *)
Record started (e : env) (app : application) : Prop := {
  st_window : 0 < validSecs (app_issuer app);
  st_secret : secret (app_issuer app) ≠ [];
  st_schema : schema_wf (app_schema app);
  st_store : app_store app = NewUserStore (Join [B "data"] [B "user"]);
  st_mail : app_mailServer app = None ↔ Domain (app_mailConfig app) = [];
}.

Lemma startup_started e dkim w app w' : startup e dkim w = (inr app, w') → started e app.
Proof.
  unfold startup. cbv zeta. intros (r & w1 & Hi & H)%st_bind_inv. destruct r as [err | issuer]; [by st_inv |].
  apply issuer_window in Hi as [Hw Hs]. destruct (ParseProfileSchema _) as [err | schema] eqn:Hp; [by st_inv |].
  apply parse_entries_inv in Hp as [Hwf _]; [| apply builtin_wf].
  destruct (ConfigFromEnv e) as [err | c]; [by st_inv |]. destruct (startMail c _ dkim) as [server | err] eqn:Hm; [| by st_inv].
  destruct (SetTrustedProxies _); [by st_inv |]. st_inv. injection H as ->. constructor; try done. cbn [app_mailServer app_mailConfig].
  revert Hm. unfold startMail, Enabled. destruct (bool_decide (Domain c ≠ [])) eqn:Hd; cbn [negb].
  - apply bool_decide_eq_true in Hd. destruct (New _ _ _) as [srv | err]; [| done].
    destruct (Start srv not_started) as [[[] | err] r]; [| done]. intros [= <-]. by split; intros.
  - apply bool_decide_eq_false, dec_stable in Hd. intros [= <-]. done.
Qed.

(** ** The life of an account *)

Lemma answer_at_once (app : application) r m w : route app r = at_once m → answer app r w = m w.
Proof. unfold answer. intros ->. unfold at_once. simpl. by destruct (m w). Qed.

(** A fresh registration on a healthy system. *)
Definition fresh (m : gmap Z user) (req : registerRequest) : Prop :=
  ∀ uid u, m !! uid = Some u → ID u ≠ rr_ID req ∧ EqualFold (Email u) (rr_Email req) = false.

Lemma RegisterHandler_fresh s w m domain req :
  store_ok s w m → uids_bounded m → validateRegister req = 0 → healthy w → (16 <= length (w_rand w))%nat →
  (∀ salt, is_Some (GenerateFromPassword salt (rr_Password req))) → fresh m req →
  ∃ uid hash rsp w', RegisterHandler s domain (Some req) w = (rsp, w') ∧ status rsp = 201 ∧
    json_field (B "UID") (fields rsp) = Some (JNumber uid 0) ∧ healthy w' ∧ w_now w' = w_now w ∧
    CompareHashAndPassword hash (rr_Password req) = true ∧
    store_ok s w' (<[uid := new_user req uid hash (w_now w)]> m).
Proof.
  intros Hst Hb Hv Hh Hr Hg Hfr. pose proof Hst as [Hrep Hok Hun].
  pose proof (validateRegister_0 _ Hv) as (Hid & _ & Hem & _).
  destruct (register_healthy s w m req) as (uid & code & w' & Hreg & Hh'); [done .. |].
  unfold RegisterHandler. rewrite Hv, decide_False by lia. rewrite (st_bind_eq _ _ _ _ _ Hreg).
  eapply register_inv in Hreg as [Hn [(-> & hash & Hc & Hrep' & Hok' & Hun' & _) | (_ & _ & [(_ & i & u & Hm & Hx) | (_ & i & u & Hm & Hx)])]];
    [| by destruct (Hfr _ _ Hm) | destruct (Hfr _ _ Hm); congruence | done ..].
  rewrite decide_False by (intros H; done). exists uid, hash. eexists _, w'. split; [reflexivity |].
  case_decide; by repeat (split; [done |]).
Qed.

Lemma LoginHandler_fits s w m issuer query password uid u :
  store_ok s w m → healthy w → m !! uid = Some u → credentials query password u = true →
  query ≠ [] → password ≠ [] →
  LoginHandler s issuer (Some (LoginRequest query password)) w =
    (JSON 200 [gin_status 200; (B "token", JString (IssueAt issuer (time_Unix (w_now w)) (ID u)))], w).
Proof.
  intros [Hrep Hok Hun] Hh Hm Hc Hq Hp. unfold LoginHandler. cbn [lr_Query lr_Password].
  rewrite decide_False by (by intros [? | ?]).
  assert (login s query password w = (Some (ID u), w)) as Hl.
  { rewrite login_verifyPassword, (verifyPassword_healthy _ _ m) by done.
    assert (List.find (credentials query password) (listing s (w_fs w)) = Some u) as ->; [| done].
    eapply find_credentials; eauto. }
  by rewrite (st_bind_eq _ _ _ _ _ Hl).
Qed.

Lemma owner_sees s w m issuer schema uid u token :
  store_ok s w m → healthy w → m !! uid = Some u → token ≠ [] →
  VerifyAt issuer (time_Unix (w_now w)) token = Some (ID u) → typed schema u →
  ∃ shown, ProfileViewHandler s issuer schema (Some (ProfileViewRequest uid token)) w =
      (JSON 200 [gin_status 200; (B "content", JObject shown)], w) ∧
    ∀ key, json_field key shown = default ∅ (Profile u) !! key.
Proof.
  intros [Hrep Hok Hun] Hh Hm Ht Hv Hty. unfold ProfileViewHandler. cbn [pv_UID pv_Token].
  rewrite (st_bind_eq _ _ _ _ _ (readUser_healthy _ _ _ uid Hrep Hok Hh)), Hm.
  rewrite (st_bind_eq _ _ _ _ _ (owner_view_eq _ _ _ _)), bool_decide_true by done.
  eexists. split; [reflexivity |]. intros key. apply option_eq. intros v. rewrite json_object_filter.
  split; [by intros [] |]. intros Hk. split; [done |]. unfold visible. by destruct (Hty _ _ Hk) as (field & -> & _).
Qed.

(** C13: The life of an account, from start-up on.  After any successful
    start-up, on a healthy system with entropy, a valid registration with an
    unused ID and e-mail address is answered 201 with a UID; the password
    then logs in with a token; with that token any acceptable edit of the
    profile is confirmed; and the owner sees under the same token exactly the
    profile of the registration with the edits applied. *)
Theorem account_lifecycle e dkim w0 app w m req :
  startup e dkim w0 = (inr app, w) → store_ok (app_store app) w m → uids_bounded m → healthy w →
  clock (time_Unix (w_now w)) → (16 <= length (w_rand w))%nat →
  validateRegister req = 0 → (∀ salt, is_Some (GenerateFromPassword salt (rr_Password req))) → fresh m req →
  ∃ uid rsp w1, answer app (PostRegister (Some req)) w = (rsp, w1) ∧
    status rsp = 201 ∧ json_field (B "UID") (fields rsp) = Some (JNumber uid 0) ∧
  ∃ token, answer app (PostLogin (Some (LoginRequest (rr_ID req) (rr_Password req)))) w1 =
      (JSON 200 [gin_status 200; (B "token", JString token)], w1) ∧
  ∀ content, omap (rejected (app_schema app)) content = [] →
  ∃ w2, answer app (PostProfileEdit (Some (ProfileEditRequest uid token content))) w1 = (reply 200, w2) ∧
  ∃ shown, answer app (PostProfileView (Some (ProfileViewRequest uid token))) w2 =
      (JSON 200 [gin_status 200; (B "content", JObject shown)], w2) ∧
    ∀ key, json_field key shown =
      match (collect (app_schema app) content).2 !! key with
      | Some v => Some v
      | None => default ∅ (Profile (new_user req uid [] (w_now w))) !! key
      end.
Proof.
  intros Hs Hst Hb Hh Hc Hr Hv Hg Hfr. apply startup_started in Hs as [Hwin _ Hwf _ _].
  destruct (validateRegister_0 _ Hv) as (Hid & _ & _ & Hpw & _).
  destruct (RegisterHandler_fresh _ w m (Domain (app_mailConfig app)) req Hst Hb Hv Hh Hr Hg Hfr)
    as (uid & hash & rsp & w1 & Hreg & H201 & Huid & Hh1 & Hn1 & Hcmp & Hst1).
  exists uid, rsp, w1. split; [by erewrite answer_at_once |]. split; [done |]. split; [done |].
  set (u := new_user req uid hash (w_now w)) in *. set (now := time_Unix (w_now w)) in *.
  assert (VerifyAt (app_issuer app) now (IssueAt (app_issuer app) now (ID u)) = Some (ID u)) as Htok.
  { rewrite VerifyAt_IssueAt by done. by replace ((now <=? now) && _) with true by lia. }
  exists (IssueAt (app_issuer app) now (ID u)). split.
  - erewrite answer_at_once by reflexivity. unfold now. rewrite <- Hn1. eapply LoginHandler_fits; [done | done | by rewrite lookup_insert_eq | | |].
    + unfold credentials, matches_query. cbn [ID Password u new_user]. by rewrite Hcmp, bool_decide_true.
    + intros Hx. by rewrite Hx in Hid.
    + intros Hx. by rewrite Hx in Hpw.
  - intros content Hrej. set (token := IssueAt _ _ _) in *.
    destruct (ProfileEditHandler_healthy (app_store app) w1 _ (app_issuer app) (app_schema app) (ProfileEditRequest uid token content) u Hst1 Hh1)
      as (f & He & Hst2); [by rewrite lookup_insert_eq | by rewrite Hn1 | done |].
    exists (set_fs f w1). split; [by erewrite answer_at_once |]. erewrite answer_at_once by reflexivity.
    destruct (owner_sees (app_store app) (set_fs f w1) _ (app_issuer app) (app_schema app) uid _ token Hst2 Hh1
      ltac:(by rewrite lookup_insert_eq)) as (shown & Hvw & Hsh).
    + unfold token, IssueAt. by destruct (payload_of _ _).
    + cbn [w_now set_fs]. rewrite Hn1. cbn [pq_Content]. rewrite (proj1 (proj2 (edited_same u _))). exact Htok.
    + apply typed_edited, typed_new, Hwf.
    + exists shown. split; [exact Hvw |]. intros key. rewrite Hsh, edited_profile. done.
Qed.
End Spec.

(** ** A running program *)

(** Every address can be bound, and gin takes every list of proxies. *)
#[export] Instance free_ports : Sockets := {| net_Listen addr := inr addr |}.
#[export] Instance any_proxies : Engine := {| SetTrustedProxies _ := None |}.

Definition main_env : env :=
  {[B "MAIL_DOMAIN" := B "example.org"; B "TOKEN_SECRET" := B "top secret"; B "ALLOWED_PROFILE_KEY" := config_text]}.
Definition main_app : application :=
  match (startup main_env (Err os_ErrNotExist) alice_world).1 with
  | inr app => app
  | inl _ => Application store issuer config_schema mail_config None
  end.

Lemma main_started : startup main_env (Err os_ErrNotExist) alice_world = (inr main_app, alice_world).
Proof.
  assert ((startup main_env (Err os_ErrNotExist) alice_world).2 = alice_world) as H2 by reflexivity.
  assert ((startup main_env (Err os_ErrNotExist) alice_world).1 = inr main_app) as H1 by (vm_compute; reflexivity).
  rewrite <- H2 at 2. rewrite <- H1. apply surjective_pairing.
Qed.

Definition phone_edit : list profileEntry := [ProfileEntry (JString (B "phone")) (JString (B "555"))].

Lemma account_lifecycle_witness :
  ∃ uid token w2 shown, answer main_app (PostProfileView (Some (ProfileViewRequest uid token))) w2 =
      (JSON 200 [gin_status 200; (B "content", JObject shown)], w2) ∧
    json_field (B "phone") shown = Some (JString (B "555")) ∧
    json_field (B "username") shown = Some (JString (rr_Username bob_req)).
Proof.
  destruct (account_lifecycle main_env (Err os_ErrNotExist) alice_world main_app alice_world {[1 := alice]} bob_req main_started)
    as (uid & rsp & w1 & _ & _ & _ & token & _ & Hedit).
  - assert (app_store main_app = store) as -> by (vm_compute; reflexivity). apply alice_world_ok.
  - apply alice_bounded.
  - apply alice_world_ok.
  - by vm_compute.
  - by apply (bool_decide_unpack _).
  - apply bob_valid.
  - intros salt. by eexists.
  - intros i u [<- <-]%lookup_singleton_Some. by vm_compute.
  - destruct (Hedit phone_edit) as (w2 & _ & shown & Hv & Hs); [by vm_compute |].
    exists uid, token, w2, shown. split; [exact Hv |]. rewrite !Hs.
    assert ((collect (app_schema main_app) phone_edit).2 !! B "phone" = Some (JString (B "555"))) as -> by (vm_compute; reflexivity).
    assert ((collect (app_schema main_app) phone_edit).2 !! B "username" = None) as -> by (vm_compute; reflexivity).
    split; reflexivity.
Defined.
