(* ===== verification/Logger.v ===== *)
(** * Logger: the log lines ([logger/handler.go], [logger/logger.go],
    [logger/context.go], [logger/gin.go])

    A handler renders a record as one line and writes it at once under its
    mutex.  The text of a value under the verb [%v] belongs to [fmt], so an
    attribute carries it; dates are in the local zone.  The state is the
    default logger and what was written so far. *)

From S2P Require Import Prelude GoStrings Strconv GoNet.

(** ** Levels and attributes of [log/slog] *)

Definition LevelDebug : Z := -4.
Definition LevelInfo : Z := 0.
Definition LevelWarn : Z := 4.
Definition LevelError : Z := 8.

(** [level.String()]: the next lower name and the distance to it. *)
Definition Level_String (l : Z) : bytes :=
  let str base val :=
    if val =? 0 then base else base ++ (if val <? 0 then [] else B "+") ++ FormatInt val in
  if l <? LevelInfo then str (B "DEBUG") (l - LevelDebug)
  else if l <? LevelWarn then str (B "INFO") (l - LevelInfo)
  else if l <? LevelError then str (B "WARN") (l - LevelWarn)
  else str (B "ERROR") (l - LevelError).

Record Attr := NewAttr { Key : bytes; Value : bytes }.
Record LogRecord := NewRecord { r_Time : Z; r_Message : bytes; r_Level : Z; r_Attrs : list Attr }.

(** The arguments of [Info] and the like: strings, attributes (with their own
    text) and other values. *)
Inductive arg := Text (s : bytes) | AnAttr (a : Attr) (s : bytes) | Other (s : bytes).
Definition arg_text (a : arg) : bytes := match a with Text s | AnAttr _ s | Other s => s end.

(** Keys and values alternate. *)
Fixpoint argsToAttrs (args : list arg) : list Attr :=
  match args with
  | [] => []
  | Text x :: args =>
      match args with
      | [] => [NewAttr (B "!BADKEY") x]
      | v :: args => NewAttr x (arg_text v) :: argsToAttrs args
      end
  | AnAttr a _ :: args => a :: argsToAttrs args
  | Other s :: args => NewAttr (B "!BADKEY") s :: argsToAttrs args
  end.

(** [t.Format("2006-01-02 15:04:05")] *)
Definition Format_DateTime (offset t : Z) : bytes :=
  let secs := t / 10 ^ 9 + offset in
  let s := secs mod 86400 in
  let '(y, m, d) := civil_from_days (secs / 86400) in
  zero_pad 4 (show 10 y) ++ B "-" ++ two_digits m ++ B "-" ++ two_digits d ++ B " " ++
  two_digits (s / 3600) ++ B ":" ++ two_digits (s / 60 mod 60) ++ B ":" ++ two_digits (s mod 60).

(** ** The handler *)

Definition colorReset : bytes := chr 27 :: B "[0m".
Definition colorRed : bytes := chr 27 :: B "[31m".
Definition colorYellow : bytes := chr 27 :: B "[33m".
Definition colorBlue : bytes := chr 27 :: B "[34m".
Definition colorGray : bytes := chr 27 :: B "[37m".

Record ColorConsoleHandler := NewHandler { h_Level : option Z; attrs : list Attr; group : bytes }.

Definition newColorConsoleHandler (opts : option (option Z)) : ColorConsoleHandler :=
  NewHandler (match opts with Some level => level | None => None end) [] [].

Definition Enabled (h : ColorConsoleHandler) (level : Z) : bool := default LevelInfo (h_Level h) <=? level.

Definition level_color (level : Z) : bytes :=
  if LevelError <=? level then colorRed
  else if LevelWarn <=? level then colorYellow
  else if LevelInfo <=? level then colorBlue
  else colorGray.

Definition formatAttr (a : Attr) : bytes := B " " ++ colorGray ++ Key a ++ B "=" ++ Value a ++ colorReset.

(** The context: the innermost trace identifier. *)
Definition context : Type := option bytes.
Definition Background : context := None.
Definition WithTraceID (ctx : context) (traceID : bytes) : context := Some traceID.
Definition FromTraceID (ctx : context) : bytes := default [] ctx.

Definition qualify (h : ColorConsoleHandler) (a : Attr) : Attr :=
  NewAttr (if decide (group h ≠ []) then group h ++ B "." ++ Key a else Key a) (Value a).

Section Logger.
Context {Zo : Zone}.

Definition line_head (r : LogRecord) : bytes :=
  let levelColor := level_color (r_Level r) in
  colorGray ++ B "[" ++ Format_DateTime (zone_offset (r_Time r)) (r_Time r) ++ B "]" ++ colorReset ++ B " " ++
  levelColor ++ B "[" ++ Level_String (r_Level r) ++ B "]" ++ colorReset ++ B " " ++
  levelColor ++ r_Message r ++ colorReset.

(** What [Handle] writes. *)
Definition Handle (h : ColorConsoleHandler) (ctx : context) (r : LogRecord) : bytes :=
  line_head r ++
  (if decide (FromTraceID ctx ≠ []) then formatAttr (NewAttr (B "trace_id") (FromTraceID ctx)) else []) ++
  concat (formatAttr <$> attrs h) ++
  concat ((λ a, formatAttr (qualify h a)) <$> r_Attrs r) ++ [chr 10].

Definition WithAttrs (h : ColorConsoleHandler) (new : list Attr) : ColorConsoleHandler :=
  NewHandler (h_Level h) (attrs h ++ new) (group h).

Definition WithGroup (h : ColorConsoleHandler) (name : bytes) : ColorConsoleHandler :=
  if decide (name = []) then h
  else NewHandler (h_Level h) (attrs h) (if decide (group h ≠ []) then group h ++ B "." ++ name else name).

(** ** The package functions *)

Record console := Console { default_logger : ColorConsoleHandler; written : bytes }.

(** [Init] with the level of its options, the zero value [LevelInfo] without. *)
Definition Init (opts : option Z) : ST console unit :=
  modify (λ c, Console (newColorConsoleHandler (Some (Some (default LevelInfo opts)))) (written c)).

(** [slog]: a record for the handler if the level is enabled; [now] is the time. *)
Definition log (now : Z) (ctx : context) (level : Z) (msg : bytes) (args : list arg) : ST console unit :=
  c ← gets (λ c, c);
  if Enabled (default_logger c) level then
    modify (λ c, Console (default_logger c)
      (written c ++ Handle (default_logger c) ctx (NewRecord now msg level (argsToAttrs args))))
  else mret tt.

Definition DebugContext now ctx := log now ctx LevelDebug.
Definition InfoContext now ctx := log now ctx LevelInfo.
Definition WarnContext now ctx := log now ctx LevelWarn.
Definition ErrorContext now ctx := log now ctx LevelError.
Definition Debug now := log now Background LevelDebug.
Definition Info now := log now Background LevelInfo.
Definition Warn now := log now Background LevelWarn.
Definition Error now := log now Background LevelError.

(** The handler of the logger [With] returns. *)
Definition With (args : list arg) (c : console) : ColorConsoleHandler :=
  match args with [] => default_logger c | _ => WithAttrs (default_logger c) (argsToAttrs args) end.

(** ** Requests ([gin.go]) *)

(** What the log line of a request shows; [Latency] and [Errors] as text. *)
Record gin_request := GinRequest {
  Method : bytes; Path : bytes; Latency : bytes; ClientIP : bytes; RawQuery : bytes; Errors : option bytes }.

Definition GinLogger (now : Z) (q : gin_request) (status : Z) : ST console unit :=
  let level := if 500 <=? status then LevelError else if 400 <=? status then LevelWarn else LevelInfo in
  let args :=
    [Text (B "method"); Text (Method q); Text (B "path"); Text (Path q); Text (B "status"); Other (FormatInt status);
     Text (B "latency"); Text (Latency q); Text (B "client_ip"); Text (ClientIP q)] ++
    (if decide (RawQuery q ≠ []) then [Text (B "query"); Text (RawQuery q)] else []) ++
    (match Errors q with Some e => [Text (B "errors"); Text e] | None => [] end) in
  log now Background level (B "HTTP request") args.

(** How a handler ends: with a status, or in a panic, in which it may have
    sent a status before. *)
Inductive ending := Replied (status : Z) | Panicked (sent : option Z) (recovered stack : bytes).

(** The status of the writer afterwards: [c.AbortWithStatus] has no effect on
    a response whose header was written. *)
Definition AbortWithStatus (sent : option Z) (status : Z) : Z := default status sent.

Definition GinRecovery (now : Z) (e : ending) : ST console Z :=
  match e with
  | Replied status => mret status
  | Panicked sent recovered stack =>
      _ ← Error now (B "HTTP panic recovered") [Text (B "err"); Text recovered; Text (B "stack"); Text stack];
      mret (AbortWithStatus sent 500)
  end.

(** The order of [main]: the request log around the recovery. *)
Definition logged (now : Z) (q : gin_request) (e : ending) : ST console Z :=
  status ← GinRecovery now e;
  _ ← GinLogger now q status;
  mret status.

End Logger.
