(* ===== verification/LoggerSpec.v ===== *)
(** * LoggerSpec: what the log shows

    Every request leaves one line that says how it ended; a derived handler
    shows its attributes in order; and two ways in which the lines say
    something else than they should. *)

From S2P Require Import Prelude GoStrings Strconv GoNet Logger.

(** ** Text without line breaks *)

Definition newline : ascii := chr 10.
Definition clean (s : bytes) : Prop := newline ∉ s.
Definition one_line (l : bytes) : Prop := ∃ body, l = body ++ [newline] ∧ clean body.

#[export] Instance clean_dec s : Decision (clean s).
Proof. unfold clean. apply _. Defined.

Lemma clean_app s t : clean (s ++ t) ↔ clean s ∧ clean t.
Proof. unfold clean. by rewrite not_elem_of_app. Qed.

Lemma clean_cons c s : c ≠ newline → clean s → clean (c :: s).
Proof. intros Hc Hs. by apply not_elem_of_cons. Qed.

Lemma clean_concat (l : list bytes) : Forall clean l → clean (concat l).
Proof. induction 1; [by apply not_elem_of_nil |]. by apply clean_app. Qed.

Lemma clean_FormatInt z : clean (FormatInt z).
Proof. by apply FormatInt_notin. Qed.

Lemma clean_show n : 0 <= n → clean (show 10 n).
Proof. intros Hn. pose proof (clean_FormatInt n) as H. unfold FormatInt in H. by replace (n <? 0) with false in H by lia. Qed.

Lemma clean_pad k n : 0 <= n → clean (zero_pad k (show 10 n)).
Proof.
  intros Hn. apply clean_app. split; [| by apply clean_show].
  intros H. by apply elem_of_replicate in H as [H _].
Qed.

#[local] Create HintDb clean.
#[local] Hint Resolve clean_FormatInt clean_show clean_pad : clean.

(** Literals and concatenations. *)
Ltac clean_text :=
  repeat match goal with
  | |- clean (_ ++ _) => apply clean_app; split
  | |- clean (_ :: _) => apply clean_cons; [done |]
  | |- clean _ => assumption
  | |- clean _ => solve [auto with clean]
  | |- clean _ => by apply (bool_decide_unpack _)
  end.

(** The year, month and day of a date since 1970. *)
Lemma civil_positive days :
  0 <= days → let '(y, m, d) := civil_from_days days in 0 <= y ∧ 0 <= m ∧ 0 <= d.
Proof.
  intros Hd. unfold civil_from_days. cbv zeta.
  set (doe := (days + 719468) mod 146097). set (era := (days + 719468) / 146097).
  assert (0 <= doe < 146097) as Hdoe by (apply Z.mod_pos_bound; lia).
  assert (0 <= era) as Hera by (apply Z.div_pos; lia). clearbody doe era.
  set (yoe := (doe - doe / 1460 + doe / 36524 - doe / 146096) / 365).
  assert (0 <= yoe) as Hy by (unfold yoe; lia_div).
  assert (-50 <= doe - (365 * yoe + yoe / 4 - yoe / 100)) as Hdoy.
  { assert (365 * yoe <= doe - doe / 1460 + doe / 36524) by (unfold yoe; lia_div). clearbody yoe. lia_div. }
  set (doy := doe - (365 * yoe + yoe / 4 - yoe / 100)) in *. clearbody doy yoe.
  assert (-3 <= (5 * doy + 2) / 153) by lia_div.
  assert (0 <= doy - (153 * ((5 * doy + 2) / 153) + 2) / 5) by lia_div.
  set (mp := (5 * doy + 2) / 153) in *. repeat case_match; lia.
Qed.

Lemma clean_date offset t : 0 <= t / 10 ^ 9 + offset → clean (Format_DateTime offset t).
Proof.
  intros Ht. unfold Format_DateTime, two_digits. cbv zeta. set (secs := t / 10 ^ 9 + offset) in *.
  pose proof (civil_positive (secs / 86400) ltac:(lia_div)) as Hc.
  destruct (civil_from_days (secs / 86400)) as [[y m] d]. destruct Hc as (? & ? & ?).
  assert (0 <= secs mod 86400) by lia_div. generalize dependent (secs mod 86400). intros s Hs.
  assert (0 <= s / 3600 ∧ 0 <= s / 60 mod 60 ∧ 0 <= s mod 60) as (? & ? & ?) by lia_div. clean_text.
Qed.

Lemma clean_level l : clean (Level_String l).
Proof. unfold Level_String. repeat case_match; clean_text. Qed.
#[local] Hint Resolve clean_level : clean.

Lemma clean_color l : clean (level_color l).
Proof. unfold level_color. repeat case_match; by apply (bool_decide_unpack _). Qed.
#[local] Hint Resolve clean_color : clean.

(** ** One record *)

Section Spec.
Context {Zo : Zone}.

Definition clean_attr (a : Attr) : Prop := clean (Key a) ∧ clean (Value a).

Lemma clean_formatAttr a : clean_attr a → clean (formatAttr a).
Proof. intros [? ?]. unfold formatAttr, colorGray, colorReset. clean_text. Qed.

Lemma clean_attrs l : Forall clean_attr l → clean (concat (formatAttr <$> l)).
Proof. intros H. apply clean_concat, Forall_fmap. eapply Forall_impl; [exact H |]. apply clean_formatAttr. Qed.

(** A handler, a context and a record without line breaks. *)
Record tidy (h : ColorConsoleHandler) (ctx : context) (r : LogRecord) : Prop := {
  td_time : 0 <= r_Time r / 10 ^ 9 + zone_offset (r_Time r);
  td_trace : clean (FromTraceID ctx);
  td_message : clean (r_Message r);
  td_handler : Forall clean_attr (attrs h) ∧ clean (group h);
  td_attrs : Forall clean_attr (r_Attrs r);
}.

Lemma Handle_one_line h ctx r : tidy h ctx r → one_line (Handle h ctx r).
Proof.
  intros [Ht Htr Hm [Ha Hg] Hr]. unfold Handle. rewrite !app_assoc. eexists. split; [reflexivity |].
  pose proof (clean_date (zone_offset (r_Time r)) (r_Time r) Ht). rewrite <- !app_assoc.
  unfold line_head, colorGray, colorReset. clean_text.
  - case_decide; [apply clean_formatAttr; split; [by apply (bool_decide_unpack _) | done] | by apply (bool_decide_unpack _)].
  - by apply clean_attrs.
  - apply clean_concat, Forall_fmap. eapply Forall_impl; [exact Hr |]. intros a [Hk Hv].
    apply clean_formatAttr. split; [| done]. unfold qualify. simpl. case_decide; [clean_text | done].
Qed.

(** ** Requests *)

(** The text of a line, written out.  The name and the colour of a level: *)
Inductive severity := SevInfo | SevWarn | SevError.
Definition name_of (v : severity) : bytes :=
  match v with SevInfo => B "INFO" | SevWarn => B "WARN" | SevError => B "ERROR" end.
Definition paint (colour : string) (text : bytes) : bytes := [chr 27] ++ B colour ++ text ++ [chr 27] ++ B "[0m".
Definition colour_of (v : severity) : string :=
  match v with SevInfo => "[34m" | SevWarn => "[33m" | SevError => "[31m" end%string.
Definition level_of (v : severity) : Z := match v with SevInfo => LevelInfo | SevWarn => LevelWarn | SevError => LevelError end.

(** [ key=value] in gray; the group of the logger qualifies the key. *)
Definition shown (group : bytes) (kv : bytes * bytes) : bytes :=
  B " " ++ paint "[37m" ((if decide (group = []) then [] else group ++ B ".") ++ kv.1 ++ B "=" ++ kv.2).

(** A line: date, level, message, the attributes of the logger, the fields. *)
Definition line_text (h : ColorConsoleHandler) (now : Z) (v : severity) (msg : bytes) (fields : list (bytes * bytes)) : bytes :=
  paint "[37m" (B "[" ++ Format_DateTime (zone_offset now) now ++ B "]") ++ B " " ++
  paint (colour_of v) (B "[" ++ name_of v ++ B "]") ++ B " " ++ paint (colour_of v) msg ++
  concat ((λ a, shown [] (Key a, Value a)) <$> attrs h) ++ concat (shown (group h) <$> fields) ++ [newline].

(** What a request must leave in the log. *)
Definition ended_with (e : ending) : Z :=
  match e with Replied status => status | Panicked (Some sent) _ _ => sent | Panicked None _ _ => 500 end.
Definition severity_of (status : Z) : severity :=
  if decide (500 <= status) then SevError else if decide (400 <= status) then SevWarn else SevInfo.
Definition request_fields (q : gin_request) (status : Z) : list (bytes * bytes) :=
  [(B "method", Method q); (B "path", Path q); (B "status", FormatInt status);
   (B "latency", Latency q); (B "client_ip", ClientIP q)] ++
  (if decide (RawQuery q = []) then [] else [(B "query", RawQuery q)]) ++
  (match Errors q with Some e => [(B "errors", e)] | None => [] end).
Definition request_line (h : ColorConsoleHandler) (now : Z) (q : gin_request) (status : Z) : bytes :=
  line_text h now (severity_of status) (B "HTTP request") (request_fields q status).
Definition panic_line (h : ColorConsoleHandler) (now : Z) (recovered stack : bytes) : bytes :=
  line_text h now SevError (B "HTTP panic recovered") [(B "err", recovered); (B "stack", stack)].

(** No text the request brings in, and none of the logger's, breaks the line. *)
Definition clean_fields (h : ColorConsoleHandler) (fields : list (bytes * bytes)) : Prop :=
  Forall clean_attr (attrs h) ∧ clean (group h) ∧ Forall (λ kv, clean kv.1 ∧ clean kv.2) fields.

Definition record_of (now : Z) (v : severity) (msg : bytes) (fields : list (bytes * bytes)) : LogRecord :=
  NewRecord now msg (level_of v) ((λ kv, NewAttr kv.1 kv.2) <$> fields).

Lemma formatAttr_shown g a h :
  group h = g → formatAttr (qualify h a) = shown g (Key a, Value a).
Proof.
  intros <-. unfold formatAttr, qualify, shown, paint, colorGray, colorReset. cbn [Key Value fst snd].
  destruct (decide (group h = [])) as [Hg | Hg].
  - rewrite decide_False by (by intros []). by rewrite <- !app_assoc.
  - rewrite decide_True by done. by rewrite <- !app_assoc.
Qed.

Lemma formatAttr_plain a : formatAttr a = shown [] (Key a, Value a).
Proof. unfold formatAttr, shown, paint, colorGray, colorReset. cbn [fst snd]. rewrite decide_True by done. by rewrite <- !app_assoc. Qed.

Lemma Handle_text h now v msg fields : Handle h Background (record_of now v msg fields) = line_text h now v msg fields.
Proof.
  unfold Handle, line_text, line_head, record_of. cbn [r_Time r_Level r_Message r_Attrs].
  rewrite decide_False by (intros H; by apply H). rewrite <- list_fmap_compose.
  assert (formatAttr <$> attrs h = (λ a, shown [] (Key a, Value a)) <$> attrs h) as ->.
  { apply list_fmap_ext. intros ? a _. apply formatAttr_plain. }
  assert (((λ a, formatAttr (qualify h a)) ∘ λ kv, NewAttr kv.1 kv.2) <$> fields = shown (group h) <$> fields) as ->.
  { apply list_fmap_ext. intros ? [k t] _. by apply formatAttr_shown. }
  unfold paint, colorGray, colorReset, name_of, colour_of. destruct v; rewrite <- !app_assoc; reflexivity.
Qed.

Definition write (s : bytes) (c : console) : console := Console (default_logger c) (written c ++ s).

Lemma log_enabled now ctx level msg args c :
  Enabled (default_logger c) level = true →
  log now ctx level msg args c = (tt, write (Handle (default_logger c) ctx (NewRecord now msg level (argsToAttrs args))) c).
Proof. intros He. unfold log, gets, mbind, st_bind. by rewrite He. Qed.

Lemma level_enabled h level : default LevelInfo (h_Level h) <= LevelInfo → LevelInfo <= level → Enabled h level = true.
Proof. unfold Enabled. lia. Qed.

Lemma GinLogger_eq now q status c :
  default LevelInfo (h_Level (default_logger c)) <= LevelInfo →
  GinLogger now q status c = (tt, write (request_line (default_logger c) now q status) c).
Proof.
  intros Hl. unfold GinLogger. cbv zeta. rewrite log_enabled.
  - unfold request_line. rewrite <- Handle_text. unfold record_of, request_fields, severity_of, level_of. do 4 f_equal.
    + repeat case_match; try done; lia.
    + destruct (decide (RawQuery q = [])) as [-> | Hq]; destruct (Errors q); by repeat (rewrite decide_True by done || rewrite decide_False by (by intros [])).
  - apply level_enabled; [done |]. unfold LevelInfo, LevelWarn, LevelError. repeat case_match; lia.
Qed.

Lemma line_text_one_line h now v msg fields :
  0 <= now / 10 ^ 9 + zone_offset now → clean msg → clean_fields h fields → one_line (line_text h now v msg fields).
Proof.
  intros Ht Hm (Ha & Hg & Hf). rewrite <- Handle_text. apply Handle_one_line.
  split; [done | by apply (bool_decide_unpack _) | done | done |].
  cbn [record_of r_Attrs]. by apply Forall_fmap.
Qed.

(** C38: The log shows how every request ended.  With a logger that lets
    [INFO] through, a request leaves at the end of the log the text "date,
    level, HTTP request" followed by its method, path, status, latency and
    client, its query and errors if it has some, each as "key=value": red
    [ERROR] from status 500, yellow [WARN] from 400, blue [INFO] below.  A
    handler that panics is answered with 500, unless it had sent another
    status before, which then stays, and leaves a text with the panic and its
    stack before that.  If none of the values holds a line break, the text of
    the request is one line of the log. *)
Theorem access_log_correct now q e c :
  default LevelInfo (h_Level (default_logger c)) <= LevelInfo →
  let h := default_logger c in
  let status := ended_with e in
  let panic := match e with Replied _ => [] | Panicked _ recovered stack => panic_line h now recovered stack end in
  logged now q e c = (status, Console h (written c ++ panic ++ request_line h now q status)) ∧
  (0 <= now / 10 ^ 9 + zone_offset now → clean_fields h (request_fields q status) → one_line (request_line h now q status)).
Proof.
  intros Hl. cbv zeta. split.
  2: { intros Ht. apply line_text_one_line; [done |]. by apply (bool_decide_unpack _). }
  unfold logged. destruct e as [status | sent recovered stack]; cbn [GinRecovery ended_with].
  - unfold mret, mbind, st_ret, st_bind. by rewrite GinLogger_eq.
  - unfold Error. unfold mret, mbind, st_ret, st_bind. rewrite log_enabled by (by apply level_enabled).
    rewrite GinLogger_eq by done. unfold write. cbn [default_logger written]. rewrite <- app_assoc.
    unfold panic_line. rewrite <- Handle_text. by destruct sent.
Qed.

(** ** Derived handlers *)

Inductive derivation := DAttrs (new : list Attr) | DGroup (name : bytes).
Definition derive (h : ColorConsoleHandler) (d : derivation) : ColorConsoleHandler :=
  match d with DAttrs new => WithAttrs h new | DGroup name => WithGroup h name end.

Definition attrs_of (ds : list derivation) : list Attr :=
  concat ((λ d, match d with DAttrs new => new | DGroup _ => [] end) <$> ds).
Definition groups_of (ds : list derivation) : list bytes :=
  filter (.≠ []) (omap (λ d, match d with DAttrs _ => None | DGroup name => Some name end) ds).

(** The group names, separated by dots. *)
Fixpoint dotted_names (first : bytes) (names : list bytes) : bytes :=
  match names with [] => first | n :: names => dotted_names (if decide (first ≠ []) then first ++ B "." ++ n else n) names end.

Lemma derived_parts ds h :
  foldl derive h ds = NewHandler (h_Level h) (attrs h ++ attrs_of ds) (dotted_names (group h) (groups_of ds)).
Proof.
  revert h. induction ds as [| d ds IH]; intros h; [destruct h; unfold attrs_of; simpl; by rewrite app_nil_r |].
  cbn [foldl]. rewrite IH. destruct d as [new | name]; cbn [derive].
  - unfold WithAttrs, attrs_of, groups_of. cbn [h_Level attrs group]. rewrite fmap_cons. cbn [concat]. by rewrite app_assoc.
  - unfold WithGroup, attrs_of, groups_of. rewrite fmap_cons. cbn [concat]. rewrite omap_cons, filter_cons.
    case_decide as Hn; [by rewrite decide_False by (intros H; by apply H) |]. by rewrite (decide_True (P := name ≠ [])) by done.
Qed.

(** Deriving a logger shows the attributes in the order in which they were
    added, and qualifies the keys of the record with the groups. *)
Lemma derived_line level ds ctx r :
  let h := foldl derive (newColorConsoleHandler (Some level)) ds in
  Handle h ctx r =
    line_head r ++ (if decide (FromTraceID ctx ≠ []) then formatAttr (NewAttr (B "trace_id") (FromTraceID ctx)) else []) ++
    concat (formatAttr <$> attrs_of ds) ++
    concat ((λ a, formatAttr (qualify (NewHandler level [] (dotted_names [] (groups_of ds))) a)) <$> r_Attrs r) ++ [newline].
Proof. cbv zeta. by rewrite derived_parts. Qed.

(** ** Where the lines mislead *)

Definition inside (s t : bytes) : Prop := ∃ before after, t = before ++ s ++ after.

Lemma inside_app s t1 t2 : inside s t1 ∨ inside s t2 → inside s (t1 ++ t2).
Proof.
  intros [(x & y & ->) | (x & y & ->)]; [exists x, (y ++ t2) | exists (t1 ++ x), y]; by rewrite <- !app_assoc.
Qed.

Lemma inside_concat s t (l : list bytes) : t ∈ l → inside s t → inside s (concat l).
Proof.
  intros Ht Hs. apply list_elem_of_split in Ht as (l1 & l2 & ->). rewrite concat_app.
  apply inside_app. right. simpl. apply inside_app. by left.
Qed.

(** The value of an attribute is part of the line. *)
Lemma value_inside h ctx r a s : a ∈ r_Attrs r → inside s (Value a) → inside s (Handle h ctx r).
Proof.
  intros Ha Hs. unfold Handle. do 3 (apply inside_app; right). apply inside_app. left.
  apply (inside_concat _ (formatAttr (qualify h a))); [by apply (list_elem_of_fmap_2 (λ a, formatAttr (qualify h a))) |].
  unfold formatAttr, qualify. cbn [Value Key]. do 4 (apply inside_app; right). apply inside_app. by left.
Qed.

(** A path with a line break (the request path is decoded) continues on a
    line of its own: what follows it looks like another record. *)
Lemma path_forges_line now q pre forged c :
  default LevelInfo (h_Level (default_logger c)) <= LevelInfo → Path q = pre ++ [newline] ++ forged →
  inside ([newline] ++ forged) (written (logged now q (Replied 200) c).2).
Proof.
  intros Hl Hp. unfold logged. cbn [GinRecovery]. unfold mret, mbind, st_ret, st_bind. rewrite GinLogger_eq by done.
  cbn [snd write written]. apply inside_app. right. unfold request_line. rewrite <- Handle_text.
  apply (value_inside _ _ _ (NewAttr (B "path") (Path q))).
  - by right; left.
  - cbn [Value]. rewrite Hp. exists pre, []. by rewrite app_nil_r.
Qed.

(** Attributes added after a group are not qualified with it. *)
Lemma group_not_applied h name new : WithAttrs (WithGroup h name) new = WithGroup (WithAttrs h new) name.
Proof. unfold WithAttrs, WithGroup. by case_decide. Qed.

End Spec.

(** ** The log of [main] *)

#[local] Instance greenwich : Zone := {| zone_offset _ := 0 |}.

Definition main_console : console := (Init (Some LevelDebug) (Console (newColorConsoleHandler None) [])).2.
Definition probe : gin_request := GinRequest (B "GET") (B "/api/health") (B "42ms") (B "127.0.0.1") [] None.
Definition probe_time : Z := 1704067200 * 10 ^ 9.

Lemma access_log_correct_witness :
  let line := request_line (newColorConsoleHandler (Some (Some LevelDebug))) probe_time probe 404 in
  written (logged probe_time probe (Panicked (Some 404) (B "index out of range") (B "goroutine 1")) main_console).2 =
    panic_line (newColorConsoleHandler (Some (Some LevelDebug))) probe_time (B "index out of range") (B "goroutine 1") ++ line ∧
  one_line line.
Proof.
  destruct (access_log_correct probe_time probe (Panicked (Some 404) (B "index out of range") (B "goroutine 1")) main_console) as [H1 H2].
  - by vm_compute.
  - split.
    + rewrite H1. reflexivity.
    + apply H2; [by vm_compute |]. split; [constructor |]. split; [by apply (bool_decide_unpack _) |].
      repeat constructor; by apply (bool_decide_unpack _).
Defined.

Example probe_line :
  written (logged probe_time probe (Replied 404) main_console).2 =
    colorGray ++ B "[2024-01-01 00:00:00]" ++ colorReset ++ B " " ++ colorYellow ++ B "[WARN]" ++ colorReset ++ B " " ++
    colorYellow ++ B "HTTP request" ++ colorReset ++
    concat ((λ kv, B " " ++ colorGray ++ kv ++ colorReset) <$>
      [B "method=GET"; B "path=/api/health"; B "status=404"; B "latency=42ms"; B "client_ip=127.0.0.1"]) ++ [newline].
Proof. vm_compute. reflexivity. Qed.
