(* ===== verification/Pop3.v ===== *)
(** * Pop3: the POP3 sessions ([mail/pop3.go])

    A session is a state machine over the lines the client sends.  The state
    also carries the world, so that the store can be called, and what was
    written to the connection. *)

From S2P Require Import Prelude GoStrings Strconv World Accounts Flags MailStore Token Config MailServer.

Definition CRLF : bytes := [chr 13; chr 10].

Record pop3Session := Pop3Session {
  encrypted : bool;
  account : option Account;
  p_user : bytes;
  snapshot : option Snapshot_;
  deleted : gset Z;
  writer : bytes;
  env_world : world;
}.

Abbreviation P := (ST pop3Session).

Definition with_encrypted (b : bool) (p : pop3Session) : pop3Session :=
  Pop3Session b (account p) (p_user p) (snapshot p) (deleted p) (writer p) (env_world p).
Definition with_user (u : bytes) (p : pop3Session) : pop3Session :=
  Pop3Session (encrypted p) (account p) u (snapshot p) (deleted p) (writer p) (env_world p).
Definition with_account (a : Account) (s : Snapshot_) (p : pop3Session) : pop3Session :=
  Pop3Session (encrypted p) (Some a) (p_user p) (Some s) (deleted p) (writer p) (env_world p).
Definition with_deleted (d : gset Z) (p : pop3Session) : pop3Session :=
  Pop3Session (encrypted p) (account p) (p_user p) (snapshot p) d (writer p) (env_world p).
Definition with_writer (o : bytes) (p : pop3Session) : pop3Session :=
  Pop3Session (encrypted p) (account p) (p_user p) (snapshot p) (deleted p) o (env_world p).
Definition with_world (w : world) (p : pop3Session) : pop3Session :=
  Pop3Session (encrypted p) (account p) (p_user p) (snapshot p) (deleted p) (writer p) w.

(** A call into the store or the accounts. *)
Definition call {A} (m : M A) : P A := λ p,
  let '(a, w) := m (env_world p) in (a, with_world w p).

Definition write (b : bytes) : P unit := modify (λ p, with_writer (writer p ++ b) p).
Definition respond (line : bytes) : P unit := write (line ++ CRLF).
Definition ok (message : bytes) : P unit :=
  if decide (message = []) then respond (B "+OK") else respond (B "+OK " ++ message).
Definition err (message : bytes) : P unit := respond (B "-ERR " ++ message).

Definition messages (p : pop3Session) : list Message :=
  match snapshot p with Some s => Messages (Index s) | None => [] end.

(** ** Multi-line responses *)

(** What repeated [reader.ReadString('\n')] returns, [acc] being the line so
    far. *)
Fixpoint read_lines (body acc : bytes) : list bytes :=
  match body with
  | [] => if decide (acc = []) then [] else [acc]
  | c :: body => if decide (c = chr 10) then (acc ++ [c]) :: read_lines body [] else read_lines body (acc ++ [c])
  end.

Definition stuff (trimmed : bytes) : bytes :=
  (if HasPrefix trimmed (B ".") then B "." ++ trimmed else trimmed) ++ CRLF.

(** The loop of [writeDotted]; a negative [bodyLines] means no limit. *)
Fixpoint dotted (lines : list bytes) (bodyLines : Z) (headerDone : bool) (emitted : Z) : bytes :=
  match lines with
  | [] => []
  | line :: lines =>
      let trimmed := TrimRight line CRLF in
      if negb headerDone && bool_decide (trimmed = []) then
        stuff trimmed ++ dotted lines bodyLines true emitted
      else if headerDone && (0 <=? bodyLines) then
        if bodyLines <=? emitted then []
        else stuff trimmed ++ dotted lines bodyLines headerDone (emitted + 1)
      else stuff trimmed ++ dotted lines bodyLines headerDone emitted
  end.

Definition writeDotted (body : bytes) (bodyLines : Z) : bytes :=
  dotted (read_lines body []) bodyLines (bodyLines <? 0) 0 ++ B "." ++ CRLF.

(** The lines of LIST and UIDL: number, blank and what [show] gives, without
    the messages marked as deleted. *)
Fixpoint listing_lines (marked : gset Z) (show : Message → bytes) (i : Z) (msgs : list Message) : bytes :=
  match msgs with
  | [] => []
  | msg :: msgs =>
      (if decide (m_UID msg ∈ marked) then []
       else FormatInt (i + 1) ++ B " " ++ show msg ++ CRLF)
      ++ listing_lines marked show (i + 1) msgs
  end.

(** ** The commands *)

Section Session.
Context {U : UnicodeTables} {Acc : Accounts} (srv : Server).

Definition capabilities : P unit :=
  _ ← ok (B "capability list follows");
  enc ← gets encrypted;
  let lines := [B "TOP"; B "USER"; B "UIDL"]
    ++ (if bool_decide (tls srv ≠ None) && negb enc then [B "STLS"] else []) in
  write (concat ((λ line, line ++ CRLF) <$> lines) ++ B "." ++ CRLF).

(** [handshake] is whether [tlsConn.Handshake] succeeded. *)
Definition startTLS (handshake : bool) : P bool :=
  enc ← gets encrypted;
  if decide (tls srv = None) then _ ← err (B "TLS not configured"); mret true
  else if (enc : bool) then _ ← err (B "already using TLS"); mret true
  else
    _ ← ok (B "begin TLS negotiation");
    if handshake then _ ← modify (with_encrypted true); mret true else mret false.

Definition pass (password : bytes) : P unit :=
  p ← gets id;
  if decide (account p ≠ None) then err (B "already authenticated")
  else if decide (p_user p = []) then err (B "send USER first")
  else if bool_decide (tls srv ≠ None) && negb (encrypted p) then err (B "STLS required before authentication")
  else
    r ← call (mail_login srv (p_user p) password);
    match r with
    | None => err (B "authentication failed")
    | Some a =>
        r ← call (Snapshot (acc_UID a) Inbox);
        match r with
        | Err _ => err (B "mailbox unavailable")
        | Ok s =>
            _ ← modify (with_account a s);
            ok (B "mailbox ready, " ++ FormatInt (Z.of_nat (length (Messages (Index s)))) ++ B " messages")
        end
    end.

(** [message]: the number, the message and the account it belongs to. *)
Definition message (argument : bytes) : P (option (Z * Message * Account)) :=
  p ← gets id;
  match account p with
  | None => _ ← err (B "not authenticated"); mret None
  | Some a =>
      match Atoi argument with
      | None => _ ← err (B "no such message"); mret None
      | Some number =>
          if (number <? 1) || (Z.of_nat (length (messages p)) <? number) then
            _ ← err (B "no such message"); mret None
          else
            match messages p !! Z.to_nat (number - 1) with
            | None => mret None
            | Some msg =>
                if decide (m_UID msg ∈ deleted p) then _ ← err (B "message is deleted"); mret None
                else mret (Some (number, msg, a))
            end
      end
  end.

Definition stat : P unit :=
  p ← gets id;
  match account p with
  | None => err (B "not authenticated")
  | Some _ =>
      let kept := filter (λ msg, m_UID msg ∉ deleted p) (messages p) in
      let size := foldl (λ total msg, uint64 (total + m_Size msg)) 0 kept in
      ok (FormatInt (Z.of_nat (length kept)) ++ B " " ++ FormatInt size)
  end.

(** LIST and UIDL share their shape: [show] is the text after the number. *)
Definition numbered (heading : bytes) (show : pop3Session → Message → bytes) (argument : bytes) : P unit :=
  if decide (argument ≠ []) then
    r ← message argument;
    match r with
    | None => mret tt
    | Some (number, msg, _) => p ← gets id; ok (FormatInt number ++ B " " ++ show p msg)
    end
  else
    p ← gets id;
    match account p with
    | None => err (B "not authenticated")
    | Some _ =>
        _ ← ok heading;
        write (listing_lines (deleted p) (show p) 0 (messages p) ++ B "." ++ CRLF)
    end.

Definition list_ : bytes → P unit :=
  numbered (B "scan listing follows") (λ _ msg, FormatInt (m_Size msg)).

Definition pop3_uid (p : pop3Session) (msg : Message) : bytes :=
  FormatInt (match snapshot p with Some s => UIDValidity (Index s) | None => 0 end) ++ B "." ++ FormatInt (m_UID msg).

Definition uidl : bytes → P unit := numbered (B "unique-id listing follows") pop3_uid.

Definition retr (argument : bytes) : P unit :=
  r ← message argument;
  match r with
  | None => mret tt
  | Some (_, msg, a) =>
      r ← call (Body (acc_UID a) Inbox msg);
      match r with
      | Err _ => err (B "message unavailable")
      | Ok body =>
          let body := content_bytes body in
          _ ← ok (FormatInt (Z.of_nat (length body)) ++ B " octets");
          _ ← write (writeDotted body (-1));
          _ ← call (SetFlags (acc_UID a) Inbox [m_UID msg] [FlagSeen] FlagsAdd);
          mret tt
      end
  end.

Definition top (argument : bytes) : P unit :=
  match Fields argument with
  | [number; count] =>
      match Atoi count with
      | None => err (B "invalid line count")
      | Some lines =>
          if lines <? 0 then err (B "invalid line count")
          else
            r ← message number;
            match r with
            | None => mret tt
            | Some (_, msg, a) =>
                r ← call (Body (acc_UID a) Inbox msg);
                match r with
                | Err _ => err (B "message unavailable")
                | Ok body =>
                    _ ← ok (B "top of message follows");
                    write (writeDotted (content_bytes body) lines)
                end
            end
      end
  | _ => err (B "usage: TOP msg lines")
  end.

Definition dele (argument : bytes) : P unit :=
  r ← message argument;
  match r with
  | None => mret tt
  | Some (_, msg, _) =>
      _ ← modify (λ p, with_deleted ({[m_UID msg]} ∪ deleted p) p);
      ok (B "message marked for deletion")
  end.

Definition rset : P unit :=
  p ← gets id;
  match account p with
  | None => err (B "not authenticated")
  | Some _ => _ ← modify (with_deleted ∅); ok (B "deletions cleared")
  end.

Definition quit : P unit :=
  p ← gets id;
  match account p with
  | None => ok (B "bye")
  | Some a =>
      let uids := elements (deleted p) in
      if decide (uids = []) then ok (B "bye")
      else
        r ← call (Remove (acc_UID a) Inbox uids);
        match r with
        | Err _ => err (B "could not delete messages")
        | Ok _ => ok (B "bye")
        end
  end.

(** [handle]: whether the session goes on. *)
Definition handle (handshake : bool) (command argument : bytes) : P bool :=
  if decide (command = B "CAPA") then _ ← capabilities; mret true
  else if decide (command = B "STLS") then startTLS handshake
  else if decide (command = B "USER") then
    _ ← modify (with_user argument); _ ← ok (B "send PASS"); mret true
  else if decide (command = B "PASS") then _ ← pass argument; mret true
  else if decide (command = B "QUIT") then _ ← quit; mret false
  else if decide (command = B "NOOP") then _ ← ok []; mret true
  else if decide (command = B "STAT") then _ ← stat; mret true
  else if decide (command = B "LIST") then _ ← list_ argument; mret true
  else if decide (command = B "UIDL") then _ ← uidl argument; mret true
  else if decide (command = B "RETR") then _ ← retr argument; mret true
  else if decide (command = B "TOP") then _ ← top argument; mret true
  else if decide (command = B "DELE") then _ ← dele argument; mret true
  else if decide (command = B "RSET") then _ ← rset; mret true
  else _ ← err (B "unknown command"); mret true.

(** The command word and the argument of a received line. *)
Definition parse_command (line : bytes) : bytes * bytes :=
  let line := TrimRight line CRLF in
  let '(command, argument) :=
    match IndexByte line " "%char with
    | Some index => (take index line, TrimSpace (drop (S index) line))
    | None => (line, [])
    end in
  (ToUpper command, argument).

(** What happens during a session: a line arrives (with the outcome of the
    TLS handshake, should it ask for one), or another connection uses the
    store. *)
Inductive event :=
| Received (line : bytes) (handshake : bool)
| Meanwhile (act : M unit).

(** The loop of [serve]; the end of the list is a failed read. *)
Fixpoint serve_loop (es : list event) : P unit :=
  match es with
  | [] => mret tt
  | Meanwhile act :: es => _ ← call act; serve_loop es
  | Received line handshake :: es =>
      let '(command, argument) := parse_command line in
      continue ← handle handshake command argument;
      if (continue : bool) then serve_loop es else mret tt
  end.

Definition serve (es : list event) : P unit :=
  _ ← ok (B "Astraccounts POP3 ready"); serve_loop es.

End Session.

(** A connection just accepted: [implicit] on the implicit-TLS listener. *)
Definition new_session (implicit : bool) (w : world) : pop3Session :=
  Pop3Session implicit None [] None ∅ [] w.
