(* ===== verification/Pop3Spec.v ===== *)
(** * Pop3Spec: what a POP3 session promises

    The text of a message survives dot-stuffing; a session implements the
    maildrop of RFC 1939, whose deletions take effect at QUIT and nowhere
    else; and nothing is disclosed before authentication. *)

From S2P Require Import Prelude GoStrings Strconv World WorldFacts Accounts AccountsFacts Flags MailStore.
From S2P Require Import MailNames MailFacts MailOps Fixtures MailFixtures Directory Token Config MailServer ServerFixtures Pop3.

(** ** Dot-stuffing *)

Abbreviation LF := (chr 10).

Lemma read_lines_line a b acc : LF ∉ a → read_lines (a ++ LF :: b) acc = (acc ++ a ++ [LF]) :: read_lines b [].
Proof.
  revert acc. induction a as [| c a IH]; intros acc; [done |]. intros [Hc Ha]%not_elem_of_cons. simpl.
  rewrite decide_False by congruence. rewrite IH by done. by rewrite <- !app_assoc.
Qed.

Lemma read_lines_no_LF body acc :
  LF ∉ acc → Forall (λ l, ∃ a, (LF ∉ a) ∧ (l = a ∨ l = a ++ [LF])) (read_lines body acc).
Proof.
  revert acc. induction body as [| c body IH]; intros acc Hacc; simpl.
  - case_decide; [constructor |]. apply Forall_singleton. exists acc. auto.
  - case_decide as Hc.
    + constructor; [| apply IH, not_elem_of_nil]. exists acc. subst c. auto.
    + apply IH. rewrite not_elem_of_app. split; [done |]. intros He%list_elem_of_singleton. congruence.
Qed.

Lemma trimmed_no_LF body : Forall (λ l, LF ∉ TrimRight l CRLF) (read_lines body []).
Proof.
  eapply Forall_impl; [apply (read_lines_no_LF body []), not_elem_of_nil |].
  intros l (a & Ha & Hl) Hin. destruct (TrimRight_prefix l CRLF) as (t & Ht & _).
  assert (LF ∈ l) as Hin' by (rewrite Ht; apply elem_of_app; by left).
  destruct Hl as [-> | ->]; [done |].
  destruct t as [| c t _] using rev_ind.
  - rewrite app_nil_r in Ht. rewrite <- Ht in Hin. assert (last (a ++ [LF]) = Some LF) as Hlast by apply last_snoc.
    rewrite Ht in Hlast. apply TrimRight_last in Hlast. apply Hlast. unfold CRLF, LF. set_solver.
  - rewrite app_assoc in Ht. apply app_inj_tail in Ht as [He _].
    apply Ha. rewrite He. apply elem_of_app. by left.
Qed.

(** What the client does: lines up to the single dot, with the added dots
    taken off. *)
Fixpoint undot (lines : list bytes) : option (bytes * list bytes) :=
  match lines with
  | [] => None
  | l :: lines =>
      if decide (l = B "." ++ CRLF) then Some ([], lines)
      else
        '(body, rest) ← undot lines;
        Some ((if HasPrefix l (B ".") then drop 1 l else l) ++ body, rest)
  end.

Lemma read_stuff t rest : LF ∉ t → read_lines (stuff t ++ rest) [] = stuff t :: read_lines rest [].
Proof.
  intros Ht. unfold stuff. set (u := if HasPrefix t (B ".") then B "." ++ t else t).
  assert (LF ∉ u) as Hu.
  { unfold u. destruct (HasPrefix t _); [| done]. simpl. apply not_elem_of_cons. by split. }
  change (u ++ CRLF) with (u ++ [chr 13] ++ [LF]).
  replace ((u ++ [chr 13] ++ [LF]) ++ rest) with ((u ++ [chr 13]) ++ LF :: rest) by (by rewrite <- !app_assoc).
  rewrite read_lines_line; [by rewrite <- app_assoc |].
  rewrite not_elem_of_app. split; [done |]. by intros ?%list_elem_of_singleton.
Qed.

Lemma undot_stuff t lines body rest :
  undot lines = Some (body, rest) → undot (stuff t :: lines) = Some ((t ++ CRLF) ++ body, rest).
Proof.
  intros H. simpl. unfold stuff. destruct t as [| c t].
  { rewrite decide_False by done. simpl. by rewrite H. }
  change (B ".") with ["."%char]. rewrite HasPrefix_singleton. case_bool_decide as Hc.
  - subst c. rewrite decide_False by (by destruct t). rewrite H. done.
  - rewrite decide_False by (intros [= ? _]; congruence). rewrite H. simpl.
    change ((c :: t) ++ CRLF) with (c :: t ++ CRLF).
    change ("."%char :: nil) with ["."%char]. rewrite HasPrefix_singleton. by rewrite bool_decide_eq_false_2.
Qed.

(** Lines sent with their stuffing come back as they were. *)
Lemma undot_lines ts rest :
  Forall (LF ∉.) ts →
  undot (read_lines (concat (stuff <$> ts) ++ (B "." ++ CRLF) ++ rest) []) =
  Some (concat ((.++ CRLF) <$> ts), read_lines rest []).
Proof.
  induction 1 as [| t ts Ht _ IH].
  - simpl concat. rewrite app_nil_l.
    replace ((B "." ++ CRLF) ++ rest) with (["."%char; chr 13] ++ LF :: rest) by done.
    rewrite read_lines_line by (by apply (bool_decide_unpack _)). done.
  - rewrite !fmap_cons. cbn [concat]. rewrite <- app_assoc, read_stuff by done. by apply undot_stuff.
Qed.

(** The lines of the header with the blank line that ends it, and [n] lines of
    the body: what TOP is to show. *)
Fixpoint top_lines (n : nat) (ts : list bytes) : list bytes :=
  match ts with
  | [] => []
  | t :: ts => if decide (t = []) then t :: take n ts else t :: top_lines n ts
  end.

Lemma dotted_all lines e : dotted lines (-1) true e = concat (stuff <$> ((λ l, TrimRight l CRLF) <$> lines)).
Proof. induction lines as [| l lines IH]; [done |]. cbn. by rewrite IH. Qed.

Lemma dotted_body lines n e :
  0 <= e → 0 <= n →
  dotted lines n true e = concat (stuff <$> take (Z.to_nat (n - e)) ((λ l, TrimRight l CRLF) <$> lines)).
Proof.
  revert e. induction lines as [| l lines IH]; intros e He Hn; [by rewrite fmap_nil, take_nil |].
  cbn [dotted negb andb]. replace (0 <=? n) with true by lia. cbn [andb].
  destruct (n <=? e) eqn:E.
  - by replace (Z.to_nat (n - e)) with 0%nat by lia.
  - replace (Z.to_nat (n - e)) with (S (Z.to_nat (n - (e + 1)))) by lia.
    rewrite fmap_cons. cbn [take]. rewrite fmap_cons. cbn [concat]. by rewrite IH by lia.
Qed.

Lemma dotted_top lines n :
  0 <= n →
  dotted lines n false 0 = concat (stuff <$> top_lines (Z.to_nat n) ((λ l, TrimRight l CRLF) <$> lines)).
Proof.
  intros Hn. induction lines as [| l lines IH]; [done |].
  cbn [dotted negb andb]. rewrite fmap_cons. cbn [top_lines].
  case_bool_decide as Ht; [rewrite decide_True by done | rewrite decide_False by done].
  - rewrite fmap_cons. cbn [concat]. rewrite dotted_body by lia. by rewrite Z.sub_0_r.
  - rewrite fmap_cons. cbn [concat]. by rewrite IH.
Qed.

(** A message in wire form: every line ends in CR LF and in no other CR. *)
Definition wire_form (body : bytes) : Prop :=
  ∃ ts, Forall (λ t, (LF ∉ t) ∧ last t ≠ Some (chr 13)) ts ∧ body = concat ((.++ CRLF) <$> ts).

Lemma wire_lines ts :
  Forall (λ t, (LF ∉ t) ∧ last t ≠ Some (chr 13)) ts →
  (λ l, TrimRight l CRLF) <$> read_lines (concat ((.++ CRLF) <$> ts)) [] = ts.
Proof.
  induction 1 as [| t ts [Ht Hl] _ IH]; [done |]. rewrite fmap_cons. cbn [concat].
  replace ((t ++ CRLF) ++ concat ((.++ CRLF) <$> ts)) with ((t ++ [chr 13]) ++ LF :: concat ((.++ CRLF) <$> ts))
    by (by rewrite <- !app_assoc).
  rewrite read_lines_line.
  - rewrite fmap_cons, IH, app_nil_l. f_equal. rewrite <- app_assoc.
    rewrite TrimRight_app_all.
    + apply TrimRight_id. intros c Hc Hin. unfold CRLF in Hin.
      apply elem_of_cons in Hin as [-> | ->%list_elem_of_singleton]; [done |].
      apply Ht. destruct t as [| d t _] using rev_ind; [done |]. rewrite last_snoc in Hc. injection Hc as ->.
      apply elem_of_app. right. by left.
    + unfold CRLF. repeat constructor; set_solver.
  - rewrite not_elem_of_app. split; [done |]. by intros ?%list_elem_of_singleton.
Qed.

Lemma undot_reply body n rest :
  let ts := (λ l, TrimRight l CRLF) <$> read_lines body [] in
  undot (read_lines (writeDotted body n ++ rest) []) =
    Some (concat ((.++ CRLF) <$> if n <? 0 then ts else top_lines (Z.to_nat n) ts), read_lines rest []) ∧
  (wire_form body → concat ((.++ CRLF) <$> ts) = body).
Proof.
  intros ts. assert (Forall (LF ∉.) ts) as Hts by (apply Forall_fmap, trimmed_no_LF). split.
  - unfold writeDotted. rewrite <- app_assoc.
    assert (dotted (read_lines body []) n (n <? 0) 0 =
      concat (stuff <$> if n <? 0 then ts else top_lines (Z.to_nat n) ts)) as ->.
    { destruct (n <? 0) eqn:Hn; [| apply dotted_top; lia].
      unfold ts. rewrite <- (dotted_all _ 0). clear -Hn. generalize (read_lines body []) as lines.
      induction lines as [| l lines IH]; [done |]. cbn. replace (0 <=? n) with false by lia. by rewrite IH. }
    apply (undot_lines _ rest). destruct (n <? 0); [done |]. clear -Hts.
    induction Hts as [| t l Ht Hl IH]; simpl; [constructor |].
    case_decide; constructor; try done. by apply Forall_take.
  - intros (us & Hus & ->). unfold ts. by rewrite wire_lines.
Qed.

(** C36: Dot-stuffing loses nothing: a client that reads lines up to the single
    dot and takes off the added dots recovers, whatever follows on the
    connection, the message itself for RETR and the header with its blank
    line and the first [n] body lines for TOP, for every message in the CR LF
    form that delivery stores; for any other body it recovers its lines with
    their endings normalised. *)
Theorem writeDotted_undot body n rest :
  let ts := (λ l, TrimRight l CRLF) <$> read_lines body [] in
  undot (read_lines (writeDotted body n ++ rest) []) =
    Some (concat ((.++ CRLF) <$> if n <? 0 then ts else top_lines (Z.to_nat n) ts), read_lines rest []) ∧
  (wire_form body → concat ((.++ CRLF) <$> ts) = body).
Proof. apply undot_reply. Qed.

(** ** The maildrop of RFC 1939 *)

(** An authenticated session: the messages it saw at login, numbered from 1,
    the numbers marked as deleted, and the mailbox as it is now. *)
Record maildrop := Drop {
  d_encrypted : bool;
  d_user : bytes;
  d_validity : Z;
  d_messages : list amessage;
  d_marked : gset nat;
  d_box : mailbox;
}.

Definition mark (n : nat) (d : maildrop) : maildrop :=
  Drop (d_encrypted d) (d_user d) (d_validity d) (d_messages d) ({[n]} ∪ d_marked d) (d_box d).
Definition unmark_all (d : maildrop) : maildrop :=
  Drop (d_encrypted d) (d_user d) (d_validity d) (d_messages d) ∅ (d_box d).
Definition set_box (mb : mailbox) (d : maildrop) : maildrop :=
  Drop (d_encrypted d) (d_user d) (d_validity d) (d_messages d) (d_marked d) mb.
Definition set_user (u : bytes) (d : maildrop) : maildrop :=
  Drop (d_encrypted d) u (d_validity d) (d_messages d) (d_marked d) (d_box d).
Definition set_encrypted (d : maildrop) : maildrop :=
  Drop true (d_user d) (d_validity d) (d_messages d) (d_marked d) (d_box d).

Definition ok_line (message : bytes) : bytes :=
  (if decide (message = []) then B "+OK" else B "+OK " ++ message) ++ CRLF.
Definition err_line (message : bytes) : bytes := B "-ERR " ++ message ++ CRLF.

Definition octets (x : amessage) : Z := uint32 (Z.of_nat (length (a_body x))).
Definition number (n : nat) : bytes := FormatInt (Z.of_nat n).

Definition numbered_messages (d : maildrop) : list (nat * amessage) :=
  zip (seq 1 (length (d_messages d))) (d_messages d).
Definition shown (d : maildrop) : list (nat * amessage) :=
  filter (λ nx, nx.1 ∉ d_marked d) (numbered_messages d).
Definition marked_uids (d : maildrop) : list Z :=
  (λ nx, a_uid nx.2) <$> filter (λ nx, nx.1 ∈ d_marked d) (numbered_messages d).

(** The message an argument denotes, or the complaint. *)
Definition pick (d : maildrop) (argument : bytes) : bytes + nat * amessage :=
  match Atoi argument with
  | None => inl (B "no such message")
  | Some z =>
      if (z <? 1) || (Z.of_nat (length (d_messages d)) <? z) then inl (B "no such message")
      else match d_messages d !! Z.to_nat (z - 1) with
           | None => inl (B "no such message")
           | Some x =>
               if decide (Z.to_nat z ∈ d_marked d) then inl (B "message is deleted") else inr (Z.to_nat z, x)
           end
  end.

Definition unique_id (d : maildrop) (x : amessage) : bytes := FormatInt (d_validity d) ++ B "." ++ FormatInt (a_uid x).

Definition scan (heading : bytes) (show : amessage → bytes) (argument : bytes) (d : maildrop) : bytes :=
  if decide (argument ≠ []) then
    match pick d argument with
    | inl e => err_line e
    | inr (n, x) => ok_line (number n ++ B " " ++ show x)
    end
  else ok_line heading ++ concat ((λ nx, number nx.1 ++ B " " ++ show nx.2 ++ CRLF) <$> shown d) ++ B "." ++ CRLF.

(** One command of an authenticated session: the reply, whether the session
    goes on, and the state after it. *)
Definition spec_command `{UnicodeTables} (srv : Server) (handshake : bool) (command argument : bytes) (d : maildrop) :
    bytes * bool * maildrop :=
  if decide (command = B "CAPA") then
    (ok_line (B "capability list follows") ++ B "TOP" ++ CRLF ++ B "USER" ++ CRLF ++ B "UIDL" ++ CRLF ++
     (if bool_decide (tls srv ≠ None) && negb (d_encrypted d) then B "STLS" ++ CRLF else []) ++ B "." ++ CRLF, true, d)
  else if decide (command = B "STLS") then
    if decide (tls srv = None) then (err_line (B "TLS not configured"), true, d)
    else if d_encrypted d then (err_line (B "already using TLS"), true, d)
    else (ok_line (B "begin TLS negotiation"), handshake, if handshake then set_encrypted d else d)
  else if decide (command = B "USER") then (ok_line (B "send PASS"), true, set_user argument d)
  else if decide (command = B "PASS") then (err_line (B "already authenticated"), true, d)
  else if decide (command = B "QUIT") then (ok_line (B "bye"), false, set_box (removed (d_box d) (marked_uids d)) d)
  else if decide (command = B "NOOP") then (ok_line [], true, d)
  else if decide (command = B "STAT") then
    (ok_line (number (length (shown d)) ++ B " " ++ FormatInt (uint64 (foldr (λ nx n, octets nx.2 + n) 0 (shown d)))), true, d)
  else if decide (command = B "LIST") then
    (scan (B "scan listing follows") (λ x, FormatInt (octets x)) argument d, true, d)
  else if decide (command = B "UIDL") then
    (scan (B "unique-id listing follows") (unique_id d) argument d, true, d)
  else if decide (command = B "RETR") then
    match pick d argument with
    | inl e => (err_line e, true, d)
    | inr (_, x) =>
        (ok_line (number (length (a_body x)) ++ B " octets") ++ writeDotted (a_body x) (-1), true,
         set_box (set_flags (d_box d) [a_uid x] [FlagSeen] FlagsAdd) d)
    end
  else if decide (command = B "TOP") then
    (match Fields argument with
     | [n; count] =>
         match Atoi count with
         | None => err_line (B "invalid line count")
         | Some lines =>
             if lines <? 0 then err_line (B "invalid line count")
             else match pick d n with
                  | inl e => err_line e
                  | inr (_, x) => ok_line (B "top of message follows") ++ writeDotted (a_body x) lines
                  end
         end
     | _ => err_line (B "usage: TOP msg lines")
     end, true, d)
  else if decide (command = B "DELE") then
    match pick d argument with
    | inl e => (err_line e, true, d)
    | inr (n, _) => (ok_line (B "message marked for deletion"), true, mark n d)
    end
  else if decide (command = B "RSET") then (ok_line (B "deletions cleared"), true, unmark_all d)
  else (err_line (B "unknown command"), true, d).

(** ** A session implements the maildrop *)

Section Refinement.
Context {U : UnicodeTables} {Acc : Accounts} {Laws : AccountsLaws Acc} (srv : Server) (a : Account).

Lemma inbox_canonical : CanonicalMailbox Inbox = Inbox.
Proof. unfold CanonicalMailbox. change (Trim Inbox Delimiter) with Inbox. by rewrite EqualFold_refl. Qed.

Lemma inbox_is_good : good_name Inbox.
Proof. apply good_name_iff. rewrite inbox_canonical. by apply (bool_decide_unpack _). Qed.

#[local] Abbreviation inbox := (mailboxDir (acc_UID a) Inbox).

Record drop_rel (p : pop3Session) (d : maildrop) : Prop := {
  r_encrypted : encrypted p = d_encrypted d;
  r_user : p_user p = d_user d;
  r_account : account p = Some a;
  r_snapshot : ∃ next sub, snapshot p = Some (NewSnapshot Inbox (NewIndex (d_validity d) next sub (entry_of <$> d_messages d)));
  r_distinct : NoDup (a_uid <$> d_messages d);
  r_marks : ∀ n x, d_messages d !! n = Some x → a_uid x ∈ deleted p ↔ S n ∈ d_marked d;
  r_deleted : ∀ u, u ∈ deleted p → ∃ x, x ∈ d_messages d ∧ a_uid x = u;
  r_bodies : ∀ x, x ∈ d_messages d → ∃ y, y ∈ mb_messages (d_box d) ∧ a_uid y = a_uid x ∧ a_body y = a_body x;
  r_box : at_dir (w_fs (env_world p)) inbox (Some (d_box d));
  r_healthy : healthy (env_world p);
  r_clock : clock_ok (env_world p);
}.

Lemma ok_eq msg (p : pop3Session) : ok msg p = (tt, with_writer (writer p ++ ok_line msg) p).
Proof. unfold ok, ok_line. by case_decide. Qed.

Lemma err_eq msg (p : pop3Session) : err msg p = (tt, with_writer (writer p ++ err_line msg) p).
Proof. unfold err, respond, write, modify, err_line. by rewrite <- app_assoc. Qed.

Lemma drop_rel_writer o p d : drop_rel p d → drop_rel (with_writer o p) d.
Proof. by intros []. Qed.

Lemma drop_messages p d : drop_rel p d → messages p = entry_of <$> d_messages d.
Proof. intros [_ _ _ (next & sub & H) _ _ _ _ _ _ _]. unfold messages. by rewrite H. Qed.

(** Looking up a message number. *)
Lemma message_eq argument p d :
  drop_rel p d →
  message argument p =
  match pick d argument with
  | inl e => (None, with_writer (writer p ++ err_line e) p)
  | inr (n, x) => (Some (Z.of_nat n, entry_of x, a), p)
  end.
Proof.
  intros Hr. unfold message, pick. rewrite (st_bind_eq (gets id) _ p p p eq_refl). rewrite (r_account _ _ Hr).
  destruct (Atoi argument) as [z |]; [| by rewrite (st_bind_eq _ _ _ _ _ (err_eq _ p))].
  rewrite (drop_messages _ _ Hr), length_fmap. destruct ((z <? 1) || _) eqn:Hz.
  { by rewrite (st_bind_eq _ _ _ _ _ (err_eq _ p)). }
  apply orb_false_iff in Hz as [Hz1 Hz2]. rewrite list_lookup_fmap.
  destruct (d_messages d !! Z.to_nat (z - 1)) as [x |] eqn:Hx.
  2: { apply lookup_ge_None in Hx. lia. }
  cbn [fmap option_fmap option_map]. apply (r_marks _ _ Hr) in Hx as Hm.
  replace (S (Z.to_nat (z - 1))) with (Z.to_nat z) in Hm by lia. cbn [entry_of m_UID].
  destruct (decide (a_uid x ∈ deleted p)) as [Hin | Hin].
  - rewrite decide_True by (by apply Hm). by rewrite (st_bind_eq _ _ _ _ _ (err_eq _ p)).
  - rewrite decide_False by (by intros ?%Hm). rewrite Z2Nat.id by lia. done.
Qed.

Lemma message_err argument p d e :
  drop_rel p d → pick d argument = inl e → message argument p = (None, with_writer (writer p ++ err_line e) p).
Proof. intros Hr Hp. by rewrite (message_eq _ _ _ Hr), Hp. Qed.

Lemma message_pick argument p d n x :
  drop_rel p d → pick d argument = inr (n, x) → message argument p = (Some (Z.of_nat n, entry_of x, a), p).
Proof. intros Hr Hp. by rewrite (message_eq _ _ _ Hr), Hp. Qed.

(** The messages not marked, on both sides. *)
Lemma kept_messages p d :
  drop_rel p d →
  filter (λ msg, m_UID msg ∉ deleted p) (entry_of <$> d_messages d) = (λ nx, entry_of nx.2) <$> shown d.
Proof.
  intros Hr. unfold shown, numbered_messages. pose proof (r_marks _ _ Hr) as Hm. revert Hm.
  generalize (d_messages d) as l. intros l. change 1%nat with (S 0).
  assert (∀ k, (∀ n x, l !! n = Some x → a_uid x ∈ deleted p ↔ S (k + n) ∈ d_marked d) →
    filter (λ msg, m_UID msg ∉ deleted p) (entry_of <$> l) =
    (λ nx : nat * amessage, entry_of nx.2) <$> filter (λ nx, nx.1 ∉ d_marked d) (zip (seq (S k) (length l)) l)) as H.
  { induction l as [| x l IH]; intros k Hm; [done |]. rewrite fmap_cons. cbn [length seq zip].
    rewrite !filter_cons. pose proof (Hm 0%nat x eq_refl) as H0. rewrite Nat.add_0_r in H0.
    assert (∀ n y, l !! n = Some y → a_uid y ∈ deleted p ↔ S (S k + n) ∈ d_marked d) as Hm'.
    { intros n y Hy. by rewrite (Hm (S n) y Hy), Nat.add_succ_r. }
    cbn [entry_of m_UID fst]. destruct (decide (a_uid x ∈ deleted p)) as [Hin | Hin].
    - rewrite !decide_False by tauto. by apply IH.
    - rewrite !decide_True by tauto. rewrite fmap_cons. f_equal. by apply IH. }
  intros Hm. apply (H 0%nat). exact Hm.
Qed.

Lemma listing_eq show p d (show' : amessage → bytes) :
  drop_rel p d → (∀ x, show (entry_of x) = show' x) →
  listing_lines (deleted p) show 0 (entry_of <$> d_messages d) =
  concat ((λ nx, number nx.1 ++ B " " ++ show' nx.2 ++ CRLF) <$> shown d).
Proof.
  intros Hr Hs. unfold shown, numbered_messages. pose proof (r_marks _ _ Hr) as Hm. revert Hm.
  generalize (d_messages d) as l. intros l.
  assert (∀ k, (∀ n x, l !! n = Some x → a_uid x ∈ deleted p ↔ S (k + n) ∈ d_marked d) →
    listing_lines (deleted p) show (Z.of_nat k) (entry_of <$> l) =
    concat ((λ nx : nat * amessage, number nx.1 ++ B " " ++ show' nx.2 ++ CRLF) <$>
      filter (λ nx, nx.1 ∉ d_marked d) (zip (seq (S k) (length l)) l))) as H.
  { induction l as [| x l IH]; intros k Hm; [done |]. rewrite fmap_cons. cbn [length seq zip listing_lines].
    rewrite filter_cons. pose proof (Hm 0%nat x eq_refl) as H0. rewrite Nat.add_0_r in H0.
    assert (∀ n y, l !! n = Some y → a_uid y ∈ deleted p ↔ S (S k + n) ∈ d_marked d) as Hm'.
    { intros n y Hy. by rewrite (Hm (S n) y Hy), Nat.add_succ_r. }
    replace (Z.of_nat k + 1) with (Z.of_nat (S k)) by lia. rewrite (IH (S k) Hm').
    rewrite Hs. cbn [entry_of m_UID fst]. destruct (decide (a_uid x ∈ deleted p)) as [Hin | Hin].
    - by rewrite decide_False by tauto.
    - by rewrite decide_True by tauto. }
  intros Hm. apply (H 0%nat). exact Hm.
Qed.

Lemma total_size (l : list (nat * amessage)) :
  foldl (λ total msg, uint64 (total + m_Size msg)) 0 ((λ nx, entry_of nx.2) <$> l) =
  uint64 (foldr (λ nx n, octets nx.2 + n) 0 l).
Proof.
  assert (∀ acc, foldl (λ total msg, uint64 (total + m_Size msg)) (uint64 acc) ((λ nx : nat * amessage, entry_of nx.2) <$> l) =
    uint64 (acc + foldr (λ nx n, octets nx.2 + n) 0 l)) as H.
  { induction l as [| x l IH]; intros acc; [simpl; by rewrite Z.add_0_r |].
    rewrite fmap_cons. cbn [foldl foldr]. replace (uint64 (uint64 acc + m_Size (entry_of x.2))) with (uint64 (acc + octets x.2)).
    - rewrite IH. f_equal. lia.
    - unfold uint64. by rewrite Z.add_mod_idemp_l. }
  exact (H 0).
Qed.

(** What a step must establish. *)
Definition implements (m : P bool) (p : pop3Session) (spec : bytes * bool * maildrop) : Prop :=
  let '(out, b, d') := spec in
  ∃ p', m p = (b, p') ∧ writer p' = writer p ++ out ∧ drop_rel p' d' ∧ w_now (env_world p') = w_now (env_world p).

Lemma implements_ok msg p d :
  drop_rel p d → implements (_ ← ok msg; mret true) p (ok_line msg, true, d).
Proof.
  intros Hr. eexists. rewrite (st_bind_eq _ _ _ _ _ (ok_eq _ p)). split; [done |].
  split; [done |]. split; [by apply drop_rel_writer | done].
Qed.

Lemma implements_err msg p d :
  drop_rel p d → implements (_ ← err msg; mret true) p (err_line msg, true, d).
Proof.
  intros Hr. eexists. rewrite (st_bind_eq _ _ _ _ _ (err_eq _ p)). split; [done |].
  split; [done |]. split; [by apply drop_rel_writer | done].
Qed.

(** A step that only writes. *)
Lemma implements_write (m : P bool) p d out :
  drop_rel p d → m p = (true, with_writer (writer p ++ out) p) → implements m p (out, true, d).
Proof.
  intros Hr Hm. eexists. split; [exact Hm |]. split; [done |]. split; [by apply drop_rel_writer | done].
Qed.

Lemma capa_implements p d :
  drop_rel p d → implements (_ ← capabilities srv; mret true) p (spec_command srv false (B "CAPA") [] d).
Proof.
  intros Hr. unfold spec_command. rewrite decide_True by done. apply implements_write; [done |].
  unfold capabilities, mbind, st_bind, mret, st_ret. rewrite ok_eq. unfold gets, write, modify.
  cbn [encrypted with_writer]. rewrite (r_encrypted _ _ Hr).
  destruct (bool_decide (tls srv ≠ None) && negb (d_encrypted d));
    unfold with_writer; cbn [writer encrypted account p_user snapshot deleted env_world];
    rewrite <- app_assoc; reflexivity.
Qed.

Lemma stls_implements hs p d :
  drop_rel p d → implements (startTLS srv hs) p (spec_command srv hs (B "STLS") [] d).
Proof.
  intros Hr. unfold spec_command. rewrite decide_False, decide_True by done. unfold startTLS.
  destruct (decide (tls srv = None)).
  { apply implements_write; [done |]. by rewrite (st_bind_eq (gets encrypted) _ p _ p eq_refl), (st_bind_eq _ _ _ _ _ (err_eq _ p)). }
  destruct (d_encrypted d) eqn:He.
  { apply implements_write; [done |]. rewrite (st_bind_eq (gets encrypted) _ p _ p eq_refl), (r_encrypted _ _ Hr), He.
    by rewrite (st_bind_eq _ _ _ _ _ (err_eq _ p)). }
  set (q := with_writer (writer p ++ ok_line (B "begin TLS negotiation")) p).
  exists (if hs then with_encrypted true q else q).
  rewrite (st_bind_eq (gets encrypted) _ p _ p eq_refl), (r_encrypted _ _ Hr), He.
  rewrite (st_bind_eq _ _ _ _ _ (ok_eq _ p)). destruct hs.
  - split; [reflexivity |]. split; [done |]. split; [by destruct Hr | done].
  - split; [reflexivity |]. split; [done |]. split; [by apply drop_rel_writer | done].
Qed.

Lemma user_implements argument p d :
  drop_rel p d →
  implements (_ ← modify (with_user argument); _ ← ok (B "send PASS"); mret true) p
    (ok_line (B "send PASS"), true, set_user argument d).
Proof.
  intros Hr. eexists. rewrite (st_bind_eq (modify (with_user argument)) _ p tt (with_user argument p) eq_refl).
  rewrite (st_bind_eq _ _ _ _ _ (ok_eq _ (with_user argument p))). split; [reflexivity |]. split; [done |].
  split; [by destruct Hr | done].
Qed.

Lemma pass_implements argument p d :
  drop_rel p d →
  implements (_ ← pass srv argument; mret true) p (err_line (B "already authenticated"), true, d).
Proof.
  intros Hr. apply implements_write; [done |]. unfold pass.
  unfold mbind at 1. unfold st_bind at 1. rewrite (st_bind_eq (gets id) _ p p p eq_refl), (r_account _ _ Hr).
  rewrite decide_True by done. by rewrite err_eq.
Qed.

Lemma stat_implements p d :
  drop_rel p d → implements (_ ← stat; mret true) p
    (ok_line (number (length (shown d)) ++ B " " ++ FormatInt (uint64 (foldr (λ nx n, octets nx.2 + n) 0 (shown d)))), true, d).
Proof.
  intros Hr. apply implements_write; [done |]. unfold stat, mbind at 1, st_bind at 1.
  rewrite (st_bind_eq (gets id) _ p p p eq_refl), (r_account _ _ Hr). cbv zeta.
  rewrite (drop_messages _ _ Hr), (kept_messages _ _ Hr), total_size, length_fmap. by rewrite ok_eq.
Qed.

Lemma scan_implements heading show show' argument p d :
  drop_rel p d → (∀ q x, drop_rel q d → show q (entry_of x) = show' x) →
  implements (_ ← numbered heading show argument; mret true) p (scan heading show' argument d, true, d).
Proof.
  intros Hr Hs. apply implements_write; [done |]. unfold numbered, scan, mbind at 1, st_bind at 1.
  destruct (decide (argument ≠ [])).
  - destruct (pick d argument) as [e | [k x]] eqn:Hp.
    { by rewrite (st_bind_eq _ _ _ _ _ (message_err _ _ _ _ Hr Hp)). }
    rewrite (st_bind_eq _ _ _ _ _ (message_pick _ _ _ _ _ Hr Hp)). rewrite (st_bind_eq (gets id) _ p p p eq_refl), (Hs p x Hr). by rewrite ok_eq.
  - rewrite (st_bind_eq (gets id) _ p p p eq_refl), (r_account _ _ Hr).
    rewrite (st_bind_eq _ _ _ _ _ (ok_eq _ p)), (drop_messages _ _ Hr).
    rewrite (listing_eq _ _ _ show' Hr) by (intros x; by apply Hs).
    unfold write, modify, with_writer. cbn [writer encrypted account p_user snapshot deleted env_world].
    unfold mret, st_ret. by rewrite <- app_assoc.
Qed.

Lemma unique_id_eq p d x : drop_rel p d → pop3_uid p (entry_of x) = unique_id d x.
Proof. intros [_ _ _ (next & sub & H) _ _ _ _ _ _ _]. unfold pop3_uid. by rewrite H. Qed.

Lemma pick_inv argument d n x :
  pick d argument = inr (n, x) → ∃ k, n = S k ∧ d_messages d !! k = Some x ∧ n ∉ d_marked d.
Proof.
  unfold pick. destruct (Atoi argument) as [z |]; [| done]. destruct ((z <? 1) || _) eqn:Hz; [done |].
  destruct (d_messages d !! _) eqn:Hx; [| done]. case_decide; [done |]. intros [= <- <-].
  exists (Z.to_nat (z - 1)). split; [| done]. lia.
Qed.

(** The body file of a message of the session. *)
Lemma session_body p d x :
  drop_rel p d → x ∈ d_messages d →
  Body (acc_UID a) Inbox (entry_of x) (env_world p) = (Ok (Raw (a_body x)), env_world p).
Proof.
  intros Hr Hx. destruct (r_bodies _ _ Hr x Hx) as (y & Hy & Hu & Hb).
  rewrite <- Hb. unfold Body. cbn [entry_of m_File]. rewrite <- Hu.
  exact (Body_healthy _ _ _ _ _ inbox_is_good (r_box _ _ Hr) Hy (r_healthy _ _ Hr)).
Qed.

Lemma call_eq {A} (m : M A) p r w : m (env_world p) = (r, w) → call m p = (r, with_world w p).
Proof. intros H. unfold call. by rewrite H. Qed.

Lemma with_world_id p : with_world (env_world p) p = p.
Proof. by destruct p. Qed.

Lemma top_implements argument p d :
  drop_rel p d → implements (_ ← top argument; mret true) p (spec_command srv false (B "TOP") argument d).
Proof.
  intros Hr. unfold spec_command.
  do 10 (rewrite decide_False by done). rewrite decide_True by done.
  apply implements_write; [done |]. unfold top, mbind at 1, st_bind at 1.
  destruct (Fields argument) as [| n [| count [| ? ?]]]; try (by rewrite err_eq).
  destruct (Atoi count) as [lines |]; [| by rewrite err_eq].
  destruct (lines <? 0); [by rewrite err_eq |].
  destruct (pick d n) as [e | [k x]] eqn:Hp.
  { by rewrite (st_bind_eq _ _ _ _ _ (message_err _ _ _ _ Hr Hp)). }
  rewrite (st_bind_eq _ _ _ _ _ (message_pick _ _ _ _ _ Hr Hp)). apply pick_inv in Hp as (i & -> & Hx & _).
  apply list_elem_of_lookup_2 in Hx. pose proof (session_body p d x Hr Hx) as Hb.
  rewrite (st_bind_eq _ _ _ _ _ (call_eq _ _ _ _ Hb)), with_world_id.
  rewrite (st_bind_eq _ _ _ _ _ (ok_eq _ p)).
  unfold write, modify, with_writer. cbn [writer encrypted account p_user snapshot deleted env_world content_bytes].
  unfold mret, st_ret. by rewrite <- app_assoc.
Qed.

Lemma drop_rel_box p d mb w :
  drop_rel p d → at_dir (w_fs w) inbox (Some mb) → healthy w → clock_ok w →
  (∀ y, y ∈ mb_messages (d_box d) → ∃ z, z ∈ mb_messages mb ∧ a_uid z = a_uid y ∧ a_body z = a_body y) →
  drop_rel (with_world w p) (set_box mb d).
Proof.
  intros [H1 H2 H3 H4 H5 H6 H7 H8 H9 H10 H11] Hb Hh Hc Hk. constructor; try done.
  intros x Hx. destruct (H8 x Hx) as (y & Hy & Hu & Hby). destruct (Hk y Hy) as (z & Hz & Hu' & Hbz).
  exists z. split; [done |]. split; congruence.
Qed.

(** Operations that keep every message. *)
Definition keeps (op : mailbox_op) : Prop := match op with OpRemove _ => False | _ => True end.

Lemma keeps_messages now mb op y :
  keeps op → y ∈ mb_messages mb →
  ∃ z, z ∈ mb_messages (apply_op now mb op) ∧ a_uid z = a_uid y ∧ a_body z = a_body y.
Proof.
  intros Hk Hy. destruct op as [flags date body | uids flags op | b | uids]; simpl; [| | | done].
  - exists y. split; [apply elem_of_app; by left | done].
  - exists (if decide (a_uid y ∈ uids) then AMessage (a_uid y) (applyFlags (a_flags y) flags op) (a_date y) (a_body y) else y).
    split; [apply list_elem_of_fmap; by exists y |].
    by case_decide.
  - by exists y.
Qed.

Lemma retr_implements argument p d :
  drop_rel p d → mb_next (d_box d) < 2 ^ 32 - 1 →
  implements (_ ← retr argument; mret true) p (spec_command srv false (B "RETR") argument d).
Proof.
  intros Hr Hlt. unfold spec_command.
  do 9 (rewrite decide_False by done). rewrite decide_True by done.
  unfold retr. destruct (pick d argument) as [e | [k x]] eqn:Hp.
  { apply implements_write; [done |]. unfold mbind at 1, st_bind at 1.
    by rewrite (st_bind_eq _ _ _ _ _ (message_err _ _ _ _ Hr Hp)). }
  destruct (run_op_healthy (acc_UID a) Inbox (OpSetFlags [a_uid x] [FlagSeen] FlagsAdd) (env_world p) (d_box d))
    as (f & Hf & _ & Had); [apply inbox_is_good | apply Hr | apply Hr | apply Hr | done |].
  set (out := ok_line (number (length (a_body x)) ++ B " octets") ++ writeDotted (a_body x) (-1)).
  set (q := with_writer (writer p ++ out) p).
  exists (with_world (set_fs f (env_world p)) q). split; [| split; [done | split; [| done]]].
  - unfold mbind at 1, st_bind at 1. rewrite (st_bind_eq _ _ _ _ _ (message_pick _ _ _ _ _ Hr Hp)).
    apply pick_inv in Hp as (i & -> & Hx & _). apply list_elem_of_lookup_2 in Hx.
    pose proof (session_body p d x Hr Hx) as Hb.
    rewrite (st_bind_eq _ _ _ _ _ (call_eq _ _ _ _ Hb)), with_world_id. cbv zeta. cbn [content_bytes].
    rewrite (st_bind_eq _ _ _ _ _ (ok_eq _ p)).
    set (q' := with_writer _ p). rewrite (st_bind_eq (write (writeDotted (a_body x) (-1))) _ q' tt q).
    + rewrite (st_bind_eq _ _ _ _ _ (call_eq _ q _ _ Hf)). done.
    + unfold write, modify, q, q', out. cbn [writer with_writer]. by rewrite <- app_assoc.
  - apply (drop_rel_box q d); [by apply drop_rel_writer | done | apply Hr | apply Hr |].
    intros y Hy. by apply (keeps_messages (w_now (env_world p)) (d_box d) (OpSetFlags [a_uid x] [FlagSeen] FlagsAdd)).
Qed.

Lemma dele_implements argument p d :
  drop_rel p d → implements (_ ← dele argument; mret true) p (spec_command srv false (B "DELE") argument d).
Proof.
  intros Hr. unfold spec_command.
  do 11 (rewrite decide_False by done). rewrite decide_True by done.
  unfold dele. destruct (pick d argument) as [e | [k x]] eqn:Hp.
  { apply implements_write; [done |]. unfold mbind at 1, st_bind at 1.
    by rewrite (st_bind_eq _ _ _ _ _ (message_err _ _ _ _ Hr Hp)). }
  set (q := with_deleted ({[a_uid x]} ∪ deleted p) p).
  exists (with_writer (writer p ++ ok_line (B "message marked for deletion")) q).
  split; [| split; [done | split; [| done]]].
  - unfold mbind at 1, st_bind at 1. rewrite (st_bind_eq _ _ _ _ _ (message_pick _ _ _ _ _ Hr Hp)).
    rewrite (st_bind_eq (modify (λ p, with_deleted ({[m_UID (entry_of x)]} ∪ deleted p) p)) _ p tt q eq_refl).
    by rewrite ok_eq.
  - apply drop_rel_writer. apply pick_inv in Hp as (i & -> & Hx & Hm).
    destruct Hr as [H1 H2 H3 H4 H5 H6 H7 H8 H9 H10 H11]. constructor; try done.
    + intros n y Hy. cbn [deleted with_deleted mark d_marked d_messages q] in Hy |- *. rewrite !elem_of_union, !elem_of_singleton, (H6 n y Hy).
      assert (a_uid y = a_uid x ↔ S n = S i) as ->; [| done]. split.
      * intros He. f_equal. apply (NoDup_lookup _ _ _ (a_uid x) H5); rewrite list_lookup_fmap.
        -- rewrite Hy. simpl. by rewrite He.
        -- by rewrite Hx.
      * intros [= ->]. congruence.
    + intros u. cbn [deleted with_deleted q]. rewrite elem_of_union, elem_of_singleton. intros [-> | Hu]; [| by apply H7].
      exists x. split; [by eapply list_elem_of_lookup_2 | done].
Qed.

Lemma rset_implements p d :
  drop_rel p d → implements (_ ← rset; mret true) p (ok_line (B "deletions cleared"), true, unmark_all d).
Proof.
  intros Hr. eexists. unfold rset, mbind at 1, st_bind at 1.
  rewrite (st_bind_eq (gets id) _ p p p eq_refl), (r_account _ _ Hr).
  rewrite (st_bind_eq (modify (with_deleted ∅)) _ p tt (with_deleted ∅ p) eq_refl), ok_eq.
  split; [reflexivity |]. split; [done |]. split; [| done].
  destruct Hr as [H1 H2 H3 H4 H5 H6 H7 H8 H9 H10 H11]. constructor; try done.
Qed.

Lemma elem_of_numbered d n x : (n, x) ∈ numbered_messages d → ∃ k, n = S k ∧ d_messages d !! k = Some x.
Proof.
  unfold numbered_messages. intros (k & Hk)%list_elem_of_lookup. exists k.
  apply lookup_zip_Some in Hk as [Hn Hx]. apply lookup_seq in Hn as [-> _]. done.
Qed.

Lemma numbered_elem d k x : d_messages d !! k = Some x → (S k, x) ∈ numbered_messages d.
Proof.
  intros Hx. apply list_elem_of_lookup. exists k. apply lookup_zip_Some. split; [| done].
  apply lookup_seq. split; [done |]. by apply lookup_lt_Some in Hx.
Qed.

(** The UIDs the session marked are those of the marked numbers. *)
Lemma marked_deleted p d u : drop_rel p d → u ∈ elements (deleted p) ↔ u ∈ marked_uids d.
Proof.
  intros Hr. rewrite elem_of_elements. unfold marked_uids. rewrite list_elem_of_fmap. split.
  - intros Hu. destruct (r_deleted _ _ Hr u Hu) as (x & (k & Hx)%list_elem_of_lookup & He).
    exists (S k, x). split; [done |]. apply list_elem_of_filter. split; [| by apply numbered_elem].
    simpl. apply (r_marks _ _ Hr _ _ Hx). by rewrite He.
  - intros ([n x] & -> & [Hm (k & -> & Hx)%elem_of_numbered]%list_elem_of_filter). by apply (r_marks _ _ Hr _ _ Hx).
Qed.

Lemma removed_nil mb : removed mb [] = mb.
Proof.
  destruct mb as [v n s l]. unfold removed. cbn [mb_messages mb_validity mb_next mb_subscribed]. f_equal.
  induction l as [| x l IH]; [done |]. rewrite filter_cons, decide_True by apply not_elem_of_nil. by rewrite IH.
Qed.

(** QUIT ends the session, so only the mailbox it leaves matters. *)
Lemma quit_commits p d :
  drop_rel p d →
  ∃ p', quit p = (tt, p') ∧ writer p' = writer p ++ ok_line (B "bye") ∧
    at_dir (w_fs (env_world p')) inbox (Some (removed (d_box d) (marked_uids d))).
Proof.
  intros Hr. unfold quit. rewrite (st_bind_eq (gets id) _ p p p eq_refl), (r_account _ _ Hr). cbv zeta.
  assert (removed (d_box d) (elements (deleted p)) = removed (d_box d) (marked_uids d)) as He.
  { unfold removed. f_equal. apply list_filter_iff. intros x. by rewrite (marked_deleted _ _ _ Hr). }
  destruct (decide (elements (deleted p) = [])) as [Hn | Hn].
  - rewrite ok_eq. eexists. split; [done |]. split; [done |]. rewrite <- He, Hn.
    rewrite removed_nil. apply Hr.
  - destruct (Remove_healthy (acc_UID a) Inbox (env_world p) (d_box d) (elements (deleted p))) as [f Hf];
      [apply inbox_is_good | apply Hr | apply Hr |].
    rewrite (st_bind_eq _ _ _ _ _ (call_eq _ _ _ _ Hf)), ok_eq. eexists. split; [done |]. split; [done |].
    cbn [env_world with_writer with_world]. rewrite <- He.
    eapply Remove_inv in Hf as (_ & _ & _ & H & _); [exact H | apply inbox_is_good | apply Hr].
Qed.

(** Every command. *)
Lemma handle_implements hs command argument p d :
  drop_rel p d → mb_next (d_box d) < 2 ^ 32 - 1 → command ≠ B "QUIT" →
  implements (handle srv hs command argument) p (spec_command srv hs command argument d).
Proof.
  intros Hr Hlt Hq. unfold handle.
  destruct (decide (command = B "CAPA")) as [-> | H1]; [by apply capa_implements |].
  destruct (decide (command = B "STLS")) as [-> | H2]; [by apply stls_implements |].
  destruct (decide (command = B "RETR")) as [-> | H9].
  { do 7 (rewrite decide_False by done). by apply retr_implements. }
  destruct (decide (command = B "TOP")) as [-> | H10].
  { do 7 (rewrite decide_False by done). by apply top_implements. }
  destruct (decide (command = B "DELE")) as [-> | H11].
  { do 7 (rewrite decide_False by done). by apply dele_implements. }
  unfold spec_command. rewrite (decide_False (P := command = B "CAPA")), (decide_False (P := command = B "STLS")),
    (decide_False (P := command = B "RETR")), (decide_False (P := command = B "TOP")),
    (decide_False (P := command = B "DELE")) by done.
  destruct (decide (command = B "USER")) as [-> | H3]; [by apply user_implements |].
  destruct (decide (command = B "PASS")) as [-> | H4]; [by apply pass_implements |].
  destruct (decide (command = B "QUIT")) as [-> | _]; [done |].
  destruct (decide (command = B "NOOP")) as [-> | H5]; [by apply implements_ok |].
  destruct (decide (command = B "STAT")) as [-> | H6]; [by apply stat_implements |].
  destruct (decide (command = B "LIST")) as [-> | H7]; [by apply scan_implements |].
  destruct (decide (command = B "UIDL")) as [-> | H8]; [apply scan_implements; [done | intros; by apply unique_id_eq] |].
  destruct (decide (command = B "RSET")) as [-> | H12]; [by apply rset_implements |].
  by apply implements_err.
Qed.

(** What happens during a session, for the abstract maildrop: a line from the
    client, or an operation of another connection on the same mailbox. *)
Inductive client_event :=
| Line (line : bytes) (handshake : bool)
| Elsewhere (op : mailbox_op).

Definition event_of (e : client_event) : event :=
  match e with
  | Line line handshake => Received line handshake
  | Elsewhere op => Meanwhile (_ ← run_op (acc_UID a) Inbox op; mret tt)
  end.

(** The replies of a whole session and the state it leaves. *)
Fixpoint spec_session (now : Z) (evs : list client_event) (d : maildrop) : bytes * maildrop :=
  match evs with
  | [] => ([], d)
  | Elsewhere op :: evs => spec_session now evs (set_box (apply_op now (d_box d) op) d)
  | Line line handshake :: evs =>
      let '(command, argument) := parse_command line in
      let '(out, continue, d) := spec_command srv handshake command argument d in
      if (continue : bool) then let '(out', d') := spec_session now evs d in (out ++ out', d') else (out, d)
  end.

Definition kept_events (evs : list client_event) : Prop :=
  Forall (λ e, match e with Elsewhere op => keeps op | Line _ _ => True end) evs.

Definition quits (e : client_event) : bool :=
  match e with Line line _ => bool_decide ((parse_command line).1 = B "QUIT") | Elsewhere _ => false end.

(** Only QUIT removes messages. *)
Definition same_messages (mb mb' : mailbox) : Prop :=
  ∀ y, y ∈ mb_messages mb → ∃ z, z ∈ mb_messages mb' ∧ a_uid z = a_uid y ∧ a_body z = a_body y.

Lemma same_messages_refl mb : same_messages mb mb.
Proof. intros y Hy. by exists y. Qed.
Lemma same_messages_trans mb1 mb2 mb3 : same_messages mb1 mb2 → same_messages mb2 mb3 → same_messages mb1 mb3.
Proof.
  intros H1 H2 y Hy. destruct (H1 y Hy) as (z & Hz & ? & ?). destruct (H2 z Hz) as (x & Hx & ? & ?).
  exists x. split; [done |]. split; congruence.
Qed.

Lemma spec_command_box hs command argument d :
  command ≠ B "QUIT" →
  let d' := (spec_command srv hs command argument d).2 in
  same_messages (d_box d) (d_box d') ∧ mb_next (d_box d') = mb_next (d_box d).
Proof.
  intros Hq. cbv zeta. unfold spec_command, scan.
  repeat (case_decide; try done); repeat case_match; try done; try (split; [apply same_messages_refl | done]).
  simplify_eq. split; [| done]. intros y Hy.
  by apply (keeps_messages 0 (d_box d) (OpSetFlags [a_uid _] [FlagSeen] FlagsAdd)).
Qed.

Lemma serve_loop_refines evs p d :
  drop_rel p d → kept_events evs → mb_next (d_box d) + Z.of_nat (length evs) < 2 ^ 32 →
  let '(out, d') := spec_session (w_now (env_world p)) evs d in
  let p' := (serve_loop srv (event_of <$> evs) p).2 in
  writer p' = writer p ++ out ∧ at_dir (w_fs (env_world p')) inbox (Some (d_box d')) ∧
  (Forall (λ e, quits e = false) evs → same_messages (d_box d) (d_box d')).
Proof.
  revert p d. induction evs as [| [line hs | op] evs IH]; intros p d Hr Hk Hlt.
  { simpl. rewrite app_nil_r. split; [done |]. split; [apply Hr | intros _; apply same_messages_refl]. }
  - apply Forall_cons in Hk as [_ Hk]. cbn [length] in Hlt. rewrite fmap_cons. cbn [event_of serve_loop spec_session].
    destruct (parse_command line) as [command argument] eqn:Hparse.
    destruct (decide (command = B "QUIT")) as [-> | Hq].
    + destruct (quit_commits p d Hr) as (p' & Hquit & Hw & Had).
      assert (handle srv hs (B "QUIT") argument p = (false, p')) as Hh.
      { unfold handle. do 4 (rewrite decide_False by done). rewrite decide_True by done.
        by rewrite (st_bind_eq _ _ _ _ _ Hquit). }
      rewrite (st_bind_eq _ _ _ _ _ Hh). change (spec_command srv hs (B "QUIT") argument d) with
        (ok_line (B "bye"), false, set_box (removed (d_box d) (marked_uids d)) d).
      split; [done |]. split; [done |]. intros [Hx _]%Forall_cons. unfold quits in Hx. by rewrite Hparse in Hx.
    + pose proof (handle_implements hs command argument p d Hr ltac:(lia) Hq) as Himp.
      pose proof (spec_command_box hs command argument d Hq) as Hbox.
      destruct (spec_command srv hs command argument d) as [[out b] d'] eqn:Hs. cbv zeta in Hbox. cbn [snd] in Hbox.
      destruct Hbox as [Hsame Hnext]. destruct Himp as (p' & Hh & Hw & Hr' & Hnow).
      rewrite (st_bind_eq _ _ _ _ _ Hh). destruct b.
      * specialize (IH p' d' Hr' Hk ltac:(lia)). rewrite Hnow in IH.
        destruct (spec_session (w_now (env_world p)) evs d') as [out' d''].
        destruct IH as (Hw' & Had & Hkeep). rewrite Hw', Hw, <- app_assoc. split; [done |]. split; [done |].
        intros [_ Hf]%Forall_cons. eapply same_messages_trans; [exact Hsame | by apply Hkeep].
      * split; [exact Hw |]. split; [apply Hr' | done].
  - apply Forall_cons in Hk as [Hop Hk]. cbn [length] in Hlt. rewrite fmap_cons. cbn [event_of serve_loop spec_session].
    destruct (run_op_healthy (acc_UID a) Inbox op (env_world p) (d_box d)) as (f & Hf & _ & Had);
      [apply inbox_is_good | apply Hr | apply Hr | apply Hr | lia |].
    assert ((_ ← run_op (acc_UID a) Inbox op; mret tt) (env_world p) = (tt, set_fs f (env_world p))) as Hc
      by (by rewrite (st_bind_eq _ _ _ _ _ Hf)).
    rewrite (st_bind_eq _ _ _ _ _ (call_eq _ p _ _ Hc)).
    set (mb' := apply_op _ (d_box d) op) in *.
    assert (same_messages (d_box d) mb') as Hsame by (intros y Hy; by apply keeps_messages).
    pose proof (apply_op_next (w_now (env_world p)) (d_box d) op).
    specialize (IH (with_world (set_fs f (env_world p)) p) (set_box mb' d)).
    cbn [env_world with_world w_now set_fs d_box set_box writer] in IH.
    destruct (spec_session (w_now (env_world p)) evs (set_box mb' d)) as [out d'].
    destruct IH as (Hw & Hbox & Hkeep); [| done | subst mb'; lia |].
    + apply drop_rel_box; [done | done | apply Hr | apply Hr | done].
    + split; [exact Hw |]. split; [exact Hbox |]. intros [_ Hf']%Forall_cons.
      eapply same_messages_trans; [exact Hsame | by apply Hkeep].
Qed.

End Refinement.

Section Theorems.
Context {U : UnicodeTables} {Acc : Accounts} {Laws : AccountsLaws Acc} {D : Directory Acc} (srv : Server).

(** The state of the maildrop when PASS has just succeeded. *)
Definition fresh_drop (p : pop3Session) (mb : mailbox) : maildrop :=
  Drop (encrypted p) (p_user p) (mb_validity mb) (mb_messages mb) ∅ mb.

Lemma pass_opens a password p mb :
  account p = None → deleted p = ∅ → p_user p ≠ [] → (tls srv = None ∨ encrypted p = true) →
  holds (w_fs (env_world p)) → healthy (env_world p) → clock_ok (env_world p) →
  dir_login (login_name srv (p_user p)) password = Some a →
  at_dir (w_fs (env_world p)) (mailboxDir (acc_UID a) Inbox) (Some mb) →
  ∃ p', pass srv password p = (tt, p') ∧ env_world p' = env_world p ∧
    writer p' = writer p ++ ok_line (B "mailbox ready, " ++ number (length (mb_messages mb)) ++ B " messages") ∧
    drop_rel a p' (fresh_drop p mb).
Proof.
  intros Hacc Hdel Huser Htls Hhold Hh Hc Hlogin Had.
  assert (bool_decide (tls srv ≠ None) && negb (encrypted p) = false) as Hgate.
  { destruct Htls as [Ht | ->]; [by rewrite Ht | apply andb_false_r]. }
  eexists. unfold pass. rewrite (st_bind_eq (gets id) _ p p p eq_refl), Hacc, Hgate.
  rewrite decide_False by (intros Hx; by apply Hx). rewrite decide_False by done.
  unfold mail_login. rewrite (st_bind_eq _ _ _ _ _ (call_eq _ p _ _ (Authenticate_healthy _ _ _ Hhold Hh))), Hlogin.
  rewrite with_world_id.
  pose proof (Snapshot_healthy _ _ _ _ inbox_is_good Had Hh) as Hs. rewrite inbox_canonical in Hs.
  rewrite (st_bind_eq _ _ _ _ _ (call_eq _ p _ _ Hs)), with_world_id.
  set (s := NewSnapshot Inbox (index_of mb)).
  rewrite (st_bind_eq (modify (with_account a s)) _ p tt (with_account a s p) eq_refl), ok_eq.
  split; [reflexivity |]. split; [done |]. split.
  { cbn [writer with_writer with_account]. unfold s, number. cbn [Index index_of Messages]. by rewrite length_fmap. }
  constructor; try done; cbn [deleted with_writer with_account fresh_drop d_messages d_marked d_box].
  - by exists (mb_next mb), (mb_subscribed mb).
  - apply sorted_NoDup, (mok_sorted _ (ad_ok _ _ _ Had _ eq_refl)).
  - intros n x _. rewrite Hdel. split; intros Hx; by apply not_elem_of_empty in Hx.
  - intros u Hu. rewrite Hdel in Hu. by apply not_elem_of_empty in Hu.
  - intros x Hx. by exists x.
Qed.

(** C6: A POP3 session implements the maildrop of RFC 1939.  From a successful
    PASS on, every reply is the one of the abstract session over the messages
    present at login, numbered from 1, however many messages other
    connections deliver or reflag meanwhile; DELE only marks; RETR sets
    [\Seen]; QUIT removes exactly the marked messages; and a session in which
    no QUIT arrives, for instance because the connection is lost, leaves
    every message in the mailbox. *)
Theorem pop3_refines a line hs password evs p mb :
  account p = None → deleted p = ∅ → p_user p ≠ [] → (tls srv = None ∨ encrypted p = true) →
  holds (w_fs (env_world p)) → healthy (env_world p) → clock_ok (env_world p) →
  parse_command line = (B "PASS", password) →
  dir_login (login_name srv (p_user p)) password = Some a →
  at_dir (w_fs (env_world p)) (mailboxDir (acc_UID a) Inbox) (Some mb) →
  kept_events evs → mb_next mb + Z.of_nat (length evs) < 2 ^ 32 →
  let '(out, d') := spec_session srv (w_now (env_world p)) evs (fresh_drop p mb) in
  let p' := (serve_loop srv (Received line hs :: (event_of a <$> evs)) p).2 in
  writer p' = writer p ++ ok_line (B "mailbox ready, " ++ number (length (mb_messages mb)) ++ B " messages") ++ out ∧
  at_dir (w_fs (env_world p')) (mailboxDir (acc_UID a) Inbox) (Some (d_box d')) ∧
  (Forall (λ e, quits e = false) evs → same_messages mb (d_box d')).
Proof.
  intros Hacc Hdel Huser Htls Hhold Hh Hc Hparse Hlogin Had Hk Hlt.
  destruct (pass_opens a password p mb) as (p1 & Hpass & Hw1 & Ho1 & Hr); [done .. |].
  pose proof (serve_loop_refines srv a evs p1 (fresh_drop p mb) Hr Hk Hlt) as H. rewrite Hw1 in H.
  destruct (spec_session _ _ _ _) as [out d']. cbn [serve_loop]. rewrite Hparse.
  assert (handle srv hs (B "PASS") password p = (true, p1)) as Hhandle.
  { unfold handle. do 3 (rewrite decide_False by done). rewrite decide_True by done.
    by rewrite (st_bind_eq _ _ _ _ _ Hpass). }
  rewrite (st_bind_eq _ _ _ _ _ Hhandle). destruct H as (H1 & H2 & H3).
  rewrite H1, Ho1, <- app_assoc. done.
Qed.

(** Commands whose effect before authentication is independent of the store. *)
Lemma message_denied argument p :
  account p = None → message argument p = (None, with_writer (writer p ++ err_line (B "not authenticated")) p).
Proof.
  intros H. unfold message. rewrite (st_bind_eq (gets id) _ p p p eq_refl), H.
  by rewrite (st_bind_eq _ _ _ _ _ (err_eq _ p)).
Qed.

(** What [handle] does to an unauthenticated session for a command other than
    PASS: a reply, the same whatever the store holds. *)
Definition oblivious (m : P bool) (p : pop3Session) : Prop :=
  ∃ b out enc user, ∀ w, m (with_world w p) =
    (b, with_world w (with_encrypted enc (with_user user (with_writer (writer p ++ out) p)))).

Lemma oblivious_reply (m : P bool) p b out :
  (∀ w, m (with_world w p) = (b, with_world w (with_writer (writer p ++ out) p))) → oblivious m p.
Proof. intros H. exists b, out, (encrypted p), (p_user p). intros w. rewrite H. by destruct p. Qed.

(** A command that asks for a message first. *)
Lemma oblivious_denied (k : option (Z * Message * Account) → P unit) argument p :
  account p = None → (k None = mret tt) → oblivious (_ ← (r ← message argument; k r); mret true) p.
Proof.
  intros Hacc Hk. eapply (oblivious_reply _ _ true). intros w.
  unfold mbind at 1, st_bind at 1. rewrite (st_bind_eq _ _ _ _ _ (message_denied argument (with_world w p) Hacc)), Hk.
  reflexivity.
Qed.

Lemma numbered_oblivious heading show argument p :
  account p = None → oblivious (_ ← numbered heading show argument; mret true) p.
Proof.
  intros Hacc. unfold numbered. destruct (decide (argument ≠ [])); [by apply oblivious_denied |].
  eapply (oblivious_reply _ _ true). intros w. unfold mbind at 1, st_bind at 1.
  rewrite (st_bind_eq (gets id) _ (with_world w p) _ _ eq_refl). cbn [account with_world id]. rewrite Hacc.
  rewrite err_eq. reflexivity.
Qed.

Lemma handle_oblivious hs command argument p :
  account p = None → command ≠ B "PASS" → oblivious (handle srv hs command argument) p.
Proof.
  intros Hacc Hne. unfold handle.
  assert (∀ msg b, oblivious (_ ← err msg; mret b) p) as Herr.
  { intros msg b. eapply (oblivious_reply _ _ b). intros w. by rewrite (st_bind_eq _ _ _ _ _ (err_eq _ _)). }
  assert (∀ msg b, oblivious (_ ← ok msg; mret b) p) as Hok.
  { intros msg b. eapply (oblivious_reply _ _ b). intros w. by rewrite (st_bind_eq _ _ _ _ _ (ok_eq _ _)). }
  repeat case_decide; try done; try (by apply numbered_oblivious); try (by apply oblivious_denied).
  - eapply (oblivious_reply _ _ true (ok_line (B "capability list follows") ++ _)). intros w.
    unfold capabilities, mbind, st_bind, mret, st_ret. rewrite ok_eq. unfold gets, write, modify, with_writer, with_world.
    cbn [writer encrypted account p_user snapshot deleted env_world]. rewrite <- app_assoc. reflexivity.
  - unfold startTLS. case_decide.
    { eapply (oblivious_reply _ _ true). intros w.
      rewrite (st_bind_eq (gets encrypted) _ (with_world w p) _ _ eq_refl). by rewrite (st_bind_eq _ _ _ _ _ (err_eq _ _)). }
    destruct (encrypted p) eqn:He.
    { eapply (oblivious_reply _ _ true). intros w.
      rewrite (st_bind_eq (gets encrypted) _ (with_world w p) _ _ eq_refl). cbn [encrypted with_world]. rewrite He.
      by rewrite (st_bind_eq _ _ _ _ _ (err_eq _ _)). }
    exists hs, (ok_line (B "begin TLS negotiation")), hs, (p_user p). intros w.
    rewrite (st_bind_eq (gets encrypted) _ (with_world w p) _ _ eq_refl). cbn [encrypted with_world]. rewrite He.
    rewrite (st_bind_eq _ _ _ _ _ (ok_eq _ _)). destruct hs, p; simpl in *; subst; reflexivity.
  - exists true, (ok_line (B "send PASS")), (encrypted p), argument. intros w.
    rewrite (st_bind_eq (modify (with_user argument)) _ (with_world w p) tt (with_user argument (with_world w p)) eq_refl).
    rewrite (st_bind_eq _ _ _ _ _ (ok_eq _ _)). by destruct p.
  - eapply (oblivious_reply _ _ false). intros w. unfold quit, mbind at 1, st_bind at 1.
    rewrite (st_bind_eq (gets id) _ (with_world w p) _ _ eq_refl). cbn [account with_world id]. rewrite Hacc.
    rewrite ok_eq. reflexivity.
  - eapply (oblivious_reply _ _ true). intros w. unfold stat, mbind at 1, st_bind at 1.
    rewrite (st_bind_eq (gets id) _ (with_world w p) _ _ eq_refl). cbn [account with_world id]. rewrite Hacc.
    rewrite err_eq. reflexivity.
  - unfold top. destruct (Fields argument) as [| n [| count [| ? ?]]]; try (eapply (oblivious_reply _ _ true); intros w;
      unfold mbind at 1, st_bind at 1; rewrite err_eq; reflexivity).
    destruct (Atoi count) as [lines |]; [destruct (lines <? 0) |]; try (eapply (oblivious_reply _ _ true); intros w;
      unfold mbind at 1, st_bind at 1; rewrite err_eq; reflexivity).
    by apply oblivious_denied.
  - eapply (oblivious_reply _ _ true). intros w. unfold rset, mbind at 1, st_bind at 1.
    rewrite (st_bind_eq (gets id) _ (with_world w p) _ _ eq_refl). cbn [account with_world id]. rewrite Hacc.
    rewrite err_eq. reflexivity.
Qed.

Lemma call_inv {A} (m : M A) p r p' : call m p = (r, p') → ∃ w, m (env_world p) = (r, w) ∧ p' = with_world w p.
Proof. unfold call. destruct (m (env_world p)) as [x w]. intros [= <- <-]. eauto. Qed.

(** What PASS does to an unauthenticated connection. *)
Lemma pass_inv password p p' :
  account p = None → holds (w_fs (env_world p)) → pass srv password p = (tt, p') →
  quiet (env_world p) (env_world p') ∧
  ∀ a, account p' = Some a →
    (tls srv = None ∨ encrypted p = true) ∧ dir_login (login_name srv (p_user p)) password = Some a.
Proof.
  intros Hacc Hhold. unfold pass. rewrite (st_bind_eq (gets id) _ p p p eq_refl), Hacc.
  rewrite decide_False by (intros Hx; by apply Hx).
  assert (∀ msg q, err msg p = (tt, q) → quiet (env_world p) (env_world q) ∧ ∀ a, account q = Some a → False) as Herr.
  { intros msg q. rewrite err_eq. intros [= <-]. split; [done |]. intros a. cbn [account with_writer]. by rewrite Hacc. }
  case_decide as Hu; [intros [? Hx]%Herr; split; [done |]; by intros a ?%Hx |].
  destruct (bool_decide _ && _) eqn:Hgate; [intros [? H']%Herr; split; [done |]; by intros a ?%H' |].
  intros (r & q & Hl & H')%st_bind_inv. apply call_inv in Hl as (w1 & Hl & ->).
  apply Authenticate_holds in Hl as (Hq1 & Hr & _); [| done]. destruct r as [a |]; cycle 1.
  { rewrite err_eq in H'. injection H' as <-. split; [done |]. intros a. cbn [account with_writer with_world]. by rewrite Hacc. }
  apply st_bind_inv in H' as (r & q & Hs & H'). apply call_inv in Hs as (w2 & Hs & ->).
  apply Snapshot_quiet in Hs as Hq2. cbn [env_world with_world] in Hs, Hq2. destruct r as [s | e]; cycle 1.
  { rewrite err_eq in H'. injection H' as <-. split; [by etrans |]. intros a'. cbn [account with_writer with_world]. by rewrite Hacc. }
  rewrite (st_bind_eq (modify (with_account a s)) _ _ tt (with_account a s _) eq_refl), ok_eq in H'.
  injection H' as <-. split; [by etrans |]. intros a' [= <-]. split; [| by apply Hr].
  apply andb_false_iff in Hgate as [Hgate | Hgate]; [left | right].
  - apply bool_decide_eq_false in Hgate. by apply dec_stable in Hgate.
  - by apply negb_false_iff in Hgate.
Qed.

(** C17: Nothing but a successful login opens a mailbox, whatever system calls
    fail: a command on an unauthenticated connection writes nothing to disk;
    it leaves the connection unauthenticated unless it is PASS with
    credentials of the account it opens, over TLS whenever the server has a
    certificate; and the reply to any other command is the same whatever the
    store contains. *)
Theorem pop3_gate hs command argument p b p' :
  account p = None → holds (w_fs (env_world p)) → handle srv hs command argument p = (b, p') →
  quiet (env_world p) (env_world p') ∧
  (∀ a, account p' = Some a →
     command = B "PASS" ∧ (tls srv = None ∨ encrypted p = true) ∧
     dir_login (login_name srv (p_user p)) argument = Some a) ∧
  (command ≠ B "PASS" → ∀ w, handle srv hs command argument (with_world w p) = (b, with_world w p')).
Proof.
  intros Hacc Hhold H. destruct (decide (command = B "PASS")) as [-> | Hne].
  - unfold handle in H. do 3 (rewrite decide_False in H by done). rewrite decide_True in H by done.
    apply st_bind_inv in H as ([] & q & Hp & H). st_inv. apply pass_inv in Hp as [Hq Ha]; [| done ..].
    split; [done |]. split; [| done]. intros a Hx. split; [done |]. by apply Ha.
  - destruct (handle_oblivious hs command argument p Hacc Hne) as (b' & out & enc & user & Hob).
    pose proof (Hob (env_world p)) as Hp. rewrite with_world_id, H in Hp. injection Hp as -> ->.
    split; [done |]. split; [intros a Hx; cbn [account with_world with_encrypted with_user with_writer] in Hx; congruence |].
    intros _ w. rewrite Hob. done.
Qed.

End Theorems.

(** ** Witnesses *)

Definition wire_body : bytes := B "Subject: hi" ++ CRLF ++ CRLF ++ B ".dot" ++ CRLF.

Lemma writeDotted_undot_witness :
  wire_form wire_body ∧
  undot (read_lines (writeDotted wire_body (-1) ++ B "+OK bye") []) = Some (wire_body, [B "+OK bye"]).
Proof.
  assert (wire_form wire_body) as Hw.
  { exists [B "Subject: hi"; []; B ".dot"]. split; [| reflexivity].
    repeat constructor; try (apply (bool_decide_unpack _); reflexivity). }
  split; [exact Hw |].
  destruct (writeDotted_undot wire_body (-1) (B "+OK bye")) as [H1 H2]. rewrite H1.
  change (-1 <? 0) with true. cbv iota. rewrite (H2 Hw). reflexivity.
Defined.

Definition alice_session : pop3Session := with_user (B "alice_1@Example.org") (new_session false inbox_world).
Definition pass_line : bytes := B "pass pa55word" ++ CRLF.
Definition some_events : list client_event :=
  [Line (B "DELE 1" ++ CRLF) false; Elsewhere (OpAppend [] (w_now two_world) (B "late")); Line (B "LIST" ++ CRLF) false;
   Line (B "QUIT" ++ CRLF) false].

Lemma pop3_refines_witness :
  let '(out, d') := spec_session plain_server (w_now inbox_world) some_events (fresh_drop alice_session inbox_box) in
  let p' := (serve_loop plain_server (Received pass_line false :: (event_of alice_account <$> some_events)) alice_session).2 in
  writer p' = ok_line (B "mailbox ready, 2 messages") ++ out ∧
  at_dir (w_fs (env_world p')) (mailboxDir 1 Inbox) (Some (d_box d')) ∧ (a_uid <$> mb_messages (d_box d')) = [2; 3].
Proof.
  destruct inbox_world_ok as (Hh & Hc & Hd & Had).
  assert (parse_command pass_line = (B "PASS", B "pa55word")) as Hparse by (vm_compute; reflexivity).
  assert (dir_login (login_name plain_server (p_user alice_session)) (B "pa55word") = Some alice_account) as Hlogin
    by (vm_compute; reflexivity).
  assert (p_user alice_session ≠ []) as Hu by (apply (bool_decide_unpack _); reflexivity).
  assert (kept_events some_events) as Hk by (repeat constructor).
  pose proof (pop3_refines plain_server alice_account pass_line false (B "pa55word") some_events alice_session inbox_box
    eq_refl eq_refl Hu (or_introl eq_refl) Hd Hh Hc Hparse Hlogin Had Hk) as H.
  assert (mb_next inbox_box + Z.of_nat (length some_events) < 2 ^ 32) as Hlt by (vm_compute; reflexivity).
  specialize (H Hlt). change (env_world alice_session) with inbox_world in H.
  assert ((a_uid <$> mb_messages (d_box (spec_session plain_server (w_now inbox_world) some_events
    (fresh_drop alice_session inbox_box)).2)) = [2; 3]) as Huids by (vm_compute; reflexivity).
  destruct (spec_session _ _ _ _) as [out d']. destruct H as (H1 & H2 & _).
  split; [exact H1 |]. split; [exact H2 | exact Huids].
Defined.


(** With a certificate, PASS in clear text is refused. *)
Lemma pop3_gate_witness :
  ∃ p', handle secure_server false (B "PASS") (B "pa55word") alice_session = (true, p') ∧
    writer p' = err_line (B "STLS required before authentication") ∧ ∀ a, account p' = Some a → False.
Proof.
  destruct inbox_world_ok as (_ & _ & Hd & _).
  exists (handle secure_server false (B "PASS") (B "pa55word") alice_session).2.
  assert (handle secure_server false (B "PASS") (B "pa55word") alice_session =
    (true, (handle secure_server false (B "PASS") (B "pa55word") alice_session).2)) as H by reflexivity.
  split; [exact H |]. split; [reflexivity |].
  destruct (pop3_gate secure_server false (B "PASS") (B "pa55word") alice_session true _ eq_refl Hd H) as (_ & Ha & _).
  intros a Hx. destruct (Ha a Hx) as (_ & [Ht | Ht] & _); discriminate Ht.
Defined.
