(* ===== verification/Relay.v ===== *)
(** * Relay: the outbound queue ([mail/relay.go])

    A queued message is a file [<id>.eml] and a sidecar [<id>.json].  What the
    network answers during one delivery round is a [network]: the resolver
    and, per transaction, the reply to each call of the SMTP client.  The
    order in which Go ranges over the domains is an argument. *)

From S2P Require Import Prelude GoStrings Strconv Crypto World Accounts Flags MailStore Token Config GoNet MailServer.

(** The texts of errors. *)
Class ErrorText := { Error : error → bytes }.

Record queueEntry := QueueEntry {
  e_ID : bytes; e_From : bytes; e_To : list bytes; Attempts : Z; FirstTry : Z; NextTry : Z; LastError : bytes }.

Definition marshal_entry (e : queueEntry) : json :=
  JObject ([(B "id", JString (e_ID e)); (B "from", JString (e_From e)); (B "to", JArray (JString <$> e_To e));
            (B "attempts", JNumber (Attempts e) 0); (B "first_try", JTime (FirstTry e)); (B "next_try", JTime (NextTry e))]
    ++ (if decide (LastError e = []) then [] else [(B "last_error", JString (LastError e))])).
Definition unmarshal_entry (j : json) : option queueEntry :=
  match j with
  | JNull => Some (QueueEntry [] [] [] 0 zero_time zero_time [])
  | JObject fs =>
      let get k := json_field (B k) fs in
      id ← json_string (get "id"); from ← json_string (get "from"); to ← json_strings (get "to");
      attempts ← json_int (get "attempts"); first ← json_time (get "first_try");
      next ← json_time (get "next_try"); last ← json_string (get "last_error");
      Some (QueueEntry id from to attempts first next last)
  | _ => None
  end.
#[export] Instance entry_codec : Codec queueEntry := {| marshal := marshal_entry; unmarshal := unmarshal_entry |}.

Definition entryPath (dir : path) (id : bytes) : path := Join dir [id ++ B ".json"].
Definition bodyPath (dir : path) (id : bytes) : path := Join dir [id ++ B ".eml"].

(** [randomID]: random bytes in hexadecimal, the clock if there are none. *)
Definition randomID (bytesLen : nat) : M bytes :=
  r ← rand_Read bytesLen;
  match r with
  | Ok buf => mret (EncodeToString buf)
  | Err _ => now ← Now; mret (FormatInt now)
  end.

Definition writeEntry (dir : path) (entry : queueEntry) : M (result unit) :=
  os_WriteFile (entryPath dir (e_ID entry)) (Json (marshal entry)).

Definition readEntry (dir : path) (id : bytes) : M (result queueEntry) := read_json (entryPath dir id).

(** [q.remove]: both files go, errors are only logged. *)
Definition remove_entry (dir : path) (id : bytes) : M unit :=
  _ ← os_Remove (entryPath dir id);
  _ ← os_Remove (bodyPath dir id);
  mret tt.

Definition enqueue (dir : path) (from : bytes) (to : list bytes) (message : bytes) : M (result unit) :=
  _ ←? os_MkdirAll dir;
  now ← Now;
  rid ← randomID 6;
  let id := FormatInt now ++ B "-" ++ rid in
  _ ←? os_WriteFile (bodyPath dir id) (Raw message);
  first ← Now;
  next ← Now;
  r ← writeEntry dir (QueueEntry id from to 0 first next []);
  match r with
  | Err e => _ ← os_Remove (bodyPath dir id); mret (Err e)
  | Ok _ => mret (Ok tt)
  end.

(** ** The retry ladder *)

Fixpoint backoff_loop (n : nat) (delay : Z) : Z :=
  match n with
  | 0%nat => delay
  | S n => let delay := int64 (delay * 2) in if 6 * Hour <=? delay then 6 * Hour else backoff_loop n delay
  end.
Definition backoff (attempts : Z) : Z := backoff_loop (Z.to_nat (attempts - 1)) queueRetryInterval.

(** ** One SMTP transaction *)

Inductive smtp_call :=
| DialTLS (serverName : bytes)
| DialStartTLS (serverName : bytes) (verify : bool)
| Dial
| Hello (helo : bytes)
| Auth (user password : bytes)
| Mail_ (from : bytes)
| Rcpt_ (rcpt : bytes)
| Data_
| Write_ (message : bytes)
| CloseData
| Quit_.

Inductive dns_error :=
| DNSError (IsTemporary IsTimeout : bool) (text : bytes)
| OtherDNS (err : error).

(** What the outside world answers during one round.  A call is identified by
    how many hosts were tried before for its recipients, the host, the
    recipients, and the calls of the transaction that succeeded before it: two
    equal calls may be answered differently. *)
Record network := Network {
  LookupMX : bytes → dns_error + list (Z * bytes);
  LookupHost : bytes → bool;
  net_reply : nat → bytes → list bytes → list smtp_call → smtp_call → option error;
}.

(** Calls in order up to the first error; also the calls that succeeded. *)
Fixpoint run_calls (reply : list smtp_call → smtp_call → option error) (before calls : list smtp_call)
    : option error * list smtp_call :=
  match calls with
  | [] => (None, [])
  | c :: calls =>
      match reply before c with
      | Some e => (Some e, [])
      | None => let '(e, done) := run_calls reply (before ++ [c]) calls in (e, c :: done)
      end
  end.

(** The connection: an error, or the call that succeeded. *)
Definition dial (reply : smtp_call → option error) (serverName : bytes) (auth : option (bytes * bytes))
    (implicitTLS : bool) : error + smtp_call :=
  let try c := match reply c with Some e => inl e | None => inr c end in
  if implicitTLS then try (DialTLS serverName)
  else match auth with
       | Some _ => try (DialStartTLS serverName true)
       | None =>
           match reply (DialStartTLS serverName false) with
           | None => inr (DialStartTLS serverName false)
           | Some _ => try Dial
           end
       end.

Definition transaction (helo : bytes) (auth : option (bytes * bytes)) (from : bytes) (rcpts : list bytes)
    (message : bytes) : list smtp_call :=
  [Hello helo] ++ (match auth with Some (user, password) => [Auth user password] | None => [] end)
  ++ [Mail_ from] ++ (Rcpt_ <$> rcpts) ++ [Data_; Write_ message; CloseData; Quit_].

Definition sendTo (net : network) (tries : nat) (addr serverName helo : bytes) (auth : option (bytes * bytes))
    (from : bytes) (rcpts : list bytes) (message : bytes) (implicitTLS : bool) : option error * list smtp_call :=
  let reply := net_reply net tries addr rcpts in
  match dial (reply []) serverName auth implicitTLS with
  | inl e => (Some e, [])
  | inr c => let '(e, done) := run_calls reply [c] (transaction helo auth from rcpts message) in (e, c :: done)
  end.

(** ** Mail exchangers *)

(** [sort.SliceStable] by preference. *)
Definition pref_le (a b : Z * bytes) : Prop := a.1 <= b.1.
#[export] Instance pref_le_dec : RelDecision pref_le.
Proof. unfold pref_le. intros a b. apply _. Defined.

Section Relay.
Context {U : UnicodeTables} {Acc : Accounts} {Et : ErrorText} {Zo : Zone}.

Definition mxHosts (net : network) (domain : bytes) : error + list bytes :=
  match LookupMX net domain with
  | inl (DNSError false false text) =>
      if LookupHost net domain then inr [domain]
      else inl (permanentError (ErrText (B "no mail host for " ++ domain ++ B ": " ++ text)))
  | inl (DNSError _ _ text) => inl (ErrText text)
  | inl (OtherDNS e) => inl e
  | inr records =>
      let hosts := filter (.≠ []) ((λ record, TrimSuffix record.2 (B ".")) <$> merge_sort pref_le records) in
      if decide (hosts = []) then
        if LookupHost net domain then inr [domain]
        else inl (permanentError (ErrText (B "domain " ++ domain ++ B " accepts no mail")))
      else inr hosts
  end.

(** [permanent] *)
Definition permanent (e : error) : bool :=
  match e with
  | permanentError _ => true
  | SMTPError Code _ _ => (500 <=? Code) && (Code <? 600)
  | _ => false
  end.

(** ** One delivery round *)

(** Transactions of a delivery, with the calls that succeeded. *)
Abbreviation log := (list (bytes * list smtp_call)).

Fixpoint try_hosts (net : network) (c : Config) (from : bytes) (rcpts : list bytes) (message : bytes)
    (tries : nat) (hosts : list bytes) (lastErr : option error) : option error * log :=
  match hosts with
  | [] => (lastErr, [])
  | host :: hosts =>
      let addr := JoinHostPort host (B "25") in
      let '(e, done) := sendTo net tries addr host (Hostname c) None from rcpts message false in
      match e with
      | None => (None, [(addr, done)])
      | Some e =>
          if permanent e then (Some e, [(addr, done)])
          else let '(r, l) := try_hosts net c from rcpts message (S tries) hosts (Some e) in (r, (addr, done) :: l)
      end
  end.

Definition deliverSmarthost (net : network) (c : Config) (from : bytes) (rcpts : list bytes) (message : bytes)
    : option error * log :=
  let '(host, port) := default (SmarthostAddr c, B "587") (SplitHostPort (SmarthostAddr c)) in
  let auth := if decide (SmarthostUser c = []) then None else Some (SmarthostUser c, SmarthostPassword c) in
  let addr := JoinHostPort host port in
  let '(e, done) := sendTo net 0 addr host (Hostname c) auth from rcpts message (bool_decide (port = B "465")) in
  (e, [(addr, done)]).

Definition deliverDomain (net : network) (c : Config) (domain from : bytes) (rcpts : list bytes) (message : bytes)
    : option error * log :=
  if decide (SmarthostAddr c ≠ []) then deliverSmarthost net c from rcpts message
  else match mxHosts net domain with
       | inl e => (Some e, [])
       | inr hosts =>
           match try_hosts net c from rcpts message 0 hosts None with
           | (None, []) => (Some (ErrText (B "no usable MX host for " ++ domain)), [])
           | r => r
           end
       end.

Definition groupByDomain (rcpts : list bytes) : gmap bytes (list bytes) :=
  foldl (λ grouped rcpt,
    match SplitAddress rcpt with
    | None => grouped
    | Some (_, domain) => <[domain := default [] (grouped !! domain) ++ [rcpt]]> grouped
    end) ∅ rcpts.

(** The text of a bounce. *)
Definition bounce_body (srv : Server) (entry : queueEntry) (rcpts : list bytes) (cause : bytes)
    (now : Z) (rid mid : bytes) : bytes :=
  let stamp := Format_RFC1123Z (zone_offset now) now in
  B "Received: by " ++ Hostname (cfg srv) ++ B " with internal id " ++ rid ++ B "; " ++ stamp ++ [chr 13; chr 10] ++
  B "From: <MAILER-DAEMON@" ++ Domain (cfg srv) ++ B ">" ++ [chr 13; chr 10] ++
  B "To: <" ++ e_From entry ++ B ">" ++ [chr 13; chr 10] ++
  B "Subject: Undelivered mail returned to sender" ++ [chr 13; chr 10] ++
  B "Date: " ++ stamp ++ [chr 13; chr 10] ++
  B "Message-ID: <" ++ mid ++ B "@" ++ Domain (cfg srv) ++ B ">" ++ [chr 13; chr 10] ++
  B "Content-Type: text/plain; charset=utf-8" ++ [chr 13; chr 10] ++ [chr 13; chr 10] ++
  B "This message could not be delivered to:" ++ [chr 13; chr 10; chr 13; chr 10] ++
  concat ((λ rcpt, B "    " ++ rcpt ++ [chr 13; chr 10]) <$> rcpts) ++
  [chr 13; chr 10] ++ B "Reason: " ++ cause ++ [chr 13; chr 10] ++
  B "Queue id: " ++ e_ID entry ++ B ", attempts: " ++ FormatInt (Attempts entry) ++ B ", first tried " ++
  Format_RFC1123Z (zone_offset (FirstTry entry)) (FirstTry entry) ++ [chr 13; chr 10].

(** [q.bounce]: whether the report reached the sender's mailbox. *)
Definition bounce (srv : Server) (entry : queueEntry) (rcpts : list bytes) (cause : error) : M bool :=
  match SplitAddress (e_From entry) with
  | None => mret false
  | Some (local, domain) =>
      if negb (local_domain srv domain) then mret false
      else
        r ← accounts_FindByID local;
        match r with
        | None => mret false
        | Some a =>
            rid ← randomID 8;
            now ← Now;
            mid ← randomID 16;
            let body := bounce_body srv entry rcpts (Error cause) now rid mid in
            now ← Now;
            r ← Append (acc_UID a) Inbox [] now body;
            mret (match r with Ok _ => true | Err _ => false end)
        end
  end.

(** What became of the recipients at one domain. *)
Inductive fate := Relayed | Rejected (e : error) | Deferred (e : error).
Record delivery := Delivery { dl_domain : bytes; dl_rcpts : list bytes; dl_fate : fate; dl_log : log }.

(** The loop of [attempt] over the domains. *)
Fixpoint deliver_groups (net : network) (srv : Server) (entry : queueEntry) (message : bytes)
    (groups : list (bytes * list bytes)) : M (list delivery) :=
  match groups with
  | [] => mret []
  | (domain, rcpts) :: groups =>
      let '(e, l) := deliverDomain net (cfg srv) domain (e_From entry) rcpts message in
      match e with
      | None =>
          rest ← deliver_groups net srv entry message groups;
          mret (Delivery domain rcpts Relayed l :: rest)
      | Some e =>
          if permanent e then
            _ ← bounce srv entry rcpts e;
            rest ← deliver_groups net srv entry message groups;
            mret (Delivery domain rcpts (Rejected e) l :: rest)
          else
            rest ← deliver_groups net srv entry message groups;
            mret (Delivery domain rcpts (Deferred e) l :: rest)
      end
  end.

(** The recipients to retry. *)
Definition deferred (ds : list delivery) : list bytes :=
  concat ((λ d, match dl_fate d with Deferred _ => dl_rcpts d | _ => [] end) <$> ds).
(** The last error of the round, permanent ones included. *)
Definition last_error (ds : list delivery) : option error :=
  last (omap (λ d, match dl_fate d with Relayed => None | Rejected e | Deferred e => Some e end) ds).

Definition set_attempts (n : Z) (e : queueEntry) : queueEntry :=
  QueueEntry (e_ID e) (e_From e) (e_To e) n (FirstTry e) (NextTry e) (LastError e).

(** [%v] of an error that may be nil. *)
Definition error_text (e : option error) : bytes :=
  match e with Some e => Error e | None => B "<nil>" end.

(** [q.attempt]; [range] is the order in which the domains come up.  The
    result tells what became of the recipients. *)
Definition attempt (dir : path) (net : network) (range : list (bytes * list bytes) → list (bytes * list bytes))
    (srv : Server) (entry : queueEntry) : M (list delivery) :=
  r ← os_ReadFile (bodyPath dir (e_ID entry));
  match r with
  | Err _ => _ ← remove_entry dir (e_ID entry); mret []
  | Ok message =>
      let entry := set_attempts (int64 (Attempts entry + 1)) entry in
      ds ← deliver_groups net srv entry (content_bytes message) (range (map_to_list (groupByDomain (e_To entry))));
      let later := deferred ds in
      if decide (later = []) then _ ← remove_entry dir (e_ID entry); mret ds
      else if queueMaxAttempts <=? Attempts entry then
        _ ← bounce srv entry later
              (ErrText (B "gave up after " ++ FormatInt (Attempts entry) ++ B " attempts: " ++ error_text (last_error ds)));
        _ ← remove_entry dir (e_ID entry);
        mret ds
      else
        now ← Now;
        _ ← writeEntry dir
              (QueueEntry (e_ID entry) (e_From entry) later (Attempts entry) (FirstTry entry)
                 (now + backoff (Attempts entry))
                 (match last_error ds with Some e => Error e | None => LastError entry end));
        mret ds
  end.

(** [q.flush]: [stopping] tells before which files the shutdown is noticed,
    and every attempt has its own network and order. *)
Fixpoint flush_files (dir : path) (stopping : nat → bool) (nets : nat → network)
    (ranges : nat → list (bytes * list bytes) → list (bytes * list bytes)) (srv : Server)
    (n : nat) (files : list (bytes * bool)) : M unit :=
  match files with
  | [] => mret tt
  | (name, isdir) :: files =>
      let continue := flush_files dir stopping nets ranges srv (S n) files in
      if isdir || negb (HasSuffix name (B ".json")) then continue
      else if stopping n then mret tt
      else
        r ← readEntry dir (TrimSuffix name (B ".json"));
        match r with
        | Err _ => continue
        | Ok entry =>
            now ← Now;
            if now <? NextTry entry then continue
            else _ ← attempt dir (nets n) (ranges n) srv entry; continue
        end
  end.

Definition flush (dir : path) (stopping : nat → bool) (nets : nat → network)
    (ranges : nat → list (bytes * list bytes) → list (bytes * list bytes)) (srv : Server) : M unit :=
  r ← os_ReadDir dir;
  match r with
  | Err _ => mret tt
  | Ok files => flush_files dir stopping nets ranges srv 0 files
  end.

End Relay.
