(* ===== verification/RelayFacts.v ===== *)
(** * RelayFacts: the outbound queue step by step

    Work on mailboxes spares the queue directory and the other way round; the
    groups by domain are the recipients; one delivery round on a healthy
    system. *)

From S2P Require Import Prelude GoStrings Strconv Crypto World WorldFacts Accounts AccountsFacts Flags MailStore.
From S2P Require Import MailNames MailFacts Token Config GoNet MailServer Relay.

(** ** Directories that are left alone *)

(** Neither lies in the other. *)
Definition apart (d1 d2 : path) : Prop := ¬ d1 `prefix_of` d2 ∧ ¬ d2 `prefix_of` d1.

Lemma apart_under d1 d2 q : apart d1 d2 → d1 `prefix_of` q → ¬ d2 `prefix_of` q.
Proof. intros [H1 H2] Hq Hq'. by destruct (prefix_weak_total _ _ _ Hq Hq'). Qed.

Lemma apart_below d1 d2 d : apart d1 d2 → d2 `prefix_of` d → apart d1 d.
Proof.
  intros H Hd. split; intros Hx.
  - by apply (apart_under _ _ _ H Hx).
  - destruct H as [_ H]. apply H. by etrans.
Qed.

(** Everything at and below [dir] is as before; health is kept. *)
Definition spared (dir : path) (w w' : world) : Prop :=
  w_now w' = w_now w ∧ (healthy w → healthy w') ∧ ∀ q, dir `prefix_of` q → w_fs w' !! q = w_fs w !! q.

#[export] Instance spared_preorder dir : PreOrder (spared dir).
Proof.
  split; [by intros w |]. intros w1 w2 w3 (H1 & H2 & H3) (H4 & H5 & H6).
  split; [congruence |]. split; [auto |]. intros q Hq. by rewrite H6, H3.
Qed.

Lemma next_fault_health w x w' : next_fault w = (x, w') → healthy w → healthy w'.
Proof. unfold next_fault, healthy. intros H Hh. rewrite Hh in H. injection H as _ <-. done. Qed.

Lemma syscall_health {A} (body : tree → result A * tree) w r w' :
  syscall body w = (r, w') → healthy w → healthy w'.
Proof.
  unfold syscall. intros (x & w1 & Hx & H)%st_bind_inv Hh. apply (next_fault_health _ _ _ Hx) in Hh.
  unfold on_tree in H. destruct x; [| by st_inv..]. destruct (body (w_fs w1)). by injection H as _ <-.
Qed.

Lemma write_health p c w r w' : os_WriteFile p c w = (r, w') → healthy w → healthy w'.
Proof.
  unfold os_WriteFile, on_tree. intros (x & w1 & Hx & H)%st_bind_inv Hh. apply (next_fault_health _ _ _ Hx) in Hh.
  destruct x, (dirb (w_fs w1) p), (dirb (w_fs w1) (parent p)); by injection H as _ <-.
Qed.

Lemma spared_read p w r w' dir : os_ReadFile p w = (r, w') → spared dir w w'.
Proof.
  intros H. pose proof (syscall_health _ _ _ _ H). apply os_ReadFile_inv in H as [(Hf & Hn & _) _].
  split; [done |]. split; [done |]. intros q _. by rewrite Hf.
Qed.

Lemma spared_mkdir p w r w' dir : apart dir p → os_MkdirAll p w = (r, w') → spared dir w w'.
Proof.
  intros Hap H. pose proof (syscall_health _ _ _ _ H). apply os_MkdirAll_inv in H as (Hn & _ & Hc).
  split; [done |]. split; [done |]. intros q Hq. destruct Hc as [(_ & -> & _) | [_ ->]]; [| done].
  rewrite mkdirs_lookup_not; [done |]. intros Hp. apply (proj1 Hap). by etrans.
Qed.

Lemma spared_write p c w r w' dir : apart dir p → os_WriteFile p c w = (r, w') → spared dir w w'.
Proof.
  intros Hap H. pose proof (write_health _ _ _ _ _ H). apply os_WriteFile_inv in H as (Hn & _ & Hc).
  split; [done |]. split; [done |]. intros q Hq.
  assert (∀ c, (<[p := File c]> (w_fs w)) !! q = w_fs w !! q) as Hne.
  { intros c'. apply lookup_insert_ne. intros ->. by apply (proj1 Hap). }
  destruct Hc as [(_ & -> & _) | (e & _ & [-> | (-> & _)])]; done.
Qed.

Section Mail.
Context {U : UnicodeTables} {Acc : Accounts} {Laws : AccountsLaws Acc}.

Lemma repair_spared i w v w' dir : repair i w = (v, w') → spared dir w w'.
Proof. intros H. pose proof (repair_world i w) as Hw. rewrite H in Hw. simpl in Hw. by subst. Qed.

Lemma readIndex_spared uid name w r w' dir : readIndex uid name w = (r, w') → spared dir w w'.
Proof.
  unfold readIndex. intros (x & w1 & Hx & H)%st_bind_inv. apply (spared_read _ _ _ _ dir) in Hx. etrans; [exact Hx |].
  destruct x as [[b | j] | e]; [by st_inv | | destruct e; try (by st_inv)].
  - destruct (unmarshal_index j) as [i |]; [| by st_inv].
    apply st_bind_inv in H as (v & w2 & Hr & H). st_inv. by eapply repair_spared.
  - case_decide; [by st_inv |]. rewrite (st_bind_eq _ _ _ _ _ (newMailboxIndex_eq w1)) in H. by st_inv.
Qed.

Lemma mailbox_apart dir uid name :
  good_name name → apart dir (mailRoot uid) → apart dir (mailboxDir uid name).
Proof. intros Hg Hap. rewrite mailboxDir_eq by done. eapply apart_below; [done |]. by eexists. Qed.

Lemma writeIndex_spared uid name i w r w' dir :
  good_name name → apart dir (mailRoot uid) → writeIndex uid name i w = (r, w') → spared dir w w'.
Proof.
  intros Hg Hap H. apply (mailbox_apart _ _ _ Hg) in Hap as Hm. unfold writeIndex in H.
  apply try_bind_inv in H as [(x & w1 & Hx & H) | (e & Hx & _)]; apply (spared_mkdir _ _ _ _ dir) in Hx; try done.
  etrans; [exact Hx |]. eapply spared_write; [| exact H].
  change (Join (mailboxDir uid name) [B "index.json"]) with (indexPath uid name). rewrite indexPath_eq by done.
  eapply apart_below; [done |]. by eexists.
Qed.

(** An append, whatever state the mailbox is in. *)
Lemma append_to_spared uid name i flags date body w r w' dir :
  good_name name → apart dir (mailRoot uid) → 0 <= UIDNext i →
  append_to uid name i flags date body w = (r, w') → spared dir w w'.
Proof.
  intros Hg Hap Hn H. apply (mailbox_apart _ _ _ Hg) in Hap as Hm. unfold append_to in H.
  rewrite (st_bind_eq _ _ _ _ _ (stamp_eq date w)) in H.
  apply try_bind_inv in H as [(x & w1 & Hx & H) | (e & Hx & _)]; apply (spared_mkdir _ _ _ _ dir) in Hx; try done.
  etrans; [exact Hx |]. rewrite in_mailbox in H by (try done; by apply message_file_plain).
  assert (apart dir (mailboxDir uid name ++ [message_file (UIDNext i)])) as Hf
    by (eapply apart_below; [done |]; by eexists).
  apply try_bind_inv in H as [(x' & w2 & Hx' & H) | (e & Hx' & _)]; apply (spared_write _ _ _ _ _ dir) in Hx'; try done.
  etrans; [exact Hx' |].
  apply try_bind_inv in H as [(x'' & w3 & Hx'' & H) | (e & Hx'' & _)];
    apply (writeIndex_spared _ _ _ _ _ _ dir) in Hx''; try done. by st_inv.
Qed.

Lemma json_uint32_range o n : json_uint32 o = Some n → is_uint32 n.
Proof.
  unfold json_uint32. destruct o as [[| | m e | | | |] |]; try done; try (by intros [= <-]).
  destruct e; try done. case_decide; [by intros [= <-] | done].
Qed.

Lemma readIndex_next uid name w i w' : readIndex uid name w = (Ok i, w') → 0 <= UIDNext i.
Proof.
  unfold readIndex. intros (x & w1 & _ & H)%st_bind_inv.
  destruct x as [[b | j] | e]; [by st_inv | | destruct e; try (by st_inv)].
  - destruct (unmarshal_index j) as [index |] eqn:Hj; [| by st_inv].
    apply st_bind_inv in H as (v & w2 & Hr & H). st_inv. unfold repair in Hr.
    apply st_bind_inv in Hr as (u & w3 & _ & Hr). st_inv. simpl.
    destruct (UIDNext index =? 0) eqn:E; [lia |].
    assert (is_uint32 (UIDNext index)) as Hu; [| unfold is_uint32 in Hu; lia].
    destruct j as [| | | | | | fs]; try done; [by injection Hj as <- |]. cbn [unmarshal_index] in Hj.
    apply bind_Some in Hj as (v' & _ & Hj). apply bind_Some in Hj as (n & En & Hj).
    apply bind_Some in Hj as (s' & _ & Hj). apply bind_Some in Hj as (ms & _ & Hj). injection Hj as <-. simpl.
    by eapply json_uint32_range.
  - case_decide; [by st_inv |]. rewrite (st_bind_eq _ _ _ _ _ (newMailboxIndex_eq w1)) in H. st_inv. simpl. lia.
Qed.

Lemma Append_spared uid name flags date body w r w' dir :
  good_name name → apart dir (mailRoot uid) → Append uid name flags date body w = (r, w') → spared dir w w'.
Proof.
  intros Hg Hap H. rewrite Append_eq in H. destruct (readIndex _ _ w) as [x w1] eqn:Hx.
  apply (readIndex_spared _ _ _ _ _ dir) in Hx as Hs. etrans; [exact Hs |].
  apply good_canonical in Hg. destruct x as [i | e].
  - eapply append_to_spared; [exact Hg | done | by eapply readIndex_next | exact H].
  - destruct e; try (injection H as _ <-; done). refine (append_to_spared _ _ _ _ _ _ _ _ _ _ Hg Hap _ H). simpl. lia.
Qed.

End Mail.

(** ** Looking up an account reads only *)

Lemma read_healthy {A} (body : tree → result A * tree) w :
  (∀ f, (body f).2 = f) → healthy w → ∃ r, syscall body w = (r, w).
Proof.
  intros Hb Hh. destruct (body (w_fs w)) as [r f] eqn:E. exists r.
  rewrite (syscall_healthy _ _ _ _ Hh E). pose proof (Hb (w_fs w)) as Hf. rewrite E in Hf. simpl in Hf.
  subst f. by rewrite set_fs_id.
Qed.

Lemma ReadFile_healthy p w : healthy w → ∃ r, os_ReadFile p w = (r, w).
Proof. apply read_healthy. done. Qed.

(** The part of the accounts the queue relies on: on a healthy system a
    look-up answers and changes nothing. *)
Class ReadOnlyAccounts (Acc : Accounts) := {
  FindByID_reads id w : healthy w → ∃ r, accounts_FindByID id w = (r, w);
}.

Lemma load_entries_reads s es w : healthy w → ∃ r, load_entries s es w = (r, w).
Proof.
  intros Hh. induction es as [| [name isdir] es [r IH]]; [by eexists |]. simpl.
  destruct isdir; simpl; [| by exists r].
  destruct (ReadFile_healthy (Join (root s) [name; B "user.json"]) w Hh) as [x Hx].
  rewrite (st_bind_eq _ _ _ _ _ Hx). destruct x as [c | e].
  - destruct (decode_user c) as [u |]; [| by eexists]. destruct r as [us | e].
    + rewrite (try_bind_ok _ _ _ _ _ IH). by eexists.
    + rewrite (try_bind_err _ _ _ _ _ IH). by eexists.
  - destruct e; by eexists.
Qed.

#[export] Instance UserStore_reads {U : UnicodeTables} {Bc : Bcrypt} (s : UserStore) :
  ReadOnlyAccounts (UserStore_accounts s).
Proof.
  split. intros id w Hh. cbn [accounts_FindByID UserStore_accounts]. unfold FindByID, loadUsers.
  destruct (read_healthy (λ f, (if dirb f (root s) then Ok (entries f (root s))
    else match f !! root s with None => Err os_ErrNotExist | Some _ => Err os_ErrIO end, f)) w) as [x Hx];
    [by intros f | done |].
  unfold mbind, st_bind. change (os_ReadDir (root s) w) with (syscall (λ f, (if dirb f (root s) then Ok (entries f (root s))
    else match f !! root s with None => Err os_ErrNotExist | Some _ => Err os_ErrIO end, f)) w). rewrite Hx.
  destruct x as [es | e]; [| by destruct e; eexists].
  destruct (load_entries_reads s es w Hh) as [r ->]. by eexists.
Defined.

(** ** Groups by domain *)

Section Queue.
Context {U : UnicodeTables} {Acc : Accounts} {Laws : AccountsLaws Acc} {Et : ErrorText} {Zo : Zone}.

Definition addressable (rcpt : bytes) : Prop := SplitAddress rcpt ≠ None.
#[export] Instance addressable_dec rcpt : Decision (addressable rcpt).
Proof. unfold addressable. apply _. Defined.

Definition group_step (grouped : gmap bytes (list bytes)) (rcpt : bytes) : gmap bytes (list bytes) :=
  match SplitAddress rcpt with
  | None => grouped
  | Some (_, domain) => <[domain := default [] (grouped !! domain) ++ [rcpt]]> grouped
  end.

Lemma concat_insert (m : gmap bytes (list bytes)) k r :
  concat (map_to_list (<[k := default [] (m !! k) ++ [r]]> m)).*2 ≡ₚ r :: concat (map_to_list m).*2.
Proof.
  destruct (m !! k) as [v |] eqn:E; simpl.
  - rewrite <- (insert_delete_id m k v E) at 2. rewrite <- insert_delete_eq.
    rewrite !map_to_list_insert by apply lookup_delete_eq. simpl. rewrite <- app_assoc.
    symmetry. apply Permutation_middle.
  - rewrite map_to_list_insert by done. done.
Qed.

Lemma concat_groups rcpts m :
  concat (map_to_list (foldl group_step m rcpts)).*2 ≡ₚ concat (map_to_list m).*2 ++ filter addressable rcpts.
Proof.
  revert m. induction rcpts as [| r rcpts IH]; intros m; simpl; [by rewrite filter_nil, app_nil_r |].
  rewrite IH. unfold group_step at 1. rewrite filter_cons.
  assert (addressable r ↔ SplitAddress r ≠ None) as Hr by done.
  destruct (SplitAddress r) as [[local domain] |] eqn:E.
  - rewrite decide_True by (by apply Hr). rewrite concat_insert. apply (Permutation_middle (concat (map_to_list m).*2)).
  - by rewrite decide_False by (intros Hx; by apply Hr in Hx).
Qed.

(** Grouping neither loses nor repeats a recipient. *)
Lemma groupByDomain_recipients rcpts :
  concat (map_to_list (groupByDomain rcpts)).*2 ≡ₚ filter addressable rcpts.
Proof. unfold groupByDomain. fold group_step. by rewrite (concat_groups rcpts ∅). Qed.

(** ** Reports to the sender *)

Lemma rand_spared n w r w' dir : rand_Read n w = (r, w') → spared dir w w'.
Proof. unfold rand_Read. case_decide; by intros [= _ <-]. Qed.

Lemma randomID_spared n w r w' dir : randomID n w = (r, w') → spared dir w w'.
Proof.
  unfold randomID. intros (x & w1 & Hx & H)%st_bind_inv. apply (rand_spared _ _ _ _ dir) in Hx. etrans; [exact Hx |].
  destruct x; [by st_inv |]. apply st_bind_inv in H as (now & w2 & Hn & H). unfold Now, gets in Hn. by st_inv.
Qed.

Context {Ro : ReadOnlyAccounts Acc} (dir : path) (Hap : ∀ uid, apart dir (mailRoot uid)).

Lemma bounce_spared srv entry rcpts cause w r w' :
  healthy w → bounce srv entry rcpts cause w = (r, w') → spared dir w w'.
Proof.
  intros Hh. unfold bounce. destruct (SplitAddress _) as [[local domain] |]; [| by intros [= _ <-]].
  destruct (negb _); [by intros [= _ <-] |].
  destruct (FindByID_reads local w Hh) as [x Hx]. rewrite (st_bind_eq _ _ _ _ _ Hx).
  destruct x as [a |]; [| by intros [= _ <-]].
  intros (rid & w1 & H1 & H)%st_bind_inv. apply (randomID_spared _ _ _ _ dir) in H1. etrans; [exact H1 |].
  rewrite (st_bind_eq Now _ w1 _ _ eq_refl) in H.
  apply st_bind_inv in H as (mid & w2 & H2 & H). apply (randomID_spared _ _ _ _ dir) in H2. etrans; [exact H2 |].
  cbv zeta in H. rewrite (st_bind_eq Now _ w2 _ _ eq_refl) in H.
  apply st_bind_inv in H as (x & w3 & H3 & H). apply (Append_spared _ _ _ _ _ _ _ _ dir) in H3; [| | apply Hap].
  - by destruct x; st_inv.
  - apply good_name_iff. unfold CanonicalMailbox. change (Trim Inbox Delimiter) with Inbox. rewrite EqualFold_refl.
    by apply (bool_decide_unpack _).
Qed.

(** A round gives every group a fate, in order, and spares the queue. *)
Lemma deliver_groups_spec net srv entry message groups w ds w' :
  healthy w → deliver_groups net srv entry message groups w = (ds, w') →
  spared dir w w' ∧ (λ d, (dl_domain d, dl_rcpts d)) <$> ds = groups ∧
  Forall (λ d,
    let '(e, l) := deliverDomain net (cfg srv) (dl_domain d) (e_From entry) (dl_rcpts d) message in
    dl_log d = l ∧
    match dl_fate d with
    | Relayed => e = None
    | Rejected x => e = Some x ∧ permanent x = true
    | Deferred x => e = Some x ∧ permanent x = false
    end) ds.
Proof.
  revert w ds w'. induction groups as [| [domain rcpts] groups IH]; intros w ds w' Hh H; simpl in H.
  { injection H as <- <-. split; [done |]. split; [done | constructor]. }
  destruct (deliverDomain net (cfg srv) domain (e_From entry) rcpts message) as [e l] eqn:Hd.
  destruct e as [e |].
  - destruct (permanent e) eqn:Hp.
    + apply st_bind_inv in H as (b & w1 & Hb & H). apply bounce_spared in Hb as Hs; [| done].
      apply st_bind_inv in H as (rest & w2 & Hr & H). st_inv.
      apply IH in Hr as (Hs' & Hg & Hf); [| by apply Hs]. split; [by etrans |].
      split; [by rewrite fmap_cons, Hg |]. constructor; [| done]. simpl. by rewrite Hd.
    + apply st_bind_inv in H as (rest & w2 & Hr & H). st_inv.
      apply IH in Hr as (Hs' & Hg & Hf); [| done]. split; [done |].
      split; [by rewrite fmap_cons, Hg |]. constructor; [| done]. simpl. by rewrite Hd.
  - apply st_bind_inv in H as (rest & w2 & Hr & H). st_inv.
    apply IH in Hr as (Hs' & Hg & Hf); [| done]. split; [done |].
    split; [by rewrite fmap_cons, Hg |]. constructor; [| done]. simpl. by rewrite Hd.
Qed.

(** The recipients of a round by fate. *)
Definition relayed (ds : list delivery) : list bytes :=
  concat ((λ d, match dl_fate d with Relayed => dl_rcpts d | _ => [] end) <$> ds).
Definition rejected (ds : list delivery) : list bytes :=
  concat ((λ d, match dl_fate d with Rejected _ => dl_rcpts d | _ => [] end) <$> ds).

Lemma fates_partition ds : concat (dl_rcpts <$> ds) ≡ₚ relayed ds ++ rejected ds ++ deferred ds.
Proof.
  induction ds as [| d ds IH]; [done |]. unfold relayed, rejected, deferred in *. rewrite !fmap_cons. cbn [concat].
  rewrite IH. destruct (dl_fate d); cbn [app].
  - by rewrite <- app_assoc.
  - rewrite <- (app_assoc (dl_rcpts d)). apply Permutation_app_swap_app.
  - etrans; [apply Permutation_app_swap_app |]. apply Permutation_app_head, Permutation_app_swap_app.
Qed.

End Queue.

(** ** Entries on disk *)

Section Entries.
Context (dir : path).

Lemma entry_roundtrip e : is_int64 (Attempts e) → unmarshal_entry (marshal_entry e) = Some e.
Proof.
  intros Ha. destruct e as [id from to att first next last]. cbn [Attempts] in Ha.
  unfold marshal_entry, unmarshal_entry. cbn [e_ID e_From e_To Attempts FirstTry NextTry LastError].
  assert (∀ tl, json_strings (json_field (B "to") ([(B "id", JString id); (B "from", JString from); (B "to", JArray (JString <$> to));
    (B "attempts", JNumber att 0); (B "first_try", JTime first); (B "next_try", JTime next)] ++ tl)) =
    match json_field (B "to") tl with Some v => json_strings (Some v) | None => Some to end) as Hto.
  { intros tl. simpl. destruct (json_field _ tl); [done |]. unfold json_strings, json_list.
    apply json_strings_roundtrip. }
  destruct (decide (last = [])) as [-> | Hl]; rewrite Hto; simpl; rewrite decide_True by done; done.
Qed.

(** A message in the queue: its sidecar and its body. *)
Record queued (f : tree) (entry : queueEntry) (message : bytes) : Prop := {
  q_dir : Forall plain dir ∧ dirb f dir = true;
  q_names : plain (e_ID entry ++ B ".json") ∧ plain (e_ID entry ++ B ".eml");
  q_entry : ∃ j, file_in f (dir ++ [e_ID entry ++ B ".json"]) = Some (Json j) ∧ unmarshal_entry j = Some entry;
  q_body : file_in f (dir ++ [e_ID entry ++ B ".eml"]) = Some (Raw message);
}.

(** No message of this name. *)
Definition unqueued (f : tree) (id : bytes) : Prop :=
  f !! (dir ++ [id ++ B ".json"]) = None ∧ f !! (dir ++ [id ++ B ".eml"]) = None.

Lemma json_not_eml (id id' : bytes) : id ++ B ".json" ≠ id' ++ B ".eml".
Proof. intros H. apply (f_equal last) in H. by rewrite !last_app in H. Qed.

Lemma file_in_same f f' p : f' !! p = f !! p → file_in f' p = file_in f p.
Proof. unfold file_in. by intros ->. Qed.

Lemma queued_spared w w' entry message :
  spared dir w w' → queued (w_fs w) entry message → queued (w_fs w') entry message.
Proof.
  intros (_ & _ & Hs) [[Hp Hd] Hn (j & Hj & Hu) Hb]. constructor.
  - split; [done |]. rewrite dirb_spec in *. destruct Hd as [-> | Hd]; [by left | right]. by rewrite Hs.
  - done.
  - exists j. split; [| done]. rewrite <- Hj. apply file_in_same, Hs. by eexists.
  - rewrite <- Hb. apply file_in_same, Hs. by eexists.
Qed.

Lemma entryPath_eq id : Forall plain dir → plain (id ++ B ".json") → entryPath dir id = dir ++ [id ++ B ".json"].
Proof. intros Hd Hp. apply Join_plain; [done | by apply Forall_singleton]. Qed.
Lemma bodyPath_eq id : Forall plain dir → plain (id ++ B ".eml") → bodyPath dir id = dir ++ [id ++ B ".eml"].
Proof. intros Hd Hp. apply Join_plain; [done | by apply Forall_singleton]. Qed.

Lemma queued_read entry message w :
  queued (w_fs w) entry message → healthy w →
  readEntry dir (e_ID entry) w = (Ok entry, w) ∧ os_ReadFile (bodyPath dir (e_ID entry)) w = (Ok (Raw message), w).
Proof.
  intros [[Hp _] [Hj Hb] (j & Hf & Hu) Hm] Hh. unfold readEntry, read_json. rewrite entryPath_eq, bodyPath_eq by done. split.
  - rewrite (try_bind_ok _ _ _ _ _ (os_ReadFile_ok _ _ _ Hh Hf)). cbn [unmarshal entry_codec]. by rewrite Hu.
  - by apply os_ReadFile_ok.
Qed.

Lemma queued_remove entry message w :
  queued (w_fs w) entry message → healthy w →
  ∃ f, remove_entry dir (e_ID entry) w = (tt, set_fs f w) ∧ unqueued f (e_ID entry).
Proof.
  intros [[Hp _] [Hj Hb] (j & Hf & Hu) Hm] Hh. unfold remove_entry. rewrite entryPath_eq, bodyPath_eq by done.
  set (p1 := dir ++ [e_ID entry ++ B ".json"]) in *. set (p2 := dir ++ [e_ID entry ++ B ".eml"]) in *.
  assert (p1 ≠ p2) as Hne by (intros [_ Hx]%app_inj_tail; by apply json_not_eml in Hx).
  rewrite (st_bind_eq _ _ _ _ _ (os_Remove_ok _ _ _ Hh Hf)).
  assert (file_in (delete p1 (w_fs w)) p2 = Some (Raw message)) as Hm' by (by rewrite file_in_delete, decide_False).
  rewrite (st_bind_eq _ _ _ _ _ (os_Remove_ok p2 (set_fs (delete p1 (w_fs w)) w) _ Hh Hm')).
  eexists. split; [reflexivity |]. split; fold p1 p2; cbn [w_fs set_fs].
  - rewrite lookup_delete_ne by done. apply lookup_delete_eq.
  - apply lookup_delete_eq.
Qed.

Lemma queued_rewrite entry message w entry' :
  queued (w_fs w) entry message → healthy w → e_ID entry' = e_ID entry → is_int64 (Attempts entry') →
  ∃ f, writeEntry dir entry' w = (Ok tt, set_fs f w) ∧ queued f entry' message.
Proof.
  intros [[Hp Hd] [Hj Hb] (j & Hf & Hu) Hm] Hh Hid Ha. unfold writeEntry. rewrite Hid, entryPath_eq by done.
  set (p1 := dir ++ [e_ID entry ++ B ".json"]) in *.
  assert (p1 ≠ dir ++ [e_ID entry ++ B ".eml"]) as Hne by (intros [_ Hx]%app_inj_tail; by apply json_not_eml in Hx).
  rewrite os_WriteFile_ok; [| done | | by unfold p1; rewrite parent_snoc].
  - eexists. split; [reflexivity |]. constructor; rewrite ?Hid; fold p1.
    + split; [done |]. rewrite dirb_spec in *. destruct Hd as [-> | Hd]; [by left | right].
      rewrite lookup_insert_ne; [done |]. intros Hx. apply (f_equal length) in Hx. unfold p1 in Hx.
      rewrite length_app in Hx. simpl in Hx. lia.
    + done.
    + exists (marshal entry'). rewrite file_in_insert, decide_True by done. split; [done |]. by apply entry_roundtrip.
    + by rewrite file_in_insert, decide_False.
  - apply not_true_is_false. rewrite dirb_spec. intros [Hx | Hx]; [by apply snoc_nonempty in Hx |].
    apply file_in_Some in Hf. congruence.
Qed.

Lemma plain_suffix id sfx : "/"%char ∉ id ++ sfx → (2 < length sfx)%nat → plain (id ++ sfx).
Proof.
  intros Hs Hl. split; [| split; [| split; [| done]]]; intros Hx; apply (f_equal length) in Hx;
    rewrite length_app in Hx; simpl in Hx; lia.
Qed.

Lemma randomID_no_slash n w r w' : randomID n w = (r, w') → "/"%char ∉ r.
Proof.
  unfold randomID. intros (x & w1 & _ & H)%st_bind_inv. destruct x as [buf | e].
  - st_inv. pose proof (EncodeToString_class buf) as Hc. rewrite Forall_forall in Hc. intros Hin%Hc. by vm_compute in Hin.
  - apply st_bind_inv in H as (now & w2 & _ & H). st_inv. by apply FormatInt_notin.
Qed.

Lemma randomID_tree n w r w' : randomID n w = (r, w') → w_fs w' = w_fs w ∧ w_now w' = w_now w ∧ w_faults w' = w_faults w.
Proof.
  unfold randomID, rand_Read. intros (x & w1 & Hx & H)%st_bind_inv.
  assert (w_fs w1 = w_fs w ∧ w_now w1 = w_now w ∧ w_faults w1 = w_faults w) as (H1 & H2 & H3) by (case_decide; by injection Hx as _ <-).
  destruct x; [by st_inv |]. apply st_bind_inv in H as (now & w2 & Hn & H). unfold Now, gets in Hn. by st_inv.
Qed.

(** A write that succeeded, at a name below the queue directory. *)
Lemma write_below w name c w' :
  os_WriteFile (dir ++ [name]) c w = (Ok tt, w') →
  w_now w' = w_now w ∧ w_fs w' = <[dir ++ [name] := File c]> (w_fs w) ∧ dirb (w_fs w') dir = true.
Proof.
  intros (Hn & _ & [(_ & Hf & Hd & Hp) | (e & He & _)])%os_WriteFile_inv; [| done].
  split; [done |]. split; [done |]. rewrite Hf. rewrite parent_snoc, dirb_spec in Hp. rewrite dirb_spec.
  destruct Hp as [-> | Hp]; [by left | right]. rewrite lookup_insert_ne; [done |].
  intros Hx. apply (f_equal length) in Hx. rewrite length_app in Hx. simpl in Hx. lia.
Qed.

(** ** Accepting a message *)

(** What [enqueue] does once it has a name. *)
Definition spool (id from : bytes) (to : list bytes) (message : bytes) : M (result unit) :=
  _ ←? os_WriteFile (bodyPath dir id) (Raw message);
  first ← Now;
  next ← Now;
  r ← writeEntry dir (QueueEntry id from to 0 first next []);
  match r with
  | Err e => _ ← os_Remove (bodyPath dir id); mret (Err e)
  | Ok _ => mret (Ok tt)
  end.

Definition spool_name (id : bytes) : Prop := plain (id ++ B ".json") ∧ plain (id ++ B ".eml").

Lemma enqueue_spool from to message w w1 :
  os_MkdirAll dir w = (Ok tt, w1) →
  ∃ id w2, spool_name id ∧ w_fs w2 = w_fs w1 ∧ w_now w2 = w_now w1 ∧ w_faults w2 = w_faults w1 ∧
    enqueue dir from to message w = spool id from to message w2 ∧ (FormatInt (w_now w1) ++ B "-") `prefix_of` id.
Proof.
  intros Hm. unfold enqueue. rewrite (try_bind_ok _ _ _ _ _ Hm).
  rewrite (st_bind_eq Now _ w1 _ _ eq_refl). destruct (randomID 6 w1) as [rid w2] eqn:Hr.
  rewrite (st_bind_eq _ _ _ _ _ Hr). cbv zeta. exists (FormatInt (w_now w1) ++ B "-" ++ rid), w2.
  pose proof (randomID_no_slash _ _ _ _ Hr) as Hslash. apply randomID_tree in Hr as (Hf & Hn & Hx).
  split; [| by repeat (split; [done |]); exists rid; rewrite <- app_assoc]. set (id := FormatInt (w_now w1) ++ B "-" ++ rid).
  assert (∀ sfx, "/"%char ∉ sfx → "/"%char ∉ id ++ sfx) as Hid.
  { intros sfx Hsfx. unfold id. rewrite !not_elem_of_app. repeat split; [by apply FormatInt_notin | | done | done].
    by apply (bool_decide_unpack _). }
  split; (apply plain_suffix; [apply Hid; by apply (bool_decide_unpack _) | simpl; lia]).
Qed.

Lemma spool_Ok id from to message w w' :
  Forall plain dir → spool_name id → spool id from to message w = (Ok tt, w') →
  queued (w_fs w') (QueueEntry id from to 0 (w_now w) (w_now w) []) message.
Proof.
  intros Hd [Hpj Hpb] H. unfold spool in H.
  apply try_bind_inv in H as [([] & w3 & H3 & H) | (e & _ & He)]; [| done].
  rewrite bodyPath_eq in H3 by done. apply write_below in H3 as (Hn3 & Hf3 & _).
  rewrite (st_bind_eq Now _ w3 _ _ eq_refl), (st_bind_eq Now _ w3 _ _ eq_refl) in H.
  apply st_bind_inv in H as (r & w4 & H4 & H). destruct r as [[] | e].
  2: { apply st_bind_inv in H as (? & ? & _ & H). by st_inv. }
  st_inv. unfold writeEntry in H4. cbn [e_ID] in H4. rewrite entryPath_eq in H4 by done.
  apply write_below in H4 as (_ & Hf4 & Hdir). rewrite <- Hn3. constructor; cbn [e_ID]; [done | done | |].
  - eexists. rewrite Hf4, file_in_insert, decide_True by done. split; [reflexivity |].
    by apply entry_roundtrip.
  - rewrite Hf4, file_in_insert, decide_False, Hf3, file_in_insert, decide_True; [done | done |].
    intros [_ Hx]%app_inj_tail. by apply json_not_eml in Hx.
Qed.

Lemma enqueue_Ok from to message w w' :
  Forall plain dir → enqueue dir from to message w = (Ok tt, w') →
  ∃ id, queued (w_fs w') (QueueEntry id from to 0 (w_now w) (w_now w) []) message.
Proof.
  intros Hd H. destruct (os_MkdirAll dir w) as [r w1] eqn:Hm. destruct r as [[] | e].
  2: { unfold enqueue in H. rewrite (try_bind_err _ _ _ _ _ Hm) in H. done. }
  destruct (enqueue_spool from to message w w1 Hm) as (id & w2 & Hid & _ & Hn & _ & Heq & _). rewrite Heq in H.
  apply os_MkdirAll_inv in Hm as (Hn1 & _). exists id. replace (w_now w) with (w_now w2) by congruence.
  by apply spool_Ok.
Qed.

(** Whatever fails, only the queue directory changes. *)
Lemma put_outside name c w r w' :
  dir_ok (w_fs w) dir → dirb (w_fs w) dir = true → os_WriteFile (dir ++ [name]) c w = (r, w') →
  dir_ok (w_fs w') dir ∧ dirb (w_fs w') dir = true ∧ outside dir (w_fs w) (w_fs w').
Proof.
  intros Hd Hb H. apply os_WriteFile_inv in H as (_ & _ & [(_ & -> & _) | (e & _ & [-> | (-> & _)])]).
  - destruct (dir_ok_insert _ _ name c Hd Hb). split; [done |]. split; [done | apply outside_insert].
  - done.
  - destruct (dir_ok_insert _ _ name (Raw []) Hd Hb). split; [done |]. split; [done | apply outside_insert].
Qed.

Lemma os_Remove_tree p w r w' :
  os_Remove p w = (r, w') → w_fs w' = w_fs w ∨ w_fs w' = delete p (w_fs w).
Proof.
  unfold os_Remove. intros [[_ [-> _]] | (f & Hb & -> & _)]%syscall_inv; [by left |].
  destruct (w_fs w !! p) as [[| c] |]; [destruct (entries _ _) | |]; injection Hb as _ <-; auto.
Qed.

Lemma spool_outside id from to message w r w' :
  Forall plain dir → spool_name id → dir_ok (w_fs w) dir → dirb (w_fs w) dir = true →
  spool id from to message w = (r, w') → dir_ok (w_fs w') dir ∧ outside dir (w_fs w) (w_fs w').
Proof.
  intros Hd [Hpj Hpb] Hok Hb H. unfold spool in H. rewrite bodyPath_eq in H by done.
  apply try_bind_inv in H as [(x & w3 & H3 & H) | (e & H3 & _)]; apply put_outside in H3 as (Hok3 & Hb3 & Ho3); try done.
  rewrite (st_bind_eq Now _ w3 _ _ eq_refl), (st_bind_eq Now _ w3 _ _ eq_refl) in H.
  apply st_bind_inv in H as (r' & w4 & H4 & H). unfold writeEntry in H4. cbn [e_ID] in H4. rewrite entryPath_eq in H4 by done.
  apply put_outside in H4 as (Hok4 & Hb4 & Ho4); [| done | done].
  destruct r' as [u | e]; [st_inv; split; [done | by etrans] |].
  apply st_bind_inv in H as (r' & w5 & H5 & H). st_inv.
  apply os_Remove_tree in H5 as [-> | ->]; [split; [done | by etrans] |].
  split; [by apply dir_ok_delete |]. etrans; [exact Ho3 |]. etrans; [exact Ho4 | apply outside_delete].
Qed.

Lemma enqueue_outside from to message w r w' :
  Forall plain dir → dir_ok (w_fs w) dir → enqueue dir from to message w = (r, w') →
  dir_ok (w_fs w') dir ∧ outside dir (w_fs w) (w_fs w').
Proof.
  intros Hd Hok H. destruct (os_MkdirAll dir w) as [rm w1] eqn:Hm.
  pose proof (os_MkdirAll_inv _ _ _ _ Hm) as (_ & _ & [(-> & Hf & _) | (-> & Hf)]).
  - destruct (enqueue_spool from to message w w1 Hm) as (id & w2 & Hid & Hf2 & _ & _ & Heq & _). rewrite Heq in H.
    destruct (dir_ok_mkdirs _ _ Hok) as [Hok1 Hb1]. rewrite <- Hf, <- Hf2 in Hok1, Hb1.
    destruct (spool_outside _ _ _ _ _ _ _ Hd Hid Hok1 Hb1 H) as [Hok' Ho]. split; [done |].
    etrans; [| exact Ho]. rewrite Hf2, Hf. apply outside_mkdirs.
  - unfold enqueue in H. rewrite (try_bind_err _ _ _ _ _ Hm) in H. injection H as _ <-. by rewrite Hf.
Qed.

Lemma enqueue_healthy from to message w :
  Forall plain dir → dir_ok (w_fs w) dir → healthy w →
  ∃ w', enqueue dir from to message w = (Ok tt, w') ∧ w_now w' = w_now w ∧ healthy w'.
Proof.
  intros Hd Hok Hh.
  pose proof (os_MkdirAll_ok dir w Hh (dok_above _ _ Hok)) as Hm.
  destruct (enqueue_spool from to message w _ Hm) as (id & w2 & [Hpj Hpb] & Hf & Hn2 & Hx & Heq & _). rewrite Heq.
  destruct (dir_ok_mkdirs _ _ Hok) as [Hok1 Hb1]. cbn [w_fs set_fs] in Hf. rewrite <- Hf in Hok1, Hb1.
  assert (healthy w2) as Hh2 by (unfold healthy; by rewrite Hx). unfold spool. rewrite bodyPath_eq by done.
  assert (∀ w3 name c, dir_ok (w_fs w3) dir → dirb (w_fs w3) dir = true → healthy w3 →
    os_WriteFile (dir ++ [name]) c w3 = (Ok tt, set_fs (<[dir ++ [name] := File c]> (w_fs w3)) w3)) as Hw.
  { intros w3 name c Ho3 Hb3 Hh3. apply os_WriteFile_ok; [done | by apply dirb_file | by rewrite parent_snoc]. }
  rewrite (try_bind_ok _ _ _ _ _ (Hw _ _ _ Hok1 Hb1 Hh2)).
  rewrite (st_bind_eq Now _ _ _ _ eq_refl), (st_bind_eq Now _ _ _ _ eq_refl).
  unfold writeEntry. cbn [e_ID]. rewrite entryPath_eq by done.
  destruct (dir_ok_insert _ _ (id ++ B ".eml") (Raw message) Hok1 Hb1) as [Hok3 Hb3].
  erewrite st_bind_eq; [| apply Hw; [exact Hok3 | exact Hb3 | exact Hh2]]. eexists. split; [done |]. by split; [cbn; rewrite Hn2 |].
Qed.

End Entries.
