(* ===== verification/RelaySpec.v ===== *)
(** * RelaySpec: what the outbound queue promises

    No recipient is lost between accepting a message and reporting on it, the
    retry ladder is the doubling one, and three situations in which the queue does not do what it means to. *)

From S2P Require Import Prelude GoStrings Strconv Crypto World WorldFacts Accounts AccountsFacts Flags MailStore.
From S2P Require Import MailNames MailFacts Token Config GoNet MailServer Relay RelayFacts Fixtures MailFixtures Directory ServerFixtures.

(** ** The retry ladder *)

(** Five minutes, doubled with every attempt, at most six hours. *)
Definition ladder (n : nat) : Z := Z.min (6 * Hour) (5 * Minute * 2 ^ Z.of_nat (n - 1)).

Lemma backoff_loop_spec n d :
  0 < d < 6 * Hour → backoff_loop n d = Z.min (6 * Hour) (d * 2 ^ Z.of_nat n).
Proof.
  revert d. induction n as [| n IH]; intros d Hd; simpl backoff_loop.
  { rewrite Z.min_r; lia. }
  unfold Hour, Minute, Second in *. rewrite int64_id by (unfold is_int64; lia).
  rewrite Nat2Z.inj_succ, Z.pow_succ_r by lia. destruct (6 * (60 * (60 * 10 ^ 9)) <=? d * 2) eqn:E.
  - assert (1 <= 2 ^ Z.of_nat n) by (pose proof (Z.pow_pos_nonneg 2 (Z.of_nat n)); lia).
    rewrite Z.min_l; [done |]. nia.
  - rewrite IH by lia. f_equal. lia.
Qed.

Lemma backoff_ladder n : (1 <= n)%nat → backoff (Z.of_nat n) = ladder n.
Proof.
  intros Hn. unfold backoff, ladder. rewrite backoff_loop_spec by (unfold queueRetryInterval, Hour, Minute, Second; lia).
  replace (Z.to_nat (Z.of_nat n - 1)) with (n - 1)%nat by lia. done.
Qed.

Lemma backoff_range n : 1 <= n → 5 * Minute <= backoff n <= 6 * Hour.
Proof.
  intros Hn. replace n with (Z.of_nat (Z.to_nat n)) by lia. rewrite backoff_ladder by lia. unfold ladder.
  set (k := (Z.to_nat n - 1)%nat). pose proof (Z.pow_pos_nonneg 2 (Z.of_nat k)).
  unfold Hour, Minute, Second in *. nia.
Qed.

#[export] Instance smtp_call_eq_dec : EqDecision smtp_call.
Proof. solve_decision. Defined.

Section Spec.
Context {U : UnicodeTables} {Acc : Accounts} {Laws : AccountsLaws Acc} {Et : ErrorText} {Zo : Zone}.
Context {Ro : ReadOnlyAccounts Acc} (dir : path) (Hap : ∀ uid, apart dir (mailRoot uid)).

(** The entry a round leaves when recipients remain. *)
Definition retried (entry : queueEntry) (ds : list delivery) (now : Z) : queueEntry :=
  QueueEntry (e_ID entry) (e_From entry) (deferred ds) (Attempts entry + 1) (FirstTry entry)
    (now + backoff (Attempts entry + 1))
    (match last_error ds with Some e => Error e | None => LastError entry end).

(** What a round leaves of the entry. *)
Definition after_round (f : tree) (entry : queueEntry) (message : bytes) (ds : list delivery) (now : Z) : Prop :=
  if decide (deferred ds = [] ∨ queueMaxAttempts <= Attempts entry + 1) then unqueued dir f (e_ID entry)
  else queued dir f (retried entry ds now) message.

(** The fates follow from what the network said. *)
Definition fair_report (net : network) (srv : Server) (entry : queueEntry) (message : bytes) (d : delivery) : Prop :=
  let '(e, l) := deliverDomain net (cfg srv) (dl_domain d) (e_From entry) (dl_rcpts d) message in
  dl_log d = l ∧
  match dl_fate d with
  | Relayed => e = None
  | Rejected x => e = Some x ∧ permanent x = true
  | Deferred x => e = Some x ∧ permanent x = false
  end.

Lemma attempt_healthy net range srv entry message w :
  queued dir (w_fs w) entry message → healthy w → 0 <= Attempts entry < 2 ^ 62 →
  ∃ ds w', attempt dir net range srv entry w = (ds, w') ∧ healthy w' ∧ w_now w' = w_now w ∧
    (λ d, (dl_domain d, dl_rcpts d)) <$> ds = range (map_to_list (groupByDomain (e_To entry))) ∧
    Forall (fair_report net srv entry message) ds ∧
    after_round (w_fs w') entry message ds (w_now w).
Proof.
  intros Hq Hh Ha. unfold attempt. destruct (queued_read _ _ _ _ Hq Hh) as [_ Hb].
  rewrite (st_bind_eq _ _ _ _ _ Hb). cbn [content_bytes]. rewrite int64_id by (unfold is_int64; lia).
  set (entry1 := set_attempts (Attempts entry + 1) entry). change (e_To entry1) with (e_To entry).
  destruct (deliver_groups net srv entry1 message (range (map_to_list (groupByDomain (e_To entry)))) w) as [ds w1] eqn:Hd.
  rewrite (st_bind_eq _ _ _ _ _ Hd). apply (deliver_groups_spec dir Hap) in Hd as (Hs & Hg & Hf); [| done].
  assert (healthy w1) as Hh1 by (by apply Hs). assert (w_now w1 = w_now w) as Hn1 by apply Hs.
  apply (queued_spared dir _ _ _ _ Hs) in Hq as Hq1. cbv zeta. unfold after_round.
  assert (∀ w2, spared dir w1 w2 → ∃ f, remove_entry dir (e_ID entry1) w2 = (tt, set_fs f w2) ∧
    unqueued dir f (e_ID entry)) as Hrem.
  { intros w2 Hs2. apply (queued_spared dir _ _ _ _ Hs2) in Hq1. apply (queued_remove dir entry message w2 Hq1).
    by apply Hs2. }
  destruct (decide (deferred ds = [])) as [Hnil | Hne].
  - destruct (Hrem w1) as (f & Hr & Hu); [done |]. rewrite (st_bind_eq _ _ _ _ _ Hr).
    exists ds, (set_fs f w1). repeat (split; [done |]). rewrite decide_True by (by left). exact Hu.
  - change (Attempts entry1) with (Attempts entry + 1). destruct (queueMaxAttempts <=? Attempts entry + 1) eqn:Hmax.
    + set (cause := ErrText _). destruct (bounce srv entry1 (deferred ds) cause w1) as [b w2] eqn:Hbo.
      rewrite (st_bind_eq _ _ _ _ _ Hbo). apply (bounce_spared dir Hap) in Hbo as Hs2; [| done].
      destruct (Hrem w2) as (f & Hr & Hu); [done |]. rewrite (st_bind_eq _ _ _ _ _ Hr).
      exists ds, (set_fs f w2). split; [done |]. split; [by apply Hs2 |]. split; [simpl; rewrite (proj1 Hs2); done |].
      split; [done |]. split; [done |]. rewrite decide_True by (right; lia). exact Hu.
    + rewrite (st_bind_eq Now _ w1 _ _ eq_refl). change (LastError entry1) with (LastError entry).
      change (e_ID entry1) with (e_ID entry). change (e_From entry1) with (e_From entry). change (FirstTry entry1) with (FirstTry entry).
      destruct (queued_rewrite dir entry message w1 (retried entry ds (w_now w))) as (f & Hw & Hq2);
        [done | done | done | simpl; unfold is_int64; lia |].
      rewrite Hn1. rewrite (st_bind_eq _ _ _ _ _ Hw). exists ds, (set_fs f w1). repeat (split; [done |]).
      rewrite decide_False by (intros [? | ?]; [done | lia]). exact Hq2.
Qed.

(** A round gives every recipient a fate. *)
Lemma round_partition range entry (ds : list delivery) :
  (∀ l, range l ≡ₚ l) → Forall addressable (e_To entry) →
  (λ d, (dl_domain d, dl_rcpts d)) <$> ds = range (map_to_list (groupByDomain (e_To entry))) →
  e_To entry ≡ₚ relayed ds ++ rejected ds ++ deferred ds.
Proof.
  clear Hap. intros Hrange Hto Hg. rewrite <- fates_partition.
  assert (dl_rcpts <$> ds = (range (map_to_list (groupByDomain (e_To entry)))).*2) as ->.
  { rewrite <- Hg, <- list_fmap_compose. done. }
  rewrite (Hrange (map_to_list _)), groupByDomain_recipients.
  clear -Hto. induction Hto as [| r l Hr Hl IH]; [done |]. rewrite filter_cons, decide_True by done. by rewrite <- IH.
Qed.

(** C5: No recipient is ever lost.  A delivery round on a healthy system,
    whatever the network answers and in whatever order the domains come up,
    gives every recipient of the entry exactly one fate: relayed only if the
    transaction for it succeeded, rejected only for a permanent error, and
    otherwise deferred; if recipients are deferred and this was not the
    twelfth attempt, exactly they are left in the queue, with the unchanged
    message and the next attempt at the time the retry ladder says, and in
    the other cases the message has left the queue. *)
Theorem attempt_conserves net range srv entry message w :
  queued dir (w_fs w) entry message → healthy w → 0 <= Attempts entry < 2 ^ 62 →
  (∀ l, range l ≡ₚ l) → Forall addressable (e_To entry) →
  ∃ ds w', attempt dir net range srv entry w = (ds, w') ∧
    e_To entry ≡ₚ relayed ds ++ rejected ds ++ deferred ds ∧
    Forall (fair_report net srv entry message) ds ∧
    if decide (deferred ds = [] ∨ queueMaxAttempts <= Attempts entry + 1)
    then unqueued dir (w_fs w') (e_ID entry)
    else readEntry dir (e_ID entry) w' = (Ok (retried entry ds (w_now w)), w') ∧
         os_ReadFile (bodyPath dir (e_ID entry)) w' = (Ok (Raw message), w').
Proof.
  intros Hq Hh Ha Hrange Hto.
  destruct (attempt_healthy net range srv entry message w Hq Hh Ha) as (ds & w' & Hat & Hh' & _ & Hg & Hf & Haft).
  exists ds, w'. split; [done |]. split; [by eapply round_partition |].
  split; [done |]. unfold after_round in Haft. case_decide; [done |]. exact (queued_read dir _ _ _ Haft Hh').
Qed.

(** ** Accepting a message *)

(** A message is acknowledged only when it is safe: whatever system calls
    fail, when [enqueue] reports success the body and a sidecar naming the
    sender and exactly the given recipients, due at once, are both on disk
    under one identifier. *)
Theorem enqueue_durable from to message w w' :
  Forall plain dir → enqueue dir from to message w = (Ok tt, w') →
  ∃ id, queued dir (w_fs w') (QueueEntry id from to 0 (w_now w) (w_now w) []) message.
Proof. clear Hap. apply enqueue_Ok. Qed.

(** ** Where the queue falls short *)

Lemma run_calls_stop (reply : list smtp_call → smtp_call → option error) before calls c rest e :
  (∀ b, Forall (λ c, reply b c = None) calls) → (∀ b, reply b c = Some e) →
  run_calls reply before (calls ++ c :: rest) = (Some e, calls).
Proof.
  intros H He. revert before. induction calls as [| x calls IH]; intros before; simpl; [by rewrite He |].
  assert (∀ b, reply b x = None ∧ Forall (λ c, reply b c = None) calls) as Hx by (intros b; specialize (H b); by inversion H).
  rewrite (proj1 (Hx before)), IH; [done | intros b; apply Hx].
Qed.

(** A network that refuses one call. *)
Definition refuses (net : network) (c : smtp_call) (e : error) : Prop :=
  ∀ tries addr rcpts before c', net_reply net tries addr rcpts before c' = if bool_decide (c' = c) then Some e else None.

(** Calls of a delivery that the peer took. *)
Definition taken (d : delivery) (c : smtp_call) : Prop := ∃ addr calls, (addr, calls) ∈ dl_log d ∧ c ∈ calls.
Definition is_dial (c : smtp_call) : bool :=
  match c with DialTLS _ | DialStartTLS _ _ | Dial => true | _ => false end.

(** A delivery through a smarthost one can connect to is one transaction. *)
Lemma smarthost_delivery net c domain from rcpts message call e :
  SmarthostAddr c ≠ [] → refuses net call e → is_dial call = false →
  ∃ addr k auth, is_dial k = true ∧
    deliverDomain net c domain from rcpts message =
      let '(x, done) := run_calls (λ _ y, if bool_decide (y = call) then Some e else None) [k]
                          (transaction (Hostname c) auth from rcpts message) in
      (x, [(addr, k :: done)]).
Proof.
  intros Hs Href Hd. unfold deliverDomain. rewrite decide_True by done. unfold deliverSmarthost.
  destruct (default _ (SplitHostPort (SmarthostAddr c))) as [host port].
  set (auth := if decide (SmarthostUser c = []) then None else _). set (addr := JoinHostPort host port).
  set (tlsb := bool_decide _). exists addr. unfold sendTo. unfold refuses in Href.
  assert (∀ calls before, run_calls (net_reply net 0 addr rcpts) before calls =
    run_calls (λ _ y, if bool_decide (y = call) then Some e else None) before calls) as Hrun.
  { intros calls. induction calls as [| x calls IH]; intros before; [done |]. simpl. rewrite Href. by rewrite IH. }
  assert (∀ k, is_dial k = true → net_reply net 0 addr rcpts [] k = None) as Hk.
  { intros k Hk. rewrite Href. rewrite bool_decide_eq_false_2; [done |]. intros ->. congruence. }
  unfold dial. destruct tlsb; [| destruct auth as [[u p] |]]; rewrite !Hk by done; cbn beta iota zeta.
  - exists (DialTLS host), auth. split; [done |]. rewrite Hrun. by destruct (run_calls _ _ _).
  - exists (DialStartTLS host true), (Some (u, p)). split; [done |]. rewrite Hrun. by destruct (run_calls _ _ _).
  - exists (DialStartTLS host false), None. split; [done |]. rewrite Hrun. by destruct (run_calls _ _ _).
Qed.

(** What comes before the recipients in a transaction. *)
Definition opening (helo : bytes) (auth : option (bytes * bytes)) (from : bytes) : list smtp_call :=
  Hello helo :: (match auth with Some (u, p) => [Auth u p] | None => [] end) ++ [Mail_ from].

Lemma transaction_eq helo auth from rcpts message :
  transaction helo auth from rcpts message =
  opening helo auth from ++ (Rcpt_ <$> rcpts) ++ [Data_; Write_ message; CloseData; Quit_].
Proof. unfold transaction, opening. by destruct auth as [[u p] |]. Qed.

Lemma opening_calls helo auth from (P : smtp_call → Prop) :
  P (Hello helo) → P (Mail_ from) → (∀ u p, P (Auth u p)) → Forall P (opening helo auth from).
Proof. intros H1 H2 H3. unfold opening. destruct auth as [[u p] |]; simpl; repeat constructor; auto. Qed.

Lemma attempt_deliveries net range srv entry message w ds w' (P : delivery → Prop) :
  queued dir (w_fs w) entry message → healthy w → 0 <= Attempts entry < 2 ^ 62 →
  attempt dir net range srv entry w = (ds, w') →
  (∀ d, fair_report net srv entry message d → P d) → Forall P ds.
Proof.
  intros Hq Hh Ha H HP. destruct (attempt_healthy net range srv entry message w Hq Hh Ha) as (ds' & w'' & H' & _ & _ & _ & Hf & _).
  rewrite H in H'. injection H' as <- <-. eapply Forall_impl; [exact Hf | done].
Qed.

(** A failed QUIT resends the message.  When the smarthost takes the whole
    message (its answer to the final dot is positive) and only the reply to
    QUIT is lost or temporary, the round counts every recipient as deferred:
    the message stays queued for everyone and is sent again. *)
Theorem quit_failure_resends net range srv entry message w ds w' e :
  queued dir (w_fs w) entry message → healthy w → 0 <= Attempts entry < 2 ^ 62 →
  SmarthostAddr (cfg srv) ≠ [] → refuses net Quit_ e → permanent e = false →
  attempt dir net range srv entry w = (ds, w') →
  Forall (λ d, taken d CloseData ∧ dl_fate d = Deferred e) ds.
Proof.
  intros Hq Hh Ha Hs Href Hp H. eapply attempt_deliveries; [done .. |]. intros d Hd. unfold fair_report in Hd.
  destruct (smarthost_delivery net (cfg srv) (dl_domain d) (e_From entry) (dl_rcpts d) message Quit_ e)
    as (addr & k & auth & _ & Heq); [done .. |].
  rewrite Heq, transaction_eq, !app_assoc in Hd.
  change [Data_; Write_ message; CloseData; Quit_] with ([Data_; Write_ message; CloseData] ++ [Quit_]) in Hd.
  rewrite app_assoc in Hd. rewrite (run_calls_stop _ _ _ Quit_ [] e) in Hd; [| | done].
  - destruct Hd as [Hl Hf]. split.
    + exists addr. eexists. rewrite Hl. split; [by left |]. right. apply elem_of_app. right. right. right. by left.
    + destruct (dl_fate d); [done | |]; destruct Hf as [[= <-] Hf]; congruence.
  - intros _. apply Forall_app. split; [| by repeat constructor]. apply Forall_app. split; [by apply opening_calls |].
    apply Forall_fmap, Forall_true. done.
Qed.

(** One refused recipient bounces everyone.  A permanent refusal of a
    single RCPT ends the transaction before any data is sent, and every
    recipient of that domain is rejected with it, the good addresses
    included. *)
Theorem one_bad_recipient_bounces_all net range srv entry message w ds w' e bad :
  queued dir (w_fs w) entry message → healthy w → 0 <= Attempts entry < 2 ^ 62 →
  SmarthostAddr (cfg srv) ≠ [] → refuses net (Rcpt_ bad) e → permanent e = true →
  attempt dir net range srv entry w = (ds, w') →
  Forall (λ d, bad ∈ dl_rcpts d → ¬ taken d Data_ ∧ dl_fate d = Rejected e) ds.
Proof.
  intros Hq Hh Ha Hs Href Hp H. eapply attempt_deliveries; [done .. |]. intros d Hd Hin. unfold fair_report in Hd.
  destruct (smarthost_delivery net (cfg srv) (dl_domain d) (e_From entry) (dl_rcpts d) message (Rcpt_ bad) e)
    as (addr & k & auth & Hk & Heq); [done .. |].
  apply list_elem_of_split_l in Hin as (l1 & l2 & Hl12 & Hnin). rewrite Heq, transaction_eq, Hl12, fmap_app, fmap_cons in Hd.
  rewrite <- app_assoc, app_assoc in Hd. cbn [app] in Hd. rewrite (run_calls_stop _ _ _ (Rcpt_ bad) _ e) in Hd.
  - destruct Hd as [Hl Hf]. split.
    + intros (addr' & calls & Hc & Hdata). rewrite Hl in Hc. apply list_elem_of_singleton in Hc as [= -> ->].
      apply elem_of_cons in Hdata as [<- | Hdata]; [done |].
      assert (Forall (λ c, c ≠ Data_) (opening (Hostname (cfg srv)) auth (e_From entry) ++ (Rcpt_ <$> l1))) as Hno.
      { apply Forall_app. split; [by apply opening_calls |]. by apply Forall_fmap, Forall_true. }
      rewrite Forall_forall in Hno. by apply (Hno _ Hdata).
    + destruct (dl_fate d); [done | |]; destruct Hf as [[= <-] Hf]; congruence.
  - intros _. apply Forall_app. split; [by apply opening_calls |]. apply Forall_fmap, Forall_forall. intros x Hx. simpl.
    rewrite bool_decide_eq_false_2; [done |]. intros [= ->]. done.
  - intros _. by rewrite bool_decide_eq_true_2.
Qed.

(** A body that cannot be read is thrown away.  If the one system call
    that fails is the read of the queued message (a passing I/O error), the
    round removes the message from the queue; no recipient is tried and the
    sender is not told. *)
Theorem attempt_drops_unreadable net range srv entry message w :
  queued dir (w_fs w) entry message → w_faults w = [Refused] →
  ∃ w', attempt dir net range srv entry w = ([], w') ∧ unqueued dir (w_fs w') (e_ID entry) ∧
    ∀ q, q ≠ entryPath dir (e_ID entry) → q ≠ bodyPath dir (e_ID entry) → w_fs w' !! q = w_fs w !! q.
Proof.
  intros Hq Hw. unfold attempt, os_ReadFile, syscall, next_fault, mbind, st_bind. rewrite Hw.
  set (w1 := World (w_fs w) (w_now w) (w_rand w) []).
  destruct (queued_remove dir entry message w1 Hq eq_refl) as (f & Hr & Hu).
  pose proof Hr as Hr'. unfold mret, st_ret. fold w1. rewrite Hr. eexists. split; [reflexivity |]. split; [exact Hu |].
  intros q H1 H2. revert Hr'. unfold remove_entry, os_Remove, syscall, next_fault, on_tree, mbind, st_bind. simpl.
  intros Hx.
  change (w_fs (tt, set_fs f w1).2 !! q = w_fs w !! q). rewrite <- Hx. clear Hx Hr.
  repeat (case_match; simplify_eq; simpl in *); rewrite ?lookup_delete_ne; done.
Qed.
End Spec.

(** ** A queue on the fixtures *)

#[export] Instance plain_errors : ErrorText := {|
  Error e := match e with ErrText t => t | SMTPError _ _ t => t | _ => B "error" end |}.
#[export] Instance utc : Zone := {| zone_offset _ := 0 |}.

Definition queue_dir : path := [B "data"; B "queue"].

Lemma queue_apart uid : apart queue_dir (mailRoot uid).
Proof.
  rewrite mailRoot_eq. unfold mail_accounts. cbn [accounts_UserDir UserStore_accounts].
  rewrite UserDir_eq by (by apply (bool_decide_unpack _)).
  split; intros [r Hr]; simpl in Hr; discriminate Hr.
Qed.

(** Three recipients at two domains. *)
Definition out_rcpts : list bytes := [B "carol@example.com"; B "dave@example.edu"; B "erin@example.com"].
Definition out_body : bytes := B "Subject: out" ++ [chr 13; chr 10; chr 13; chr 10] ++ B "hi" ++ [chr 13; chr 10].
Definition out_from : bytes := B "alice_1@example.org".
Definition queue_world : world := (enqueue queue_dir out_from out_rcpts out_body two_world).2.

Lemma enqueue_durable_witness :
  enqueue queue_dir out_from out_rcpts out_body two_world = (Ok tt, queue_world) ∧
  ∃ id, queued queue_dir (w_fs queue_world) (QueueEntry id out_from out_rcpts 0 (w_now two_world) (w_now two_world) []) out_body.
Proof.
  assert (enqueue queue_dir out_from out_rcpts out_body two_world = (Ok tt, queue_world)) as H.
  { rewrite (surjective_pairing (enqueue _ _ _ _ _)). fold queue_world.
    assert ((enqueue queue_dir out_from out_rcpts out_body two_world).1 = Ok tt) as -> by (vm_compute; reflexivity). done. }
  split; [exact H |]. apply (enqueue_durable queue_dir out_from out_rcpts out_body two_world queue_world); [| exact H].
  by apply (bool_decide_unpack _).
Defined.

(** The identifier: the clock and six random bytes. *)
Definition out_id : bytes := FormatInt (w_now two_world) ++ B "-" ++ (randomID 6 two_world).1.
Definition out_entry : queueEntry := QueueEntry out_id out_from out_rcpts 0 (w_now two_world) (w_now two_world) [].

Lemma out_queued : queued queue_dir (w_fs queue_world) out_entry out_body ∧ healthy queue_world.
Proof.
  split; [| by vm_compute]. constructor.
  - split; [by apply (bool_decide_unpack _) | by vm_compute].
  - split; apply (bool_decide_unpack _); vm_compute; exact I.
  - exists (marshal_entry out_entry). split; vm_compute; reflexivity.
  - vm_compute. reflexivity.
Qed.

(** Direct delivery: example.com has two exchangers, the first of which is
    down; example.edu does not answer. *)
Definition busy_network : network := {|
  LookupMX domain :=
    if decide (domain = B "example.com") then inr [(20, B "mx2.example.com."); (10, B "mx1.example.com.")]
    else inl (DNSError true false (B "timeout"));
  LookupHost _ := false;
  net_reply _ addr _ _ _ := if decide (addr = B "mx1.example.com:25") then Some (ErrText (B "refused")) else None;
|}.

Definition as_is : list (bytes * list bytes) → list (bytes * list bytes) := λ l, l.

Lemma attempt_conserves_witness :
  ∃ ds w', attempt queue_dir busy_network as_is plain_server out_entry queue_world = (ds, w') ∧
    relayed ds ≡ₚ [B "carol@example.com"; B "erin@example.com"] ∧ rejected ds = [] ∧
    readEntry queue_dir out_id w' =
      (Ok (QueueEntry out_id out_from [B "dave@example.edu"] 1 (w_now two_world) (w_now two_world + 5 * Minute) (B "timeout")), w').
Proof.
  destruct out_queued as [Hq Hh].
  destruct (attempt_conserves queue_dir queue_apart busy_network as_is plain_server out_entry out_body queue_world Hq Hh)
    as (ds & w' & Ha & _ & _ & Hend).
  - unfold out_entry. cbn [Attempts]. lia.
  - intros l. reflexivity.
  - apply (bool_decide_unpack _). vm_compute. exact I.
  - exists ds, w'. split; [exact Ha |].
    assert (ds = (attempt queue_dir busy_network as_is plain_server out_entry queue_world).1) as Hds by (by rewrite Ha).
    assert (relayed ds = [B "carol@example.com"; B "erin@example.com"]) as Hr by (rewrite Hds; vm_compute; reflexivity).
    assert (rejected ds = []) as Hj by (rewrite Hds; vm_compute; reflexivity).
    assert (deferred ds = [B "dave@example.edu"]) as Hd by (rewrite Hds; vm_compute; reflexivity).
    assert (last_error ds = Some (ErrText (B "timeout"))) as Hl by (rewrite Hds; vm_compute; reflexivity).
    clear Ha Hds. rewrite Hr. split; [reflexivity |]. split; [exact Hj |]. unfold retried in Hend. rewrite Hd, Hl in Hend.
    destruct (decide _) as [[Hx | Hx] | _]; [discriminate Hx | case (Hx eq_refl) |].
    exact (proj1 Hend).
Defined.

(** A smarthost that loses the reply to QUIT. *)
Definition refusing (call : smtp_call) (e : error) : network := {|
  LookupMX _ := inr [];
  LookupHost _ := false;
  net_reply _ _ _ _ c := if bool_decide (c = call) then Some e else None;
|}.
Definition lost : error := ErrText (B "connection reset").
Definition no_such_user : error := SMTPError 550 (5, 1, 1) (B "no such user").

Lemma quit_failure_resends_witness :
  Forall (λ d, taken d CloseData ∧ dl_fate d = Deferred lost)
    (attempt queue_dir (refusing Quit_ lost) as_is smart_server out_entry queue_world).1.
Proof.
  destruct out_queued as [Hq Hh].
  apply (quit_failure_resends queue_dir queue_apart (refusing Quit_ lost) as_is smart_server out_entry out_body queue_world
    _ (attempt queue_dir (refusing Quit_ lost) as_is smart_server out_entry queue_world).2 lost Hq Hh).
  - unfold out_entry. cbn [Attempts]. lia.
  - by vm_compute.
  - by intros addr rcpts c.
  - reflexivity.
  - apply surjective_pairing.
Defined.

Lemma one_bad_recipient_bounces_all_witness :
  Forall (λ d, B "carol@example.com" ∈ dl_rcpts d → ¬ taken d Data_ ∧ dl_fate d = Rejected no_such_user)
    (attempt queue_dir (refusing (Rcpt_ (B "carol@example.com")) no_such_user) as_is smart_server out_entry queue_world).1 ∧
  rejected (attempt queue_dir (refusing (Rcpt_ (B "carol@example.com")) no_such_user) as_is smart_server out_entry queue_world).1
    = [B "carol@example.com"; B "erin@example.com"].
Proof.
  split; [| vm_compute; reflexivity]. destruct out_queued as [Hq Hh].
  apply (one_bad_recipient_bounces_all queue_dir queue_apart (refusing (Rcpt_ (B "carol@example.com")) no_such_user) as_is
    smart_server out_entry out_body queue_world _
    (attempt queue_dir (refusing (Rcpt_ (B "carol@example.com")) no_such_user) as_is smart_server out_entry queue_world).2 no_such_user (B "carol@example.com") Hq Hh).
  - unfold out_entry. cbn [Attempts]. lia.
  - by vm_compute.
  - by intros addr rcpts c.
  - reflexivity.
  - apply surjective_pairing.
Defined.

Definition unlucky_world : world := World (w_fs queue_world) (w_now queue_world) (w_rand queue_world) [Refused].

Lemma attempt_drops_unreadable_witness :
  ∃ w', attempt queue_dir busy_network as_is plain_server out_entry unlucky_world = ([], w') ∧
    unqueued queue_dir (w_fs w') out_id.
Proof.
  destruct out_queued as [Hq _].
  destruct (attempt_drops_unreadable queue_dir busy_network as_is plain_server out_entry out_body unlucky_world Hq eq_refl)
    as (w' & H1 & H2 & _).
  exists w'. split; [exact H1 | exact H2].
Defined.
