(* ===== verification/Worker.v ===== *)
(** * Worker: the goroutine that drives the outbound queue ([run], [flush],
    [signal] and [shutdown] of [mail/relay.go])

    The worker is a state machine next to the connections that fill the queue.
    Its steps are the pieces of [flush] between which other goroutines run:
    listing the directory, looking at the next file, one delivery attempt; and
    the [select] of [run], which picks any channel that is ready.  The
    channels [wake] and the ticker's hold one element each, [stop] is closed
    once. *)

From S2P Require Import Prelude GoStrings World Accounts Flags MailStore Token Config GoNet MailServer Relay.

(** Where the worker is: before [os.ReadDir], in the loop over the files,
    past the test of [stop] for a file, in the [select], or returned. *)
Inductive phase :=
| Listing
| Scanning (files : list (bytes * bool))
| Trying (name : bytes) (files : list (bytes * bool))
| Selecting
| Finished.

#[export] Instance phase_eq_dec : EqDecision phase.
Proof. solve_decision. Defined.

(** Is there an element in [wake], in the ticker's channel; is [stop] closed? *)
Record queue := Queue { q_wake : bool; q_tick : bool; q_stop : bool; q_phase : phase; q_world : world }.

Definition set_phase (p : phase) (q : queue) : queue := Queue (q_wake q) (q_tick q) (q_stop q) p (q_world q).
Definition set_queue_world (w : world) (q : queue) : queue := Queue (q_wake q) (q_tick q) (q_stop q) (q_phase q) w.

(** [newQueue], and [run] entering its first [flush]. *)
Definition newQueue (w : world) : queue := Queue false false false Listing w.

(** [q.signal]: a second element is dropped. *)
Definition signal (q : queue) : queue := Queue true (q_tick q) (q_stop q) (q_phase q) (q_world q).
(** A tick; the ticker drops it, too, if nobody received the last one. *)
Definition ticked (q : queue) : queue := Queue (q_wake q) true (q_stop q) (q_phase q) (q_world q).
(** [close(q.stop)] *)
Definition close_stop (q : queue) : queue := Queue (q_wake q) (q_tick q) true (q_phase q) (q_world q).

Section Worker.
Context {U : UnicodeTables} {Acc : Accounts} {Et : ErrorText} {Zo : Zone} (dir : path) (srv : Server).

(** The next file of [flush]. *)
Definition scan (q : queue) (files : list (bytes * bool)) : queue :=
  match files with
  | [] => set_phase Selecting q
  | (name, isdir) :: files =>
      if isdir || negb (HasSuffix name (B ".json")) then set_phase (Scanning files) q
      else if q_stop q then set_phase Selecting q
      else set_phase (Trying (TrimSuffix name (B ".json")) files) q
  end.

(** The entry of a file, and the attempt if it is due. *)
Definition try_entry (net : network) (range : list (bytes * list bytes) → list (bytes * list bytes)) (id : bytes) : M unit :=
  r ← readEntry dir id;
  match r with
  | Err _ => mret tt
  | Ok entry =>
      now ← Now;
      if now <? NextTry entry then mret tt
      else _ ← attempt dir net range srv entry; mret tt
  end.

(** A step of [flush]; nothing happens in the [select] and after the end. *)
Definition work (net : network) (range : list (bytes * list bytes) → list (bytes * list bytes)) (q : queue) : queue :=
  match q_phase q with
  | Listing =>
      let '(r, w) := os_ReadDir dir (q_world q) in
      set_queue_world w (set_phase (match r with Ok files => Scanning files | Err _ => Selecting end) q)
  | Scanning files => scan q files
  | Trying id files =>
      let '(_, w) := try_entry net range id (q_world q) in
      set_queue_world w (set_phase (Scanning files) q)
  | Selecting | Finished => q
  end.

(** The cases of the [select]. *)
Inductive case := CaseStop | CaseWake | CaseTick.
Definition ready (q : queue) (c : case) : bool :=
  match c with CaseStop => q_stop q | CaseWake => q_wake q | CaseTick => q_tick q end.
Definition select (c : case) (q : queue) : queue :=
  match c with
  | CaseStop => set_phase Finished q
  | CaseWake => Queue false (q_tick q) (q_stop q) Listing (q_world q)
  | CaseTick => Queue (q_wake q) false (q_stop q) Listing (q_world q)
  end.

(** ** Interleaving *)

Definition flushing (p : phase) : bool := match p with Selecting | Finished => false | _ => true end.

(** Who moves. *)
Inductive label :=
| Work (net : network) (range : list (bytes * list bytes) → list (bytes * list bytes))
| Select (c : case)
| Signal
| Tick
| Close
| Other (w : world).

Definition by_worker (l : label) : bool := match l with Work _ _ | Select _ => true | _ => false end.

(** What the other goroutines may do to the world in one step is the
    relation [others]. *)
Context (others : world → world → Prop).

Inductive step : queue → label → queue → Prop :=
| step_work q net range : flushing (q_phase q) = true → step q (Work net range) (work net range q)
| step_select q c : q_phase q = Selecting → ready q c = true → step q (Select c) (select c q)
| step_signal q : step q Signal (signal q)
| step_tick q : step q Tick (ticked q)
| step_close q : q_stop q = false → step q Close (close_stop q)
| step_other q w : others (q_world q) w → step q (Other w) (set_queue_world w q).

(** The worker can move. *)
Definition can_move (q : queue) : bool :=
  flushing (q_phase q) ||
  match q_phase q with Selecting => q_stop q || q_wake q || q_tick q | _ => false end.

(** An infinite run of the program, and that the scheduler does not neglect
    the worker. *)
Definition run (σ : nat → queue) (ℓ : nat → label) : Prop := ∀ n, step (σ n) (ℓ n) (σ (S n)).
Definition fair (σ : nat → queue) (ℓ : nat → label) : Prop :=
  ∀ n, can_move (σ n) = true → ∃ m, (n ≤ m)%nat ∧ by_worker (ℓ m) = true.
(** Nor does the [select]: if it is reached again and again with [stop]
    closed, it takes that case some time. *)
Definition fair_stop (σ : nat → queue) (ℓ : nat → label) : Prop :=
  ∀ n, q_stop (σ n) = true →
    (∀ m, (n ≤ m)%nat → q_phase (σ m) ≠ Finished → ∃ k c, (m ≤ k)%nat ∧ ℓ k = Select c) →
    ∃ m, (n ≤ m)%nat ∧ (ℓ m = Select CaseStop ∨ q_phase (σ m) = Finished).

End Worker.
