(* ===== verification/WorkerFacts.v ===== *)
(** * WorkerFacts: the queue directory under the hands of the worker

    The names in the queue directory fit their entries; an attempt on one
    message leaves the others alone; so do mail traffic and the acceptance of
    further messages. *)

From S2P Require Import Prelude GoStrings Strconv Crypto World WorldFacts Accounts AccountsFacts Flags MailStore.
From S2P Require Import MailNames MailFacts Token Config GoNet MailServer Relay RelayFacts RelaySpec Worker.

Section Facts.
Context {U : UnicodeTables} {Acc : Accounts} {Laws : AccountsLaws Acc} {Et : ErrorText} {Zo : Zone}.
Context {Ro : ReadOnlyAccounts Acc} (dir : path) (Hap : ∀ uid, apart dir (mailRoot uid)).

Abbreviation json_file id := (dir ++ [id ++ B ".json"]).
Abbreviation eml_file id := (dir ++ [id ++ B ".eml"]).

(** File names are names, and every sidecar tells the identifier it is named
    after. *)
Record spool_ok (f : tree) : Prop := {
  sp_names name n : f !! (dir ++ [name]) = Some n → plain name;
  sp_ids id j e : file_in f (json_file id) = Some (Json j) → unmarshal_entry j = Some e → e_ID e = id;
}.

(** Only the two files of [id] may differ. *)
Definition only (id : bytes) (w w' : world) : Prop :=
  w_now w' = w_now w ∧ (healthy w → healthy w') ∧
  ∀ q, dir `prefix_of` q → q ≠ json_file id → q ≠ eml_file id → w_fs w' !! q = w_fs w !! q.

#[export] Instance only_preorder id : PreOrder (only id).
Proof.
  split; [by intros w |]. intros w1 w2 w3 (H1 & H2 & H3) (H4 & H5 & H6).
  split; [congruence |]. split; [auto |]. intros q Hq Hj He. by rewrite H6, H3.
Qed.

Lemma spared_only id w w' : spared dir w w' → only id w w'.
Proof. intros (H1 & H2 & H3). split; [done |]. split; [done |]. intros q Hq _ _. by apply H3. Qed.

(** The same, and the directory stays in order. *)
Definition tidy_only (id : bytes) (w w' : world) : Prop := only id w w' ∧ (spool_ok (w_fs w) → spool_ok (w_fs w')).

#[export] Instance tidy_only_preorder id : PreOrder (tidy_only id).
Proof. split; [by intros w |]. intros w1 w2 w3 [H1 H2] [H3 H4]. split; [by etrans | auto]. Qed.

Lemma spool_ok_ext f f' :
  (∀ q, dir `prefix_of` q → f' !! q = f !! q ∨ f' !! q = None) → spool_ok f → spool_ok f'.
Proof.
  intros Hf [Hn Hi]. split.
  - intros name n H. destruct (Hf (dir ++ [name])) as [Hx | Hx]; [by eexists | | congruence].
    apply (Hn name n). congruence.
  - intros id j e H. apply (Hi id j e). apply file_in_Some in H. apply file_in_Some.
    destruct (Hf (json_file id)) as [Hx | Hx]; [by eexists | congruence | congruence].
Qed.

Lemma spared_tidy id w w' : spared dir w w' → tidy_only id w w'.
Proof.
  intros Hs. split; [by apply spared_only |]. apply spool_ok_ext. intros q Hq. left. by apply Hs.
Qed.

Lemma os_Remove_now p w r w' : os_Remove p w = (r, w') → w_now w' = w_now w ∧ (healthy w → healthy w').
Proof.
  unfold os_Remove. intros H. split; [| by eapply syscall_health].
  by apply syscall_inv in H as [[_ [_ [? _]]] | (f & _ & _ & ? & _)].
Qed.

(** Names with both files in the directory. *)
Definition id_name (id : bytes) : Prop := plain (id ++ B ".json") ∧ plain (id ++ B ".eml").

Context (Hdir : Forall plain dir).

Lemma remove_file_tidy id p r w w' :
  p = json_file id ∨ p = eml_file id → os_Remove p w = (r, w') → tidy_only id w w'.
Proof.
  intros Hp H. destruct (os_Remove_now _ _ _ _ H) as [Hn Hh]. apply os_Remove_tree in H.
  assert (∀ q, w_fs w' !! q = w_fs w !! q ∨ q = p ∧ w_fs w' !! q = None) as Hq.
  { intros q. destruct H as [-> | ->]; [by left |]. destruct (decide (p = q)) as [-> | Hne].
    - right. split; [done | apply lookup_delete_eq].
    - left. by apply lookup_delete_ne. }
  split; [split; [done |]; split; [done |] |].
  - intros q _ Hj He. destruct (Hq q) as [? | [-> _]]; [done |]. by destruct Hp.
  - apply spool_ok_ext. intros q _. destruct (Hq q) as [? | [_ ?]]; auto.
Qed.

Lemma remove_entry_tidy id w w' : id_name id → remove_entry dir id w = (tt, w') → tidy_only id w w'.
Proof.
  intros [Hj Hb] H. unfold remove_entry in H. rewrite entryPath_eq, bodyPath_eq in H by done.
  apply st_bind_inv in H as (r1 & w1 & H1 & H). apply st_bind_inv in H as (r2 & w2 & H2 & H). st_inv.
  apply (remove_file_tidy id) in H1; [| by left]. apply (remove_file_tidy id) in H2; [| by right]. by etrans.
Qed.

Lemma writeEntry_tidy e w r w' :
  id_name (e_ID e) → is_int64 (Attempts e) → writeEntry dir e w = (r, w') → tidy_only (e_ID e) w w'.
Proof.
  intros [Hj Hb] Ha H. unfold writeEntry in H. rewrite entryPath_eq in H by done.
  pose proof (write_health _ _ _ _ _ H) as Hh. apply os_WriteFile_inv in H as (Hn & _ & H).
  assert (w_fs w' = w_fs w ∨ ∃ c, (c = Raw [] ∨ c = Json (marshal e)) ∧ w_fs w' = <[json_file (e_ID e) := File c]> (w_fs w)) as Hw.
  { destruct H as [(_ & -> & _) | (x & _ & [-> | (-> & _)])]; eauto. }
  clear H. destruct Hw as [Hf | (c & Hc & Hf)].
  { split; [| by rewrite Hf]. split; [done |]. split; [done |]. intros q _ _ _. by rewrite Hf. }
  split; [split; [done |]; split; [done |] |].
  - intros q _ Hq _. rewrite Hf. by apply lookup_insert_ne.
  - intros [Hnm Hi]. rewrite Hf. split.
    + intros name n [[Heq _] | [_ Hx]]%lookup_insert_Some; [| by eapply Hnm].
      apply app_inv_head in Heq. by injection Heq as <-.
    + intros id j e'. rewrite file_in_insert. case_decide as Heq; [| by apply Hi].
      apply app_inv_head in Heq. injection Heq as Heq. apply app_inv_tail in Heq as <-.
      intros [= Hx] Hu. destruct Hc as [-> | ->]; [done |]. injection Hx as <-.
      change (unmarshal_entry (marshal_entry e) = Some e') in Hu. rewrite entry_roundtrip in Hu by done. by injection Hu as <-.
Qed.

(** One attempt concerns the files of its message only. *)
Lemma attempt_tidy net range srv entry w ds w' :
  id_name (e_ID entry) → healthy w → attempt dir net range srv entry w = (ds, w') → tidy_only (e_ID entry) w w'.
Proof.
  intros Hid Hh H. unfold attempt in H. apply st_bind_inv in H as (x & w1 & Hx & H).
  apply (spared_read _ _ _ _ dir) in Hx. assert (healthy w1) as Hh1 by (by apply Hx).
  etrans; [by apply spared_tidy |]. clear Hx. destruct x as [c | e].
  2: { apply st_bind_inv in H as ([] & w2 & H2 & H). st_inv. by apply remove_entry_tidy. }
  set (tried := set_attempts (int64 (Attempts entry + 1)) entry) in *. cbv zeta in H. change (e_ID entry) with (e_ID tried) in *.
  apply st_bind_inv in H as (ds' & w2 & H2 & H). apply (deliver_groups_spec dir Hap) in H2 as (Hs & _); [| done].
  assert (healthy w2) as Hh2 by (by apply Hs). etrans; [by apply spared_tidy |]. clear Hs.
  case_decide; [apply st_bind_inv in H as ([] & w3 & H3 & H); st_inv; by apply remove_entry_tidy |].
  destruct (queueMaxAttempts <=? Attempts tried).
  - apply st_bind_inv in H as (b & w3 & H3 & H). apply (bounce_spared dir Hap) in H3; [| done].
    etrans; [by apply spared_tidy |]. apply st_bind_inv in H as ([] & w4 & H4 & H). st_inv. by apply remove_entry_tidy.
  - apply st_bind_inv in H as (now & w3 & H3 & H). unfold Now, gets in H3. injection H3 as <- <-.
    apply st_bind_inv in H as (r & w4 & H4 & H). st_inv. apply writeEntry_tidy in H4; [done | done |].
    cbn [Attempts tried set_attempts]. apply int64_range.
Qed.

Lemma snoc_inj (d : path) (a b : bytes) : d ++ [a] = d ++ [b] → a = b.
Proof. by intros [_ H]%app_inj_tail. Qed.

Lemma queued_only id w w' entry message :
  only id w w' → e_ID entry ≠ id → queued dir (w_fs w) entry message → queued dir (w_fs w') entry message.
Proof.
  intros (_ & _ & Hs) Hne [[Hp Hd] Hn (j & Hj & Hu) Hb].
  assert (∀ sfx, sfx = B ".json" ∨ sfx = B ".eml" →
    w_fs w' !! (dir ++ [e_ID entry ++ sfx]) = w_fs w !! (dir ++ [e_ID entry ++ sfx])) as Hf.
  { intros sfx Hsfx. apply Hs; [by eexists | |]; intros Hx%snoc_inj; destruct Hsfx as [-> | ->].
    - by apply app_inv_tail in Hx.
    - by apply (json_not_eml id (e_ID entry)).
    - by apply json_not_eml in Hx.
    - by apply app_inv_tail in Hx. }
  constructor; [split; [done |] | done | |].
  - rewrite dirb_spec in *. destruct Hd as [-> | Hd]; [by left | right]. rewrite Hs; [done | done | |];
      intros Hx; apply (f_equal length) in Hx; rewrite length_app in Hx; simpl in Hx; lia.
  - exists j. split; [| done]. rewrite <- Hj. apply file_in_same, Hf. by left.
  - rewrite <- Hb. apply file_in_same, Hf. by right.
Qed.

(** ** Trying one file *)

Lemma readEntry_quiet id w r w' : readEntry dir id w = (r, w') → spared dir w w'.
Proof.
  unfold readEntry, read_json. intros [(c & w1 & Hc & H) | (e & Hc & _)]%try_bind_inv.
  - apply (spared_read _ _ _ _ dir) in Hc. by st_inv.
  - by eapply spared_read.
Qed.

Lemma readEntry_named id w e w' : id_name id → spool_ok (w_fs w) → readEntry dir id w = (Ok e, w') → e_ID e = id.
Proof.
  intros [Hj _] Hs. unfold readEntry, read_json. rewrite entryPath_eq by done.
  intros [(c & w1 & Hc & H) | (x & _ & ?)]%try_bind_inv; [| done].
  apply os_ReadFile_inv in Hc as [_ Hc]. destruct c as [b | j]; [by st_inv |].
  destruct (unmarshal j) as [e' |] eqn:Hu; [| by st_inv]. st_inv. by eapply (sp_ids _ Hs).
Qed.

Lemma try_entry_tidy net range srv id w w' :
  id_name id → healthy w → spool_ok (w_fs w) → try_entry dir srv net range id w = (tt, w') → tidy_only id w w'.
Proof.
  intros Hid Hh Hs H. unfold try_entry in H. apply st_bind_inv in H as (r & w1 & Hr & H).
  pose proof (readEntry_quiet _ _ _ _ Hr) as Hq. assert (healthy w1) as Hh1 by (by apply Hq).
  etrans; [by apply spared_tidy |]. destruct r as [e | x]; [| by st_inv].
  apply (readEntry_named _ _ _ _ Hid Hs) in Hr. subst id.
  apply st_bind_inv in H as (now & w2 & Hn & H). unfold Now, gets in Hn. injection Hn as <- <-.
  destruct (_ <? _); [by st_inv |]. apply st_bind_inv in H as (ds & w2 & Ha & H). st_inv.
  by eapply attempt_tidy.
Qed.

(** A message that is due is attempted. *)
Lemma try_entry_due net range srv entry message w :
  queued dir (w_fs w) entry message → healthy w → NextTry entry <= w_now w →
  try_entry dir srv net range (e_ID entry) w = (tt, (attempt dir net range srv entry w).2).
Proof.
  intros Hq Hh Hn. unfold try_entry. destruct (queued_read _ _ _ _ Hq Hh) as [Hr _].
  rewrite (st_bind_eq _ _ _ _ _ Hr). rewrite (st_bind_eq Now _ w _ _ eq_refl).
  replace (w_now w <? NextTry entry) with false by lia.
  destruct (attempt dir net range srv entry w) as [ds w'] eqn:Ha. by rewrite (st_bind_eq _ _ _ _ _ Ha).
Qed.

(** ** What the other goroutines do *)

(** Time does not run backwards, nothing breaks, queued messages stay as they
    are and the directory stays in order. *)
Record respects (w w' : world) : Prop := {
  re_now : w_now w <= w_now w';
  re_health : healthy w → healthy w';
  re_kept entry message : queued dir (w_fs w) entry message → queued dir (w_fs w') entry message;
  re_tidy : spool_ok (w_fs w) → spool_ok (w_fs w');
}.

#[export] Instance respects_preorder : PreOrder respects.
Proof.
  split; [by intros w |]. intros w1 w2 w3 [] []. split; [lia | auto ..].
Qed.

(** Mail traffic: whatever spares the directory. *)
Lemma spared_respects w w' : spared dir w w' → respects w w'.
Proof.
  intros Hs. pose proof (spared_tidy [] _ _ Hs) as [_ Ht]. pose proof Hs as (Hn & Hh & _).
  split; [lia | done | | done]. intros entry message. by apply queued_spared.
Qed.

Lemma Append_respects uid name flags date body w r w' :
  good_name name → Append uid name flags date body w = (r, w') → respects w w'.
Proof. intros Hg H. eapply spared_respects, Append_spared; [exact Hg | apply Hap | exact H]. Qed.

Lemma later_respects w t : w_now w <= t → respects w (set_now t w).
Proof. intros Ht. by split. Qed.

(** Files of another message. *)
Lemma tidy_respects id w w' :
  tidy_only id w w' → (∀ entry message, queued dir (w_fs w) entry message → e_ID entry ≠ id) → respects w w'.
Proof.
  intros [Ho Ht] Hne. pose proof Ho as (Hn & Hh & _). split; [lia | done | | done].
  intros entry message Hq. eapply queued_only; [exact Ho | by eapply Hne | exact Hq].
Qed.

(** ** Accepting a message *)

Lemma write_eml_tidy id c w r w' :
  id_name id → os_WriteFile (bodyPath dir id) (Raw c) w = (r, w') → tidy_only id w w'.
Proof.
  intros [_ Hb] H. rewrite bodyPath_eq in H by done. pose proof (write_health _ _ _ _ _ H) as Hh.
  apply os_WriteFile_inv in H as (Hn & _ & H).
  assert (w_fs w' = w_fs w ∨ ∃ b, w_fs w' = <[eml_file id := File (Raw b)]> (w_fs w)) as [Hf | [b Hf]].
  { destruct H as [(_ & -> & _) | (x & _ & [-> | (-> & _)])]; eauto. }
  { split; [| by rewrite Hf]. split; [done |]. split; [done |]. intros q _ _ _. by rewrite Hf. }
  split; [split; [done |]; split; [done |] |].
  - intros q _ _ Hq. rewrite Hf. by apply lookup_insert_ne.
  - intros [Hnm Hi]. rewrite Hf. split.
    + intros name n [[Heq%snoc_inj _] | [_ Hx]]%lookup_insert_Some; [by rewrite <- Heq | by eapply Hnm].
    + intros id' j e'. rewrite file_in_insert. case_decide as Heq; [| by apply Hi].
      by apply snoc_inj, eq_sym, json_not_eml in Heq.
Qed.

Lemma spool_tidy id from to message w r w' :
  id_name id → spool dir id from to message w = (r, w') → tidy_only id w w'.
Proof.
  intros Hid H. unfold spool in H.
  apply try_bind_inv in H as [(x & w1 & Hx & H) | (e & Hx & _)]; apply write_eml_tidy in Hx; try done.
  etrans; [exact Hx |]. rewrite (st_bind_eq Now _ w1 _ _ eq_refl), (st_bind_eq Now _ w1 _ _ eq_refl) in H.
  apply st_bind_inv in H as (r' & w2 & Hw & H). apply writeEntry_tidy in Hw; [| done | by unfold is_int64; simpl].
  etrans; [exact Hw |]. destruct r'; [by st_inv |]. apply st_bind_inv in H as (x' & w3 & Hr & H). st_inv.
  eapply remove_file_tidy; [| exact Hr]. right. by apply bodyPath_eq, Hid.
Qed.

Lemma mkdir_respects w r w' : os_MkdirAll dir w = (r, w') → respects w w'.
Proof.
  intros H. pose proof (syscall_health _ _ _ _ H) as Hh. apply os_MkdirAll_inv in H as (Hn & _ & H).
  assert (w_fs w' = w_fs w ∨ w_fs w' = mkdirs (w_fs w) dir) as Hf by (destruct H as [(_ & -> & _) | [_ ->]]; auto).
  clear H. assert (∀ name, w_fs w' !! (dir ++ [name]) = w_fs w !! (dir ++ [name])) as Hsame.
  { intros name. destruct Hf as [-> | ->]; [done |]. apply mkdirs_lookup_not. apply snoc_not_prefix. }
  split; [lia | done | |].
  - intros entry message [[Hp Hd] Hi (j & Hj & Hu) Hb]. constructor; [split; [done |] | done | |].
    + destruct Hf as [-> | ->]; [done |]. by apply dirb_mkdirs_mono.
    + exists j. split; [| done]. rewrite <- Hj. apply file_in_same, Hsame.
    + rewrite <- Hb. apply file_in_same, Hsame.
  - intros [Hnm Hi]. split.
    + intros name n. rewrite Hsame. apply Hnm.
    + intros id j e. rewrite (file_in_same (w_fs w)) by apply Hsame. apply Hi.
Qed.

(** Accepting a message, whatever fails: no file in the queue may carry the
    nanosecond at which it happens. *)
Lemma enqueue_respects from to message w r w' :
  (∀ id, (FormatInt (w_now w) ++ B "-") `prefix_of` id → w_fs w !! json_file id = None) →
  enqueue dir from to message w = (r, w') → respects w w'.
Proof.
  intros Hfresh H. destruct (os_MkdirAll dir w) as [rm w1] eqn:Hm. pose proof (mkdir_respects _ _ _ Hm) as Hr1.
  destruct rm as [[] | e]; [| unfold enqueue in H; rewrite (try_bind_err _ _ _ _ _ Hm) in H; by injection H as _ <-].
  destruct (enqueue_spool dir from to message w w1 Hm) as (id & w2 & Hid & Hf & Hn & Hx & Heq & Hpre). rewrite Heq in H.
  etrans; [exact Hr1 |]. apply os_MkdirAll_inv in Hm as (Hn1 & _ & Hm).
  assert (respects w1 w2) as Hr2.
  { apply spared_respects. split; [done |]. split; [unfold healthy; by rewrite Hx |]. intros q _. by rewrite Hf. }
  etrans; [exact Hr2 |]. apply spool_tidy in H; [| done]. eapply tidy_respects; [exact H |].
  intros entry m [_ _ (j & Hj & _) _] <-. rewrite Hf in Hj. apply file_in_Some in Hj.
  assert (w_fs w1 !! json_file (e_ID entry) = w_fs w !! json_file (e_ID entry)) as Hs.
  { destruct Hm as [(_ & -> & _) | [_ ->]]; [| done]. apply mkdirs_lookup_not, snoc_not_prefix. }
  rewrite Hs, Hfresh in Hj; [done |]. by rewrite <- Hn1.
Qed.
End Facts.
