(* ===== verification/WorkerSpec.v ===== *)
(** * WorkerSpec: the queue worker among the other goroutines

    No wake-up is lost, every message leaves the queue while connections keep
    adding others, one [flush] attempts what is due and nothing else, and
    closing [stop] ends the worker after at most the attempt it is in.  The runs are infinite sequences of steps; the scheduler
    and the [select] are only required to be fair. *)

From S2P Require Import Prelude GoStrings Strconv Crypto World WorldFacts Accounts AccountsFacts Flags MailStore.
From S2P Require Import MailNames MailFacts Token Config GoNet MailServer Relay RelayFacts RelaySpec Worker WorkerFacts.

Lemma HasSuffix_split s t : HasSuffix s t = true → s = TrimSuffix s t ++ t.
Proof.
  intros H. unfold TrimSuffix. rewrite H. unfold HasSuffix in H. apply bool_decide_eq_true in H.
  rewrite <- H at 2. symmetry. apply take_drop.
Qed.

Lemma HasSuffix_self s t : HasSuffix (s ++ t) t = true.
Proof. unfold HasSuffix. apply bool_decide_eq_true. rewrite length_app. replace (_ - _)%nat with (length s) by lia. apply drop_app_length. Qed.

Lemma TrimSuffix_self s t : TrimSuffix (s ++ t) t = s.
Proof. unfold TrimSuffix. rewrite HasSuffix_self, length_app. replace (_ - _)%nat with (length s) by lia. apply take_app_length. Qed.

Lemma plain_slash name : plain name → "/"%char ∉ name.
Proof. by intros (_ & _ & _ & ?). Qed.

Lemma id_name_file name : plain name → HasSuffix name (B ".json") = true → id_name (TrimSuffix name (B ".json")).
Proof.
  intros Hp Hs%HasSuffix_split. rewrite Hs in Hp. split; [done |]. apply plain_suffix; [| simpl; lia].
  apply plain_slash in Hp. apply not_elem_of_app in Hp as [Hp _]. apply not_elem_of_app. split; [done |].
  by apply (bool_decide_unpack _).
Qed.

Section Spec.
Context {U : UnicodeTables} {Acc : Accounts} {Laws : AccountsLaws Acc} {Et : ErrorText} {Zo : Zone}.
Context {Ro : ReadOnlyAccounts Acc} (dir : path) (Hap : ∀ uid, apart dir (mailRoot uid)) (Hdir : Forall plain dir) (srv : Server).
Context (others : world → world → Prop) (Hothers : ∀ w w', others w w' → respects dir w w').

Abbreviation step := (step dir srv others).

(** ** The invariant *)

Definition file_names (p : phase) : Prop :=
  match p with
  | Scanning files => Forall (λ f, plain f.1) files
  | Trying id files => id_name id ∧ Forall (λ f, plain f.1) files
  | _ => True
  end.

Record good (q : queue) : Prop := {
  gd_healthy : healthy (q_world q);
  gd_spool : spool_ok dir (w_fs (q_world q));
  gd_names : file_names (q_phase q);
  gd_finished : q_phase q = Finished → q_stop q = true;
}.

Lemma list_step w r w' : healthy w → spool_ok dir (w_fs w) → os_ReadDir dir w = (r, w') →
  w' = w ∧ (dirb (w_fs w) dir = true → r = Ok (entries (w_fs w) dir)) ∧
  (∀ files, r = Ok files → Forall (λ f, plain f.1) files).
Proof.
  intros Hh Hs H. unfold os_ReadDir in H. erewrite syscall_healthy in H; [| done | reflexivity].
  rewrite set_fs_id in H. injection H as <- <-. split; [done |]. split; [by intros -> |].
  intros files Hf. assert (files = entries (w_fs w) dir) as ->.
  { destruct (dirb (w_fs w) dir); [by injection Hf as <- | by destruct (w_fs w !! dir)]. }
  apply Forall_forall. intros [name d] (n & Hn & _)%elem_of_entries. by eapply (sp_names _ _ Hs).
Qed.

Lemma good_work net range q : good q → good (work dir srv net range q).
Proof.
  intros [Hh Hs Hn Hf]. unfold work. destruct (q_phase q) as [| files | id files | |] eqn:Hp; [| | | by split; rewrite ?Hp ..].
  - destruct (os_ReadDir dir (q_world q)) as [r w] eqn:Hr. apply list_step in Hr as (-> & _ & Hl); [| done ..].
    split; cbn; [done | done | | by destruct r]. destruct r; [by apply Hl | done].
  - unfold scan. destruct files as [| [name isdir] files]; [by split |]. apply Forall_cons in Hn as [Hpl Hn]. simpl in Hpl.
    destruct (isdir || negb (HasSuffix name (B ".json"))) eqn:Hsk; [by split |]. destruct (q_stop q); [by split |].
    apply orb_false_iff in Hsk as [_ Hsk%negb_false_iff]. split; cbn; [done | done | | done].
    split; [by apply id_name_file | done].
  - destruct Hn as [Hid Hn]. destruct (try_entry dir srv net range id (q_world q)) as [[] w] eqn:Ht.
    apply (try_entry_tidy dir Hap Hdir) in Ht as [(_ & Hh' & _) Hs']; [| done ..].
    split; cbn; [by apply Hh' | by apply Hs' | done | done].
Qed.

Lemma good_step q l q' : good q → step q l q' → good q'.
Proof.
  intros Hg H. destruct H as [q net range _ | q c Hp Hc | q | q | q Hq | q w Ho].
  - by apply good_work.
  - destruct Hg as [Hh Hs Hn Hf]. destruct c; split; cbn; done.
  - destruct Hg as [Hh Hs Hn Hf]. by split.
  - destruct Hg as [Hh Hs Hn Hf]. by split.
  - destruct Hg as [Hh Hs Hn Hf]. by split.
  - destruct Hg as [Hh Hs Hn Hf]. destruct (Hothers _ _ Ho) as [_ H1 _ H2]. split; cbn; auto.
Qed.

(** ** A message until it is attempted *)

Definition attempting (id : bytes) (q : queue) (l : label) : Prop :=
  ∃ files net range, q_phase q = Trying id files ∧ l = Work net range.

(** A message waits: in the queue and, if [due], for an attempt now. *)
Definition waits (entry : queueEntry) (message : bytes) (q : queue) : Prop :=
  queued dir (w_fs (q_world q)) entry message.
Definition due (entry : queueEntry) (q : queue) : Prop := NextTry entry <= w_now (q_world q).

(** The worker will come to look at it: within this [flush] or, if [again],
    because it will be woken. *)
Definition roused (again : bool) (q : queue) : Prop := again = true ∧ (q_wake q = true ∨ q_tick q = true).
Definition scheduled (again : bool) (id : bytes) (q : queue) : Prop :=
  match q_phase q with
  | Listing => True
  | Scanning files => (id ++ B ".json", false) ∈ files ∨ roused again q
  | Trying id' files => id' = id ∨ (id ++ B ".json", false) ∈ files ∨ roused again q
  | Selecting => roused again q
  | Finished => False
  end.

Lemma step_now q l q' : good q → step q l q' → w_now (q_world q) <= w_now (q_world q').
Proof.
  intros Hg H. destruct H as [q net range _ | q c Hp Hc | q | q | q Hq | q w Ho]; try done.
  - unfold work. destruct (q_phase q) as [| files | id files | |] eqn:Hp; [| | | done ..].
    + destruct (os_ReadDir dir (q_world q)) as [r w] eqn:Hr. apply list_step in Hr as (-> & _); [done | apply Hg ..].
    + unfold scan. destruct files as [| [name isdir] files]; [done |]. by repeat case_match.
    + pose proof (gd_names _ Hg) as Hn. rewrite Hp in Hn. destruct Hn as [Hid _].
      destruct (try_entry dir srv net range id (q_world q)) as [[] w] eqn:Ht.
      apply (try_entry_tidy dir Hap Hdir) in Ht as [(Hn & _) _]; [| done | apply Hg ..]. cbn. lia.
  - by destruct c.
  - cbn. by destruct (Hothers _ _ Ho).
Qed.

(** It waits until it is attempted, which happens when it is due. *)
Lemma waits_step q l q' entry message :
  good q → step q l q' → waits entry message q →
  (attempting (e_ID entry) q l ∧ due entry q) ∨ waits entry message q'.
Proof.
  unfold waits, due. intros Hg H Hw. destruct H as [q net range _ | q c Hp Hc | q | q | q Hq | q w Ho]; try (by right).
  - unfold attempting, work. destruct (q_phase q) as [| files | id files | |] eqn:Hp; [| | | by right ..].
    + right. destruct (os_ReadDir dir (q_world q)) as [r w] eqn:Hr. by apply list_step in Hr as (-> & _); [| apply Hg ..].
    + right. unfold scan. destruct files as [| [name isdir] files]; [done |]. by repeat case_match.
    + pose proof (gd_names _ Hg) as Hn. rewrite Hp in Hn. destruct Hn as [Hid _].
      destruct (try_entry dir srv net range id (q_world q)) as [[] w] eqn:Ht.
      pose proof Ht as Ht'. apply (try_entry_tidy dir Hap Hdir) in Ht' as [Ho _]; [| done | apply Hg ..].
      destruct (decide (e_ID entry = id)) as [<- | Hne]; [| right; by eapply queued_only].
      destruct (decide (NextTry entry <= w_now (q_world q))) as [Hd | Hd]; [left; split; [by eexists _, _, _ | done] |].
      right. cbn. unfold try_entry in Ht. destruct (queued_read _ _ _ _ Hw (gd_healthy _ Hg)) as [Hr _].
      rewrite (st_bind_eq _ _ _ _ _ Hr), (st_bind_eq Now _ (q_world q) _ _ eq_refl) in Ht.
      replace (w_now (q_world q) <? NextTry entry) with true in Ht by lia. by injection Ht as <-.
  - right. by destruct c.
  - right. cbn. by apply (Hothers _ _ Ho).
Qed.

Lemma json_skipped id isdir name files :
  (id ++ B ".json", false) ∈ (name, isdir) :: files → isdir || negb (HasSuffix name (B ".json")) = true →
  (id ++ B ".json", false) ∈ files.
Proof. intros [[= <- <-] | ?]%elem_of_cons Hs; [by rewrite HasSuffix_self in Hs | done]. Qed.

Lemma json_tried id isdir name files :
  (id ++ B ".json", false) ∈ (name, isdir) :: files →
  TrimSuffix name (B ".json") = id ∨ (id ++ B ".json", false) ∈ files.
Proof. intros [[= <- <-] | ?]%elem_of_cons; [left; apply TrimSuffix_self | by right]. Qed.

Lemma scheduled_work again net range q entry message :
  good q → waits entry message q → q_stop q = false → flushing (q_phase q) = true → scheduled again (e_ID entry) q →
  attempting (e_ID entry) q (Work net range) ∨ scheduled again (e_ID entry) (work dir srv net range q).
Proof.
  unfold attempting, scheduled, roused, work. intros Hg Hw Hst Hfl Hsc.
  destruct (q_phase q) as [| [| [name isdir] files] | id files | |] eqn:Hp; try done.
  - right. destruct (os_ReadDir dir (q_world q)) as [r w] eqn:Hr.
    apply list_step in Hr as (-> & Hl & _); [| apply Hg ..]. rewrite Hl by apply Hw. cbn. left.
    apply elem_of_entries. destruct Hw as [_ _ (j & Hj & _) _]. apply file_in_Some in Hj. by exists (File (Json j)).
  - right. cbn. by destruct Hsc as [?%elem_of_nil | ?].
  - right. cbn [scan]. rewrite Hst. destruct (isdir || _) eqn:Hsk; cbn [q_phase set_phase q_wake q_tick].
    + destruct Hsc as [Hin | Hsc]; [left; by eapply json_skipped | by right].
    + destruct Hsc as [Hin%json_tried | Hsc]; tauto.
  - destruct (try_entry dir srv net range id (q_world q)) as [[] w]. cbn [q_phase set_queue_world set_phase q_wake q_tick].
    destruct Hsc as [-> | Hsc]; [left; by eexists _, _, _ | by right].
Qed.

Lemma work_stop net range q : q_stop (work dir srv net range q) = q_stop q.
Proof.
  unfold work, scan. destruct (q_phase q) as [| [| [name isdir] files] | id files | |]; [| done | | | done ..].
  - by destruct (os_ReadDir dir (q_world q)).
  - by destruct (isdir || _), (q_stop q) eqn:Hst.
  - by destruct (try_entry dir srv net range id (q_world q)).
Qed.

Lemma scheduled_step again q l q' entry message :
  good q → step q l q' → waits entry message q → q_stop q' = false → scheduled again (e_ID entry) q →
  attempting (e_ID entry) q l ∨ scheduled again (e_ID entry) q'.
Proof.
  intros Hg H Hw Hst Hsc. destruct H as [q net range Hfl | q c Hp Hc | q | q | q Hq | q w Ho].
  - rewrite work_stop in Hst. by eapply scheduled_work.
  - right. destruct c; [| done | done]. by cbn in Hst, Hc; congruence.
  - right. unfold scheduled, roused in *. destruct (q_phase q) eqn:Hp; cbn; rewrite Hp; tauto.
  - right. unfold scheduled, roused in *. destruct (q_phase q) eqn:Hp; cbn; rewrite Hp; tauto.
  - done.
  - right. exact Hsc.
Qed.

(** The steps of the worker. *)
Lemma worker_step q l q' : step q l q' → by_worker l = true →
  (∃ net range, l = Work net range ∧ flushing (q_phase q) = true ∧ q' = work dir srv net range q) ∨
  (∃ c, l = Select c ∧ q_phase q = Selecting ∧ ready q c = true ∧ q' = select c q).
Proof. intros [q0 net range Hf | q0 c Hp Hr | | | |] Hl; try done; [left; by eexists _, _ | right; by exists c]. Qed.

Lemma open_step q l q' : step q l q' → by_worker l = true → q_stop q = false →
  (∃ net range, l = Work net range ∧ flushing (q_phase q) = true ∧ q' = work dir srv net range q) ∨
  (q_phase q = Selecting ∧ q_phase q' = Listing).
Proof.
  intros Hst Hl Hs. destruct (worker_step _ _ _ Hst Hl) as [? | (c & _ & Hp & Hr & ->)]; [by left | right].
  split; [done |]. destruct c; [by cbn in Hr; congruence | done ..].
Qed.

(** ** Infinite runs *)

Section Run.
Context (σ : nat → queue) (ℓ : nat → label) (Hrun : run dir srv others σ ℓ) (Hfair : fair σ ℓ).
Context (Hgood : good (σ 0%nat)).

Lemma good_at n : good (σ n).
Proof. induction n as [| n IH]; [done |]. by eapply good_step. Qed.

Lemma now_at n m : (n ≤ m)%nat → w_now (q_world (σ n)) <= w_now (q_world (σ m)).
Proof. induction 1 as [| m _ IH]; [done |]. pose proof (step_now _ _ _ (good_at m) (Hrun m)). lia. Qed.

(** The next time the worker moves. *)
Lemma next_move n :
  can_move (σ n) = true → ∃ m, (n ≤ m)%nat ∧ by_worker (ℓ m) = true ∧ ∀ k, (n ≤ k < m)%nat → by_worker (ℓ k) = false.
Proof.
  intros (m & Hm & Hw)%Hfair. remember (m - n)%nat as d eqn:Hd. revert n m Hm Hw Hd.
  induction d as [d IH] using lt_wf_ind. intros n m Hm Hw ->.
  destruct (by_worker (ℓ n)) eqn:Hn; [exists n; split; [done |]; split; [done |]; lia |].
  destruct (decide (n = m)) as [<- | Hne]; [congruence |].
  destruct (IH (m - S n)%nat ltac:(lia) (S n) m ltac:(lia) Hw eq_refl) as (k & Hk & Hk' & Hall).
  exists k. split; [lia |]. split; [done |]. intros i Hi. destruct (decide (i = n)) as [-> |]; [done | apply Hall; lia].
Qed.

Lemma phase_still q l q' : step q l q' → by_worker l = false → q_phase q' = q_phase q.
Proof. by intros []. Qed.

Lemma phase_between n m : (n ≤ m)%nat → (∀ k, (n ≤ k < m)%nat → by_worker (ℓ k) = false) → q_phase (σ m) = q_phase (σ n).
Proof.
  induction 1 as [| m Hm IH]; intros Hall; [done |]. rewrite <- IH by (intros; apply Hall; lia).
  eapply phase_still; [apply Hrun | apply Hall; lia].
Qed.

(** Until [stop] is closed ... *)
Context (Hopen : ∀ n, q_stop (σ n) = false) (entry : queueEntry) (message : bytes).

Definition tried (n : nat) : Prop :=
  ∃ m, (n ≤ m)%nat ∧ attempting (e_ID entry) (σ m) (ℓ m) ∧ waits entry message (σ m) ∧ due entry (σ m).
Definition pending (again : bool) (n : nat) : Prop :=
  waits entry message (σ n) ∧ due entry (σ n) ∧ scheduled again (e_ID entry) (σ n).

Lemma tried_later n m : (n ≤ m)%nat → tried m → tried n.
Proof. intros Hm (k & Hk & H). exists k. split; [lia | done]. Qed.

Lemma due_later n m : (n ≤ m)%nat → due entry (σ n) → due entry (σ m).
Proof. intros Hm. unfold due. pose proof (now_at n m Hm). lia. Qed.

Lemma pending_succ again n : pending again n → tried n ∨ pending again (S n).
Proof.
  intros (Hw & Hd & Hs). assert (attempting (e_ID entry) (σ n) (ℓ n) → tried n) as Hnow by (intros H; by exists n).
  destruct (waits_step _ _ _ entry message (good_at n) (Hrun n) Hw) as [[H _] | Hw']; [left; auto |].
  destruct (scheduled_step again _ _ _ entry message (good_at n) (Hrun n) Hw (Hopen _) Hs) as [H | Hs']; [left; auto |].
  right. split; [done |]. split; [| done]. eapply due_later; [| exact Hd]. lia.
Qed.

Lemma pending_later again n m : (n ≤ m)%nat → pending again n → tried n ∨ pending again m.
Proof.
  induction 1 as [| m Hm IH]; intros Hp; [by right |]. destruct (IH Hp) as [? | Hp']; [by left |].
  destruct (pending_succ _ _ Hp') as [Ht | ?]; [left | by right]. by eapply tried_later.
Qed.

Lemma scheduled_moves again id q : scheduled again id q → can_move q = true.
Proof.
  unfold scheduled, roused, can_move. destruct (q_phase q); try done. intros [_ [-> | ->]]; simpl; [by rewrite orb_true_r | by rewrite !orb_true_r].
Qed.

(** The worker's next step finds things as they are. *)
Lemma pending_move again n :
  pending again n → tried n ∨
  ∃ m, (n ≤ m)%nat ∧ by_worker (ℓ m) = true ∧ q_phase (σ m) = q_phase (σ n) ∧ pending again m ∧ (tried m ∨ pending again (S m)).
Proof.
  intros Hp. destruct (next_move n) as (m & Hm & Hw & Hall); [by eapply scheduled_moves, Hp |].
  destruct (pending_later _ _ _ Hm Hp) as [? | Hpm]; [by left | right]. exists m. split; [done |]. split; [done |].
  split; [by apply phase_between |]. split; [done |]. by apply pending_succ.
Qed.

(** The worker's next step, in a [flush]. *)
Lemma pending_work again n :
  pending again n → flushing (q_phase (σ n)) = true →
  tried n ∨ ∃ m net range, (n ≤ m)%nat ∧ q_phase (σ m) = q_phase (σ n) ∧ pending again m ∧ ℓ m = Work net range ∧
    σ (S m) = work dir srv net range (σ m) ∧ pending again (S m).
Proof.
  intros Hp Hf. destruct (pending_move _ _ Hp) as [? | (m & Hm & Hw & Hph & Hpm & [Ht | Hps])]; [by left | left; by eapply tried_later |].
  destruct (open_step _ _ _ (Hrun m) Hw (Hopen m)) as [(net & range & Hl & _ & Hq) | [Hsel _]].
  - right. by exists m, net, range.
  - rewrite Hph in Hsel. by rewrite Hsel in Hf.
Qed.

Lemma pending_trying again id files n :
  q_phase (σ n) = Trying id files → pending again n →
  tried n ∨ ∃ m, (n ≤ m)%nat ∧ q_phase (σ m) = Scanning files ∧ pending again m.
Proof.
  intros Hph Hp. destruct (pending_work _ _ Hp) as [? | (m & net & range & Hm & Hphm & _ & _ & Hq & Hps)]; [by rewrite Hph | by left |].
  right. exists (S m). split; [lia |]. split; [| done]. rewrite Hq. unfold work. rewrite Hphm, Hph.
  by destruct (try_entry dir srv net range id (q_world (σ m))).
Qed.

Lemma pending_scanning again files n :
  (again = true → ∀ m, q_phase (σ m) = Selecting → pending true m → tried m) →
  q_phase (σ n) = Scanning files → pending again n → tried n.
Proof.
  intros Hsel. revert n. induction files as [| [name isdir] files IH]; intros n Hph Hp.
  all: destruct (pending_work _ _ Hp) as [? | (m & net & range & Hm & Hphm & _ & _ & Hq & Hps)]; [by rewrite Hph | done |].
  all: apply (tried_later n (S m)); [lia |]; unfold work in Hq; rewrite Hphm, Hph in Hq; cbn [scan] in Hq.
  - assert (q_phase (σ (S m)) = Selecting) as HS by (by rewrite Hq).
    destruct Hps as (Hw & Hd & Hs). pose proof Hs as Hs'. unfold scheduled in Hs'. rewrite HS in Hs'. destruct Hs' as [-> _]. by apply Hsel.
  - rewrite (Hopen m) in Hq. destruct (isdir || _).
    + apply IH; [by rewrite Hq | done].
    + destruct (pending_trying again (TrimSuffix name (B ".json")) files (S m)) as [? | (k & Hk & Hphk & Hpk)]; [by rewrite Hq | done | done |].
      by apply (tried_later _ k), IH.
Qed.

Lemma pending_listing again n : q_phase (σ n) = Listing → pending again n → tried n.
Proof.
  intros Hph (Hw & Hd & _). assert (pending false n) as Hp by (split; [done |]; split; [done |]; unfold scheduled; by rewrite Hph).
  destruct (pending_work _ _ Hp) as [? | (m & net & range & Hm & Hphm & _ & _ & Hq & Hps)]; [by rewrite Hph | done |].
  apply (tried_later n (S m)); [lia |]. unfold work in Hq. rewrite Hphm, Hph in Hq.
  destruct (os_ReadDir dir (q_world (σ m))) as [[files | e] w].
  - eapply (pending_scanning false files); [done | by rewrite Hq | done].
  - destruct Hps as (_ & _ & Hs). rewrite Hq in Hs. by destruct Hs.
Qed.

Lemma pending_selecting n : q_phase (σ n) = Selecting → pending true n → tried n.
Proof.
  intros Hph Hp. destruct (pending_move _ _ Hp) as [? | (m & Hm & Hw & Hphm & _ & [Ht | Hps])]; [done | by eapply tried_later |].
  apply (tried_later n (S m)); [lia |]. destruct (open_step _ _ _ (Hrun m) Hw (Hopen m)) as [(net & range & _ & Hf & _) | [_ HL]].
  - by rewrite Hphm, Hph in Hf.
  - by apply (pending_listing true).
Qed.

Lemma pending_tried n : pending true n → tried n.
Proof.
  intros Hp. destruct (q_phase (σ n)) as [| files | id files | |] eqn:Hph.
  - by apply (pending_listing true).
  - apply (pending_scanning true files); [| done | done]. intros _. apply pending_selecting.
  - destruct (pending_trying true id files n Hph Hp) as [? | (m & Hm & Hphm & Hpm)]; [done |].
    apply (tried_later n m); [done |]. apply (pending_scanning true files); [| done | done]. intros _. apply pending_selecting.
  - by apply pending_selecting.
  - destruct Hp as (_ & _ & Hs). unfold scheduled in Hs. by rewrite Hph in Hs.
Qed.

Lemma never_finished n : q_phase (σ n) ≠ Finished.
Proof. intros H. apply (gd_finished _ (good_at n)) in H. by rewrite Hopen in H. Qed.

Lemma roused_pending n :
  waits entry message (σ n) → due entry (σ n) →
  q_wake (σ n) = true ∨ q_tick (σ n) = true ∨ q_phase (σ n) = Listing → pending true n.
Proof.
  intros Hw Hd Hr. split; [done |]. split; [done |]. pose proof (never_finished n) as Hf. unfold scheduled, roused.
  destruct (q_phase (σ n)); [done | | | | done]; naive_solver.
Qed.

(** The step in which the message is attempted. *)
Lemma attempting_world m :
  attempting (e_ID entry) (σ m) (ℓ m) → waits entry message (σ m) → due entry (σ m) →
  ∃ net range, ℓ m = Work net range ∧ q_world (σ (S m)) = (attempt dir net range srv entry (q_world (σ m))).2.
Proof.
  intros (files & net & range & Hph & Hl) Hw Hd. exists net, range. split; [done |]. pose proof (Hrun m) as Hst. rewrite Hl in Hst.
  inversion Hst as [q n' r' Hf Hq1 Hq2 Hq3 | | | | |]. unfold work. rewrite Hph.
  by rewrite (try_entry_due dir net range srv entry message) by (done || apply good_at).
Qed.

(** C20: No wake-up is lost.  While connections keep appending, accepting
    mail and signalling, and the timer ticks or not: a queued message that
    is due when its acceptance has signalled the worker (or when the worker
    starts, after a restart) is attempted later, exactly as it was queued; no
    fairness is needed but that the worker is scheduled when it can move. *)
Theorem wakeup_not_lost n :
  waits entry message (σ n) → due entry (σ n) →
  q_wake (σ n) = true ∨ q_tick (σ n) = true ∨ q_phase (σ n) = Listing →
  ∃ m net range, (n ≤ m)%nat ∧ waits entry message (σ m) ∧ due entry (σ m) ∧
    q_world (σ (S m)) = (attempt dir net range srv entry (q_world (σ m))).2.
Proof.
  intros Hw Hd Hr. destruct (pending_tried n) as (m & Hm & Ha & Hwm & Hdm); [by apply roused_pending |].
  destruct (attempting_world m Ha Hwm Hdm) as (net & range & _ & Hq). by exists m, net, range.
Qed.
End Run.

(** ** Every message leaves the queue *)

Section Drain.
Context (σ : nat → queue) (ℓ : nat → label) (Hrun : run dir srv others σ ℓ) (Hfair : fair σ ℓ).
Context (Hgood : good (σ 0%nat)) (Hopen : ∀ n, q_stop (σ n) = false).
Context (Hticks : ∀ n, ∃ m, (n ≤ m)%nat ∧ ℓ m = Tick) (Htime : ∀ t, ∃ m, t <= w_now (q_world (σ m))).

Lemma waits_later entry message n m :
  (n ≤ m)%nat → waits entry message (σ n) → tried σ ℓ entry message n ∨ waits entry message (σ m).
Proof.
  induction 1 as [| m Hm IH]; intros Hw; [by right |]. destruct (IH Hw) as [? | Hwm]; [by left |].
  destruct (waits_step _ _ _ entry message (good_at σ ℓ Hrun Hgood m) (Hrun m) Hwm) as [[Ha Hd] | ?]; [left | by right].
  by exists m.
Qed.

(** Sooner or later its time has come and the timer ticks. *)
Lemma waits_tried entry message n : waits entry message (σ n) → tried σ ℓ entry message n.
Proof.
  intros Hw. destruct (Htime (NextTry entry)) as [t Ht]. destruct (Hticks (n `max` t)) as (m & Hm & Hl).
  destruct (waits_later entry message n (S m) ltac:(lia) Hw) as [? | Hwm]; [done |].
  apply (tried_later σ ℓ entry message n (S m)); [lia |]. apply (pending_tried σ ℓ Hrun Hfair Hgood Hopen).
  apply (roused_pending σ ℓ Hrun Hgood Hopen); [done | |].
  - unfold due. pose proof (now_at σ ℓ Hrun Hgood t (S m) ltac:(lia)). lia.
  - right; left. pose proof (Hrun m) as Hst. rewrite Hl in Hst. by inversion Hst.
Qed.

(** Up to its next attempt it stays in the queue as it is. *)
Lemma waits_until entry message n m :
  (n ≤ m)%nat → waits entry message (σ n) →
  (∃ k, (n ≤ k < m)%nat ∧ attempting (e_ID entry) (σ k) (ℓ k) ∧ due entry (σ k) ∧ ∀ j, (n ≤ j ≤ k)%nat → waits entry message (σ j)) ∨
  ∀ j, (n ≤ j ≤ m)%nat → waits entry message (σ j).
Proof.
  intros Hm Hw. induction Hm as [| m Hm IH]; [right; intros j Hj; by replace j with n by lia |].
  destruct IH as [(k & Hk & H) | Hall]; [left; exists k; split; [lia | done] |].
  destruct (waits_step _ _ _ entry message (good_at σ ℓ Hrun Hgood m) (Hrun m) (Hall m ltac:(lia))) as [[Ha Hd] | Hs].
  - left. exists m. split; [lia |]. done.
  - right. intros j Hj. destruct (decide (j = S m)) as [-> |]; [done | apply Hall; lia].
Qed.

Lemma first_tried entry message n :
  waits entry message (σ n) →
  ∃ m, (n ≤ m)%nat ∧ attempting (e_ID entry) (σ m) (ℓ m) ∧ due entry (σ m) ∧ ∀ k, (n ≤ k ≤ m)%nat → waits entry message (σ k).
Proof.
  intros Hw. destruct (waits_tried entry message n Hw) as (m & Hm & Ha & _ & Hd).
  destruct (waits_until entry message n m Hm Hw) as [(k & Hk & H) | Hall]; [| by exists m].
  exists k. split; [lia | done].
Qed.

(** Every accepted message leaves the queue, whatever else goes on.  With
    the worker running among connections that append, accept mail and signal
    in any order, whatever the networks answer, as long as the worker is
    scheduled, the timer ticks and time passes, no message stays in the queue
    for ever. *)
Theorem queue_never_stuck entry message n :
  waits entry message (σ n) → 0 <= Attempts entry < 2 ^ 62 →
  ∃ m, (n ≤ m)%nat ∧ unqueued dir (w_fs (q_world (σ m))) (e_ID entry).
Proof.
  remember (Z.to_nat (queueMaxAttempts - Attempts entry)) as k eqn:Hk. revert entry n Hk.
  induction k as [k IH] using lt_wf_ind. intros entry n -> Hw Ha.
  destruct (waits_tried entry message n Hw) as (m & Hm & Hat & Hwm & Hdm).
  destruct (attempting_world σ ℓ Hrun Hgood entry message m Hat Hwm Hdm) as (net & range & _ & Hq).
  destruct (attempt_healthy dir Hap net range srv entry message (q_world (σ m)) Hwm) as (ds & w' & He & _ & _ & _ & _ & Haft);
    [apply (gd_healthy _ (good_at σ ℓ Hrun Hgood m)) | done |].
  rewrite He in Hq. cbn [snd] in Hq. rewrite <- Hq in Haft. unfold after_round in Haft. case_decide as Hc.
  - exists (S m). split; [lia | done].
  - set (entry' := retried entry ds (w_now (q_world (σ m)))) in *.
    assert (Attempts entry + 1 < queueMaxAttempts) as Hlt.
    { apply Znot_ge_lt. intros Hge. apply Hc. right. unfold queueMaxAttempts in *. lia. }
    destruct (IH (Z.to_nat (queueMaxAttempts - Attempts entry'))) with (entry := entry') (n := S m) as (m' & Hm' & Hu);
      [cbn; unfold queueMaxAttempts in *; lia | done | done | cbn; unfold queueMaxAttempts in *; lia |].
    exists m'. split; [lia | exact Hu].
Qed.
End Drain.

(** ** Shutdown *)

Section Stop.
Context (σ : nat → queue) (ℓ : nat → label) (Hrun : run dir srv others σ ℓ) (Hfair : fair σ ℓ).
Context (n : nat) (Hstop : q_stop (σ n) = true).

Lemma stopped m : (n ≤ m)%nat → q_stop (σ m) = true.
Proof.
  induction 1 as [| m _ IH]; [done |]. destruct (Hrun m) as [q net range _ | q [] _ _ | q | q | q _ | q w _]; try done.
  by rewrite work_stop.
Qed.

Definition selects (m : nat) : Prop := ∃ k c, (m ≤ k)%nat ∧ ℓ k = Select c.

Lemma selects_later m k : (m ≤ k)%nat → selects k → selects m.
Proof. intros Hm (j & c & Hj & Hl). exists j, c. split; [lia | done]. Qed.

(** In a [flush] the worker's next step is a piece of it. *)
Lemma stopped_work m :
  flushing (q_phase (σ m)) = true → ∃ k net range, (m ≤ k)%nat ∧ q_phase (σ k) = q_phase (σ m) ∧ σ (S k) = work dir srv net range (σ k).
Proof.
  intros Hf. destruct (next_move σ ℓ Hfair m) as (k & Hk & Hw & Hall); [unfold can_move; by rewrite Hf |].
  pose proof (phase_between σ ℓ Hrun m k Hk Hall) as Hph.
  destruct (worker_step _ _ _ (Hrun k) Hw) as [(net & range & _ & _ & Hq) | (c & _ & Hp & _)]; [by exists k, net, range |].
  rewrite Hph in Hp. by rewrite Hp in Hf.
Qed.

Lemma stopped_selecting m : q_phase (σ m) = Selecting → (n ≤ m)%nat → selects m.
Proof.
  intros Hp Hm. destruct (next_move σ ℓ Hfair m) as (k & Hk & Hw & Hall); [unfold can_move; by rewrite Hp, (stopped m Hm) |].
  pose proof (phase_between σ ℓ Hrun m k Hk Hall) as Hph.
  destruct (worker_step _ _ _ (Hrun k) Hw) as [(net & range & _ & Hf & _) | (c & Hl & _)]; [| by exists k, c].
  by rewrite Hph, Hp in Hf.
Qed.

Lemma stopped_scanning files m : q_phase (σ m) = Scanning files → (n ≤ m)%nat → selects m.
Proof.
  revert m. induction files as [| [name isdir] files IH]; intros m Hp Hm.
  all: destruct (stopped_work m) as (k & net & range & Hk & Hph & Hq); [by rewrite Hp |].
  all: apply (selects_later m (S k)); [lia |]; unfold work in Hq; rewrite Hph, Hp in Hq; cbn [scan] in Hq.
  - apply stopped_selecting; [by rewrite Hq | lia].
  - rewrite (stopped k) in Hq by lia. destruct (isdir || _).
    + apply IH; [by rewrite Hq | lia].
    + apply stopped_selecting; [by rewrite Hq | lia].
Qed.

Lemma stopped_selects m : q_phase (σ m) ≠ Finished → (n ≤ m)%nat → selects m.
Proof.
  intros Hf Hm. destruct (q_phase (σ m)) as [| files | id files | |] eqn:Hp; [| | | | done].
  - destruct (stopped_work m) as (k & net & range & Hk & Hph & Hq); [by rewrite Hp |].
    apply (selects_later m (S k)); [lia |]. unfold work in Hq. rewrite Hph, Hp in Hq.
    destruct (os_ReadDir dir (q_world (σ k))) as [[files | e] w].
    + eapply stopped_scanning; [by rewrite Hq | lia].
    + apply stopped_selecting; [by rewrite Hq | lia].
  - by eapply stopped_scanning.
  - destruct (stopped_work m) as (k & net & range & Hk & Hph & Hq); [by rewrite Hp |].
    apply (selects_later m (S k)); [lia |]. unfold work in Hq. rewrite Hph, Hp in Hq.
    destruct (try_entry dir srv net range id (q_world (σ k))) as [[] w]. eapply stopped_scanning; [by rewrite Hq | lia].
  - by apply stopped_selecting.
Qed.

(** After [stop] is closed nothing leads to a new attempt. *)
Lemma stopped_trying q l q' : step q l q' → q_stop q = true → ∀ id files, q_phase q' = Trying id files →
  q_phase q = Trying id files ∧ by_worker l = false.
Proof.
  intros [q0 net range Hf | q0 c Hp Hc | q0 | q0 | q0 Hq | q0 w Ho] Hs id files Hph; try done.
  - exfalso. revert Hph. unfold work, scan. rewrite Hs. destruct (q_phase q0) as [| [| [name isdir] fs] | id' fs | |]; try done.
    + by destruct (os_ReadDir dir (q_world q0)) as [[] ?].
    + by destruct (isdir || _).
    + by destruct (try_entry dir srv net range id' (q_world q0)).
  - by destruct c.
Qed.

Lemma finished_stays m k : q_phase (σ m) = Finished → (m ≤ k)%nat → q_phase (σ k) = Finished ∧ by_worker (ℓ k) = false.
Proof.
  intros Hf Hk.
  assert (∀ j, q_phase (σ j) = Finished → by_worker (ℓ j) = false) as Hno.
  { intros j Hj. destruct (by_worker (ℓ j)) eqn:Hw; [| done].
    destruct (worker_step _ _ _ (Hrun j) Hw) as [(? & ? & _ & Hx & _) | (? & _ & Hx & _)]; [by rewrite Hj in Hx | congruence]. }
  assert (q_phase (σ k) = Finished) as Hfk; [| split; [done | by apply Hno]].
  induction Hk as [| k Hk IH]; [done |]. rewrite <- IH. eapply phase_still; [apply Hrun | by apply Hno].
Qed.

Lemma stop_finishes : fair_stop σ ℓ → ∃ m, (n ≤ m)%nat ∧ q_phase (σ m) = Finished.
Proof.
  intros Hsel. destruct (Hsel n Hstop) as (m & Hm & [Hl | Hf]); [intros m Hm Hf; by apply stopped_selects | | by exists m].
  exists (S m). split; [lia |]. pose proof (Hrun m) as Hst. rewrite Hl in Hst.
  by destruct (worker_step _ _ _ Hst eq_refl) as [(? & ? & ? & _) | (c & [= <-] & _ & _ & ->)].
Qed.

(** C21: Shutdown ends the worker.  Once [stop] is closed, the only attempt
    still made is the one for which the worker had already looked at [stop];
    the worker returns, if the scheduler does not neglect it and [select]
    does not pass over the closed channel for ever; and then it never moves
    again. *)
Theorem shutdown_ends :
  fair_stop σ ℓ →
  (∀ m id files, (n ≤ m)%nat → q_phase (σ m) = Trying id files →
     q_phase (σ n) = Trying id files ∧ ∀ k, (n ≤ k < m)%nat → by_worker (ℓ k) = false) ∧
  ∃ m, (n ≤ m)%nat ∧ ∀ k, (m ≤ k)%nat → q_phase (σ k) = Finished ∧ by_worker (ℓ k) = false.
Proof.
  intros Hsel. split.
  - intros m id files Hm. revert id files. induction Hm as [| m Hm IH]; intros id files Hp; [split; [done | lia] |].
    destruct (stopped_trying _ _ _ (Hrun m) (stopped m Hm) _ _ Hp) as [Hp' Hl]. destruct (IH _ _ Hp') as [Hn Hall].
    split; [done |]. intros k Hk. destruct (decide (k = m)) as [-> |]; [done | apply Hall; lia].
  - destruct (stop_finishes Hsel) as (m & Hm & Hf). exists m. split; [done |]. intros k Hk. by apply (finished_stays m).
Qed.
End Stop.

(** ** Undisturbed, the steps make up [flush] *)

Definition works (q q' : queue) : Prop := ∃ net range, flushing (q_phase q) = true ∧ q' = work dir srv net range q.

Lemma works_step net range q : flushing (q_phase q) = true → works q (work dir srv net range q).
Proof. intros Hf. by exists net, range. Qed.

(** A file of the list. *)
Lemma flush_files_eq stopping nets ranges k name isdir files w :
  flush_files dir stopping nets ranges srv k ((name, isdir) :: files) w =
    if isdir || negb (HasSuffix name (B ".json")) then flush_files dir stopping nets ranges srv (S k) files w
    else if stopping k then (tt, w)
    else flush_files dir stopping nets ranges srv (S k) files
           (try_entry dir srv (nets k) (ranges k) (TrimSuffix name (B ".json")) w).2.
Proof.
  cbn [flush_files]. destruct (isdir || _); [done |]. destruct (stopping k); [done |].
  unfold try_entry. destruct (readEntry dir (TrimSuffix name (B ".json")) w) as [r w1] eqn:Hr. rewrite !(st_bind_eq _ _ _ _ _ Hr). destruct r as [e | x]; [| done].
  rewrite !(st_bind_eq Now _ w1 _ _ eq_refl). destruct (_ <? _); [done |].
  destruct (attempt dir (nets k) (ranges k) srv e w1) as [ds w2] eqn:Ha. by rewrite !(st_bind_eq _ _ _ _ _ Ha).
Qed.

Lemma flush_files_works nets ranges files k q :
  q_phase q = Scanning files →
  rtc works q (set_queue_world (flush_files dir (λ _, q_stop q) nets ranges srv k files (q_world q)).2 (set_phase Selecting q)).
Proof.
  revert k q. induction files as [| [name isdir] files IH]; intros k q Hp.
  - apply rtc_once. replace (set_queue_world _ _) with (work dir srv (nets k) (ranges k) q); [apply works_step; by rewrite Hp |].
    unfold work. rewrite Hp. by destruct q.
  - assert (works q (scan q ((name, isdir) :: files))) as Hw.
    { replace (scan _ _) with (work dir srv (nets k) (ranges k) q); [apply works_step; by rewrite Hp |]. unfold work. by rewrite Hp. }
    eapply rtc_l; [exact Hw |]. rewrite flush_files_eq. cbn [scan]. destruct (isdir || _).
    + destruct q as [wk tk st ph w]. cbn in *. apply (IH (S k) (Queue wk tk st (Scanning files) w)). done.
    + destruct (q_stop q) eqn:Hst; [by destruct q |].
      set (id := TrimSuffix name (B ".json")). set (q1 := set_phase (Trying id files) q).
      eapply rtc_l; [apply (works_step (nets k) (ranges k) q1); done |]. unfold work. cbn [q_phase q1 set_phase].
      change (q_world q1) with (q_world q). destruct (try_entry dir srv (nets k) (ranges k) id (q_world q)) as [[] w] eqn:Ht.
      destruct q as [wk tk st ph w0]. cbn in *. subst st. apply (IH (S k) (Queue wk tk false (Scanning files) w)). done.
Qed.

(** The worker's steps make up [flush].  When nobody else moves, the
    steps from the start of a [flush] lead to the [select], with the
    channels as they were, and what they do to the world is [flush]. *)
Theorem flush_refines nets ranges q :
  q_phase q = Listing →
  ∃ q', rtc works q q' ∧ q_phase q' = Selecting ∧ q_wake q' = q_wake q ∧ q_tick q' = q_tick q ∧ q_stop q' = q_stop q ∧
    q_world q' = (flush dir (λ _, q_stop q) nets ranges srv (q_world q)).2.
Proof.
  intros Hp. unfold flush. destruct (os_ReadDir dir (q_world q)) as [r w] eqn:Hr. rewrite (st_bind_eq _ _ _ _ _ Hr).
  assert (work dir srv (nets 0%nat) (ranges 0%nat) q =
    set_queue_world w (set_phase (match r with Ok files => Scanning files | Err _ => Selecting end) q)) as Hw.
  { unfold work. by rewrite Hp, Hr. }
  assert (works q (work dir srv (nets 0%nat) (ranges 0%nat) q)) as H1 by (apply works_step; by rewrite Hp).
  rewrite Hw in H1. destruct r as [files | e].
  - eexists. split; [eapply rtc_l; [exact H1 |]; by apply (flush_files_works nets ranges files 0) |]. done.
  - eexists. split; [by apply rtc_once |]. done.
Qed.

(** ** One [flush] *)

Section Flush.
Context (stopping : nat → bool) (nets : nat → network) (ranges : nat → list (bytes * list bytes) → list (bytes * list bytes)).
Abbreviation flushing_files k files w := (flush_files dir stopping nets ranges srv k files w).2.

Lemma try_tidy k id w : id_name id → healthy w → spool_ok dir (w_fs w) →
  tidy_only dir id w (try_entry dir srv (nets k) (ranges k) id w).2.
Proof.
  intros Hid Hh Hs. destruct (try_entry dir srv (nets k) (ranges k) id w) as [[] w'] eqn:Ht.
  by apply (try_entry_tidy dir Hap Hdir) in Ht.
Qed.

(** What only depends on the files of [id] survives the other entries. *)
Lemma flush_files_apart (Q : world → Prop) id k files w :
  (∀ id' w w', id ≠ id' → only dir id' w w' → Q w → Q w') →
  (id ++ B ".json") ∉ files.*1 → Forall plain files.*1 → healthy w → spool_ok dir (w_fs w) → Q w → Q (flushing_files k files w).
Proof.
  intros HQ. revert k w. induction files as [| [name isdir] files IH]; intros k w Hn Hpl Hh Hs Hw; [done |].
  apply not_elem_of_cons in Hn as [Hne Hn]. apply Forall_cons in Hpl as [Hpn Hpl]. rewrite flush_files_eq.
  destruct (isdir || negb _) eqn:Hsk; [by apply IH |]. apply orb_false_iff in Hsk as [_ Hsk%negb_false_iff].
  destruct (stopping k); [done |]. set (id' := TrimSuffix name (B ".json")).
  destruct (try_tidy k id' w (id_name_file name Hpn Hsk) Hh Hs) as [Ho Ht].
  apply IH; [done | done | by apply Ho | by apply Ht |]. eapply HQ; [| exact Ho | done].
  intros ->. apply Hne. symmetry. by apply HasSuffix_split.
Qed.

Lemma after_round_only id w w' entry message ds now :
  only dir id w w' → e_ID entry ≠ id → after_round dir (w_fs w) entry message ds now → after_round dir (w_fs w') entry message ds now.
Proof.
  intros Ho Hne. unfold after_round. case_decide; [| by apply (queued_only dir Hap Hdir id w w' (retried entry ds now))].
  destruct Ho as (_ & _ & Hf). intros [Hj He]. split; (rewrite Hf; [done | by eexists | |]); intros Hx%snoc_inj.
  - by apply app_inv_tail in Hx.
  - by apply (json_not_eml (e_ID entry) id).
  - by apply (json_not_eml id (e_ID entry)).
  - by apply app_inv_tail in Hx.
Qed.

Context (entry : queueEntry) (message : bytes).

(** The message after its turn at place [p]: attempted, or left as it is
    because it is not due or the shutdown was noticed by then. *)
Definition flushed (now : Z) (from p : nat) (w' : world) : Prop :=
  (queued dir (w_fs w') entry message ∧ (now < NextTry entry ∨ ∃ j, (from ≤ j ≤ p)%nat ∧ stopping j = true)) ∨
  (NextTry entry <= now ∧ stopping p = false ∧
   ∃ ds, (λ d, (dl_domain d, dl_rcpts d)) <$> ds = ranges p (map_to_list (groupByDomain (e_To entry))) ∧
     Forall (fair_report (nets p) srv entry message) ds ∧ after_round dir (w_fs w') entry message ds now).

Lemma flushed_from now from p w' : flushed now (S from) p w' → flushed now from p w'.
Proof.
  intros [[Hq [? | (j & Hj & ?)]] | H]; [left; split; [done | by left] | left; split; [done |] | by right].
  right. exists j. split; [lia | done].
Qed.

Lemma flush_files_one k files p w :
  files !! p = Some (e_ID entry ++ B ".json", false) → Forall plain files.*1 → NoDup files.*1 →
  healthy w → spool_ok dir (w_fs w) → queued dir (w_fs w) entry message → 0 <= Attempts entry < 2 ^ 62 →
  flushed (w_now w) k (k + p) (flushing_files k files w).
Proof.
  revert k p w. induction files as [| [name isdir] files IH]; intros k p w Hp Hpl Hnd Hh Hs Hq Ha; [done |].
  apply Forall_cons in Hpl as [Hpn Hpl]. apply NoDup_cons in Hnd as [Hni Hnd]. rewrite flush_files_eq. destruct p as [| p].
  - rewrite Nat.add_0_r. injection Hp as -> ->. rewrite HasSuffix_self, TrimSuffix_self. cbn [orb negb].
    destruct (stopping k) eqn:Hst; [left; split; [done |]; right; exists k; split; [lia | done] |].
    assert (id_name (e_ID entry)) as Hid by apply Hq. destruct (try_tidy k _ w Hid Hh Hs) as [(_ & Hh' & _) Hs'].
    destruct (decide (NextTry entry <= w_now w)) as [Hd | Hd].
    + right. split; [done |]. split; [done |].
      destruct (attempt_healthy dir Hap (nets k) (ranges k) srv entry message w Hq Hh Ha) as (ds & w1 & He & _ & _ & Hg & Hf & Haft).
      exists ds. split; [done |]. split; [done |].
      apply (flush_files_apart (λ w', after_round dir (w_fs w') entry message ds (w_now w)) (e_ID entry)); [| done | done | by apply Hh' | by apply Hs' |].
      * intros id' w2 w3 Hne Ho. by apply (after_round_only id').
      * by rewrite (try_entry_due dir (nets k) (ranges k) srv entry message w Hq Hh Hd), He.
    + left. split; [| left; lia].
      apply (flush_files_apart (λ w', queued dir (w_fs w') entry message) (e_ID entry)); [| done | done | by apply Hh' | by apply Hs' |].
      * intros id' w2 w3 Hne Ho Hx. by eapply queued_only.
      * unfold try_entry. destruct (queued_read _ _ _ _ Hq Hh) as [Hr _].
        rewrite (st_bind_eq _ _ _ _ _ Hr), (st_bind_eq Now _ w _ _ eq_refl). by replace (w_now w <? NextTry entry) with true by lia.
  - replace (k + S p)%nat with (S k + p)%nat by lia.
    destruct (isdir || negb _) eqn:Hsk; [by apply flushed_from, IH |]. apply orb_false_iff in Hsk as [_ Hsk%negb_false_iff].
    destruct (stopping k) eqn:Hst; [left; split; [done |]; right; exists k; split; [lia | done] |]. apply flushed_from.
    set (id' := TrimSuffix name (B ".json")).
    destruct (try_tidy k id' w (id_name_file name Hpn Hsk) Hh Hs) as [Ho Hs']. rewrite <- (proj1 Ho).
    apply IH; [done | done | done | by apply Ho | by apply Hs' | | done].
    eapply (queued_only dir Hap Hdir); [exact Ho | | done]. intros He. apply Hni. apply list_elem_of_fmap. exists (e_ID entry ++ B ".json", false).
    split; [| by eapply list_elem_of_lookup_2]. cbn [fst]. rewrite He. by apply HasSuffix_split.
Qed.

(** C25: One [flush] on a healthy system.  Every message that is in the queue
    when it begins has its turn at the place of its sidecar in the listing of
    the directory; when it is due and the shutdown has not been noticed by
    then, it is attempted once, with what the network answers at that moment,
    and the queue afterwards holds what that attempt leaves of it (nothing, or
    the deferred recipients with the time of the retry); otherwise it is in
    the queue exactly as before; whatever the other messages are. *)
Theorem flush_correct w :
  healthy w → spool_ok dir (w_fs w) → queued dir (w_fs w) entry message → 0 <= Attempts entry < 2 ^ 62 →
  ∃ p, entries (w_fs w) dir !! p = Some (e_ID entry ++ B ".json", false) ∧
    flushed (w_now w) 0 p (flush dir stopping nets ranges srv w).2.
Proof.
  intros Hh Hs Hq Ha. assert ((e_ID entry ++ B ".json", false) ∈ entries (w_fs w) dir) as Hin.
  { apply elem_of_entries. destruct (q_entry _ _ _ _ Hq) as (j & Hj & _). apply file_in_Some in Hj. by eexists. }
  apply list_elem_of_lookup in Hin as [p Hp]. exists p. split; [done |].
  destruct (os_ReadDir dir w) as [r w1] eqn:Hr. unfold flush. rewrite (st_bind_eq _ _ _ _ _ Hr).
  apply list_step in Hr as (-> & Hok & Hpl); [| done ..]. rewrite Hok in * by apply Hq.
  apply (flush_files_one 0); [done | | apply NoDup_entries | done ..].
  apply Forall_fmap. by apply Hpl.
Qed.
End Flush.
End Spec.

(** ** A round-robin scheduler *)

Section Scheduler.
Context {U : UnicodeTables} {Acc : Accounts} {Laws : AccountsLaws Acc} {Et : ErrorText} {Zo : Zone}.
Context {Ro : ReadOnlyAccounts Acc} (dir : path) (srv : Server) (net : network) (range : list (bytes * list bytes) → list (bytes * list bytes)).

Definition first_ready (q : queue) : case := if q_stop q then CaseStop else if q_wake q then CaseWake else CaseTick.

(** In turn: the timer, the worker if it can move, a minute passes. *)
Definition turn (n : nat) (q : queue) : label :=
  match (n mod 3)%nat with
  | 0%nat => Tick
  | 1%nat => if can_move q then if flushing (q_phase q) then Work net range else Select (first_ready q) else Tick
  | _ => Other (set_now (w_now (q_world q) + Minute) (q_world q))
  end.
Definition apply_label (l : label) (q : queue) : queue :=
  match l with
  | Work net range => work dir srv net range q
  | Select c => select c q
  | Signal => signal q
  | Tick => ticked q
  | Close => close_stop q
  | Other w => set_queue_world w q
  end.

Fixpoint played (q : queue) (n : nat) : queue :=
  match n with O => q | S n => let q := played q n in apply_label (turn n q) q end.
Definition plays (q : queue) (n : nat) : label := turn n (played q n).

Lemma played_run q : run dir srv (respects dir) (played q) (plays q).
Proof.
  intros n. cbn [played]. unfold plays. set (q' := played q n). unfold turn.
  destruct (n mod 3)%nat as [| [|]]; [by constructor | | constructor; apply later_respects; unfold Minute, Second; lia].
  destruct (can_move q') eqn:Hc; [| by constructor]. destruct (flushing (q_phase q')) eqn:Hf; [by constructor |].
  unfold can_move in Hc. rewrite Hf in Hc. simpl in Hc. constructor; [by destruct (q_phase q') |].
  destruct (q_phase q'); try done. unfold first_ready, ready. destruct (q_stop q'), (q_wake q'), (q_tick q'); done.
Qed.

Lemma mod3 n : (n mod 3 < 3)%nat ∧ ∀ k, ((n + k) mod 3 = (n mod 3 + k) mod 3)%nat.
Proof. split; [by apply Nat.mod_upper_bound | intros k; by rewrite Nat.Div0.add_mod_idemp_l]. Qed.

(** In which turn of the round each of them comes. *)
Lemma slot i n : (i < 3)%nat → ∃ m, (n ≤ m ≤ n + 2)%nat ∧ (m mod 3 = i)%nat.
Proof.
  intros Hi. destruct (mod3 n) as [Hn Hk].
  destruct (decide (n mod 3 = i)%nat); [exists n; lia |].
  destruct (decide ((n + 1) mod 3 = i)%nat); [exists (n + 1)%nat; lia |]. exists (n + 2)%nat. split; [lia |].
  pose proof (Hk 1%nat) as H1. pose proof (Hk 2%nat) as H2. destruct (n mod 3)%nat as [| [| [|]]]; simpl in *; lia.
Qed.

Lemma can_move_kept q n : can_move (played q n) = true → (n mod 3 ≠ 1)%nat → can_move (played q (S n)) = true.
Proof.
  intros Hc Hn. cbn [played]. set (q' := played q n) in *. unfold turn. destruct (n mod 3)%nat as [| [|]]; [| done | exact Hc].
  unfold can_move in *. cbn. destruct (q_phase q'); try done. by rewrite !orb_true_r.
Qed.

Lemma played_fair q : fair (played q) (plays q).
Proof.
  intros n Hc. destruct (slot 1 n) as (m & Hm & Hs); [lia |].
  assert (∀ d, (d ≤ 2)%nat → (∀ k, (k < d)%nat → (n + k) mod 3 ≠ 1)%nat → can_move (played q (n + d)) = true) as Hkeep.
  { induction d as [| d IH]; intros Hd Hno; [by rewrite Nat.add_0_r |].
    replace (n + S d)%nat with (S (n + d)) by lia. apply can_move_kept; [apply IH; [lia |] | apply Hno; lia]. intros k Hk. apply Hno. lia. }
  assert (∃ d, (d ≤ 2)%nat ∧ ((n + d) mod 3 = 1)%nat ∧ ∀ k, (k < d)%nat → ((n + k) mod 3 ≠ 1)%nat) as (d & Hd & H1 & Hno).
  { destruct (decide ((n + 0) mod 3 = 1)%nat) as [H0 | H0]; [exists 0%nat; split; [lia |]; split; [done | lia] |].
    destruct (decide ((n + 1) mod 3 = 1)%nat) as [H1 | H1].
    - exists 1%nat. split; [lia |]. split; [done |]. intros k Hk. by replace k with 0%nat by lia.
    - exists 2%nat. split; [lia |]. split.
      + destruct (decide (m = n)) as [-> |]; [by rewrite Nat.add_0_r in H0 |].
        destruct (decide (m = n + 1)%nat) as [-> |]; [done |]. by replace (n + 2)%nat with m by lia.
      + intros [| [|]] Hk; [done | done | lia]. }
  exists (n + d)%nat. split; [lia |]. unfold plays, turn. rewrite H1. rewrite (Hkeep d Hd Hno). by destruct (flushing _).
Qed.

Lemma played_stopped q n m : q_stop (played q n) = true → (n ≤ m)%nat → q_stop (played q m) = true.
Proof. intros Hs Hm. by apply (stopped dir srv (respects dir) _ _ (played_run q) n Hs). Qed.

Lemma played_fair_stop q : fair_stop (played q) (plays q).
Proof.
  intros n Hs Hsel. destruct (decide (q_phase (played q n) = Finished)) as [Hf | Hf]; [exists n; by split; [| right] |].
  destruct (Hsel n ltac:(lia) Hf) as (k & c & Hk & Hl). exists k. split; [done | left]. rewrite Hl. f_equal.
  revert Hl. unfold plays, turn. destruct (k mod 3)%nat as [| [|]]; try done.
  destruct (can_move _); [| done]. destruct (flushing _); [done |]. intros [= <-]. unfold first_ready. by rewrite (played_stopped q n k).
Qed.

Lemma played_ticks q n : ∃ m, (n ≤ m)%nat ∧ plays q m = Tick.
Proof. destruct (slot 0 n) as (m & Hm & Hs); [lia |]. exists m. split; [lia |]. unfold plays, turn. by rewrite Hs. Qed.

Context (Hap : ∀ uid, apart dir (mailRoot uid)) (Hdir : Forall plain dir).

Lemma played_minutes q k : good dir q → ∃ m, w_now (q_world q) + Z.of_nat k * Minute <= w_now (q_world (played q m)).
Proof.
  intros Hg. induction k as [| k [m IH]]; [exists 0%nat; cbn [played]; lia |].
  destruct (slot 2 m) as (m' & Hm & Hs); [lia |]. exists (S m').
  pose proof (now_at dir Hap Hdir srv (respects dir) (λ _ _ H, H) _ _ (played_run q) Hg m m' ltac:(lia)) as Hn.
  assert (w_now (q_world (played q (S m'))) = w_now (q_world (played q m')) + Minute) as ->.
  { cbn [played]. unfold turn. rewrite Hs. done. }
  lia.
Qed.

Lemma played_time q t : good dir q → ∃ m, t <= w_now (q_world (played q m)).
Proof.
  intros Hg. destruct (played_minutes q (Z.to_nat (t - w_now (q_world q))) Hg) as [m Hm]. exists m.
  unfold Minute, Second in Hm. lia.
Qed.

Lemma played_stop q n : q_stop q = false → q_stop (played q n) = false.
Proof.
  intros Hs. induction n as [| n IH]; [done |]. cbn [played]. set (q' := played q n) in *. unfold turn.
  destruct (n mod 3)%nat as [| [|]]; [done | | done]. destruct (can_move q'); [| done].
  destruct (flushing (q_phase q')); [cbn; by rewrite work_stop |]. cbn. unfold first_ready. rewrite IH. by destruct (q_wake q').
Qed.
End Scheduler.

(** ** The queue of the fixtures *)

From S2P Require Import Fixtures MailFixtures ServerFixtures.

(** A file of the queue directory has a proper name and its entry tells it. *)
Definition proper (kn : path * node) : bool :=
  match kn with
  | ([a; b; name], n) =>
      if decide ([a; b] = queue_dir) then
        bool_decide (plain name) &&
        match n with
        | File (Json j) => match unmarshal_entry j with Some e => bool_decide (name = e_ID e ++ B ".json") | None => true end
        | _ => true
        end
      else true
  | _ => true
  end.

Lemma proper_spool f : forallb proper (map_to_list f) = true → spool_ok queue_dir f.
Proof.
  intros H. rewrite forallb_forall in H.
  assert (∀ name n, f !! (queue_dir ++ [name]) = Some n → proper (queue_dir ++ [name], n) = true) as Hp.
  { intros name n Hn. by apply H, list_elem_of_In, elem_of_map_to_list. }
  split.
  - intros name n Hn. apply Hp in Hn. cbn [proper queue_dir app] in Hn. rewrite decide_True in Hn by done.
    apply andb_true_iff in Hn as [Hn _]. by apply bool_decide_eq_true in Hn.
  - intros id j e Hn Hu. apply file_in_Some, Hp in Hn. cbn [proper queue_dir app] in Hn. rewrite decide_True, Hu in Hn by done.
    apply andb_true_iff in Hn as [_ Hn]. apply bool_decide_eq_true in Hn. by apply app_inv_tail in Hn.
Qed.

Lemma queue_dir_plain : Forall plain queue_dir.
Proof. by apply (bool_decide_unpack _). Qed.

Lemma queue_world_good stop : good queue_dir (Queue false false stop Listing queue_world).
Proof.
  destruct out_queued as [_ Hh]. split; cbn; [done | | done | done]. apply proper_spool. vm_compute. reflexivity.
Qed.

Abbreviation out_played := (played queue_dir plain_server busy_network as_is).
Abbreviation out_plays := (plays queue_dir plain_server busy_network as_is).

Lemma wakeup_not_lost_witness :
  ∃ m net range, waits queue_dir out_entry out_body (out_played (newQueue queue_world) m) ∧
    q_world (out_played (newQueue queue_world) (S m)) =
      (attempt queue_dir net range plain_server out_entry (q_world (out_played (newQueue queue_world) m))).2.
Proof.
  destruct (wakeup_not_lost queue_dir queue_apart queue_dir_plain plain_server (respects queue_dir) (λ _ _ H, H)
    (out_played (newQueue queue_world)) (out_plays (newQueue queue_world)) (played_run _ _ _ _ _) (played_fair _ _ _ _ _)
    (queue_world_good false) (λ n, played_stop _ _ _ _ (newQueue queue_world) n eq_refl) out_entry out_body 0) as (m & net & range & _ & Hw & _ & Hq).
  - apply out_queued.
  - unfold due. by vm_compute.
  - right; right. reflexivity.
  - exists m, net, range. split; [exact Hw | exact Hq].
Defined.

Lemma queue_never_stuck_witness :
  ∃ m, unqueued queue_dir (w_fs (q_world (out_played (newQueue queue_world) m))) out_id.
Proof.
  destruct (queue_never_stuck queue_dir queue_apart queue_dir_plain plain_server (respects queue_dir) (λ _ _ H, H)
    (out_played (newQueue queue_world)) (out_plays (newQueue queue_world)) (played_run _ _ _ _ _) (played_fair _ _ _ _ _)
    (queue_world_good false) (λ n, played_stop _ _ _ _ (newQueue queue_world) n eq_refl) (played_ticks _ _ _ _ _)
    (λ t, played_time _ _ _ _ queue_apart queue_dir_plain _ t (queue_world_good false)) out_entry out_body 0) as (m & _ & Hu).
  - apply out_queued.
  - unfold out_entry. cbn [Attempts]. lia.
  - exists m. exact Hu.
Defined.

Lemma shutdown_ends_witness :
  let q := Queue true false true Listing queue_world in ∃ m, ∀ k, (m ≤ k)%nat → q_phase (out_played q k) = Finished.
Proof.
  intros q. destruct (shutdown_ends queue_dir plain_server (respects queue_dir) (out_played q) (out_plays q)
    (played_run _ _ _ _ _) (played_fair _ _ _ _ _) 0 eq_refl (played_fair_stop _ _ _ _ _)) as (_ & m & _ & H).
  exists m. intros k Hk. apply H, Hk.
Defined.

Lemma flush_correct_witness :
  ∃ p, flushed queue_dir plain_server (λ _, false) (λ _, busy_network) (λ _, as_is) out_entry out_body (w_now queue_world) 0 p
    (flush queue_dir (λ _, false) (λ _, busy_network) (λ _, as_is) plain_server queue_world).2.
Proof.
  destruct out_queued as [Hq Hh], (queue_world_good false) as [_ Hs _ _].
  destruct (flush_correct queue_dir queue_apart queue_dir_plain plain_server (λ _, false) (λ _, busy_network) (λ _, as_is)
    out_entry out_body queue_world Hh Hs Hq) as (p & _ & Hf); [unfold out_entry; cbn [Attempts]; lia |].
  exists p. exact Hf.
Defined.
