(* ===== verification/Process.v ===== *)
(** * Process: from [serve] to the end of the process ([serve] of [main.go],
    [Shutdown], [closing] and the serving goroutines of [mail/server.go],
    [servePOP3] of [mail/pop3.go])

    The goroutine [main] waits for a signal or the end of the HTTP server and
    then takes [Server.Shutdown] apart, next to the goroutines of the wait
    group: one per listener, and the queue worker of [Worker].  [ListenAndServe],
    the accept loops of go-smtp and go-imap and what [Shutdown] and [Close] of
    the libraries do to their listeners are as documented: a server that is
    shut down closes its listener, and accepting on a closed listener fails. *)

From S2P Require Import Prelude GoStrings World Accounts Flags MailStore Token Config GoNet MailServer Listeners Relay Worker.

(** Where [main] is: in the [select] of [serve], at [httpServer.Shutdown], or
    in [mailServer.Shutdown]: at the lock, in the loops over the SMTP and the
    IMAP servers, at the loop over the listeners, at [close(q.stop)], at
    [<-q.done], at [wg.Wait]; or returned. *)
Inductive main_phase :=
| Awaiting
| HttpShutdown
| MailShutdown
| SmtpShutdown (smtpServers imapServers : list bytes)
| ImapClose (imapServers : list bytes)
| ListenersClose
| QueueStop
| QueueWait
| GroupWait
| Exited.

#[export] Instance main_phase_eq_dec : EqDecision main_phase.
Proof. solve_decision. Defined.

(** [p_http]: the HTTP server is serving; [p_failed], [p_signals]: what is in
    the two channels of [serve]; [p_mail]: the mail server, if there is one;
    [p_serving]: the accept loops that have not returned, by role;
    [p_sessions]: the connections that were handed to a goroutine. *)
Record process := Process {
  p_phase : main_phase;
  p_http : bool;
  p_failed : option (option error);
  p_signals : bool;
  p_mail : option running;
  p_serving : list bytes;
  p_sessions : list bytes;
  p_queue : queue;
}.

Definition set_main (ph : main_phase) (p : process) : process :=
  Process ph (p_http p) (p_failed p) (p_signals p) (p_mail p) (p_serving p) (p_sessions p) (p_queue p).
Definition set_mail (r : running) (p : process) : process :=
  Process (p_phase p) (p_http p) (p_failed p) (p_signals p) (Some r) (p_serving p) (p_sessions p) (p_queue p).
Definition set_serving (l : list bytes) (p : process) : process :=
  Process (p_phase p) (p_http p) (p_failed p) (p_signals p) (p_mail p) l (p_sessions p) (p_queue p).
Definition set_worker (q : queue) (p : process) : process :=
  Process (p_phase p) (p_http p) (p_failed p) (p_signals p) (p_mail p) (p_serving p) (p_sessions p) q.

(** After [startMail]: everything serves. *)
Definition launched (mail : option running) (w : world) : process :=
  Process Awaiting true None false mail (match mail with Some r => (servers r).*1 | None => [] end) [] (newQueue w).

(** ** The other goroutines *)

(** [ListenAndServe] returned; the channel holds one element. *)
Definition http_returns (e : option error) (p : process) : process :=
  Process (p_phase p) false (Some e) (p_signals p) (p_mail p) (p_serving p) (p_sessions p) (p_queue p).
Definition signal_arrives (p : process) : process :=
  Process (p_phase p) (p_http p) (p_failed p) true (p_mail p) (p_serving p) (p_sessions p) (p_queue p).

Definition is_role (role : bytes) (l : listener) : bool := bool_decide (l_role l = role).
Definition open_role (role : bytes) (r : running) : bool := existsb (λ l, is_role role l && l_open l) (listeners r).

(** The loop of [servePOP3]: a connection gets a goroutine; any error ends the
    loop, whether the server is closing or not. *)
Definition accept (role : bytes) (conn : result unit) (p : process) : process :=
  match conn with
  | Ok _ => Process (p_phase p) (p_http p) (p_failed p) (p_signals p) (p_mail p) (p_serving p) (role :: p_sessions p) (p_queue p)
  | Err _ => set_serving (filter (λ r, r ≠ role) (p_serving p)) p
  end.

(** ** [main] *)

(** Cases of the [select]; a receive empties the channel. *)
Definition receive_failed (p : process) : process :=
  Process HttpShutdown (p_http p) None (p_signals p) (p_mail p) (p_serving p) (p_sessions p) (p_queue p).
Definition receive_signal (p : process) : process :=
  Process HttpShutdown (p_http p) (p_failed p) false (p_mail p) (p_serving p) (p_sessions p) (p_queue p).

(** [httpServer.Shutdown] makes [ListenAndServe] return; that is no error. *)
Definition http_shutdown (p : process) : process :=
  let p := if p_http p then http_returns None p else p in
  set_main (match p_mail p with Some _ => MailShutdown | None => Exited end) p.

(** [listener.Close]; closing twice is an error nobody looks at. *)
Definition close_listener (l : listener) : listener := Listener (l_role l) (l_bound l) (l_implicitTLS l) false.

Definition with_closed (r : running) : running := Running true (listeners r) (addrs r) (servers r) (queue_running r).
(** A protocol server closes its listener. *)
Definition close_server (role : bytes) (r : running) : running :=
  Running (closed r) ((λ l, if is_role role l then close_listener l else l) <$> listeners r) (addrs r)
    (servers r) (queue_running r).
Definition close_all (r : running) : running :=
  Running (closed r) (close_listener <$> listeners r) (addrs r) (servers r) (queue_running r).
Definition queue_done (r : running) : running :=
  Running (closed r) (listeners r) (addrs r) (servers r) false.

Definition is_smtp (s : bytes * service) : bool := match s.2 with SmtpServer _ _ _ _ _ _ => true | _ => false end.
Definition is_imap (s : bytes * service) : bool := match s.2 with ImapServer _ _ => true | _ => false end.
Definition roles (f : bytes * service → bool) (r : running) : list bytes := (filter (λ s, f s = true) (servers r)).*1.

(** The next step of [Server.Shutdown]; [None] if it has to wait. *)
Definition shutdown_next (srv : Server) (r : running) (p : process) : option process :=
  match p_phase p with
  | MailShutdown =>
      if closed r then Some (set_main Exited p)
      else Some (set_main (SmtpShutdown (roles is_smtp r) (roles is_imap r)) (set_mail (with_closed r) p))
  | SmtpShutdown (role :: rest) imaps => Some (set_main (SmtpShutdown rest imaps) (set_mail (close_server role r) p))
  | SmtpShutdown [] imaps => Some (set_main (ImapClose imaps) p)
  | ImapClose (role :: rest) => Some (set_main (ImapClose rest) (set_mail (close_server role r) p))
  | ImapClose [] => Some (set_main ListenersClose p)
  | ListenersClose => Some (set_main (if Relay (cfg srv) then QueueStop else GroupWait) (set_mail (close_all r) p))
  | QueueStop => Some (set_main QueueWait (set_worker (close_stop (p_queue p)) p))
  | QueueWait =>
      if decide (q_phase (p_queue p) = Finished) then Some (set_main GroupWait (set_mail (queue_done r) p)) else None
  | GroupWait => if decide (p_serving p = []) then Some (set_main Exited p) else None
  | Awaiting | HttpShutdown | Exited => None
  end.

(** The next step of [main] after the [select]. *)
Definition serve_next (srv : Server) (p : process) : option process :=
  match p_phase p with
  | Awaiting | Exited => None
  | HttpShutdown => Some (http_shutdown p)
  | _ => match p_mail p with Some r => shutdown_next srv r p | None => None end
  end.

(** ** Interleaving *)

Inductive act := Main | HttpFails (e : error) | SignalArrives | Accept (role : bytes) (conn : result unit) | OfQueue (l : label).

Section Process.
Context {U : UnicodeTables} {Acc : Accounts} {Et : ErrorText} {Zo : Zone} (srv : Server) (others : world → world → Prop).

Abbreviation qstep := (Worker.step (QueueDir (cfg srv)) srv others).

(** The goroutine of the queue was started. *)
Definition runs_queue (p : process) : bool := match p_mail p with Some _ => Relay (cfg srv) | None => false end.

Inductive pstep : process → act → process → Prop :=
| ps_failed p x : p_phase p = Awaiting → p_failed p = Some x → pstep p Main (receive_failed p)
| ps_signal p : p_phase p = Awaiting → p_signals p = true → pstep p Main (receive_signal p)
| ps_next p p' : serve_next srv p = Some p' → pstep p Main p'
| ps_http_fails p e : p_http p = true → pstep p (HttpFails e) (http_returns (Some e) p)
| ps_signal_arrives p : pstep p SignalArrives (signal_arrives p)
| ps_accept p role r : role ∈ p_serving p → p_mail p = Some r → open_role role r = true →
    pstep p (Accept role (Ok tt)) (accept role (Ok tt) p)
| ps_accept_fails p role e : role ∈ p_serving p → pstep p (Accept role (Err e)) (accept role (Err e) p)
| ps_queue p l q : l ≠ Close → (by_worker l = true → runs_queue p = true) → qstep (p_queue p) l q → pstep p (OfQueue l) (set_worker q p).

(** [main] can move. *)
Definition main_ready (p : process) : bool :=
  match p_phase p with
  | Awaiting => p_signals p || bool_decide (p_failed p ≠ None)
  | _ => bool_decide (serve_next srv p ≠ None)
  end.

Definition prun (σ : nat → process) (ℓ : nat → act) : Prop := ∀ n, pstep (σ n) (ℓ n) (σ (S n)).

(** What the run of the process is for the queue. *)
Definition queue_label (p : process) (a : act) : label :=
  match a with
  | OfQueue l => l
  | Main => match p_phase p with QueueStop => Close | _ => Other (q_world (p_queue p)) end
  | _ => Other (q_world (p_queue p))
  end.

(** Nobody is neglected: not [main], not an accept loop whose listener is
    closed, not the queue worker, nor any case of its [select]. *)
Record pfair (σ : nat → process) (ℓ : nat → act) : Prop := {
  pf_main n : main_ready (σ n) = true → ∃ m, (n ≤ m)%nat ∧ ℓ m = Main;
  pf_accept n role r : role ∈ p_serving (σ n) → p_mail (σ n) = Some r → open_role role r = false →
    ∃ m e, (n ≤ m)%nat ∧ ℓ m = Accept role (Err e);
  pf_queue : runs_queue (σ 0%nat) = true → fair (p_queue ∘ σ) (λ n, queue_label (σ n) (ℓ n));
  pf_stop : runs_queue (σ 0%nat) = true → fair_stop (p_queue ∘ σ) (λ n, queue_label (σ n) (ℓ n));
}.

End Process.
