(* ===== verification/ProcessSpec.v ===== *)
(** * ProcessSpec: how the process ends

    The process ends after a signal or the end of the HTTP server, and only
    when every listener is closed, every accept loop has returned and the
    queue worker is between two messages; until then the mail server stays as
    it was started. *)

From S2P Require Import Prelude GoStrings World WorldFacts Accounts AccountsFacts Flags MailStore MailNames MailFacts.
From S2P Require Import Token Config GoNet MailServer Listeners ListenersSpec Relay RelayFacts RelaySpec Worker WorkerFacts WorkerSpec Process.

(** ** What [startMail] leaves *)

Record fresh (srv : Server) (r : running) : Prop := {
  fr_closed : closed r = false;
  fr_queue : queue_running r = Relay (cfg srv);
}.

Lemma Start_fresh {So : Sockets} (srv : Server) r : Start srv not_started = (Ok tt, r) → fresh srv r.
Proof.
  rewrite Start_ports. change not_started with (opened [] []).
  destruct (start_ports_spec srv (ports srv) [] [] ltac:(constructor)) as [(cs & _ & ->) | (? & ? & ? & ? & ? & _ & _ & _ & ->)]; [| done].
  intros [= <-]. by split.
Qed.

Lemma startMail_fresh {K : KeyParsers} {So : Sockets} c dataDir raw srv r :
  startMail c dataDir raw = Ok (Some (srv, r)) → fresh srv r.
Proof.
  unfold startMail. destruct (negb _); [done |]. destruct (New c dataDir raw) as [srv' | e]; [| done].
  destruct (Start srv' not_started) as [[[] | e] r'] eqn:Hs; [| done]. intros [= <- <-]. by apply Start_fresh.
Qed.

Lemma close_listener_twice l : close_listener (close_listener l) = close_listener l.
Proof. done. Qed.

Lemma close_server_listeners role r : close_listener <$> listeners (close_server role r) = close_listener <$> listeners r.
Proof.
  unfold close_server. cbn [listeners]. rewrite <- list_fmap_compose. apply list_fmap_ext. intros _ l _. unfold compose.
  by destruct (is_role role l).
Qed.

Lemma all_closed_role role r : Forall (λ l, l_open l = false) (listeners r) → open_role role r = false.
Proof.
  unfold open_role. induction 1 as [| l ls Hl _ IH]; [done |]. simpl. by rewrite Hl, andb_false_r, IH.
Qed.

Section Spec.
Context {U : UnicodeTables} {Acc : Accounts} {Et : ErrorText} {Zo : Zone}.
Context {K : KeyParsers} {So : Sockets} (config : Config) (dataDir : path) (raw : result bytes).
Context (srv : Server) (others : world → world → Prop) (mail : option running) (w0 : world).
Context (Hstart : startMail config dataDir raw = Ok ((λ r, (srv, r)) <$> mail)).

Lemma mail_fresh r : mail = Some r → fresh srv r.
Proof. intros Hm. rewrite Hm in Hstart. by eapply startMail_fresh. Qed.

Abbreviation pstep := (pstep srv others).
Abbreviation qdir := (QueueDir (cfg srv)).

(** ** The invariant *)

(** The mail server while [main] shuts it down. *)
Record closing (r0 r : running) : Prop := {
  cl_closed : closed r = true;
  cl_listeners : close_listener <$> listeners r = close_listener <$> listeners r0;
  cl_addrs : addrs r = addrs r0;
  cl_servers : servers r = servers r0;
  cl_queue : queue_running r = queue_running r0;
}.

Definition shut (r0 : running) (queue : bool) : running := Running true (close_listener <$> listeners r0) (addrs r0) (servers r0) queue.
Definition worker_ended (p : process) : Prop := Relay (cfg srv) = true → q_phase (p_queue p) = Finished.

Definition stage (p : process) : Prop :=
  match p_phase p, mail with
  | (Awaiting | HttpShutdown), _ => p_mail p = mail ∧ q_stop (p_queue p) = false
  | MailShutdown, Some _ => p_mail p = mail ∧ q_stop (p_queue p) = false ∧ p_http p = false
  | (SmtpShutdown _ _ | ImapClose _ | ListenersClose), Some r0 =>
      p_http p = false ∧ q_stop (p_queue p) = false ∧ ∃ r, p_mail p = Some r ∧ closing r0 r
  | QueueStop, Some r0 =>
      p_http p = false ∧ q_stop (p_queue p) = false ∧ Relay (cfg srv) = true ∧ p_mail p = Some (shut r0 (Relay (cfg srv)))
  | QueueWait, Some r0 =>
      p_http p = false ∧ q_stop (p_queue p) = true ∧ Relay (cfg srv) = true ∧ p_mail p = Some (shut r0 (Relay (cfg srv)))
  | GroupWait, Some r0 => p_http p = false ∧ worker_ended p ∧ p_mail p = Some (shut r0 false)
  | Exited, Some r0 => p_http p = false ∧ worker_ended p ∧ p_mail p = Some (shut r0 false) ∧ p_serving p = []
  | Exited, None => p_http p = false ∧ p_mail p = None
  | _, None => False
  end.

Lemma stage_launched : stage (launched mail w0).
Proof. done. Qed.

(** What one of the others does leaves [main] and the mail server alone. *)
Record beside (p p' : process) : Prop := {
  bs_phase : p_phase p' = p_phase p;
  bs_mail : p_mail p' = p_mail p;
  bs_http : p_http p = false → p_http p' = false;
  bs_serving : p_serving p = [] → p_serving p' = [];
  bs_stop : q_stop (p_queue p') = q_stop (p_queue p);
  bs_finished : q_phase (p_queue p) = Finished → q_phase (p_queue p') = Finished;
  bs_signals : p_signals p = true → p_signals p' = true;
  bs_failed : p_failed p ≠ None → p_failed p' ≠ None;
}.

Lemma queue_stop_kept l q q' : Worker.step qdir srv others q l q' → l ≠ Close → q_stop q' = q_stop q.
Proof. intros [q0 net range _ | q0 [] _ _ | q0 | q0 | q0 _ | q0 w _] Hl; try done. by rewrite work_stop. Qed.

Lemma queue_finished_kept l q q' : Worker.step qdir srv others q l q' → q_phase q = Finished → q_phase q' = Finished.
Proof. intros [q0 net range Hf | q0 c Hp _ | q0 | q0 | q0 _ | q0 w _] H; try done; [by rewrite H in Hf | congruence]. Qed.

Lemma beside_step p a p' : pstep p a p' → a ≠ Main → beside p p'.
Proof.
  intros [q x | q | q q' | q e | q | q role r | q role e | q l q' Hl Hw Hq] Ha; try done; split; try done.
  - intros Hn. cbn. by rewrite Hn.
  - by apply (queue_stop_kept _ _ _ Hq Hl).
  - by apply (queue_finished_kept _ _ _ Hq).
Qed.

Lemma stage_beside p p' : beside p p' → stage p → stage p'.
Proof.
  intros [H1 H2 H3 H4 H5 H6 _ _]. unfold stage, worker_ended. rewrite H1, H2, H5. destruct (p_phase p), mail; naive_solver.
Qed.

Lemma closing_close role r0 r : closing r0 r → closing r0 (close_server role r).
Proof. intros [H1 H2 H3 H4 H5]. split; [done | by rewrite close_server_listeners | done ..]. Qed.

Lemma closing_all r0 r : fresh srv r0 → closing r0 r → close_all r = shut r0 (Relay (cfg srv)).
Proof. intros [_ Hq] [H1 H2 H3 H4 H5]. unfold close_all, shut. by rewrite H1, H2, H3, H4, H5, Hq. Qed.

Lemma stage_next p p' : serve_next srv p = Some p' → stage p → stage p'.
Proof.
  pose proof mail_fresh as Hall. unfold serve_next. destruct (p_phase p) as [| | | [| role rest] imaps | [| role rest] | | | | |] eqn:Hp; try done.
  { intros [= <-]. unfold stage, http_shutdown. rewrite Hp. intros [Hm Hs].
    destruct (p_http p) eqn:Hh; cbn [http_returns p_mail set_main p_phase p_queue p_http]; rewrite Hm; by destruct mail. }
  all: destruct (p_mail p) as [r |] eqn:Hm; [| done]; unfold shutdown_next; rewrite Hp; unfold stage; rewrite Hp;
    destruct mail as [r0 |] eqn:Hr; try done; pose proof (Hall _ eq_refl) as Hfresh; clear Hall.
  all: try (intros [= <-] (Hh & Hs & r1 & Hx & Hc); rewrite Hm in Hx; injection Hx as <-).
  - intros H (Hx & Hs & Hh). rewrite Hm in Hx. injection Hx as ->. rewrite (fr_closed _ _ Hfresh) in H.
    injection H as <-. split; [done |]. split; [done |]. by eexists.
  - split; [done |]. split; [done |]. by exists r.
  - split; [done |]. split; [done |]. eexists. split; [done |]. by apply closing_close.
  - split; [done |]. split; [done |]. by exists r.
  - split; [done |]. split; [done |]. eexists. split; [done |]. by apply closing_close.
  - cbn [set_main set_mail p_phase p_http p_queue p_mail]. rewrite (closing_all _ _ Hfresh Hc). unfold worker_ended.
    by destruct (Relay (cfg srv)).
  - by intros [= <-] (Hh & Hs & Hrel & Hx).
  - intros H (Hh & Hs & Hrel & Hx). case_decide as Hf; [| done]. injection H as <-. split; [done |]. split; [by intros _ |].
    cbn. rewrite Hm in Hx. by injection Hx as ->.
  - intros H (Hh & Hw & Hx). case_decide as Hd; [| done]. by injection H as <-.
Qed.

Lemma stage_step p a p' : pstep p a p' → stage p → stage p'.
Proof.
  intros H. assert (a = Main ∨ a ≠ Main) as [-> | Ha] by (destruct a; auto).
  - inversion H as [q x Hp Hx | q Hp Hx | q q' Hn | | | | |]; subst; [| | by apply stage_next].
    all: unfold stage; rewrite Hp; by intros.
  - by apply stage_beside, (beside_step _ _ _ H).
Qed.

(** ** Reachable states *)






(** ** Infinite runs *)

(** What ends the waiting of [main]: a signal, or the failure of the HTTP server. *)
Definition wakes (a : act) : Prop := a = SignalArrives ∨ ∃ e, a = HttpFails e.

Section Run.
Context (σ : nat → process) (ℓ : nat → act) (Hrun : prun srv others σ ℓ) (Hfair : pfair srv σ ℓ).
Context (Hinit : σ 0%nat = launched mail w0).

Lemma stage_at n : stage (σ n).
Proof. induction n as [| n IH]; [rewrite Hinit; apply stage_launched | by eapply stage_step]. Qed.

Lemma ready_beside p p' : beside p p' → main_ready srv p = true → main_ready srv p' = true.
Proof.
  intros [H1 H2 H3 H4 H5 H6 H7 H8]. unfold main_ready, serve_next. rewrite H1, H2.
  destruct (p_phase p) as [| | | [] | [] | | | | |] eqn:Hp; try done.
  { rewrite !orb_true_iff, !bool_decide_eq_true. naive_solver. }
  all: destruct (p_mail p) as [r |]; [| done]; unfold shutdown_next; rewrite H1, Hp; try done.
  - by destruct (closed r).
  - case_decide as Hf; [| done]. by rewrite decide_True by auto.
  - case_decide as Hd; [| done]. by rewrite decide_True by auto.
Qed.

(** [main] keeps the chance to move until it takes it. *)
Lemma main_moves n : main_ready srv (σ n) = true →
  ∃ m, (n ≤ m)%nat ∧ ℓ m = Main ∧ p_phase (σ m) = p_phase (σ n) ∧ p_mail (σ m) = p_mail (σ n).
Proof.
  intros (m & Hm & Hl)%(pf_main _ _ _ Hfair). remember (m - n)%nat as d eqn:Hd. revert n m Hm Hl Hd.
  induction d as [| d IH]; intros n m Hm Hl Hd; [exists m; by replace n with m by lia |].
  assert (ℓ n = Main ∨ ℓ n ≠ Main) as [Hn | Hn] by (destruct (ℓ n); auto); [by exists n |].
  destruct (IH (S n) m) as (k & Hk & Hlk & Hp & Hq); [lia | done | lia |].
  destruct (beside_step _ _ _ (Hrun n) Hn) as [H1 H2 _ _ _ _ _ _]. exists k. split; [lia |]. rewrite Hp, Hq, H1, H2. done.
Qed.

Lemma main_next n : main_ready srv (σ n) = true → p_phase (σ n) ≠ Awaiting →
  ∃ m, (n ≤ m)%nat ∧ p_phase (σ m) = p_phase (σ n) ∧ serve_next srv (σ m) = Some (σ (S m)).
Proof.
  intros Hr Ha. destruct (main_moves n Hr) as (m & Hm & Hl & Hp & _). exists m. split; [done |]. split; [done |].
  pose proof (Hrun m) as Hst. rewrite Hl in Hst. inversion Hst; congruence.
Qed.

Definition exits (n : nat) : Prop := ∃ m, (n ≤ m)%nat ∧ p_phase (σ m) = Exited.

Lemma exits_later n m : (n ≤ m)%nat → exits m → exits n.
Proof. intros Hm (k & Hk & Hp). exists k. split; [lia | done]. Qed.
Lemma exited n : p_phase (σ n) = Exited → exits n.
Proof. intros Hp. by exists n. Qed.

(** In these stages [main] never waits. *)
Definition blocking (ph : main_phase) : bool :=
  match ph with Awaiting | QueueWait | GroupWait | Exited => true | _ => false end.

Lemma stage_ready p : stage p → blocking (p_phase p) = false → main_ready srv p = true.
Proof.
  unfold stage, main_ready, serve_next, shutdown_next.
  destruct (p_phase p) as [| | | [] | [] | | | | |] eqn:Hp; try done; destruct mail as [r0 |]; try done.
  - intros (-> & _). by destruct (closed r0).
  - by intros (_ & _ & r & -> & _).
  - by intros (_ & _ & r & -> & _).
  - by intros (_ & _ & r & -> & _).
  - by intros (_ & _ & r & -> & _).
  - by intros (_ & _ & r & -> & _).
  - by intros (_ & _ & _ & ->).
Qed.

(** From one stage to the next. *)
Lemma exits_step n (Q : main_phase → Prop) :
  main_ready srv (σ n) = true → p_phase (σ n) ≠ Awaiting →
  (∀ p p', p_phase p = p_phase (σ n) → serve_next srv p = Some p' → Q (p_phase p')) →
  (∀ m, Q (p_phase (σ m)) → exits m) → exits n.
Proof.
  intros Hr Ha Hnext HQ. destruct (main_next n Hr Ha) as (m & Hm & Hp & Hs).
  apply (exits_later n (S m)); [lia |]. eapply HQ, Hnext; [exact Hp | exact Hs].
Qed.

Lemma exits_free n (Q : main_phase → Prop) :
  blocking (p_phase (σ n)) = false →
  (∀ p p', p_phase p = p_phase (σ n) → serve_next srv p = Some p' → Q (p_phase p')) →
  (∀ m, Q (p_phase (σ m)) → exits m) → exits n.
Proof.
  intros Hb. apply exits_step; [apply stage_ready; [apply stage_at | done] |]. intros H. by rewrite H in Hb.
Qed.

(** What follows a stage. *)
Ltac next_phase :=
  let p := fresh "p" in let p' := fresh "p'" in let Hp := fresh "Hp" in let H := fresh "H" in
  intros p p' Hp H; unfold serve_next, http_shutdown, shutdown_next in H;
  match goal with Hph : p_phase (σ _) = _ |- _ => rewrite Hph in Hp end; rewrite ?Hp in H;
  repeat case_match; simplify_eq; cbn; auto.

(** [main] waits for the accept loops; they return because their listeners
    are closed. *)
Lemma group_later n m : (n ≤ m)%nat → p_phase (σ n) = GroupWait →
  exits n ∨ p_phase (σ m) = GroupWait ∧ (length (p_serving (σ m)) ≤ length (p_serving (σ n)))%nat.
Proof.
  intros Hm Hp. induction Hm as [| m Hm IH]; [by right; split |]. destruct IH as [? | [Hpm Hl]]; [by left |].
  pose proof (Hrun m) as Hst. inversion Hst as [q x Ha _ | q Ha _ | q q' Hn | | | | q role e Hin | q l q' _ _ _]; subst; try congruence; try (right; by split).
  - left. apply (exits_later n (S m)); [lia |]. apply exited. unfold serve_next, shutdown_next in Hn. rewrite Hpm in Hn.
    destruct (p_mail (σ m)); [| done]. case_decide; [| done]. by injection Hn as <-.
  - right. split; [done |]. etrans; [apply length_filter | done].
Qed.

Lemma exits_group n : p_phase (σ n) = GroupWait → exits n.
Proof.
  remember (length (p_serving (σ n))) as k eqn:Hk. revert n Hk. induction k as [k IH] using lt_wf_ind. intros n -> Hp.
  pose proof (stage_at n) as Hs. unfold stage in Hs. rewrite Hp in Hs. destruct mail as [r0 |]; [| done].
  destruct Hs as (_ & _ & Hmail). destruct (p_serving (σ n)) as [| role rest] eqn:Hrest.
  - apply (exits_step n (λ ph, ph = Exited)); [| congruence | next_phase | apply exited].
    unfold main_ready, serve_next, shutdown_next. by rewrite Hp, Hmail, decide_True.
  - destruct (pf_accept _ _ _ Hfair n role (shut r0 false)) as (m & e & Hm & Hl); [rewrite Hrest; by left | done | |].
    { apply all_closed_role. cbn. by apply Forall_fmap, Forall_true. }
    destruct (group_later n m Hm Hp) as [? | [Hpm Hlen]]; [done |]. rewrite Hrest in Hlen.
    pose proof (Hrun m) as Hst. rewrite Hl in Hst. inversion Hst as [| | | | | | q role' e' Hin Hq1 Hq2 Hq3 |]; subst.
    apply (exits_later n (S m)); [lia |]. apply (IH (length (p_serving (σ (S m))))); [| done |].
    + rewrite <- Hq3. cbn [accept set_serving p_serving]. eapply Nat.lt_le_trans; [| exact Hlen].
      apply length_filter_lt with role; [done | by intros H].
    + rewrite <- Hq3. done.
Qed.

(** What the queue worker sees of the run. *)
Lemma queue_same q : set_queue_world (q_world q) q = q.
Proof. by destruct q. Qed.

Lemma next_queue p p' : serve_next srv p = Some p' →
  p_queue p' = if decide (p_phase p = QueueStop) then close_stop (p_queue p) else p_queue p.
Proof.
  unfold serve_next, http_shutdown, shutdown_next.
  destruct (p_phase p) as [| | | [] | [] | | | | |] eqn:Hp; intros H; repeat case_match; by simplify_eq.
Qed.

Lemma queue_run :
  Worker.run qdir srv (λ w w', w = w' ∨ others w w') (p_queue ∘ σ) (λ n, queue_label (σ n) (ℓ n)).
Proof.
  intros n. unfold compose. assert (∀ q, Worker.step qdir srv (λ w w', w = w' ∨ others w w') q (Other (q_world q)) q) as Hsame.
  { intros q. pose proof (step_other qdir srv (λ w w', w = w' ∨ others w w') q (q_world q) (or_introl eq_refl)) as H.
    by rewrite queue_same in H. }
  pose proof (stage_at n) as Hs. destruct (Hrun n) as [p x Ha _ | p Ha _ | p p' Hn | p e _ | p | p role r _ _ _ | p role e _ | p l q Hl _ Hq];
    cbn [queue_label]; try apply Hsame.
  - rewrite Ha. apply Hsame.
  - rewrite Ha. apply Hsame.
  - rewrite (next_queue _ _ Hn). case_decide as Hp; [| destruct (p_phase p); try done; apply Hsame].
    rewrite Hp. constructor. unfold stage in Hs. rewrite Hp in Hs. destruct mail; [apply Hs | done].
  - cbn. destruct Hq; constructor; auto.
Qed.

Lemma queue_later n m : (n ≤ m)%nat → p_phase (σ n) = QueueWait → exits n ∨ p_phase (σ m) = QueueWait.
Proof.
  intros Hm Hp. induction Hm as [| m Hm IH]; [by right |]. destruct IH as [? | Hpm]; [by left |].
  pose proof (Hrun m) as Hst. inversion Hst as [q x Ha _ | q Ha _ | q q' Hn | | | | |]; subst; try congruence; try (by right).
  left. apply (exits_later n (S m)); [lia |]. apply exits_group. unfold serve_next, shutdown_next in Hn. rewrite Hpm in Hn.
  destruct (p_mail (σ m)); [| done]. case_decide; [| done]. by injection Hn as <-.
Qed.

Lemma stage_wait p : stage p → p_phase p = QueueWait →
  q_stop (p_queue p) = true ∧ Relay (cfg srv) = true ∧ is_Some mail ∧ is_Some (p_mail p).
Proof.
  unfold stage. intros Hs Hp. rewrite Hp in Hs. destruct mail as [r0 |]; [| done]. destruct Hs as (_ & H1 & H2 & H3).
  repeat (split; [by eauto |]). by eexists.
Qed.

(** [main] waits for the worker; it returns because [stop] is closed. *)
Lemma exits_queue n : p_phase (σ n) = QueueWait → exits n.
Proof.
  intros Hp. destruct (stage_wait _ (stage_at n) Hp) as (Hstop & Hrel & [r0 Hmail] & _).
  assert (runs_queue srv (σ 0%nat) = true) as Hq by (unfold runs_queue; rewrite Hinit; cbn [launched p_mail]; by rewrite Hmail).
  destruct (stop_finishes qdir srv _ _ _ queue_run (pf_queue _ _ _ Hfair Hq) n Hstop (pf_stop _ _ _ Hfair Hq)) as (m & Hm & Hf).
  destruct (queue_later n m Hm Hp) as [? | Hpm]; [done |]. apply (exits_later n m); [done |].
  destruct (stage_wait _ (stage_at m) Hpm) as (_ & _ & _ & [r Hx]).
  apply (exits_step m (λ ph, ph = GroupWait)); [| congruence | clear Hp; next_phase | apply exits_group].
  unfold main_ready, serve_next, shutdown_next. rewrite Hpm, Hx. unfold compose in Hf. by rewrite decide_True.
Qed.

Lemma exits_listeners n : p_phase (σ n) = ListenersClose → exits n.
Proof.
  intros Hp. apply (exits_free n (λ ph, ph = QueueStop ∨ ph = GroupWait)); [by rewrite Hp | next_phase |].
  intros m [Hm | Hm]; [| by apply exits_group].
  apply (exits_free m (λ ph, ph = QueueWait)); [by rewrite Hm | clear Hp; next_phase | apply exits_queue].
Qed.

Lemma exits_imap imaps n : p_phase (σ n) = ImapClose imaps → exits n.
Proof.
  revert n. induction imaps as [| role imaps IH]; intros n Hp.
  - apply (exits_free n (λ ph, ph = ListenersClose)); [by rewrite Hp | next_phase | apply exits_listeners].
  - apply (exits_free n (λ ph, ph = ImapClose imaps)); [by rewrite Hp | next_phase | apply IH].
Qed.

Lemma exits_smtp smtps imaps n : p_phase (σ n) = SmtpShutdown smtps imaps → exits n.
Proof.
  revert n. induction smtps as [| role smtps IH]; intros n Hp.
  - apply (exits_free n (λ ph, ph = ImapClose imaps)); [by rewrite Hp | next_phase | apply exits_imap].
  - apply (exits_free n (λ ph, ph = SmtpShutdown smtps imaps)); [by rewrite Hp | next_phase | apply IH].
Qed.

Lemma exits_shutdown n : p_phase (σ n) = MailShutdown → exits n.
Proof.
  intros Hp. apply (exits_free n (λ ph, ph = Exited ∨ ∃ smtps imaps, ph = SmtpShutdown smtps imaps)); [by rewrite Hp | next_phase; eauto |].
  intros m [Hm | (smtps & imaps & Hm)]; [by apply exited | by eapply exits_smtp].
Qed.

Lemma exits_http n : p_phase (σ n) = HttpShutdown → exits n.
Proof.
  intros Hp. apply (exits_free n (λ ph, ph = Exited ∨ ph = MailShutdown)); [by rewrite Hp | next_phase |].
  intros m [Hm | Hm]; [by apply exited | by apply exits_shutdown].
Qed.

Lemma exits_awaiting n : p_phase (σ n) = Awaiting → main_ready srv (σ n) = true → exits n.
Proof.
  intros Hp Hr. destruct (main_moves n Hr) as (m & Hm & Hl & Hpm & _). apply (exits_later n (S m)); [lia |].
  apply exits_http. pose proof (Hrun m) as Hst. rewrite Hl in Hst. inversion Hst as [| | q q' Hn | | | | |]; try done.
  unfold serve_next in Hn. by rewrite Hpm, Hp in Hn.
Qed.

Lemma exits_from n : p_phase (σ n) ≠ Awaiting ∨ main_ready srv (σ n) = true → exits n.
Proof.
  intros Hr. destruct (p_phase (σ n)) as [| | | smtps imaps | imaps | | | | |] eqn:Hp.
  - destruct Hr; [done |]. by apply exits_awaiting.
  - by apply exits_http.
  - by apply exits_shutdown.
  - by eapply exits_smtp.
  - by eapply exits_imap.
  - by apply exits_listeners.
  - apply (exits_free n (λ ph, ph = QueueWait)); [by rewrite Hp | next_phase | apply exits_queue].
  - by apply exits_queue.
  - by apply exits_group.
  - by apply exited.
Qed.

(** C23: The process ends.  After a signal, or after the HTTP server has
    failed, [main] returns, whatever the connections and the queue do
    meanwhile, as long as the scheduler neglects nobody and accepting on a
    closed listener fails: no goroutine of the wait group and not the queue
    worker can keep it waiting for ever. *)
Theorem process_exits n : wakes (ℓ n) → ∃ m, (n < m)%nat ∧ p_phase (σ m) = Exited.
Proof.
  intros Hl. assert (exits (S n)) as (m & Hm & Hp); [| exists m; split; [lia | done]].
  apply exits_from. destruct (decide (p_phase (σ (S n)) = Awaiting)) as [Ha | Ha]; [right | by left].
  unfold main_ready. rewrite Ha. pose proof (Hrun n) as Hst. destruct Hl as [Hl | [e Hl]]; rewrite Hl in Hst.
  - inversion Hst as [| | | | q Hq1 Hq2 Hq3 | | |]. done.
  - inversion Hst as [| | | q e' Hh Hq1 Hq2 Hq3 | | | |]. cbn. by rewrite orb_true_r.
Qed.

(** ** An accept error is final *)

Definition sessions_of (role : bytes) (p : process) : nat := length (filter (λ r, r = role) (p_sessions p)).

Lemma serving_gone p a p' role : pstep p a p' → role ∉ p_serving p → (role ∉ p_serving p') ∧ sessions_of role p' = sessions_of role p.
Proof.
  intros [q x Ha _ | q Ha _ | q q' Hn | q e _ | q | q role' r Hin _ _ | q role' e _ | q l q' Hl _ Hq] Hr; try done.
  - assert (p_serving q' = p_serving q ∧ p_sessions q' = p_sessions q) as [H1 H2]; [| unfold sessions_of; by rewrite H1, H2].
    revert Hn. unfold serve_next, http_shutdown, shutdown_next. intros H; repeat case_match; by simplify_eq.
  - split; [done |]. unfold sessions_of. cbn [accept p_sessions]. rewrite filter_cons_False; [done |]. by intros ->.
  - split; [| done]. cbn. intros [_ ?]%list_elem_of_filter. done.
Qed.

(** An accept loop takes any error for the end: after one failing [Accept],
    be it a passing shortage of file descriptors, the port never serves a
    connection again, while its listener stays open. *)
Theorem accept_error_is_final n role e m :
  ℓ n = Accept role (Err e) → (n < m)%nat →
  sessions_of role (σ m) = sessions_of role (σ n) ∧
  (p_phase (σ m) = Awaiting → p_mail (σ m) = mail).
Proof.
  intros Hl Hm. split; [| intros Hp; pose proof (stage_at m) as Hs; unfold stage in Hs; rewrite Hp in Hs; by destruct mail; apply Hs].
  assert ((role ∉ p_serving (σ m)) ∧ sessions_of role (σ m) = sessions_of role (σ n)) as [_ H]; [| exact H].
  induction Hm as [| m Hm [IH1 IH2]].
  - pose proof (Hrun n) as Hst. rewrite Hl in Hst. inversion Hst as [| | | | | | q role' e' Hin Hq1 Hq2 Hq3 |]. subst.
    split; [| done]. cbn. intros [? _]%list_elem_of_filter. done.
  - destruct (serving_gone _ _ _ role (Hrun m) IH1) as [H1 H2]. split; [done | by rewrite H2].
Qed.
End Run.

End Spec.

(** ** A round-robin scheduler *)

Lemma can_move_kept_by dir srv others `{UnicodeTables, Acc : Accounts, ErrorText, Zone} q l q' :
  Worker.step dir srv others q l q' → by_worker l = false → can_move q = true → can_move q' = true.
Proof.
  intros [q0 net range _ | q0 c _ _ | q0 | q0 | q0 _ | q0 w _] Hl; try done; unfold can_move; cbn;
    destruct (q_phase q0); try done; by rewrite ?orb_true_r.
Qed.

(** What stays possible until it happens, and happens in one slot of every
    round, happens. *)
Lemma slot_fair (P Q : nat → Prop) k i : (i < k)%nat →
  (∀ n, P n → Q n ∨ P (S n)) → (∀ n, (n mod k = i)%nat → P n → Q n) → ∀ n, P n → ∃ m, (n ≤ m)%nat ∧ Q m.
Proof.
  intros Hi Hkeep Hslot n Hn.
  assert (∀ d n, P n → ((n + d) mod k = i)%nat → ∃ m, (n ≤ m)%nat ∧ Q m) as H.
  { clear n Hn. induction d as [| d IH]; intros n Hn Hd; [exists n; rewrite Nat.add_0_r in Hd; auto |].
    destruct (Hkeep n Hn) as [? | Hn']; [by exists n |]. destruct (IH (S n) Hn') as (m & Hm & HQ); [by rewrite Nat.add_succ_comm |].
    exists m. split; [lia | done]. }
  apply (H (i + (k - n mod k))%nat); [done |]. rewrite Nat.Div0.add_mod by lia.
  pose proof (Nat.mod_upper_bound n k ltac:(lia)) as Hb.
  assert (i + (k - n mod k) = k - n mod k + i)%nat as -> by lia.
  rewrite Nat.Div0.add_mod_idemp_r, Nat.add_assoc. replace (n mod k + (k - n mod k))%nat with k by lia.
  rewrite <- Nat.Div0.add_mod_idemp_l, Nat.Div0.mod_same. by apply Nat.mod_small.
Qed.

Section Scheduler.
Context {U : UnicodeTables} {Acc : Accounts} {Et : ErrorText} {Zo : Zone} (srv : Server) (others : world → world → Prop).
Context (net : network) (range : list (bytes * list bytes) → list (bytes * list bytes)) (roles : list bytes).

Definition closed_role (role : bytes) (p : process) : bool :=
  bool_decide (role ∈ p_serving p) && match p_mail p with Some r => negb (open_role role r) | None => false end.

(** In turn: a signal, [main], the worker, each accept loop. *)
Definition pturn (n : nat) (p : process) : act :=
  match (n mod (3 + length roles))%nat with
  | 0%nat => SignalArrives
  | 1%nat => if main_ready srv p then Main else SignalArrives
  | 2%nat =>
      if runs_queue srv p && can_move (p_queue p) then
        OfQueue (if flushing (q_phase (p_queue p)) then Work net range else Select (first_ready (p_queue p)))
      else SignalArrives
  | S (S (S i)) =>
      match roles !! i with
      | Some role => if closed_role role p then Accept role (Err (ErrText (B "use of closed network connection"))) else SignalArrives
      | None => SignalArrives
      end
  end.
Definition apply_act (a : act) (p : process) : process :=
  match a with
  | Main =>
      match p_phase p with
      | Awaiting => if p_signals p then receive_signal p else receive_failed p
      | _ => default p (serve_next srv p)
      end
  | HttpFails e => http_returns (Some e) p
  | SignalArrives => signal_arrives p
  | Accept role conn => accept role conn p
  | OfQueue l => set_worker (apply_label (QueueDir (cfg srv)) srv l (p_queue p)) p
  end.
Fixpoint pplayed (p : process) (n : nat) : process :=
  match n with O => p | S n => let p := pplayed p n in apply_act (pturn n p) p end.
Definition pplays (p : process) (n : nat) : act := pturn n (pplayed p n).

Lemma main_played p : main_ready srv p = true → pstep srv others p Main (apply_act Main p).
Proof.
  unfold main_ready, apply_act. destruct (p_phase p) eqn:Hp.
  { destruct (p_signals p) eqn:Hs; [by intros _; constructor |]. intros Hf%bool_decide_eq_true.
    destruct (p_failed p) as [x |] eqn:Hx; [by econstructor | done]. }
  all: intros Hn%bool_decide_eq_true; destruct (serve_next srv p) as [p' |] eqn:Hs; [by constructor | done].
Qed.

Lemma pplayed_run p : prun srv others (pplayed p) (pplays p).
Proof.
  intros n. cbn [pplayed]. unfold pplays. set (q := pplayed p n). unfold pturn.
  destruct (n mod (3 + length roles))%nat as [| [| [| i]]]; [constructor | | |].
  - destruct (main_ready srv q) eqn:Hr; [by apply main_played | constructor].
  - destruct (runs_queue srv q && can_move (p_queue q)) eqn:Hc; [| constructor]. apply andb_true_iff in Hc as [Hq Hc].
    destruct (flushing (q_phase (p_queue q))) eqn:Hf; apply ps_queue; try done; [by constructor |].
    unfold can_move in Hc. rewrite Hf in Hc. simpl in Hc. constructor; [by destruct (q_phase (p_queue q)) |].
    destruct (q_phase (p_queue q)); try done. unfold first_ready, ready. destruct (q_stop (p_queue q)), (q_wake (p_queue q)), (q_tick (p_queue q)); done.
  - destruct (roles !! i) as [role |]; [| constructor]. destruct (closed_role role q) eqn:Hc; [| constructor].
    apply andb_true_iff in Hc as [Hr%bool_decide_eq_true _]. by constructor.
Qed.
Lemma open_role_with role r (f : listener → listener) :
  (∀ l, l_role (f l) = l_role l) → (∀ l, l_open (f l) = true → l_open l = true) →
  open_role role r = false → existsb (λ l, is_role role l && l_open l) (f <$> listeners r) = false.
Proof.
  intros Hrole Hopen. unfold open_role. induction (listeners r) as [| l ls IH]; [done |]. cbn [existsb fmap list_fmap].
  rewrite !orb_false_iff. intros [Hl Hls]. split; [| by apply IH]. unfold is_role in *. rewrite Hrole.
  apply andb_false_iff in Hl as [-> | Hl]; [done |]. apply andb_false_iff. right.
  destruct (l_open (f l)) eqn:Hf; [| done]. apply Hopen in Hf. congruence.
Qed.

Lemma shutdown_next_closed role r p p' : p_mail p = Some r → shutdown_next srv r p = Some p' → open_role role r = false →
  p_serving p' = p_serving p ∧ ∃ r', p_mail p' = Some r' ∧ open_role role r' = false.
Proof.
  intros Hm H Ho.
  assert (open_role role (with_closed r) = false ∧ open_role role (close_all r) = false ∧ open_role role (queue_done r) = false ∧
    ∀ x, open_role role (close_server x r) = false) as (H1 & H2 & H3 & H4).
  { split; [exact Ho |]. split; [by apply open_role_with |]. split; [exact Ho |]. intros x.
    apply open_role_with; [| | exact Ho]; intros l; by destruct (is_role x l). }
  unfold shutdown_next in H. destruct (p_phase p) as [| | | [| ? ?] | [| ? ?] | | | | |]; try done.
  1: destruct (closed r).
  all: try case_decide; try done; injection H as <-; split; try done; eexists; by split; [exact Hm || reflexivity |].
Qed.

Lemma closed_role_next role p p' : serve_next srv p = Some p' → closed_role role p = true → closed_role role p' = true.
Proof.
  unfold closed_role. intros H [Hs Ho]%andb_true_iff. destruct (p_mail p) as [r |] eqn:Hm; [| done].
  apply negb_true_iff in Ho. unfold serve_next in H. rewrite Hm in H.
  assert (shutdown_next srv r p = Some p' ∨ p' = http_shutdown p) as [Hn | ->].
  { destruct (p_phase p); try done; [right | left ..]; try done. by injection H as <-. }
  - destruct (shutdown_next_closed role r p p' Hm Hn Ho) as (-> & r' & -> & ->). by rewrite Hs.
  - unfold http_shutdown. destruct (p_http p); cbn; by rewrite Hm, Ho, Hs.
Qed.

(** ** It is fair *)

Section Fair.
Context {K : KeyParsers} {So : Sockets} (config : Config) (dataDir : path) (raw : result bytes) (mail : option running) (w0 : world).
Context (Hstart : startMail config dataDir raw = Ok ((λ r, (srv, r)) <$> mail)) (Hroles : roles = p_serving (launched mail w0)).

Abbreviation σ := (pplayed (launched mail w0)).
Abbreviation ℓ := (pplays (launched mail w0)).

Lemma serving_roles n role : role ∈ p_serving (σ n) → role ∈ roles.
Proof.
  induction n as [| n IH]; [by rewrite Hroles |]. intros Hr. apply IH. revert Hr.
  destruct (pplayed_run (launched mail w0) n) as [q x Ha _ | q Ha _ | q q' Hn | q e _ | q | q role' r Hin _ _ | q role' e _ | q l q' Hl _ Hq]; try done.
  - assert (p_serving q' = p_serving q) as ->; [| done].
    revert Hn. unfold serve_next, http_shutdown, shutdown_next. intros H; repeat case_match; by simplify_eq.
  - cbn. by intros [_ ?]%list_elem_of_filter.
Qed.

Lemma closed_role_kept role n : closed_role role (σ n) = true → (∃ e, ℓ n = Accept role (Err e)) ∨ closed_role role (σ (S n)) = true.
Proof.
  destruct (pplayed_run (launched mail w0) n) as [q x Ha _ | q Ha _ | q q' Hn | q e _ | q | q role' r Hin _ _ | q role' e _ | q l q' Hl _ Hq]; try (by right).
  - right. by eapply closed_role_next.
  - intros Hc. destruct (decide (role = role')) as [-> | Hne]; [left; by eexists | right].
    unfold closed_role in *. cbn [accept set_serving p_serving p_mail].
    apply andb_true_iff in Hc as [Hin%bool_decide_eq_true Ho]. apply andb_true_iff. split; [| done].
    apply bool_decide_eq_true, list_elem_of_filter. done.
Qed.

Lemma runs_queue_all n : runs_queue srv (σ n) = runs_queue srv (σ 0%nat).
Proof.
  induction n as [| n IH]; [done |]. rewrite <- IH.
  destruct (pplayed_run (launched mail w0) n) as [q x Ha _ | q Ha _ | q q' Hn | q e _ | q | q role' r Hin _ _ | q role' e _ | q l q' Hl _ Hq]; try done.
  unfold runs_queue. destruct q as [ph h f s mr sv ss qu]. revert Hn. unfold serve_next, http_shutdown, shutdown_next. cbn [p_phase p_mail p_http].
  destruct ph as [| | | [| ? ?] | [| ? ?] | | | | |]; try done; [by destruct h, mr as [r |]; intros [= <-] |..].
  all: destruct mr as [r |]; [| done]; intros H; repeat case_match; by simplify_eq.
Qed.

Lemma queue_played : Worker.run (QueueDir (cfg srv)) srv (λ w w', w = w' ∨ others w w') (p_queue ∘ σ) (λ n, queue_label (σ n) (ℓ n)).
Proof. by eapply (queue_run config dataDir raw srv others mail w0 Hstart); [apply pplayed_run |]. Qed.

Lemma pplayed_fair : pfair srv σ ℓ.
Proof.
  split.
  - intros n. apply (slot_fair (λ n, main_ready srv (σ n) = true) (λ n, ℓ n = Main) (3 + length roles) 1); [lia | |].
    + intros m Hm. assert (ℓ m = Main ∨ ℓ m ≠ Main) as [? | Hl] by (destruct (ℓ m); auto); [by left | right].
      eapply ready_beside; [| exact Hm]. eapply beside_step; [apply pplayed_run | exact Hl].
    + intros m Hm Hr. unfold pplays, pturn. by rewrite Hm, Hr.
  - intros n role r Hin Hmail Ho.
    pose proof (serving_roles n role Hin) as [i Hi]%list_elem_of_lookup_1.
    destruct (slot_fair (λ n, closed_role role (σ n) = true) (λ n, ∃ e, ℓ n = Accept role (Err e)) (3 + length roles) (3 + i)) with (n := n)
      as (m & Hm & e & Hl).
    + apply lookup_lt_Some in Hi. lia.
    + intros m. apply closed_role_kept.
    + intros m Hm Hc. unfold pplays, pturn. rewrite Hm. cbn [Nat.add]. rewrite Hi, Hc. by eexists.
    + unfold closed_role. by rewrite bool_decide_true, Hmail, Ho.
    + by exists m, e.
  - intros Hq n. apply (slot_fair (λ n, can_move (p_queue (σ n)) = true) (λ n, by_worker (queue_label (σ n) (ℓ n)) = true) (3 + length roles) 2); [lia | |].
    + intros m Hm. destruct (by_worker (queue_label (σ m) (ℓ m))) eqn:Hb; [by left | right].
      eapply can_move_kept_by; [apply queue_played | exact Hb | exact Hm].
    + intros m Hm Hc. unfold pplays, pturn. rewrite Hm, runs_queue_all, Hq, Hc. cbn. by destruct (flushing _).
  - intros Hq n Hs Hsel. destruct (decide (q_phase (p_queue (σ n)) = Finished)) as [Hf | Hf]; [exists n; by split; [| right] |].
    destruct (Hsel n ltac:(lia) Hf) as (k & c & Hk & Hl). exists k. split; [done | left]. rewrite Hl. f_equal.
    pose proof (stopped _ _ _ _ _ queue_played n Hs k Hk) as Hst. unfold compose in Hst.
    revert Hl. unfold pplays, pturn. destruct (k mod (3 + length roles))%nat as [| [| [| i]]]; try done.
    + destruct (main_ready srv (σ k)); [| done]. cbn. by destruct (p_phase (σ k)).
    + destruct (_ && _); [| done]. destruct (flushing _); [done |]. cbn. intros [= <-]. unfold first_ready. by rewrite Hst.
    + destruct (roles !! i) as [role |]; [| done]. by destruct (closed_role role (σ k)).
Qed.
End Fair.
End Scheduler.

(** ** The server of the fixtures, from start to end *)

From S2P Require Import Fixtures MailFixtures ServerFixtures ServiceSpec.

Definition up : running :=
  match startMail mail_config [B "data"] (Err os_ErrNotExist) with Ok (Some (_, r)) => r | _ => not_started end.

Lemma up_launched : startMail mail_config [B "data"] (Err os_ErrNotExist) = Ok ((λ r, (queue_server, r)) <$> Some up).
Proof. vm_compute. reflexivity. Qed.

(** Four ports, without a certificate. *)
Definition up_roles : list bytes := [B "smtp"; B "submission"; B "pop3"; B "imap"].

Lemma up_serving : up_roles = p_serving (launched (Some up) queue_world).
Proof. vm_compute. reflexivity. Qed.

Abbreviation up_played := (pplayed queue_server busy_network as_is up_roles (launched (Some up) queue_world)).


Lemma up_fair : pfair queue_server up_played (pplays queue_server busy_network as_is up_roles (launched (Some up) queue_world)).
Proof. eapply (pplayed_fair queue_server (λ _ _, False)); [exact up_launched | exact up_serving]. Qed.



Lemma process_exits_witness : ∃ m, (0 < m)%nat ∧ p_phase (up_played m) = Exited.
Proof.
  apply (process_exits mail_config [B "data"] (Err os_ErrNotExist) queue_server (λ _ _, False) (Some up) queue_world up_launched
    up_played _ (pplayed_run _ _ _ _ _ _) up_fair eq_refl 0). left. reflexivity.
Defined.
