(* ===== verification/Smtp.v ===== *)
(** * Smtp: the SMTP sessions ([mail/smtp.go])

    One session type serves both roles: the exchanger that takes mail from the
    internet, and submission.  The protocol engine, the SASL mechanism PLAIN,
    header parsing and DKIM belong to libraries and are parameters; the engine
    calls the methods below. *)

From S2P Require Import Prelude GoStrings Strconv World Accounts Flags MailStore Token Config GoNet MailServer Relay.

(** The error values and mechanism names of the protocol libraries. *)
Class SmtpLibrary := {
  ErrAuthRequired : error;
  ErrAuthUnsupported : error;
  ErrAuthFailed : error;
  ErrAuthUnknownMechanism : error;
  sasl_Plain : bytes;
  sasl_Login : bytes;
}.

(** Headers: which fields a message has, when its header parses; and DKIM
    signatures, which depend on the time. *)
Class MessageLibrary := {
  ReadHeader : bytes → option (bytes → bool);
  dkim_Sign : Z → bytes → bytes → private_key → bytes → result bytes;
}.

Record smtpRecipient := SmtpRecipient { r_addr : bytes; r_account : option Account }.

(** What the session sees of its connection: the name the client gave, the
    peer's address if there is a connection, and whether it is encrypted. *)
Record smtpConn := SmtpConn { c_Hostname : bytes; RemoteAddr : option bytes; TLSConnectionState : bool }.

Record smtpSession := SmtpSession {
  submission : bool;
  conn : smtpConn;
  s_account : option Account;
  s_from : bytes;
  s_rcpts : list smtpRecipient;
  s_world : world;
}.

Abbreviation Ses := (ST smtpSession).

Definition set_account (a : Account) (s : smtpSession) : smtpSession :=
  SmtpSession (submission s) (conn s) (Some a) (s_from s) (s_rcpts s) (s_world s).
Definition set_message (from : bytes) (rcpts : list smtpRecipient) (s : smtpSession) : smtpSession :=
  SmtpSession (submission s) (conn s) (s_account s) from rcpts (s_world s).
Definition set_world (w : world) (s : smtpSession) : smtpSession :=
  SmtpSession (submission s) (conn s) (s_account s) (s_from s) (s_rcpts s) w.

(** A call into the store, the accounts or the queue. *)
Definition on_world {A} (m : M A) : Ses A := λ s, let '(a, w) := m (s_world s) in (a, set_world w s).

(** ** Line endings *)

(** The loop; [prev] is the byte before. *)
Fixpoint normalise (prev : option ascii) (raw : bytes) : bytes :=
  match raw with
  | [] => []
  | c :: raw =>
      (if bool_decide (c = chr 10) && negb (bool_decide (prev = Some (chr 13))) then [chr 13; chr 10] else [c])
      ++ normalise (Some c) raw
  end.
Definition normaliseLineEndings (raw : bytes) : bytes :=
  if ContainsByte raw (chr 10) then normalise None raw else raw.

(** ** SASL LOGIN *)

Record loginServer := LoginServer { username : bytes; step : Z }.
Definition newLoginServer : loginServer := LoginServer [] 0.

Definition helo (name : bytes) : bytes := if decide (name = []) then B "unknown" else name.

Section Session.
Context {U : UnicodeTables} {Acc : Accounts} {Zo : Zone} {Sl : SmtpLibrary} {Ml : MessageLibrary} (srv : Server).

Definition NewSession (submission : bool) (conn : smtpConn) (w : world) : smtpSession :=
  SmtpSession submission conn None [] [] w.

Definition Reset : Ses unit := modify (set_message [] []).

Definition Logout : Ses (option error) := mret None.

Definition AuthMechanisms (s : smtpSession) : list bytes :=
  if negb (submission s) then [] else [sasl_Plain; sasl_Login].

(** The mechanisms that [Auth] hands to the engine. *)
Inductive sasl_Server := PlainServer | LoginMechanism (l : loginServer).

Definition Auth (mech : bytes) (s : smtpSession) : result sasl_Server :=
  if negb (submission s) then Err ErrAuthUnsupported
  else if decide (mech = sasl_Plain) then Ok PlainServer
  else if decide (mech = sasl_Login) then Ok (LoginMechanism newLoginServer)
  else Err ErrAuthUnknownMechanism.

(** [authenticate]; no error is success. *)
Definition authenticate (username password : bytes) : Ses (option error) :=
  r ← on_world (mail_login srv username password);
  match r with
  | None => mret (Some ErrAuthFailed)
  | Some account => _ ← modify (set_account account); mret None
  end.

(** The callback of PLAIN. *)
Definition plain_authenticate (authzid username password : bytes) : Ses (option error) :=
  if decide (authzid ≠ [] ∧ authzid ≠ username) then mret (Some ErrAuthFailed)
  else authenticate username password.

(** [loginServer.Next]: the server afterwards, and a challenge with [done], or
    an error. *)
Definition Next (l : loginServer) (response : option bytes) : Ses (loginServer * (error + bytes * bool)) :=
  if step l =? 0 then
    match response with
    | None => mret (l, inr (B "Username:", false))
    | Some response => mret (LoginServer response 1, inr (B "Password:", false))
    end
  else if step l =? 1 then
    r ← authenticate (username l) (default [] response);
    match r with
    | Some e => mret (l, inl e)
    | None => mret (LoginServer (username l) 2, inr ([], true))
    end
  else mret (l, inl (ErrText (B "mail: unexpected SASL LOGIN state"))).

Definition remoteIP (s : smtpSession) : bytes :=
  match RemoteAddr (conn s) with
  | None => B "[unknown]"
  | Some addr =>
      match SplitHostPort addr with
      | Some (host, _) => B "[" ++ host ++ B "]"
      | None => B "[" ++ addr ++ B "]"
      end
  end.

(** ** The mail transaction *)

Definition Mail (from : bytes) : Ses (option error) :=
  s ← gets (λ s, s);
  if submission s then
    match s_account s with
    | None => mret (Some ErrAuthRequired)
    | Some account =>
        let owned := Address account (Domain (cfg srv)) in
        if negb (EqualFold from owned) then
          mret (Some (SMTPError 550 (5, 7, 1) (B "Sender must be " ++ owned)))
        else _ ← modify (set_message from []); mret None
    end
  else _ ← modify (set_message from []); mret None.

Definition add_rcpt (r : smtpRecipient) : Ses unit :=
  modify (λ s, set_message (s_from s) (s_rcpts s ++ [r]) s).

Definition Rcpt (to : bytes) : Ses (option error) :=
  match SplitAddress to with
  | None => mret (Some (SMTPError 501 (5, 1, 3) (B "Malformed recipient address")))
  | Some (local, domain) =>
      if local_domain srv domain then
        r ← on_world (accounts_FindByID local);
        match r with
        | None => mret (Some (SMTPError 550 (5, 1, 1) (B "No such user here")))
        | Some account => _ ← add_rcpt (SmtpRecipient to (Some account)); mret None
        end
      else
        s ← gets (λ s, s);
        if negb (submission s) || bool_decide (s_account s = None) then
          mret (Some (SMTPError 550 (5, 7, 1) (B "Relay access denied")))
        else if negb (Relay (cfg srv)) then
          mret (Some (SMTPError 550 (5, 7, 1) (B "Relaying is disabled on this server")))
        else _ ← add_rcpt (SmtpRecipient to None); mret None
  end.

Definition date_line (now : Z) : bytes := B "Date: " ++ Format_RFC1123Z (zone_offset now) now ++ [chr 13; chr 10].
Definition id_line (id : bytes) : bytes := B "Message-ID: <" ++ id ++ B "@" ++ Domain (cfg srv) ++ B ">" ++ [chr 13; chr 10].
Definition from_line (a : Account) : bytes := B "From: <" ++ Address a (Domain (cfg srv)) ++ B ">" ++ [chr 13; chr 10].

Definition stampSubmission (raw : bytes) : Ses bytes :=
  match ReadHeader raw with
  | None => mret raw
  | Some has =>
      now ← on_world Now;
      let date := if has (B "Date") then [] else date_line now in
      mid ← (if has (B "Message-ID") then mret [] else id ← on_world (randomID 16); mret (id_line id));
      s ← gets (λ s, s);
      let from := match s_account s with
                  | Some a => if has (B "From") then [] else from_line a
                  | None => []
                  end in
      let extra := date ++ mid ++ from in
      if decide (extra = []) then mret raw else mret (extra ++ raw)
  end.

(** [s.sign] of the server; the error of [dkim.Sign] comes with the message
    as it was. *)
Definition sign (raw : bytes) : M (result bytes) :=
  match dkim srv with
  | None => mret (Ok raw)
  | Some key => now ← Now; mret (dkim_Sign now (DKIMDomain (cfg srv)) (DKIMSelector (cfg srv)) key raw)
  end.

Definition protocol (s : smtpSession) : bytes :=
  (if submission s then B "ESMTPA" else B "SMTP") ++ (if TLSConnectionState (conn s) then B "S" else []).

(** The text of [received] for an identifier and a time. *)
Definition trace (s : smtpSession) (rcpt id : bytes) (now : Z) : bytes :=
  B "Received: from " ++ helo (c_Hostname (conn s)) ++ B " (" ++ remoteIP s ++ B ")" ++ [chr 13; chr 10; chr 9] ++
  B "by " ++ Hostname (cfg srv) ++ B " with " ++ protocol s ++ B " id " ++ id ++ [chr 13; chr 10] ++
  (if decide (rcpt = []) then [chr 9] else [chr 9] ++ B "for <" ++ rcpt ++ B ">") ++
  B "; " ++ Format_RFC1123Z (zone_offset now) now ++ [chr 13; chr 10].

Definition received (rcpt : bytes) : Ses bytes :=
  id ← on_world (randomID 8);
  now ← on_world Now;
  s ← gets (λ s, s);
  mret (trace s rcpt id now).

(** ** The message *)

(** A reader: the bytes it yields, and the error that ends it if it is not
    the end of the file; and [io.ReadAll] of its first [limit] bytes. *)
Record reader := Reader { r_bytes : bytes; r_err : option error }.
Definition ReadAll_limited (r : reader) (limit : Z) : result bytes :=
  if limit <=? 0 then Ok []
  else if limit <=? Z.of_nat (length (r_bytes r)) then Ok (take (Z.to_nat limit) (r_bytes r))
  else match r_err r with None => Ok (r_bytes r) | Some e => Err e end.

(** The loop over the recipients: the remote ones, and the last error of a
    local delivery. *)
Fixpoint deliver (raw : bytes) (rcpts : list smtpRecipient) (remote : list bytes) (localErr : option error) :
    Ses (list bytes * option error) :=
  match rcpts with
  | [] => mret (remote, localErr)
  | rcpt :: rcpts =>
      header ← received (r_addr rcpt);
      let message := header ++ raw in
      match r_account rcpt with
      | None => deliver raw rcpts (remote ++ [r_addr rcpt]) localErr
      | Some account =>
          now ← on_world Now;
          r ← on_world (Append (acc_UID account) Inbox [] now message);
          match r with
          | Err e => deliver raw rcpts remote (Some e)
          | Ok _ => deliver raw rcpts remote localErr
          end
      end
  end.

(** The message a submission client sent, stamped and signed. *)
Definition prepare (raw : bytes) : Ses bytes :=
  s ← gets (λ s, s);
  if submission s then
    raw ← stampSubmission raw;
    signed ← on_world (sign raw);
    mret (match signed with Ok signed => signed | Err _ => raw end)
  else mret raw.

Definition Data (r : reader) : Ses (option error) :=
  s ← gets (λ s, s);
  if decide (s_rcpts s = []) then mret (Some (SMTPError 554 (5, 5, 1) (B "No valid recipients")))
  else
    let limit := MaxMessageBytes (cfg srv) in
    match ReadAll_limited r (int64 (limit + 1)) with
    | Err e => mret (Some e)
    | Ok raw =>
        if limit <? Z.of_nat (length raw) then
          mret (Some (SMTPError 552 (5, 3, 4) (B "Message exceeds " ++ FormatInt limit ++ B " bytes")))
        else
          raw ← prepare (normaliseLineEndings raw);
          d ← deliver raw (s_rcpts s) [] None;
          let '(remote, localErr) := d in
          let finish := match localErr with
                        | Some _ => mret (Some (SMTPError 451 (4, 3, 0) (B "Could not store message")))
                        | None => mret None
                        end in
          if decide (remote = []) then finish
          else
            header ← received [];
            q ← on_world (enqueue (QueueDir (cfg srv)) (s_from s) remote (header ++ raw));
            match q with
            | Err _ => mret (Some (SMTPError 451 (4, 3, 0) (B "Could not queue message for delivery")))
            | Ok _ => finish
            end
    end.

(** ** What the engine calls *)

(** A client that authenticates: what it says under PLAIN, and its replies
    under LOGIN. *)
Record sasl_client := SaslClient { cl_plain : bytes * bytes * bytes; cl_login : list (option bytes) }.

Inductive smtp_event :=
| EvAuth (mech : bytes) (client : sasl_client)
| EvMail (from : bytes)
| EvRcpt (to : bytes)
| EvData (r : reader)
| EvReset
| EvLogout.

(** A LOGIN exchange: the engine passes replies on until the mechanism is done
    or fails; when the client gives up, authentication failed. *)
Fixpoint login_exchange (l : loginServer) (responses : list (option bytes)) : Ses (option error) :=
  match responses with
  | [] => mret (Some ErrAuthFailed)
  | response :: responses =>
      r ← Next l response;
      match r with
      | (_, inl e) => mret (Some e)
      | (_, inr (_, true)) => mret None
      | (l, inr (_, false)) => login_exchange l responses
      end
  end.

Definition smtp_handle (e : smtp_event) : Ses (option error) :=
  s ← gets (λ s, s);
  match e with
  | EvAuth mech client =>
      match Auth mech s with
      | Err e => mret (Some e)
      | Ok PlainServer => let '(authzid, username, password) := cl_plain client in plain_authenticate authzid username password
      | Ok (LoginMechanism l) => login_exchange l (cl_login client)
      end
  | EvMail from => Mail from
  | EvRcpt to => Rcpt to
  | EvData r => Data r
  | EvReset => _ ← Reset; mret None
  | EvLogout => Logout
  end.

End Session.
