(* ===== verification/SmtpFacts.v ===== *)
(** * SmtpFacts: the SMTP sessions step by step

    Line endings, the loop over the recipients, and what a session leaves
    alone. *)

From S2P Require Import Prelude GoStrings Strconv World WorldFacts Accounts AccountsFacts Flags MailStore.
From S2P Require Import MailNames MailFacts MailFixtures Token Config GoNet MailServer Relay RelayFacts Smtp.

(** ** Line endings *)

Definition LF : ascii := chr 10.
Definition CR : ascii := chr 13.

(** The reference: every line but the last ends in CR LF, whatever it ended
    in before. *)
Fixpoint crlf_join (lines : list bytes) : bytes :=
  match lines with
  | [] => []
  | [l] => l
  | l :: lines => TrimSuffix l [CR] ++ [CR; LF] ++ crlf_join lines
  end.

(** No LF without a CR before it. *)
Definition no_bare_lf (s : bytes) : Prop := ∀ a b, s = a ++ LF :: b → last a = Some CR.

(** The last byte of [s], [prev] being the byte before [s]. *)
Definition last_from (prev : option ascii) (s : bytes) : option ascii :=
  match last s with Some c => Some c | None => prev end.

Lemma last_from_cons prev c s : last_from prev (c :: s) = last_from (Some c) s.
Proof. unfold last_from. rewrite last_cons. by destruct (last s). Qed.

Fixpoint glue (prev : option ascii) (lines : list bytes) : bytes :=
  match lines with
  | [] => []
  | [l] => l
  | l :: lines => l ++ (if decide (last_from prev l = Some CR) then [LF] else [CR; LF]) ++ glue (Some LF) lines
  end.

Lemma glue_cons prev c l lines : glue prev ((c :: l) :: lines) = c :: glue (Some c) (l :: lines).
Proof. destruct lines as [| l' lines]; [done |]. simpl. by rewrite last_from_cons. Qed.

Lemma glue_nil prev l lines :
  glue prev ([] :: l :: lines) = (if decide (prev = Some CR) then [LF] else [CR; LF]) ++ glue (Some LF) (l :: lines).
Proof. done. Qed.

Lemma normalise_glue prev raw : normalise prev raw = glue prev (Split raw LF).
Proof.
  revert prev. induction raw as [| c raw IH]; intros prev; [done |]. cbn [normalise Split]. rewrite IH.
  fold LF CR. destruct (Split raw LF) as [| l lines] eqn:E; [by apply Split_nonempty in E |].
  destruct (decide (c = LF)) as [-> | Hc].
  - rewrite bool_decide_eq_true_2, glue_nil by done. simpl andb.
    destruct (decide (prev = Some CR)) as [-> | Hp]; [done |]. rewrite bool_decide_eq_false_2 by done. done.
  - rewrite bool_decide_eq_false_2 by done. simpl andb. by rewrite glue_cons.
Qed.

Lemma TrimSuffix_CR l :
  TrimSuffix l [CR] ++ [CR; LF] = l ++ (if decide (last l = Some CR) then [LF] else [CR; LF]).
Proof.
  unfold TrimSuffix, HasSuffix. destruct l as [| c l _] using rev_ind; [done |].
  rewrite last_snoc, length_app. simpl length. rewrite Nat.add_sub, drop_app_length, take_app_length.
  destruct (decide (Some c = Some CR)) as [[= ->] | Hc].
  - rewrite bool_decide_eq_true_2 by done. by rewrite <- app_assoc.
  - rewrite bool_decide_eq_false_2 by congruence. done.
Qed.

Lemma glue_crlf lines : glue (Some LF) lines = crlf_join lines ∧ glue None lines = crlf_join lines.
Proof.
  induction lines as [| l [| l' lines] [IH _]]; [done | done |].
  assert (∀ prev, prev ≠ Some CR → glue prev (l :: l' :: lines) = crlf_join (l :: l' :: lines)) as H; [| by split; apply H].
  intros prev Hp. change (glue prev (l :: l' :: lines)) with
    (l ++ (if decide (last_from prev l = Some CR) then [LF] else [CR; LF]) ++ glue (Some LF) (l' :: lines)).
  change (crlf_join (l :: l' :: lines)) with (TrimSuffix l [CR] ++ [CR; LF] ++ crlf_join (l' :: lines)).
  rewrite !app_assoc, TrimSuffix_CR, IH. f_equal. f_equal. unfold last_from.
  destruct (last l) as [c |]; [done |]. by destruct (decide (prev = Some CR)).
Qed.

Lemma crlf_join_id raw : LF ∉ raw → crlf_join (Split raw LF) = raw.
Proof. intros H. by rewrite Split_no_sep. Qed.

Lemma normaliseLineEndings_eq raw : normaliseLineEndings raw = crlf_join (Split raw LF).
Proof.
  unfold normaliseLineEndings, ContainsByte. fold LF. case_bool_decide as H.
  - rewrite normalise_glue. apply glue_crlf.
  - by rewrite crlf_join_id.
Qed.

(** Every LF of [s] has a CR before it, [prev] being the byte before [s]. *)
Fixpoint wired (prev : option ascii) (s : bytes) : Prop :=
  match s with
  | [] => True
  | c :: s => (c = LF → prev = Some CR) ∧ wired (Some c) s
  end.

Lemma wired_spec prev s : wired prev s ↔ ∀ a b, s = a ++ LF :: b → last_from prev a = Some CR.
Proof.
  revert prev. induction s as [| c s IH]; intros prev; simpl; [split; [by intros _ [] | done] |]. rewrite IH. split.
  - intros [Hc Hs] [| x a] b Heq; simplify_eq/=; [by apply Hc |]. rewrite last_from_cons. by eapply Hs.
  - intros H. split; [intros ->; by apply (H [] s) |]. intros a b ->. rewrite <- (last_from_cons prev). by eapply (H (c :: a)).
Qed.

Lemma no_bare_lf_wired s : no_bare_lf s ↔ wired None s.
Proof.
  rewrite wired_spec. unfold no_bare_lf, last_from. split; intros H a b Hs; specialize (H a b Hs);
    by destruct (last a).
Qed.

Lemma normalise_wired prev raw : wired prev (normalise prev raw).
Proof.
  revert prev. induction raw as [| c raw IH]; intros prev; [done |]. cbn [normalise]. fold LF CR.
  case_bool_decide as Hc; [| simpl; by split]. case_bool_decide as Hp; simpl; [by split |]. subst c. by repeat split.
Qed.

Lemma wired_normalise prev s : wired prev s → normalise prev s = s.
Proof.
  revert prev. induction s as [| c s IH]; intros prev; [done |]. cbn [normalise wired]. fold LF CR. intros [Hc Hs].
  case_bool_decide as Hl; [rewrite bool_decide_eq_true_2 by auto |]; simpl; f_equal; by apply IH.
Qed.

Lemma no_LF_wired prev s : LF ∉ s → wired prev s.
Proof. intros H. apply wired_spec. intros a b ->. set_solver. Qed.

Lemma normalised_no_bare_lf raw : no_bare_lf (normaliseLineEndings raw).
Proof.
  rewrite no_bare_lf_wired. unfold normaliseLineEndings, ContainsByte. fold LF.
  case_bool_decide; [apply normalise_wired | by apply no_LF_wired].
Qed.

Lemma normalise_no_bare_lf s : no_bare_lf s → normaliseLineEndings s = s.
Proof.
  rewrite no_bare_lf_wired. unfold normaliseLineEndings. intros H. destruct (ContainsByte _ _); [by apply wired_normalise | done].
Qed.

(** ** Accounts are only read *)

(** A look-up never changes the file tree. *)
Class QuietAccounts (Acc : Accounts) := {
  FindByID_quiet id w r w' : accounts_FindByID id w = (r, w') → w_fs w' = w_fs w;
  Authenticate_quiet q p w r w' : accounts_Authenticate q p w = (r, w') → w_fs w' = w_fs w;
}.

Lemma load_entries_tree s es w r w' : load_entries s es w = (r, w') → w_fs w' = w_fs w.
Proof.
  revert w r w'. induction es as [| [name isdir] es IH]; intros w r w' H; simpl in H; [by st_inv |].
  destruct isdir; simpl in H; [| by eapply IH].
  apply st_bind_inv in H as (x & w1 & Hx & H). apply os_ReadFile_inv in Hx as [(Hf & _) _].
  rewrite <- Hf. destruct x as [c | e]; [| destruct e; try (by st_inv); by eapply IH].
  destruct (decode_user c); [| by st_inv].
  apply try_bind_inv in H as [(us & w2 & Hl & H) | (e & Hl & _)]; apply IH in Hl; by st_inv.
Qed.

Lemma loadUsers_tree s w r w' : loadUsers s w = (r, w') → w_fs w' = w_fs w.
Proof.
  unfold loadUsers. intros (x & w1 & Hx & H)%st_bind_inv. apply os_ReadDir_inv in Hx as [(Hf & _) _]. rewrite <- Hf.
  destruct x as [es | e]; [by eapply load_entries_tree | destruct e; by st_inv].
Qed.

#[export] Instance UserStore_quiet {U : UnicodeTables} {Bc : Bcrypt} (s : UserStore) : QuietAccounts (UserStore_accounts s).
Proof.
  split; cbn [accounts_FindByID accounts_Authenticate UserStore_accounts].
  - intros id w r w'. unfold FindByID. intros (x & w1 & Hx & H)%st_bind_inv. apply loadUsers_tree in Hx. by st_inv.
  - intros q p w r w'. unfold Authenticate, verifyPassword. intros H. st_inv. by eapply loadUsers_tree.
Defined.

(** ** Directories apart *)

Section Apart.
Context {U : UnicodeTables} {Acc : Accounts} {Laws : AccountsLaws Acc}.

Lemma apart_sym d1 d2 : apart d1 d2 → apart d2 d1.
Proof. by intros []. Qed.

Lemma dir_ok_apart f f' d1 d2 :
  apart d1 d2 → dir_ok f d1 → tree_wf f' → outside d2 f f' → dir_ok f' d1.
Proof.
  intros Hap Hd Ht Ho. constructor; [done | |].
  - intros q Hq. destruct (Ho q) as [-> _]; [| by apply (dok_above _ _ Hd)].
    intros Hp. apply (proj2 Hap). by etrans.
  - intros name Hx. destruct (Ho (d1 ++ [name])) as [_ [Hy | Hy]%(λ H, H Hx)].
    + intros Hp. eapply (apart_under d1 d2); [done | by eexists | exact Hp].
    + by apply (dok_files _ _ Hd) in Hy.
    + apply (proj1 Hap). etrans; [| exact Hy]. by eexists.
Qed.

Lemma at_dir_apart f f' d1 d2 o :
  apart d1 d2 → at_dir f d1 o → tree_wf f' → outside d2 f f' → at_dir f' d1 o.
Proof.
  intros Hap [Hd Hs Hok] Ht Ho. split; [by eapply dir_ok_apart | | done].
  eapply stores_ext; [| exact Hs]. intros name. apply Ho. intros Hp.
  eapply (apart_under d1 d2); [done | by eexists | exact Hp].
Qed.

Lemma inbox_ok : good_name Inbox.
Proof.
  apply good_name_iff. unfold CanonicalMailbox. change (Trim Inbox Delimiter) with Inbox. rewrite EqualFold_refl.
  by apply (bool_decide_unpack _).
Qed.

Lemma inboxes_apart uid uid' : uid ≠ uid' → apart (mailboxDir uid Inbox) (mailboxDir uid' Inbox).
Proof.
  intros Hne. rewrite !mailboxDir_eq, !mailRoot_eq by apply inbox_ok.
  assert (∀ u v r1 r2, u ≠ v → ¬ (accounts_UserDir u ++ r1) `prefix_of` (accounts_UserDir v ++ r2)) as H.
  { intros u v r1 r2 Huv Hp.
    assert (accounts_UserDir u `prefix_of` accounts_UserDir v ++ r2) as H1 by (etrans; [| exact Hp]; by eexists).
    assert (accounts_UserDir v `prefix_of` accounts_UserDir v ++ r2) as H2 by (by eexists).
    destruct (prefix_weak_total _ _ _ H1 H2) as [H%UserDir_apart | H%UserDir_apart]; congruence. }
  rewrite <- !app_assoc. split; apply H; congruence.
Qed.

End Apart.

(** ** The steps of a transaction *)

(** Only random bytes were used up. *)
Definition rolled (w w' : world) : Prop := w_fs w' = w_fs w ∧ w_now w' = w_now w ∧ w_faults w' = w_faults w.

#[export] Instance rolled_preorder : PreOrder rolled.
Proof. split; [by intros w |]. intros w1 w2 w3 (?&?&?) (?&?&?). repeat split; congruence. Qed.

Section Session.
Context {U : UnicodeTables} {Acc : Accounts} {Laws : AccountsLaws Acc} {Zo : Zone} {Sl : SmtpLibrary} {Ml : MessageLibrary}.
Context (srv : Server).

Lemma on_world_eq {A} (m : M A) s a w : m (s_world s) = (a, w) → on_world m s = (a, set_world w s).
Proof. unfold on_world. by intros ->. Qed.

Lemma on_world_inv {A} (m : M A) s a s' :
  on_world m s = (a, s') → ∃ w, m (s_world s) = (a, w) ∧ s' = set_world w s.
Proof. unfold on_world. destruct (m (s_world s)) as [x w]. intros [= <- <-]. by exists w. Qed.

Lemma received_eq rcpt s :
  ∃ id w, received srv rcpt s = (trace srv s rcpt id (w_now (s_world s)), set_world w s) ∧ rolled (s_world s) w.
Proof.
  unfold received. destruct (randomID 8 (s_world s)) as [id w] eqn:Hr.
  rewrite (st_bind_eq _ _ _ _ _ (on_world_eq _ _ _ _ Hr)). apply randomID_tree in Hr as (Hf & Hn & Hx).
  rewrite (st_bind_eq _ _ _ _ _ (on_world_eq Now (set_world w s) _ _ eq_refl)).
  exists id, w. split; [| done]. rewrite <- Hn. done.
Qed.

Lemma stampSubmission_eq raw s : ∃ raw' w, stampSubmission srv raw s = (raw', set_world w s) ∧ rolled (s_world s) w.
Proof.
  unfold stampSubmission. destruct (ReadHeader raw) as [has |]; [| exists raw, (s_world s); by destruct s].
  rewrite (st_bind_eq _ _ _ _ _ (on_world_eq Now s _ _ eq_refl)). cbv zeta.
  set (s0 := set_world (s_world s) s). replace s0 with s by (by destruct s). clear s0.
  destruct (has (B "Message-ID")).
  - rewrite (st_bind_eq (mret []) _ s [] s eq_refl), (st_bind_eq (gets (λ s, s)) _ s _ _ eq_refl).
    case_decide; eexists _, (s_world s); split; [by destruct s | done | by destruct s | done].
  - destruct (randomID 16 (s_world s)) as [id w] eqn:Hr.
    assert ((id ← on_world (randomID 16); mret (id_line srv id)) s = (id_line srv id, set_world w s)) as Hm.
    { by rewrite (st_bind_eq _ _ _ _ _ (on_world_eq _ _ _ _ Hr)). }
    rewrite (st_bind_eq _ _ _ _ _ Hm), (st_bind_eq (gets (λ s, s)) _ (set_world w s) _ _ eq_refl).
    apply randomID_tree in Hr. case_decide; by eexists _, w.
Qed.

Lemma sign_eq raw w : ∃ r, sign srv raw w = (r, w).
Proof. unfold sign. destruct (dkim srv); by eexists. Qed.

Lemma prepare_eq raw s :
  ∃ raw' w, prepare srv raw s = (raw', set_world w s) ∧ rolled (s_world s) w ∧ (submission s = false → raw' = raw).
Proof.
  unfold prepare. rewrite (st_bind_eq (gets (λ s, s)) _ s _ _ eq_refl).
  destruct (submission s) eqn:Hsub; [| exists raw, (s_world s); by destruct s].
  destruct (stampSubmission_eq raw s) as (raw1 & w1 & H1 & Hr). rewrite (st_bind_eq _ _ _ _ _ H1).
  destruct (sign_eq raw1 w1) as [r H2]. rewrite (st_bind_eq _ _ _ _ _ (on_world_eq _ (set_world w1 s) _ _ H2)).
  by eexists _, w1.
Qed.

Definition locals (rcpts : list smtpRecipient) : list Account := omap r_account rcpts.
Definition remotes (rcpts : list smtpRecipient) : list bytes :=
  omap (λ r, match r_account r with None => Some (r_addr r) | Some _ => None end) rcpts.

(** What the recipients, with the identifiers of their trace headers, add to
    the inbox of an account. *)
Fixpoint filed (s : smtpSession) (raw : bytes) (now : Z) (l : list (smtpRecipient * bytes)) (uid : Z)
    (o : option mailbox) : option mailbox :=
  match l with
  | [] => o
  | (r, id) :: l =>
      let o := match r_account r with
               | Some a => if acc_UID a =? uid
                           then Some (appended (base o now) [] now (trace srv s (r_addr r) id now ++ raw)) else o
               | None => o
               end in
      filed s raw now l uid o
  end.

Lemma filed_world s w raw now l uid o : filed (set_world w s) raw now l uid o = filed s raw now l uid o.
Proof. revert o. induction l as [| [r id] l IH]; intros o; simpl; [done |]. by rewrite IH. Qed.

(** The inboxes of a set of accounts, with room for [n] more messages. *)
Definition inboxes (w : world) (D : gset Z) (boxes : Z → option mailbox) (n : nat) : Prop :=
  ∀ uid, uid ∈ D → at_dir (w_fs w) (mailboxDir uid Inbox) (boxes uid) ∧
    mb_next (base (boxes uid) (w_now w)) + Z.of_nat n < 2 ^ 32.

Lemma inboxes_rolled w w' D boxes n : rolled w w' → inboxes w D boxes n → inboxes w' D boxes n.
Proof. intros (Hf & Hn & _) H uid Hu. rewrite Hf, Hn. by apply H. Qed.

Lemma stamp_now now : stamp now now = now.
Proof. unfold stamp. by destruct (now =? zero_time). Qed.

Definition after_append (w : world) (boxes : Z → option mailbox) (uid : Z) (message : bytes) : Z → option mailbox :=
  λ u, if uid =? u then Some (appended (base (boxes u) (w_now w)) [] (w_now w) message) else boxes u.

Lemma base_some mb now : base (Some mb) now = mb.
Proof. done. Qed.

(** One local delivery that succeeded. *)
Lemma Append_inboxes w D boxes n uid message u w' :
  inboxes w D boxes (S n) → uid ∈ D → clock_ok w →
  Append uid Inbox [] (w_now w) message w = (Ok u, w') →
  w_now w' = w_now w ∧ inboxes w' D (after_append w boxes uid message) n ∧
  ∀ d, apart d (mailRoot uid) → dir_ok (w_fs w) d → dir_ok (w_fs w') d.
Proof.
  intros Hb Hu Hc H. destruct (Hb uid Hu) as [Had Hn].
  apply (Append_inv _ _ _ (boxes uid)) in H as (Hnow & _ & Ho & _ & Had'); [| apply inbox_ok | done | done | lia].
  rewrite stamp_now in Had'. split; [done |]. split.
  - intros v Hv. rewrite Hnow. unfold after_append. destruct (uid =? v) eqn:E.
    + apply Z.eqb_eq in E as <-. split; [done |]. rewrite base_some. simpl. destruct (Hb uid Hu) as [_ ?].
      change (mb_next (appended _ _ _ _)) with (mb_next (base (boxes uid) (w_now w)) + 1). lia.
    + apply Z.eqb_neq in E. destruct (Hb v Hv) as [Hadv Hnv]. split; [| lia].
      eapply (at_dir_apart (w_fs w)); [| done | apply Had' | exact Ho]. by apply inboxes_apart.
  - intros d Hd Hok. eapply dir_ok_apart; [| exact Hok | apply Had' | exact Ho].
    rewrite mailboxDir_eq by apply inbox_ok. eapply apart_below; [done | by eexists].
Qed.

(** The recipients in front: one more header, and for a local one an append. *)
Lemma deliver_cons raw r rcpts remote le s :
  ∃ id w, rolled (s_world s) w ∧
    let header := trace srv s (r_addr r) id (w_now (s_world s)) in
    deliver srv raw (r :: rcpts) remote le s =
      match r_account r with
      | None => deliver srv raw rcpts (remote ++ [r_addr r]) le (set_world w s)
      | Some a =>
          let '(x, w') := Append (acc_UID a) Inbox [] (w_now w) (header ++ raw) w in
          deliver srv raw rcpts remote (match x with Err e => Some e | Ok _ => le end) (set_world w' s)
      end.
Proof.
  destruct (received_eq (r_addr r) s) as (id & w & Hr & Hw). exists id, w. split; [done |]. cbv zeta.
  cbn [deliver]. rewrite (st_bind_eq _ _ _ _ _ Hr). destruct (r_account r) as [a |]; [| done].
  rewrite (st_bind_eq _ _ _ _ _ (on_world_eq Now (set_world w s) _ _ eq_refl)).
  destruct (Append _ _ _ _ _ w) as [x w'] eqn:Ha. cbn [set_world s_world] in *.
  rewrite (st_bind_eq _ _ _ _ _ (on_world_eq _ (set_world w s) _ _ Ha)). by destruct x.
Qed.

Lemma deliver_failed raw rcpts remote e s out s' :
  deliver srv raw rcpts remote (Some e) s = (out, s') → out.2 ≠ None.
Proof.
  revert remote e s. induction rcpts as [| r rcpts IH]; intros remote e s H; [by injection H as <- _ |].
  destruct (deliver_cons raw r rcpts remote (Some e) s) as (id & w & _ & Heq). cbv zeta in Heq. rewrite Heq in H.
  destruct (r_account r) as [a |]; [| by eapply IH].
  destruct (Append _ _ _ _ _ w) as [[u | x] w']; by eapply IH.
Qed.

Lemma deliver_remote raw rcpts remote le s : (deliver srv raw rcpts remote le s).1.1 = remote ++ remotes rcpts.
Proof.
  revert remote le s. induction rcpts as [| r rcpts IH]; intros remote le s; [by rewrite app_nil_r |].
  destruct (deliver_cons raw r rcpts remote le s) as (id & w & _ & Heq). cbv zeta in Heq. rewrite Heq. unfold remotes. simpl.
  destruct (r_account r) as [a |]; [destruct (Append _ _ _ _ _ w) as [x w'] |]; rewrite IH; [done |].
  by rewrite <- app_assoc.
Qed.

Lemma deliver_same raw rcpts remote le s out s' :
  deliver srv raw rcpts remote le s = (out, s') → s' = set_world (s_world s') s.
Proof.
  revert remote le s. induction rcpts as [| r rcpts IH]; intros remote le s H; [injection H as _ <-; by destruct s |].
  destruct (deliver_cons raw r rcpts remote le s) as (id & w & _ & Heq). cbv zeta in Heq. rewrite Heq in H.
  destruct (r_account r) as [a |]; [destruct (Append _ _ _ _ _ w) as [x w'] |]; by apply IH in H.
Qed.

(** The loop spares every directory apart from the mail. *)
Lemma deliver_spared raw rcpts remote le s out s' dir :
  (∀ uid, apart dir (mailRoot uid)) → deliver srv raw rcpts remote le s = (out, s') →
  ∀ q, dir `prefix_of` q → w_fs (s_world s') !! q = w_fs (s_world s) !! q.
Proof.
  intros Hap. revert remote le s. induction rcpts as [| r rcpts IH]; intros remote le s H q Hq; [by injection H as _ <- |].
  destruct (deliver_cons raw r rcpts remote le s) as (id & w & Hw & Heq). cbv zeta in Heq. rewrite Heq in H.
  destruct Hw as (Hf & _). destruct (r_account r) as [a |]; [destruct (Append _ _ _ _ _ w) as [x w'] eqn:Ha |];
    rewrite (IH _ _ _ H q Hq); cbn [s_world set_world]; [| by rewrite Hf].
  apply (Append_spared _ _ _ _ _ _ _ _ dir) in Ha as (_ & _ & Hs); [| apply inbox_ok | apply Hap].
  by rewrite Hs, Hf.
Qed.

Section Loop.
Context (D : gset Z) (dir : path) (Hap : ∀ uid, apart dir (mailRoot uid)).

(** If the loop reports no error, every local recipient has the message. *)
Lemma deliver_inv raw rcpts remote s boxes out s' :
  inboxes (s_world s) D boxes (length rcpts) → (∀ a, a ∈ locals rcpts → acc_UID a ∈ D) → clock_ok (s_world s) →
  dir_ok (w_fs (s_world s)) dir →
  deliver srv raw rcpts remote None s = (out, s') → out.2 = None →
  w_now (s_world s') = w_now (s_world s) ∧ dir_ok (w_fs (s_world s')) dir ∧
  ∃ ids, length ids = length rcpts ∧ ∀ uid, uid ∈ D →
    at_dir (w_fs (s_world s')) (mailboxDir uid Inbox) (filed s raw (w_now (s_world s)) (zip rcpts ids) uid (boxes uid)).
Proof.
  revert remote s boxes. induction rcpts as [| r rcpts IH]; intros remote s boxes Hb HD Hc Hok H Hn.
  { injection H as _ <-. split; [done |]. split; [done |]. exists []. split; [done |]. intros uid Hu. by apply Hb. }
  destruct (deliver_cons raw r rcpts remote None s) as (id & w & Hw & Heq). cbv zeta in Heq. rewrite Heq in H.
  apply (inboxes_rolled _ _ _ _ _ Hw) in Hb. destruct Hw as (Hf & Hnow & _). unfold clock_ok in Hc. rewrite <- Hnow in *. rewrite <- Hf in Hok.
  unfold locals in HD. simpl in HD. destruct (r_account r) as [a |] eqn:Ea.
  - destruct (Append _ _ _ _ _ w) as [[u | e] w'] eqn:Ha; [| by apply deliver_failed in H].
    apply (Append_inboxes w D boxes (length rcpts)) in Ha as (Hn' & Hb' & Hd'); [| done | by apply HD; left | done].
    destruct (IH remote (set_world w' s) _ Hb') as (H1 & H2 & ids & H3 & H4);
      [intros a' Ha'; apply HD; by right | cbn [s_world set_world]; unfold clock_ok; by rewrite Hn' | by apply Hd' | exact H | exact Hn |].
    cbn [s_world set_world] in *. rewrite Hn' in *. split; [done |]. split; [done |].
    exists (id :: ids). split; [simpl; congruence |]. intros uid Hu. specialize (H4 uid Hu). simpl. rewrite Ea.
    rewrite filed_world in H4. exact H4.
  - destruct (IH (remote ++ [r_addr r]) (set_world w s) boxes) as (H1 & H2 & ids & H3 & H4); [| done | exact Hc | exact Hok | exact H | exact Hn |].
    { intros uid Hu. destruct (Hb uid Hu) as [Had Hlt]. split; [exact Had |]. simpl in Hlt. cbn [s_world set_world]. lia. }
    split; [done |]. split; [done |]. exists (id :: ids). split; [simpl; congruence |]. intros uid Hu. simpl. rewrite Ea.
    rewrite <- (filed_world s w). by apply H4.
Qed.

(** On a healthy system the loop reports no error. *)
Lemma deliver_healthy raw rcpts remote s boxes :
  inboxes (s_world s) D boxes (length rcpts) → (∀ a, a ∈ locals rcpts → acc_UID a ∈ D) → clock_ok (s_world s) →
  healthy (s_world s) →
  (deliver srv raw rcpts remote None s).1.2 = None ∧ healthy (s_world (deliver srv raw rcpts remote None s).2).
Proof.
  revert remote s boxes. induction rcpts as [| r rcpts IH]; intros remote s boxes Hb HD Hc Hh; [done |].
  destruct (deliver_cons raw r rcpts remote None s) as (id & w & Hw & Heq). cbv zeta in Heq. rewrite Heq.
  apply (inboxes_rolled _ _ _ _ _ Hw) in Hb. destruct Hw as (Hf & Hnow & Hx). unfold clock_ok in Hc. rewrite <- Hnow in Hc.
  assert (healthy w) as Hhw by (unfold healthy; by rewrite Hx).
  unfold locals in HD. simpl in HD. destruct (r_account r) as [a |] eqn:Ea.
  - assert (acc_UID a ∈ D) as Hu by (apply HD; by left). destruct (Hb _ Hu) as [Had Hlt].
    destruct (Append_healthy (acc_UID a) Inbox w (boxes (acc_UID a)) [] (w_now w)
      (trace srv s (r_addr r) id (w_now (s_world s)) ++ raw)) as [f Ha];
      [apply inbox_ok | done | done | done | simpl in Hlt; lia |].
    rewrite Ha. cbv iota beta. apply (Append_inboxes w D boxes (length rcpts)) in Ha as (Hn' & Hb' & _); [| done | done | done].
    eapply IH; [exact Hb' | intros a' Ha'; apply HD; by right | done | done].
  - eapply IH; [| done | done | done]. intros uid Hu. destruct (Hb uid Hu). split; [done | simpl in *; lia].
Qed.

End Loop.
End Session.
