(* ===== verification/RelayReports.v ===== *)
(** * RelayReports: failures are reported to the sender

    The outbound queue together with the user store and the mail store: a
    local sender finds a report in the inbox for every group of recipients
    that was rejected, and for those the queue gave up on. *)

From S2P Require Import Prelude GoStrings Strconv Crypto World WorldFacts Accounts AccountsFacts Flags MailStore.
From S2P Require Import MailNames MailFacts Fixtures MailFixtures Directory Token Config GoNet MailServer ServerFixtures.
From S2P Require Import Relay RelayFacts SmtpFacts RelaySpec.

Section Reports.
Context {U : UnicodeTables} {Acc : Accounts} {Laws : AccountsLaws Acc} {Et : ErrorText} {Zo : Zone} {Dr : Directory Acc}.
Context (srv : Server) (a : Account).
Let inbox : path := mailboxDir (acc_UID a) Inbox.

(** The sender of the message is the local account [a]. *)
Definition sender (entry : queueEntry) : Prop :=
  ∃ local domain, SplitAddress (e_From entry) = Some (local, domain) ∧ local_domain srv domain = true ∧ dir_find local = Some a.

(** A healthy system with the inbox of [a] and room for [n] messages. *)
Record waiting_for (n : nat) (o : option mailbox) (w : world) : Prop := {
  wf_healthy : healthy w;
  wf_holds : holds (w_fs w);
  wf_clock : clock_ok w;
  wf_inbox : at_dir (w_fs w) inbox o;
  wf_room : mb_next (base o (w_now w)) + Z.of_nat n < 2 ^ 32;
}.

(** What the reports, with the identifiers of their headers, add. *)
Fixpoint reported (entry : queueEntry) (now : Z) (o : option mailbox) (l : list (list bytes * error)) (ids : list (bytes * bytes)) :
    option mailbox :=
  match l, ids with
  | (rcpts, cause) :: l, (rid, mid) :: ids =>
      reported entry now (Some (appended (base o now) [] now (bounce_body srv entry rcpts (Error cause) now rid mid))) l ids
  | _, _ => o
  end.

Lemma reported_app entry now o l1 ids1 l2 ids2 :
  length l1 = length ids1 →
  reported entry now o (l1 ++ l2) (ids1 ++ ids2) = reported entry now (reported entry now o l1 ids1) l2 ids2.
Proof.
  revert o ids1. induction l1 as [| [rcpts cause] l1 IH]; intros o [| [rid mid] ids1] Hl; try done.
  simpl. apply IH. simpl in Hl. lia.
Qed.

Lemma waiting_rolled n o w w' : rolled w w' → waiting_for n o w → waiting_for n o w'.
Proof.
  intros (Hf & Hn & Hx) [H1 H2 H3 H4 H5]. split; rewrite ?Hf, ?Hn; try done.
  - unfold healthy. by rewrite Hx.
  - unfold clock_ok. by rewrite Hn.
Qed.

(** One report. *)
Lemma bounce_reports entry rcpts cause n o w :
  sender entry → waiting_for (S n) o w →
  ∃ rid mid w', bounce srv entry rcpts cause w = (true, w') ∧ w_now w' = w_now w ∧
    waiting_for n (reported entry (w_now w) o [(rcpts, cause)] [(rid, mid)]) w'.
Proof.
  intros (local & domain & Hs & Hl & Hd) Hw. unfold bounce. rewrite Hs, Hl. cbn [negb].
  rewrite (st_bind_eq _ _ _ _ _ (FindByID_healthy local w (wf_holds _ _ _ Hw) (wf_healthy _ _ _ Hw))), Hd.
  destruct (randomID 8 w) as [rid w1] eqn:H1. rewrite (st_bind_eq _ _ _ _ _ H1). apply randomID_tree in H1.
  pose proof (waiting_rolled _ _ _ _ H1 Hw) as Hw1. destruct H1 as (_ & Hn1 & _).
  rewrite (st_bind_eq Now _ w1 _ _ eq_refl).
  destruct (randomID 16 w1) as [mid w2] eqn:H2. rewrite (st_bind_eq _ _ _ _ _ H2). apply randomID_tree in H2.
  pose proof (waiting_rolled _ _ _ _ H2 Hw1) as [Hh Hho Hc Hat Hr]. destruct H2 as (_ & Hn2 & _).
  cbv zeta. rewrite (st_bind_eq Now _ w2 _ _ eq_refl).
  set (body := bounce_body srv entry rcpts (Error cause) (w_now w1) rid mid).
  destruct (append_step (acc_UID a) Inbox w2 o (w_now w2) body inbox_ok Hat Hc Hh Hho ltac:(lia)) as (K1 & K2 & K3 & K4 & _ & K5).
  destruct (Append_healthy (acc_UID a) Inbox w2 o [] (w_now w2) body inbox_ok Hat Hc Hh ltac:(lia)) as [f Ha].
  rewrite (st_bind_eq _ _ _ _ _ Ha). rewrite Ha in K1, K2, K3, K4, K5. cbn [snd] in *.
  exists rid, mid, (set_fs f w2). split; [done |]. split; [cbn [w_now set_fs]; congruence |].
  rewrite stamp_now in K5. unfold reported. rewrite <- Hn1. fold body. rewrite <- Hn2. split; try done.
  cbn [w_now set_fs]. rewrite base_some. change (mb_next (appended _ _ _ _)) with (mb_next (base o (w_now w2)) + 1). lia.
Qed.

(** The rejections of a round. *)
Definition rejections (ds : list delivery) : list (list bytes * error) :=
  omap (λ d, match dl_fate d with Rejected e => Some (dl_rcpts d, e) | _ => None end) ds.

Lemma deliver_groups_reports net entry message groups n o w :
  sender entry → waiting_for (length groups + n) o w →
  let '(ds, w') := deliver_groups net srv entry message groups w in
  w_now w' = w_now w ∧ ∃ ids, length ids = length (rejections ds) ∧
    waiting_for n (reported entry (w_now w) o (rejections ds) ids) w'.
Proof.
  intros Hs. revert o w. induction groups as [| [domain rcpts] groups IH]; intros o w Hw; cbn [deliver_groups].
  { split; [done |]. exists []. split; [done |]. exact Hw. }
  assert (waiting_for (length groups + n) o w) as Hw' by (destruct Hw; split; try done; simpl in *; lia).
  destruct (deliverDomain net (cfg srv) domain (e_From entry) rcpts message) as [[e |] l].
  - destruct (permanent e).
    + destruct (bounce_reports entry rcpts e (length groups + n) o w Hs Hw) as (rid & mid & w1 & Hb & Hn1 & Hw1).
      rewrite (st_bind_eq _ _ _ _ _ Hb). specialize (IH _ w1 Hw1).
      destruct (deliver_groups net srv entry message groups w1) as [ds w2] eqn:Hd. rewrite (st_bind_eq _ _ _ _ _ Hd).
      destruct IH as (Hn2 & ids & Hl & Hw2). split; [congruence |]. exists ((rid, mid) :: ids).
      unfold rejections. rewrite omap_cons. cbn [dl_fate dl_rcpts]. fold (rejections ds). split; [simpl; congruence |].
      rewrite Hn1 in Hw2. exact Hw2.
    + specialize (IH _ w Hw'). destruct (deliver_groups net srv entry message groups w) as [ds w2] eqn:Hd.
      rewrite (st_bind_eq _ _ _ _ _ Hd). exact IH.
  - specialize (IH _ w Hw'). destruct (deliver_groups net srv entry message groups w) as [ds w2] eqn:Hd.
    rewrite (st_bind_eq _ _ _ _ _ Hd). exact IH.
Qed.

(** ** The whole round *)

Context {Ro : ReadOnlyAccounts Acc} (dir : path) (Hap : ∀ uid, apart dir (mailRoot uid)).

Lemma dir_ok_spared w w' : dir_ok (w_fs w) dir → spared dir w w' → dirb (w_fs w') dir = true → tree_wf (w_fs w') → dir_ok (w_fs w') dir.
Proof.
  intros [_ _ Hf] (_ & _ & Hs) Hd Ht. split; [done | |].
  - intros q Hq. assert (dirb (w_fs w') q = true) as Hq'.
    { destruct (decide (q = dir)) as [-> | Hne]; [done |]. apply dirb_spec in Hd as [-> | Hd]; [by destruct Hq as [[] ?]; destruct q |].
      by eapply tree_wf_prefix. }
    unfold file_in. apply dirb_spec in Hq' as [-> | ->]; [by rewrite (proj1 Ht) | done].
  - intros name. rewrite Hs; [apply Hf | by eexists].
Qed.

(** Removing an entry and writing it anew stay in the queue directory. *)
Lemma remove_entry_outside id w w' :
  Forall plain dir → plain (id ++ B ".json") ∧ plain (id ++ B ".eml") → dir_ok (w_fs w) dir → remove_entry dir id w = (tt, w') →
  dir_ok (w_fs w') dir ∧ outside dir (w_fs w) (w_fs w').
Proof.
  intros Hd [Hj Hb] Hok H. unfold remove_entry in H. rewrite entryPath_eq, bodyPath_eq in H by done.
  assert (∀ name w r w', dir_ok (w_fs w) dir → os_Remove (dir ++ [name]) w = (r, w') →
    dir_ok (w_fs w') dir ∧ outside dir (w_fs w) (w_fs w')) as Hrem.
  { intros name w1 r w2 Hok1 Hr. apply os_Remove_tree in Hr as [-> | ->]; [done |].
    split; [by apply dir_ok_delete | apply outside_delete]. }
  apply st_bind_inv in H as (r1 & w1 & H1 & H). apply Hrem in H1 as [Hok1 Ho1]; [| done].
  apply st_bind_inv in H as (r2 & w2 & H2 & H). apply Hrem in H2 as [Hok2 Ho2]; [| done]. st_inv.
  split; [done | by etrans].
Qed.

Lemma writeEntry_outside entry w r w' :
  Forall plain dir → plain (e_ID entry ++ B ".json") → dir_ok (w_fs w) dir → dirb (w_fs w) dir = true →
  writeEntry dir entry w = (r, w') → dir_ok (w_fs w') dir ∧ outside dir (w_fs w) (w_fs w').
Proof.
  intros Hd Hj Hok Hb H. unfold writeEntry in H. rewrite entryPath_eq in H by done.
  by apply put_outside in H as (H1 & _ & H2).
Qed.

(** The report on the recipients the queue gave up on. *)
Definition given_up (entry : queueEntry) (ds : list delivery) : list (list bytes * error) :=
  if decide (deferred ds = []) then []
  else if queueMaxAttempts <=? Attempts entry then
    [(deferred ds, ErrText (B "gave up after " ++ FormatInt (Attempts entry) ++ B " attempts: " ++ error_text (last_error ds)))]
  else [].

Lemma at_dir_queue f f' o :
  at_dir f inbox o → dir_ok f' dir ∧ outside dir f f' → at_dir f' inbox o.
Proof.
  intros Ha [Hok Ho]. eapply (at_dir_apart f f' inbox dir); [| done | apply Hok | done].
  apply apart_sym, mailbox_apart; [apply inbox_ok | apply Hap].
Qed.

(** Reports leave the queue as it was. *)
Lemma queue_kept n o w w' entry message :
  queued dir (w_fs w) entry message → dir_ok (w_fs w) dir → spared dir w w' → waiting_for n o w' →
  dir_ok (w_fs w') dir ∧ dirb (w_fs w') dir = true.
Proof.
  intros Hq Hok Hs Hw. apply (queued_spared dir _ _ _ _ Hs) in Hq as [[_ Hd] _ _ _]. split; [| done].
  apply (dir_ok_spared w); [done .. |]. apply (wf_inbox _ _ _ Hw).
Qed.

(** C27: Failures are reported.  After a delivery round on a healthy system
    the local sender of the message finds in the inbox, after what was there,
    exactly one report for every group of recipients that was rejected, in
    the order of the round, and one more for the recipients the queue gave up
    on after the twelfth attempt; each names its recipients, the cause, the
    number of the attempt and the time of the first one. *)
Theorem attempt_reports net range entry message o w :
  queued dir (w_fs w) entry message → dir_ok (w_fs w) dir → 0 <= Attempts entry < 2 ^ 62 → (∀ l, range l ≡ₚ l) →
  sender entry → waiting_for (S (size (groupByDomain (e_To entry)))) o w →
  let '(ds, w') := attempt dir net range srv entry w in
  let tried := set_attempts (Attempts entry + 1) entry in
  ∃ ids, length ids = length (rejections ds ++ given_up tried ds) ∧
    at_dir (w_fs w') inbox (reported tried (w_now w) o (rejections ds ++ given_up tried ds) ids).
Proof.
  intros Hq Hok Ha Hrange Hs Hw. unfold attempt. pose proof (wf_healthy _ _ _ Hw) as Hh.
  destruct (queued_read _ _ _ _ Hq Hh) as [_ Hb]. pose proof (q_dir _ _ _ _ Hq) as [Hp _]. pose proof (q_names _ _ _ _ Hq) as Hnm.
  rewrite (st_bind_eq _ _ _ _ _ Hb). cbn [content_bytes]. rewrite int64_id by (unfold is_int64; lia).
  set (tried := set_attempts (Attempts entry + 1) entry). cbv zeta. change (e_To tried) with (e_To entry).
  set (groups := range (map_to_list (groupByDomain (e_To entry)))).
  assert (waiting_for (length groups + 1) o w) as Hw0.
  { unfold groups. rewrite (Hrange (map_to_list _)), length_map_to_list. by rewrite Nat.add_comm. }
  pose proof (deliver_groups_reports net tried message groups 1 o w Hs Hw0) as Hdg.
  destruct (deliver_groups net srv tried message groups w) as [ds w1] eqn:Hd. rewrite (st_bind_eq _ _ _ _ _ Hd).
  apply (deliver_groups_spec dir Hap) in Hd as (Hsp & _ & _); [| done]. destruct Hdg as (Hn1 & ids & Hl & Hw1).
  destruct (queue_kept _ _ w w1 entry message Hq Hok Hsp Hw1) as (Hok1 & Hd1). set (reports := given_up tried ds).
  assert (reports = given_up tried ds) as Hgu by done. unfold given_up in Hgu. change (Attempts tried) with (Attempts entry + 1) in Hgu.
  change (Attempts tried) with (Attempts entry + 1). change (e_ID tried) with (e_ID entry).
  destruct (decide (deferred ds = [])) as [Hnil | Hne]; [| destruct (queueMaxAttempts <=? Attempts entry + 1)].
  - destruct (remove_entry dir (e_ID entry) w1) as [[] w2] eqn:Hr. rewrite (st_bind_eq _ _ _ _ _ Hr). simpl. fold reports. rewrite Hgu, app_nil_r.
    apply remove_entry_outside in Hr; [| done ..]. exists ids. split; [done |].
    eapply at_dir_queue; [exact (wf_inbox _ _ _ Hw1) | exact Hr].
  - set (cause := ErrText _). destruct (bounce_reports tried (deferred ds) cause 0 _ w1 Hs Hw1) as (rid & mid & w2 & Hbo & Hn2 & Hw2).
    rewrite (st_bind_eq _ _ _ _ _ Hbo). apply (bounce_spared dir Hap) in Hbo as Hsp2; [| apply Hw1].
    destruct (queue_kept _ _ w w2 entry message Hq Hok (transitivity Hsp Hsp2) Hw2) as (Hok2 & _).
    destruct (remove_entry dir (e_ID entry) w2) as [[] w3] eqn:Hr. rewrite (st_bind_eq _ _ _ _ _ Hr). simpl. fold reports.
    apply remove_entry_outside in Hr; [| done ..]. exists (ids ++ [(rid, mid)]). rewrite Hgu. fold cause. rewrite !length_app, Hl. split; [done |].
    rewrite reported_app by done. rewrite Hn1 in Hw2. eapply at_dir_queue; [exact (wf_inbox _ _ _ Hw2) | exact Hr].
  - rewrite (st_bind_eq Now _ w1 _ _ eq_refl). match goal with |- context [writeEntry dir ?e] => set (again := e) end.
    destruct (writeEntry dir again w1) as [r w2] eqn:Hr. rewrite (st_bind_eq _ _ _ _ _ Hr). simpl. fold reports.
    apply writeEntry_outside in Hr; [| done | apply Hnm | done | done]. exists ids. rewrite Hgu, app_nil_r. split; [done |].
    eapply at_dir_queue; [exact (wf_inbox _ _ _ Hw1) | exact Hr].
Qed.
End Reports.

(** ** On the fixtures *)

Lemma represents_apart s f f' m d :
  apart d (root s) → tree_wf f' → outside d f f' → represents s f m → represents s f' m.
Proof.
  intros Hap Ht Ho Hrep.
  assert (∀ r, ¬ d `prefix_of` (root s ++ r)) as Hq by (intros r; apply (apart_under _ _ _ (apart_sym _ _ Hap)); by eexists).
  assert (∀ r n, f' !! (root s ++ r) = Some n → f !! (root s ++ r) = Some n) as Hn.
  { intros r [| c] Hn; destruct (Ho _ (Hq r)) as [Hf Hd].
    - destruct (Hd Hn) as [| Hx]; [done |]. case (proj2 Hap). etrans; [| exact Hx]. by eexists.
    - apply file_in_Some. rewrite <- Hf. by apply file_in_Some. }
  destruct Hrep as [H1 _ H3 H4 H5 H6]. constructor; [done | done | | | |].
  - intros q Hp. destruct (Ho q) as [-> _]; [| by apply H3]. intros Hd. apply (proj1 Hap). by etrans.
  - intros name n Hx%Hn. by apply H4 in Hx.
  - intros name n Hx%Hn. by apply H5 in Hx.
  - intros uid u (c & Hc & Hu)%H6. exists c. split; [| done]. rewrite <- Hc. apply Ho, Hq.
Qed.

(** A smarthost that knows one recipient less. *)
Definition refused_carol : network := refusing (Rcpt_ (B "carol@example.com")) no_such_user.
Definition carol_round := attempt queue_dir refused_carol as_is smart_server out_entry queue_world.

Lemma queue_world_waiting : dir_ok (w_fs queue_world) queue_dir ∧ waiting_for alice_account 3 None queue_world.
Proof.
  destruct enqueue_durable_witness as [He _].
  assert (Forall plain queue_dir) as Hp by (by apply (bool_decide_unpack _)).
  destruct (enqueue_outside queue_dir _ _ _ _ _ _ Hp two_world_queue He) as [Hok Ho]. split; [done |].
  assert (w_now queue_world = w_now two_world) as Hn by (by vm_compute). split.
  - apply out_queued.
  - destruct two_world_ok as [[Hrep _ _] _]. refine (represents_apart _ _ _ _ queue_dir _ (dok_tree _ _ Hok) Ho Hrep).
    split; intros [r Hr]; simpl in Hr; discriminate Hr.
  - unfold clock_ok. rewrite Hn. apply two_world_clock.
  - eapply (at_dir_apart (w_fs two_world)); [| apply no_mail, inbox_good | apply Hok | exact Ho].
    apply apart_sym, mailbox_apart; [apply inbox_good | apply queue_apart].
  - by vm_compute.
Qed.

Lemma attempt_reports_witness :
  ∃ id, at_dir (w_fs carol_round.2) (mailboxDir 1 Inbox)
    (reported smart_server (set_attempts 1 out_entry) (w_now queue_world) None
       [([B "carol@example.com"; B "erin@example.com"], no_such_user)] [id]).
Proof.
  destruct out_queued as [Hq _], queue_world_waiting as [Hok Hw].
  pose proof (attempt_reports smart_server alice_account queue_dir queue_apart refused_carol as_is out_entry out_body None queue_world Hq Hok) as H.
  fold carol_round in H. rewrite (surjective_pairing carol_round) in H.
  destruct H as (ids & Hl & Hat).
  - unfold out_entry. cbn [Attempts]. lia.
  - intros l. reflexivity.
  - exists (B "alice_1"), (B "example.org"). repeat split; vm_compute; reflexivity.
  - exact Hw.
  - assert (rejections carol_round.1 ++ given_up (set_attempts (Attempts out_entry + 1) out_entry) carol_round.1 =
      [([B "carol@example.com"; B "erin@example.com"], no_such_user)]) as Hr by (vm_compute; reflexivity).
    rewrite Hr in Hl, Hat. destruct ids as [| id [|]]; [discriminate Hl | | discriminate Hl]. exists id. exact Hat.
Defined.
