(* ===== verification/SmtpSpec.v ===== *)
(** * SmtpSpec: what the SMTP sessions promise

    No open relay, honest senders, no acknowledgement without delivery, and
    what happens to line endings and to oversized messages. *)

From S2P Require Import Prelude GoStrings Strconv World WorldFacts Accounts AccountsFacts Flags MailStore.
From S2P Require Import MailNames MailFacts Fixtures MailFixtures Directory Token Config GoNet MailServer ServerFixtures.
From S2P Require Import Relay RelayFacts Smtp SmtpFacts.

(** Line endings: rewriting equals the reference that ends every line but
    the last in CR LF whatever it ended in before; afterwards no LF lacks its
    CR, and rewriting again changes nothing. *)
Theorem normaliseLineEndings_correct raw :
  normaliseLineEndings raw = crlf_join (Split raw LF) ∧
  no_bare_lf (normaliseLineEndings raw) ∧
  normaliseLineEndings (normaliseLineEndings raw) = normaliseLineEndings raw.
Proof.
  split; [apply normaliseLineEndings_eq |]. split; [apply normalised_no_bare_lf |].
  apply normalise_no_bare_lf, normalised_no_bare_lf.
Qed.

Section Spec.
Context {U : UnicodeTables} {Acc : Accounts} {Laws : AccountsLaws Acc} {Zo : Zone} {Sl : SmtpLibrary} {Ml : MessageLibrary}.
Context (srv : Server).

(** ** Sessions as the engine drives them *)

(** The engine keeps a flag for an accepted MAIL; it takes RCPT and DATA only
    under the flag, and refuses a second AUTH. *)
Definition mail_open (m : bool) (e : smtp_event) (r : option error) : bool :=
  match e, r with
  | EvMail _, None => true
  | EvReset, _ | EvData _, _ => false
  | _, _ => m
  end.
Definition allowed (m : bool) (s : smtpSession) (e : smtp_event) : Prop :=
  match e with
  | EvAuth _ _ => s_account s = None
  | EvRcpt _ | EvData _ => m = true
  | _ => True
  end.

(** Reachable sessions; between two commands anything may happen to the
    world. *)
Inductive reach (sub : bool) (c : smtpConn) : bool → smtpSession → Prop :=
| reach_new w : reach sub c false (NewSession sub c w)
| reach_world m s w : reach sub c m s → reach sub c m (set_world w s)
| reach_step m s e r s' :
    reach sub c m s → allowed m s e → smtp_handle srv e s = (r, s') → reach sub c (mail_open m e r) s'.

(** The user store accepted a password for the account. *)
Definition logged_in (a : Account) : Prop :=
  ∃ name password w w', accounts_Authenticate name password w = (Some a, w').

Definition remote_address (addr : bytes) : Prop :=
  ∃ local domain, SplitAddress addr = Some (local, domain) ∧ local_domain srv domain = false.

Definition owns (a : Account) (from : bytes) : Prop := EqualFold from (Address a (Domain (cfg srv))) = true.

Record session_ok (sub m : bool) (s : smtpSession) : Prop := {
  so_submission : submission s = sub;
  so_account a : s_account s = Some a → sub = true ∧ logged_in a;
  so_remote r : r ∈ s_rcpts s → r_account r = None →
    sub = true ∧ s_account s ≠ None ∧ Relay (cfg srv) = true ∧ remote_address (r_addr r);
  so_sender : sub = true → m = true → ∃ a, s_account s = Some a ∧ owns a (s_from s);
}.

(** ** The steps *)

Section Quiet.
Context {Qa : QuietAccounts Acc}.

(** The session after AUTH. *)
Definition auth_result (s : smtpSession) (r : option error) (s' : smtpSession) : Prop :=
  ∃ w, w_fs w = w_fs (s_world s) ∧
    match r with
    | None => ∃ a, logged_in a ∧ s' = set_account a (set_world w s)
    | Some _ => s' = set_world w s
    end.

Lemma set_world_id s : set_world (s_world s) s = s.
Proof. by destruct s. Qed.

Lemma auth_result_same s e : auth_result s (Some e) s.
Proof. exists (s_world s). split; [done |]. by rewrite set_world_id. Qed.

Lemma authenticate_inv username password s r s' :
  authenticate srv username password s = (r, s') → auth_result s r s'.
Proof.
  unfold authenticate. intros (x & s1 & Hx & H)%st_bind_inv. apply on_world_inv in Hx as (w & Ha & ->).
  unfold mail_login in Ha. pose proof (Authenticate_quiet _ _ _ _ _ Ha) as Hf. exists w. split; [done |].
  destruct x as [a |]; [| by st_inv]. st_inv. exists a. split; [by eexists _, _, _, _ | done].
Qed.

Lemma login_exchange_inv l responses s r s' :
  login_exchange srv l responses s = (r, s') → auth_result s r s'.
Proof.
  revert l. induction responses as [| response responses IH]; intros l H; simpl in H.
  { st_inv. apply auth_result_same. }
  apply st_bind_inv in H as ([l1 x] & s1 & Hx & H). unfold Next in Hx.
  destruct (step l =? 0).
  { destruct response; st_inv; by eapply IH. }
  destruct (step l =? 1); [| st_inv; apply auth_result_same].
  apply st_bind_inv in Hx as (x1 & s2 & Ha & Hx). apply authenticate_inv in Ha.
  destruct x1; st_inv; done.
Qed.

Lemma auth_inv mech client s r s' :
  smtp_handle srv (EvAuth mech client) s = (r, s') → auth_result s r s' ∧ (r = None → submission s = true).
Proof.
  unfold smtp_handle. rewrite (st_bind_eq (gets (λ s, s)) _ s _ _ eq_refl). unfold Auth.
  destruct (submission s) eqn:Hs; simpl; [| intros H; st_inv; split; [apply auth_result_same | done]].
  intros H. split; [| done]. revert H. case_decide as Hm; [| case_decide as Hm'].
  - destruct (cl_plain client) as [[authzid user] pw]. unfold plain_authenticate.
    case_decide as Hi; [intros H; st_inv; apply auth_result_same |]. apply authenticate_inv.
  - apply login_exchange_inv.
  - intros H. st_inv. apply auth_result_same.
Qed.

(** The end of [Data]: stamp, deliver, queue. *)
Definition file_message (raw : bytes) (s : smtpSession) : option error * smtpSession :=
  (raw ← prepare srv raw;
   d ← deliver srv raw (s_rcpts s) [] None;
   let '(remote, localErr) := d in
   let finish := match localErr with
                 | Some _ => mret (Some (SMTPError 451 (4, 3, 0) (B "Could not store message")))
                 | None => mret None
                 end in
   if decide (remote = []) then finish
   else
     header ← received srv [];
     q ← on_world (enqueue (QueueDir (cfg srv)) (s_from s) remote (header ++ raw));
     match q with
     | Err _ => mret (Some (SMTPError 451 (4, 3, 0) (B "Could not queue message for delivery")))
     | Ok _ => finish
     end) s.

Lemma Data_eq rd s :
  Data srv rd s =
    if decide (s_rcpts s = []) then (Some (SMTPError 554 (5, 5, 1) (B "No valid recipients")), s)
    else match ReadAll_limited rd (int64 (MaxMessageBytes (cfg srv) + 1)) with
         | Err e => (Some e, s)
         | Ok raw =>
             if MaxMessageBytes (cfg srv) <? Z.of_nat (length raw) then
               (Some (SMTPError 552 (5, 3, 4) (B "Message exceeds " ++ FormatInt (MaxMessageBytes (cfg srv)) ++ B " bytes")), s)
             else file_message (normaliseLineEndings raw) s
         end.
Proof.
  unfold Data. rewrite (st_bind_eq (gets (λ s, s)) _ s _ _ eq_refl). cbv zeta.
  case_decide; [done |]. destruct (ReadAll_limited _ _); [| done]. by destruct (_ <? _).
Qed.

(** The local half, then the remote half. *)
Lemma file_message_eq raw s :
  ∃ raw' w, rolled (s_world s) w ∧ prepare srv raw s = (raw', set_world w s) ∧ (submission s = false → raw' = raw) ∧
    ∃ le s1, deliver srv raw' (s_rcpts s) [] None (set_world w s) = ((remotes (s_rcpts s), le), s1) ∧
    file_message raw s =
      (if decide (remotes (s_rcpts s) = []) then
         (match le with Some _ => Some (SMTPError 451 (4, 3, 0) (B "Could not store message")) | None => None end, s1)
       else
         let '(header, s2) := received srv [] s1 in
         let '(q, w') := enqueue (QueueDir (cfg srv)) (s_from s) (remotes (s_rcpts s)) (header ++ raw') (s_world s2) in
         (match q with
          | Err _ => Some (SMTPError 451 (4, 3, 0) (B "Could not queue message for delivery"))
          | Ok _ => match le with Some _ => Some (SMTPError 451 (4, 3, 0) (B "Could not store message")) | None => None end
          end, set_world w' s2)).
Proof.
  destruct (prepare_eq srv raw s) as (raw' & w & Hp & Hw & Hs). exists raw', w. split; [done |]. split; [done |]. split; [done |].
  destruct (deliver srv raw' (s_rcpts s) [] None (set_world w s)) as [[remote le] s1] eqn:Hd.
  pose proof (deliver_remote srv raw' (s_rcpts s) [] None (set_world w s)) as Hrem. rewrite Hd in Hrem. simpl in Hrem. subst remote.
  exists le, s1. split; [done |]. unfold file_message. rewrite (st_bind_eq _ _ _ _ _ Hp), (st_bind_eq _ _ _ _ _ Hd).
  destruct (decide (remotes (s_rcpts s) = [])); [by destruct le |].
  destruct (received srv [] s1) as [header s2] eqn:Hr. rewrite (st_bind_eq _ _ _ _ _ Hr).
  destruct (enqueue _ _ _ _ _) as [q w'] eqn:Hq. rewrite (st_bind_eq _ _ _ _ _ (on_world_eq _ _ _ _ Hq)).
  destruct q; [| done]. by destruct le.
Qed.

(** Without remote recipients the queue is left alone. *)
Lemma Data_local rd s x s' :
  (∀ uid, apart (QueueDir (cfg srv)) (mailRoot uid)) → remotes (s_rcpts s) = [] → Data srv rd s = (x, s') →
  ∀ q, QueueDir (cfg srv) `prefix_of` q → w_fs (s_world s') !! q = w_fs (s_world s) !! q.
Proof.
  intros Hap Hnil. rewrite Data_eq. case_decide as Hd; [by intros [= _ <-] |].
  destruct (ReadAll_limited _ _) as [raw | e]; [| by intros [= _ <-]]. destruct (_ <? _); [by intros [= _ <-] |].
  destruct (file_message_eq (normaliseLineEndings raw) s) as (raw' & w & (Hf & _) & _ & _ & le & s1 & Hdl & ->).
  rewrite Hnil, decide_True by done. intros [= _ <-] q Hq.
  eapply deliver_spared in Hdl; [| exact Hap | exact Hq]. by rewrite Hdl, <- Hf.
Qed.

Lemma Data_same r s x s' : Data srv r s = (x, s') → s' = set_world (s_world s') s.
Proof.
  rewrite Data_eq. case_decide as Hnil; [by intros [= _ <-]; rewrite set_world_id |].
  destruct (ReadAll_limited _ _) as [raw | e]; [| by intros [= _ <-]; rewrite set_world_id].
  destruct (_ <? _); [by intros [= _ <-]; rewrite set_world_id |].
  destruct (file_message_eq (normaliseLineEndings raw) s) as (raw' & w & _ & _ & _ & le & s1 & Hdl & ->).
  apply deliver_same in Hdl. cbn [set_world s_world] in Hdl.
  case_decide as Hr; [by intros [= _ <-]; rewrite Hdl at 1 |].
  destruct (received_eq srv [] s1) as (id & w1 & -> & _). destruct (enqueue _ _ _ _ _) as [q w'].
  intros [= _ <-]. by rewrite Hdl.
Qed.

Lemma Rcpt_inv to s r s' :
  Rcpt srv to s = (r, s') →
  ∃ w, w_fs w = w_fs (s_world s) ∧
    (s' = set_world w s ∨
     ∃ x, s' = set_world w (set_message (s_from s) (s_rcpts s ++ [x]) s) ∧ r_addr x = to ∧
       (r_account x = None → submission s = true ∧ s_account s ≠ None ∧ Relay (cfg srv) = true ∧ remote_address to)).
Proof.
  unfold Rcpt. destruct (SplitAddress to) as [[local domain] |] eqn:Hto.
  2: { intros H. st_inv. exists (s_world s). split; [done |]. left. by rewrite set_world_id. }
  destruct (local_domain srv domain) eqn:Hl.
  - intros (x & s1 & Hx & H)%st_bind_inv. apply on_world_inv in Hx as (w & Ha & ->).
    exists w. split; [by eapply FindByID_quiet |]. destruct x as [a |]; [| st_inv; by left].
    unfold add_rcpt in H. st_inv. right. by exists (SmtpRecipient to (Some a)).
  - rewrite (st_bind_eq (gets (λ s, s)) _ s _ _ eq_refl). intros H. exists (s_world s). split; [done |].
    destruct (submission s) eqn:Hs; simpl in H; [| st_inv; left; by rewrite set_world_id].
    case_bool_decide as Ha; [st_inv; left; by rewrite set_world_id |].
    destruct (Relay (cfg srv)) eqn:Hr; simpl in H; [| st_inv; left; by rewrite set_world_id].
    unfold add_rcpt in H. st_inv. right. exists (SmtpRecipient to None). split; [by rewrite <- (set_world_id (set_message _ _ _)) |].
    split; [done |]. intros _. repeat (split; [done |]). by exists local, domain.
Qed.

Lemma Mail_inv from s r s' :
  Mail srv from s = (r, s') →
  (r ≠ None ∧ s' = s) ∨
  (r = None ∧ s' = set_message from [] s ∧ (submission s = true → ∃ a, s_account s = Some a ∧ owns a from)).
Proof.
  unfold Mail. rewrite (st_bind_eq (gets (λ s, s)) _ s _ _ eq_refl).
  destruct (submission s) eqn:Hs; [| intros H; st_inv; by right].
  destruct (s_account s) as [a |] eqn:Ha; [| intros H; st_inv; by left]. cbv zeta.
  destruct (EqualFold _ _) eqn:He; simpl; intros H; st_inv; [| by left]. right. split; [done |]. split; [done |]. intros _. by exists a.
Qed.

(** The invariant is kept by every command. *)
Lemma session_ok_step sub m s e r s' :
  session_ok sub m s → allowed m s e → smtp_handle srv e s = (r, s') → session_ok sub (mail_open m e r) s'.
Proof.
  intros [H1 H2 H3 H4] Hal H. destruct e as [mech client | from | to | rd | |].
  - apply auth_inv in H as [(w & _ & H) Hsub]. simpl in Hal. destruct r as [e |].
    + subst s'. by split.
    + destruct H as (a & Hl & ->). specialize (Hsub eq_refl). rewrite H1 in Hsub. split; simpl; [done | | |].
      * by intros a' [= <-].
      * intros x Hx Hn. destruct (H3 x Hx Hn) as (? & ? & ? & ?). by repeat split.
      * intros Ht Hm. destruct (H4 Ht Hm) as (b & Hb & _). congruence.
  - unfold smtp_handle in H. rewrite (st_bind_eq (gets (λ s, s)) _ s _ _ eq_refl) in H.
    apply Mail_inv in H as [[Hr ->] | (-> & -> & Ho)].
    + destruct r; [by split | done].
    + split; simpl; [done | done | by intros x Hx%elem_of_nil | rewrite <- H1; intros Ht _; by apply Ho].
  - unfold smtp_handle in H. rewrite (st_bind_eq (gets (λ s, s)) _ s _ _ eq_refl) in H.
    apply Rcpt_inv in H as (w & _ & [-> | (x & -> & Hx & Hn)]); [by split |].
    split; simpl; [done | done | | done]. intros y [Hy | ->%list_elem_of_singleton]%elem_of_app; [by apply H3 |].
    rewrite Hx, <- H1. exact Hn.
  - unfold smtp_handle in H. rewrite (st_bind_eq (gets (λ s, s)) _ s _ _ eq_refl) in H.
    apply Data_same in H as ->. by split.
  - unfold smtp_handle, Reset in H. rewrite (st_bind_eq (gets (λ s, s)) _ s _ _ eq_refl) in H. st_inv.
    split; simpl; [done | done | by intros x Hx%elem_of_nil | done].
  - unfold smtp_handle, Logout in H. rewrite (st_bind_eq (gets (λ s, s)) _ s _ _ eq_refl) in H. st_inv. by split.
Qed.

Lemma reach_ok sub c m s : reach sub c m s → session_ok sub m s.
Proof.
  induction 1 as [w | m s w _ [H1 H2 H3 H4] | m s e r s' _ IH Hal H].
  - split; simpl; [done | done | by intros x Hx%elem_of_nil | done].
  - by split.
  - by eapply session_ok_step.
Qed.

(** C3: No open relay.  In every session the engine can reach, whatever the
    client sends, whatever fails and whatever other connections do in between,
    a command changes the queue of outgoing mail only if it is DATA on the
    submission listener, relaying is enabled, the user store accepted a
    password for the session's account, MAIL named that account's own address,
    and every recipient to be relayed is at a foreign domain. *)
Theorem no_open_relay sub c m s e r s' :
  (∀ uid, apart (QueueDir (cfg srv)) (mailRoot uid)) →
  reach sub c m s → allowed m s e → smtp_handle srv e s = (r, s') →
  (∀ q, QueueDir (cfg srv) `prefix_of` q → w_fs (s_world s') !! q = w_fs (s_world s) !! q) ∨
  sub = true ∧ Relay (cfg srv) = true ∧ (∃ rd, e = EvData rd) ∧
  (∃ a, s_account s = Some a ∧ logged_in a ∧ owns a (s_from s)) ∧
  Forall remote_address (remotes (s_rcpts s)).
Proof.
  intros Hap Hr Hal H. apply reach_ok in Hr as [H1 H2 H3 H4]. destruct e as [mech client | from | to | rd | |].
  - left. intros q _. apply auth_inv in H as [(w & Hf & Hx) _]. rewrite <- Hf.
    destruct r; [by subst s' | by destruct Hx as (a & _ & ->)].
  - left. intros q _. unfold smtp_handle in H. rewrite (st_bind_eq (gets (λ s, s)) _ s _ _ eq_refl) in H.
    by apply Mail_inv in H as [[_ ->] | (_ & -> & _)].
  - left. intros q _. unfold smtp_handle in H. rewrite (st_bind_eq (gets (λ s, s)) _ s _ _ eq_refl) in H.
    apply Rcpt_inv in H as (w & Hf & [-> | (x & -> & _)]); by rewrite <- Hf.
  - assert (∀ x, x ∈ remotes (s_rcpts s) →
      sub = true ∧ s_account s ≠ None ∧ Relay (cfg srv) = true ∧ remote_address x) as Hrem.
    { intros x (y & Hy & Hx)%list_elem_of_omap. destruct (r_account y) eqn:Ey; [done |]. injection Hx as <-. by apply H3. }
    destruct (decide (remotes (s_rcpts s) = [])) as [Hnil | Hne].
    + left. unfold smtp_handle in H. rewrite (st_bind_eq (gets (λ s, s)) _ s _ _ eq_refl) in H.
      eapply Data_local; [exact Hap | exact Hnil | exact H].
    + right. destruct (remotes (s_rcpts s)) as [| x l] eqn:E; [done |].
      destruct (Hrem x) as (Hsub & _ & Hrel & _); [by left |]. split; [done |]. split; [done |]. split; [by eexists |]. split.
      * destruct (H4 Hsub Hal) as (a & Ha & Ho). exists a. split; [done |]. split; [by apply H2 | done].
      * apply Forall_forall. intros y Hy. by apply Hrem.
  - left. intros q _. unfold smtp_handle, Reset in H. rewrite (st_bind_eq (gets (λ s, s)) _ s _ _ eq_refl) in H. by st_inv.
  - left. intros q _. unfold smtp_handle, Logout in H. rewrite (st_bind_eq (gets (λ s, s)) _ s _ _ eq_refl) in H. by st_inv.
Qed.
End Quiet.

(** ** The message *)

Section Message.
Context (Hlimit : 0 <= MaxMessageBytes (cfg srv) < 2 ^ 63 - 1).

(** The message fits, and the reader ends without an error. *)
Definition fits (rd : reader) : Prop := Z.of_nat (length (r_bytes rd)) <= MaxMessageBytes (cfg srv).

Lemma ReadAll_fits rd :
  fits rd → ReadAll_limited rd (int64 (MaxMessageBytes (cfg srv) + 1)) =
    match r_err rd with None => Ok (r_bytes rd) | Some e => Err e end.
Proof.
  intros Hf. unfold fits in Hf. rewrite int64_id by (unfold is_int64; lia). unfold ReadAll_limited.
  rewrite (proj2 (Z.leb_gt _ 0)) by lia. by rewrite (proj2 (Z.leb_gt _ _)) by lia.
Qed.

Lemma ReadAll_large rd :
  ¬ fits rd → ReadAll_limited rd (int64 (MaxMessageBytes (cfg srv) + 1)) =
    Ok (take (Z.to_nat (MaxMessageBytes (cfg srv) + 1)) (r_bytes rd)).
Proof.
  intros Hf. unfold fits in Hf. rewrite int64_id by (unfold is_int64; lia). unfold ReadAll_limited.
  rewrite (proj2 (Z.leb_gt _ 0)) by lia. by rewrite (proj2 (Z.leb_le _ _)) by lia.
Qed.

Lemma too_large rd :
  ¬ fits rd →
  (MaxMessageBytes (cfg srv) <? Z.of_nat (length (take (Z.to_nat (MaxMessageBytes (cfg srv) + 1)) (r_bytes rd)))) = true.
Proof.
  unfold fits. intros Hf%Z.nle_gt. apply Z.ltb_lt. rewrite length_take, Nat2Z.inj_min, Z2Nat.id by lia. lia.
Qed.

Lemma Data_fits rd s :
  fits rd → r_err rd = None → s_rcpts s ≠ [] → Data srv rd s = file_message (normaliseLineEndings (r_bytes rd)) s.
Proof.
  intros Hf He Hr. rewrite Data_eq, decide_False, ReadAll_fits, He by done. unfold fits in Hf.
  by destruct (_ <? _) eqn:E; [lia |].
Qed.

(** Refusals of DATA: without recipients 554, for a message over the limit
    552 (however long the client goes on), for a connection that breaks off
    the error of the reader; in all three cases nothing at all has changed. *)
Lemma Data_refuses rd s :
  (s_rcpts s = [] → Data srv rd s = (Some (SMTPError 554 (5, 5, 1) (B "No valid recipients")), s)) ∧
  (s_rcpts s ≠ [] → ¬ fits rd →
    Data srv rd s = (Some (SMTPError 552 (5, 3, 4) (B "Message exceeds " ++ FormatInt (MaxMessageBytes (cfg srv)) ++ B " bytes")), s)) ∧
  (∀ e, s_rcpts s ≠ [] → fits rd → r_err rd = Some e → Data srv rd s = (Some e, s)).
Proof.
  rewrite Data_eq. split; [| split].
  - intros ->. by rewrite decide_True.
  - intros Hr Hf. rewrite decide_False, ReadAll_large by done. by rewrite too_large.
  - intros e Hr Hf He. by rewrite decide_False, ReadAll_fits, He.
Qed.

Context (D : gset Z) (Hap : ∀ uid, apart (QueueDir (cfg srv)) (mailRoot uid)) (Hq : Forall plain (QueueDir (cfg srv))).

(** The situation before DATA: the inboxes of the local recipients have room,
    and the queue directory is usable. *)
Record ready (s : smtpSession) (boxes : Z → option mailbox) : Prop := {
  rd_boxes : inboxes (s_world s) D boxes (length (s_rcpts s));
  rd_locals a : a ∈ locals (s_rcpts s) → acc_UID a ∈ D;
  rd_clock : clock_ok (s_world s);
  rd_queue : dir_ok (w_fs (s_world s)) (QueueDir (cfg srv));
}.

Lemma ready_rolled s boxes w : rolled (s_world s) w → ready s boxes → ready (set_world w s) boxes.
Proof.
  intros Hr [H1 H2 H3 H4]. split; cbn [s_world set_world].
  - by eapply inboxes_rolled.
  - done.
  - unfold clock_ok. destruct Hr as (_ & -> & _). exact H3.
  - by destruct Hr as (-> & _).
Qed.

(** What is true of the file tree when a message was accepted. *)
Definition accepted (s : smtpSession) (boxes : Z → option mailbox) (raw : bytes) (f : tree) : Prop :=
  let now := w_now (s_world s) in
  (∃ ids, length ids = length (s_rcpts s) ∧ ∀ uid, uid ∈ D →
    at_dir f (mailboxDir uid Inbox) (filed srv s raw now (zip (s_rcpts s) ids) uid (boxes uid))) ∧
  (remotes (s_rcpts s) ≠ [] → ∃ id tid,
    queued (QueueDir (cfg srv)) f (QueueEntry id (s_from s) (remotes (s_rcpts s)) 0 now now []) (trace srv s [] tid now ++ raw)).

Lemma file_message_inv raw s boxes s' :
  ready s boxes → file_message raw s = (None, s') →
  ∃ raw' s1, prepare srv raw s = (raw', s1) ∧ accepted s boxes raw' (w_fs (s_world s')).
Proof.
  intros Hrd H. destruct (file_message_eq raw s) as (raw' & w & Hw & Hp & _ & le & s1 & Hd & Heq).
  exists raw', (set_world w s). split; [done |]. rewrite Heq in H. clear Heq.
  apply (ready_rolled _ _ _ Hw) in Hrd as [H1 H2 H3 H4]. cbn [s_rcpts set_world] in H1, H2.
  assert (le = None) as ->.
  { destruct le; [| done]. case_decide; [done |]. destruct (received _ _ _) as [h s2]. by destruct (enqueue _ _ _ _ _) as [[] w']. }
  destruct (deliver_inv srv D (QueueDir (cfg srv)) Hap raw' (s_rcpts s) [] (set_world w s) boxes _ _ H1 H2 H3 H4 Hd eq_refl)
    as (Hn & Hok & ids & Hids & Hat). cbn [s_world set_world] in Hn, Hok, Hat.
  destruct Hw as (_ & Hnw & _). rewrite Hnw in Hn, Hat. unfold accepted. cbv zeta.
  case_decide as Hrem.
  - injection H as <-. split; [| by intros Hx]. exists ids. split; [done |]. intros uid Hu. rewrite <- (filed_world srv s w). by apply Hat.
  - destruct (received_eq srv [] s1) as (tid & w2 & Hr & Hf2 & Hn2 & _). rewrite Hr in H. cbn [s_world set_world] in H.
    destruct (enqueue _ _ _ _ w2) as [q w3] eqn:He. destruct q as [[] | e]; [| done]. injection H as <-. cbn [s_world set_world].
    rewrite <- Hf2 in Hok. destruct (enqueue_outside _ _ _ _ _ _ _ Hq Hok He) as [Hok3 Ho]. split.
    + exists ids. split; [done |]. intros uid Hu. rewrite <- (filed_world srv s w).
      eapply at_dir_apart; [| rewrite <- Hf2 in Hat; by apply Hat | apply Hok3 | exact Ho].
      rewrite mailboxDir_eq by apply inbox_ok. apply apart_sym. eapply apart_below; [apply Hap | by eexists].
    + intros _. apply enqueue_Ok in He as [id He]; [| done]. exists id, tid.
      rewrite Hn2, Hn in He. assert (∀ n, trace srv s1 [] tid n = trace srv s [] tid n) as Htr.
      { intros n. by rewrite (deliver_same _ _ _ _ _ _ _ _ Hd). }
      by rewrite Htr in He.
Qed.

(** C4: An accepted message is delivered.  Whatever system calls fail, when
    DATA answers with success the message was complete and within the limit,
    the inbox of every local recipient holds one more copy per time it was
    named, each under a trace header of its own, and if there are remote
    recipients the queue holds the message for exactly these. *)
Theorem Data_durable rd s s' boxes :
  ready s boxes → Data srv rd s = (None, s') →
  fits rd ∧ r_err rd = None ∧
  ∃ raw s1, prepare srv (normaliseLineEndings (r_bytes rd)) s = (raw, s1) ∧ accepted s boxes raw (w_fs (s_world s')).
Proof.
  intros Hrd H. pose proof H as H'. rewrite Data_eq in H'. case_decide as Hnil; [done |].
  destruct (decide (fits rd)) as [Hf | Hf].
  - rewrite ReadAll_fits in H' by done. destruct (r_err rd) eqn:He; [done |]. split; [done |]. split; [done |].
    rewrite Data_fits in H by done. by eapply file_message_inv.
  - rewrite ReadAll_large in H' by done. by rewrite too_large in H'.
Qed.

(** On a healthy system a complete message within the limit, for at least
    one recipient, is always accepted. *)
Lemma Data_accepts rd s boxes :
  ready s boxes → healthy (s_world s) → fits rd → r_err rd = None → s_rcpts s ≠ [] →
  ∃ s', Data srv rd s = (None, s').
Proof.
  intros Hrd Hh Hf He Hr. rewrite Data_fits by done.
  destruct (file_message_eq (normaliseLineEndings (r_bytes rd)) s) as (raw' & w & Hw & Hp & _ & le & s1 & Hd & Heq).
  rewrite Heq. clear Heq. apply (ready_rolled _ _ _ Hw) in Hrd as [H1 H2 H3 H4]. cbn [s_rcpts set_world] in H1, H2.
  assert (healthy w) as Hhw by (destruct Hw as (_ & _ & Hx); unfold healthy; by rewrite Hx).
  destruct (deliver_healthy srv D raw' (s_rcpts s) [] (set_world w s) boxes H1 H2 H3 Hhw) as [Hle Hh1].
  rewrite Hd in Hle, Hh1. simpl in Hle. subst le. cbn [snd] in Hh1.
  case_decide as Hrem; [by eexists |].
  destruct (deliver_inv srv D (QueueDir (cfg srv)) Hap raw' (s_rcpts s) [] (set_world w s) boxes _ _ H1 H2 H3 H4 Hd eq_refl)
    as (_ & Hok & _).
  destruct (received_eq srv [] s1) as (tid & w2 & -> & Hf2 & _ & Hx2). cbn [s_world set_world].
  rewrite <- Hf2 in Hok. assert (healthy w2) as Hh2 by (unfold healthy; by rewrite Hx2).
  destruct (enqueue_healthy _ (s_from s) (remotes (s_rcpts s)) (trace srv s1 [] tid (w_now (s_world s1)) ++ raw') w2 Hq Hok Hh2) as (w3 & -> & _).
  by eexists.
Qed.

(** Why DATA refuses a message, if it does. *)
Definition refusal (rd : reader) (s : smtpSession) : option error :=
  if decide (s_rcpts s = []) then Some (SMTPError 554 (5, 5, 1) (B "No valid recipients"))
  else if decide (Z.of_nat (length (r_bytes rd)) <= MaxMessageBytes (cfg srv)) then r_err rd
  else Some (SMTPError 552 (5, 3, 4) (B "Message exceeds " ++ FormatInt (MaxMessageBytes (cfg srv)) ++ B " bytes")).

(** C24: What DATA answers on a healthy system: 554 without recipients, 552
    for a message over the limit (however long the client goes on), the
    error of the connection if it breaks off before, and in these cases
    nothing at all has changed; success in every other case, whether the
    recipients are local, remote or both. *)
Theorem Data_answers rd s boxes :
  ready s boxes → healthy (s_world s) →
  match refusal rd s with
  | Some e => Data srv rd s = (Some e, s)
  | None => ∃ s', Data srv rd s = (None, s')
  end.
Proof.
  intros Hrd Hh. destruct (Data_refuses rd s) as (H1 & H2 & H3). unfold refusal. case_decide as Hr; [by apply H1 |].
  case_decide as Hf; [| by apply H2]. destruct (r_err rd) as [e |] eqn:He; [by apply H3 | by eapply Data_accepts].
Qed.

End Message.

(** C40: The largest limit swallows every message.  The configuration accepts
    9223372036854775807 as MAIL_MAX_MESSAGE_BYTES; then the limit plus one
    wraps to a negative number, nothing is read of any message, and DATA does
    with it what it does with the empty message: it is accepted and delivered
    without its content. *)
Theorem largest_limit_truncates rd s :
  MaxMessageBytes (cfg srv) = 2 ^ 63 - 1 → Data srv rd s = Data srv (Reader [] None) s.
Proof. intros H. rewrite !Data_eq, H. done. Qed.

(** ** Authentication *)

(** The user name and password of a LOGIN exchange; the engine may ask for
    the name more than once. *)
Fixpoint login_replies (responses : list (option bytes)) : option (bytes * bytes) :=
  match responses with
  | Some username :: password :: _ => Some (username, default [] password)
  | None :: responses => login_replies responses
  | _ => None
  end.

(** What the client claims, by mechanism. *)
Definition claimed (mech : bytes) (client : sasl_client) : option (bytes * bytes) :=
  if decide (mech = sasl_Plain) then
    let '(authzid, username, password) := cl_plain client in
    if decide (authzid = [] ∨ authzid = username) then Some (username, password) else None
  else login_replies (cl_login client).

Section Directory.
Context {Dr : Directory Acc}.

Lemma authenticate_healthy username password s :
  holds (w_fs (s_world s)) → healthy (s_world s) →
  authenticate srv username password s =
    match dir_login (login_name srv username) password with
    | Some a => (None, set_account a s)
    | None => (Some ErrAuthFailed, s)
    end.
Proof.
  intros Hd Hh. unfold authenticate, mail_login.
  rewrite (st_bind_eq _ _ _ _ _ (on_world_eq _ _ _ _ (Authenticate_healthy (login_name srv username) password _ Hd Hh))).
  rewrite set_world_id. by destruct (dir_login _ _).
Qed.

Lemma login_exchange_healthy responses s :
  holds (w_fs (s_world s)) → healthy (s_world s) →
  login_exchange srv newLoginServer responses s =
    match login_replies responses with
    | Some (username, password) => authenticate srv username password s
    | None => (Some ErrAuthFailed, s)
    end.
Proof.
  intros Hd Hh. induction responses as [| [u |] responses IH]; [done | | exact IH].
  destruct responses as [| p responses]; [done |].
  destruct (authenticate srv u (default [] p) s) as [r s1] eqn:Ha.
  assert (login_exchange srv (LoginServer u 1) (p :: responses) s = (r, s1)) as Hx.
  { cbn [login_exchange]. assert (Next srv (LoginServer u 1) p s =
      (match r with Some e => (LoginServer u 1, inl e) | None => (LoginServer u 2, inr ([], true)) end, s1)) as Hn.
    { unfold Next. cbn [step username Z.eqb Pos.eqb]. rewrite (st_bind_eq _ _ _ _ _ Ha). by destruct r. }
    rewrite (st_bind_eq _ _ _ _ _ Hn). by destruct r. }
  cbn [login_replies]. rewrite Ha. exact Hx.
Qed.

(** C16: Authentication.  The exchanger never authenticates; on the submission
    listener PLAIN and LOGIN both succeed exactly when the directory accepts
    the claimed name (with the domain of this server cut off) and password,
    the session then belongs to that account and is otherwise unchanged; a
    PLAIN client that asks to act for another name is refused, and so is
    every other mechanism. *)
Theorem auth_correct mech client s :
  holds (w_fs (s_world s)) → healthy (s_world s) →
  smtp_handle srv (EvAuth mech client) s =
    if negb (submission s) then (Some ErrAuthUnsupported, s)
    else if decide (mech = sasl_Plain ∨ mech = sasl_Login) then
      match claimed mech client ≫= (λ up, dir_login (login_name srv up.1) up.2) with
      | Some a => (None, set_account a s)
      | None => (Some ErrAuthFailed, s)
      end
    else (Some ErrAuthUnknownMechanism, s).
Proof.
  intros Hd Hh. unfold smtp_handle. rewrite (st_bind_eq (gets (λ s, s)) _ s _ _ eq_refl). unfold Auth, claimed.
  destruct (submission s); cbn [negb]; cbv iota; [| done]. destruct (decide (mech = sasl_Plain)) as [-> | Hp].
  - rewrite decide_True by (by left). destruct (cl_plain client) as [[authzid user] pw]. unfold plain_authenticate.
    destruct (decide (authzid = [] ∨ authzid = user)) as [Hi | Hi].
    + rewrite decide_False by tauto. by rewrite authenticate_healthy.
    + rewrite decide_True by tauto. done.
  - destruct (decide (mech = sasl_Login)) as [-> | Hl].
    + rewrite decide_True by (by right). rewrite login_exchange_healthy by done.
      destruct (login_replies _) as [[user pw] |]; [| done]. by rewrite authenticate_healthy.
    + by rewrite decide_False by tauto.
Qed.

End Directory.

(** ** What is not checked *)

(** The From header of a submitted message is only filled in, never compared
    with the account: a message that has its own Date, Message-ID and From
    goes out as it is. *)
Theorem from_header_unchecked raw has s :
  dkim srv = None → ReadHeader raw = Some has →
  has (B "Date") = true → has (B "Message-ID") = true → has (B "From") = true → prepare srv raw s = (raw, s).
Proof.
  intros Hk Hh H1 H2 H3. unfold prepare. rewrite (st_bind_eq (gets (λ s, s)) _ s _ _ eq_refl).
  destruct (submission s); [| done].
  assert (stampSubmission srv raw s = (raw, s)) as Hs.
  { unfold stampSubmission. rewrite Hh, (st_bind_eq _ _ _ _ _ (on_world_eq Now s _ _ eq_refl)), set_world_id. cbv zeta.
    rewrite H1, H2, (st_bind_eq (mret []) _ s [] s eq_refl), (st_bind_eq (gets (λ s, s)) _ s _ _ eq_refl).
    by destruct (s_account s); rewrite ?H3. }
  rewrite (st_bind_eq _ _ _ _ _ Hs).
  assert (sign srv raw (s_world s) = (Ok raw, s_world s)) as Hg by (unfold sign; by rewrite Hk).
  rewrite (st_bind_eq _ _ _ _ _ (on_world_eq _ s _ _ Hg)). by rewrite set_world_id.
Qed.
End Spec.

(** ** A submission session on the fixtures *)

#[export] Instance smtp_replies : SmtpLibrary := {|
  ErrAuthRequired := SMTPError 502 (5, 7, 0) (B "Please authenticate first");
  ErrAuthUnsupported := SMTPError 502 (5, 7, 0) (B "Authentication not supported");
  ErrAuthFailed := SMTPError 535 (5, 7, 8) (B "Authentication failed");
  ErrAuthUnknownMechanism := SMTPError 504 (5, 7, 4) (B "Unsupported authentication mechanism");
  sasl_Plain := B "PLAIN";
  sasl_Login := B "LOGIN";
|}.
(** Every line is a header field; nothing is signed. *)
#[export] Instance line_headers : MessageLibrary := {|
  ReadHeader raw := Some (λ key, existsb (λ l, HasPrefix l (key ++ B ":")) (Split raw LF));
  dkim_Sign _ _ _ _ raw := Ok raw;
|}.
#[export] Instance greenwich : Zone := {| zone_offset _ := 0 |}.

Definition client_conn : smtpConn := SmtpConn (B "laptop") (Some (B "192.0.2.7:50123")) false.
Definition login_alice : smtp_event :=
  EvAuth (B "LOGIN") (SaslClient ([], [], []) [None; Some (B "alice_1@example.org"); Some (B "pa55word")]).
Definition mail_alice : smtp_event := EvMail (B "Alice_1@example.org").
Definition rcpt_alice : smtp_event := EvRcpt (B "alice_1@example.net").
Definition rcpt_carol : smtp_event := EvRcpt (B "carol@example.com").
Definition body_event : reader := Reader (B "Subject: hi" ++ [LF; LF] ++ B "hello" ++ [LF]) None.

Definition step_session (e : smtp_event) (s : smtpSession) : smtpSession := (smtp_handle queue_server e s).2.
Definition session0 : smtpSession := NewSession true client_conn two_world.
Definition session1 : smtpSession := step_session login_alice session0.
Definition session2 : smtpSession := step_session mail_alice session1.
Definition session3 : smtpSession := step_session rcpt_alice session2.
Definition session4 : smtpSession := step_session rcpt_carol session3.

Lemma session4_eq :
  session4 = SmtpSession true client_conn (Some alice_account) (B "Alice_1@example.org")
    [SmtpRecipient (B "alice_1@example.net") (Some alice_account); SmtpRecipient (B "carol@example.com") None] two_world.
Proof. vm_compute. reflexivity. Qed.

Lemma session4_reach : reach queue_server true client_conn true session4.
Proof.
  assert (∀ e s, smtp_handle queue_server e s = ((smtp_handle queue_server e s).1, step_session e s)) as Hs
    by (intros e s; apply surjective_pairing).
  apply (reach_step _ _ _ true session3 rcpt_carol (smtp_handle queue_server rcpt_carol session3).1); [| done | apply Hs].
  apply (reach_step _ _ _ true session2 rcpt_alice (smtp_handle queue_server rcpt_alice session2).1); [| done | apply Hs].
  assert ((smtp_handle queue_server mail_alice session1).1 = None) as Hm by (vm_compute; reflexivity).
  change true with (mail_open false mail_alice None) at 2. rewrite <- Hm.
  apply (reach_step _ _ _ false session1 mail_alice _ session2); [| done | apply Hs].
  apply (reach_step _ _ _ false session0 login_alice (smtp_handle queue_server login_alice session0).1); [| done | apply Hs].
  apply reach_new.
Qed.

Lemma queue_server_apart uid : apart (QueueDir (cfg queue_server)) (mailRoot uid).
Proof.
  assert (QueueDir (cfg queue_server) = [B "data"; B "queue"]) as -> by (vm_compute; reflexivity).
  rewrite mailRoot_eq. unfold mail_accounts. cbn [accounts_UserDir UserStore_accounts].
  rewrite UserDir_eq by (by apply (bool_decide_unpack _)).
  split; intros [r Hr]; simpl in Hr; discriminate Hr.
Qed.

Lemma no_open_relay_witness :
  let s := session4 in let s' := (smtp_handle queue_server (EvData body_event) s).2 in
  ((∀ q, QueueDir (cfg queue_server) `prefix_of` q → w_fs (s_world s') !! q = w_fs (s_world s) !! q) ∨
   true = true ∧ Relay (cfg queue_server) = true ∧ (∃ rd, EvData body_event = EvData rd) ∧
   (∃ a, s_account s = Some a ∧ logged_in a ∧ owns queue_server a (s_from s)) ∧
   Forall (remote_address queue_server) (remotes (s_rcpts s))) ∧
  remotes (s_rcpts s) = [B "carol@example.com"].
Proof.
  split; [| vm_compute; reflexivity].
  apply (no_open_relay queue_server true client_conn true session4 (EvData body_event)
    (smtp_handle queue_server (EvData body_event) session4).1); [apply queue_server_apart | apply session4_reach | done |].
  apply surjective_pairing.
Defined.

Lemma limit_ok : 0 <= MaxMessageBytes (cfg queue_server) < 2 ^ 63 - 1.
Proof. split; by vm_compute. Qed.

Lemma session4_ready : ready queue_server {[1]} session4 (λ _, None).
Proof.
  rewrite session4_eq. split; cbn [s_world s_rcpts].
  - intros uid ->%elem_of_singleton. split; [apply no_mail, inbox_good | by vm_compute].
  - intros a Ha. apply list_elem_of_singleton in Ha as ->. by apply elem_of_singleton.
  - apply two_world_clock.
  - assert (QueueDir (cfg queue_server) = [B "data"; B "queue"]) as -> by (vm_compute; reflexivity). apply two_world_queue.
Qed.

Lemma body_fits : fits queue_server body_event.
Proof. unfold fits. by vm_compute. Qed.

Lemma queue_server_plain : Forall plain (QueueDir (cfg queue_server)).
Proof.
  assert (QueueDir (cfg queue_server) = [B "data"; B "queue"]) as -> by (vm_compute; reflexivity).
  by apply (bool_decide_unpack _).
Qed.

Lemma Data_answers_witness :
  (∃ s', Data queue_server body_event session4 = (None, s')) ∧
  Data queue_server (Reader (B "hi") (Some os_ErrIO)) session4 = (Some os_ErrIO, session4).
Proof.
  assert (healthy (s_world session4)) as Hh by (rewrite session4_eq; apply two_world_ok).
  split.
  - assert (refusal queue_server body_event session4 = None) as Hr by (vm_compute; reflexivity).
    pose proof (Data_answers queue_server limit_ok {[1]} queue_server_apart queue_server_plain body_event session4 (λ _, None) session4_ready Hh) as H.
    rewrite Hr in H. exact H.
  - assert (refusal queue_server (Reader (B "hi") (Some os_ErrIO)) session4 = Some os_ErrIO) as Hr by (vm_compute; reflexivity).
    pose proof (Data_answers queue_server limit_ok {[1]} queue_server_apart queue_server_plain (Reader (B "hi") (Some os_ErrIO))
      session4 (λ _, None) session4_ready Hh) as H.
    rewrite Hr in H. exact H.
Defined.

Lemma Data_durable_witness :
  let s' := (Data queue_server body_event session4).2 in
  ∃ raw s1, prepare queue_server (normaliseLineEndings (r_bytes body_event)) session4 = (raw, s1) ∧
    accepted queue_server {[1]} session4 (λ _, None) raw (w_fs (s_world s')).
Proof.
  assert (Data queue_server body_event session4 = (None, (Data queue_server body_event session4).2)) as H.
  { assert ((Data queue_server body_event session4).1 = None) as H1 by (vm_compute; reflexivity).
    rewrite <- H1. apply surjective_pairing. }
  destruct (Data_durable queue_server limit_ok {[1]} queue_server_apart queue_server_plain body_event session4 _ (λ _, None)
    session4_ready H) as (_ & _ & Hacc).
  exact Hacc.
Defined.

Definition huge_config : Config :=
  match ConfigFromEnv {[B "MAIL_DOMAIN" := B "example.org"; B "MAIL_MAX_MESSAGE_BYTES" := B "9223372036854775807"]} with
  | inr c => c
  | inl _ => mail_config
  end.
Definition huge_server : Server := NewServer huge_config None None.

Lemma largest_limit_truncates_witness :
  Data huge_server body_event session4 = Data huge_server (Reader [] None) session4.
Proof. apply (largest_limit_truncates huge_server). vm_compute. reflexivity. Defined.

Lemma auth_correct_witness : smtp_handle queue_server login_alice session0 = (None, set_account alice_account session0).
Proof.
  assert (holds (w_fs (s_world session0))) as Hd by apply two_world_holds.
  assert (healthy (s_world session0)) as Hh by apply two_world_ok.
  pose proof (auth_correct queue_server (B "LOGIN") (SaslClient ([], [], []) [None; Some (B "alice_1@example.org"); Some (B "pa55word")])
    session0 Hd Hh) as H.
  unfold login_alice. rewrite H. vm_compute. reflexivity.
Defined.
