(* ===== verification/Delivery.v ===== *)
(** * Delivery: DATA of many connections at once ([Data] of [mail/smtp.go])

    [Data] takes the store's mutex once per local recipient and the queue's
    mutex once at the end; in between, other connections run.  Here it is cut
    at these points: a [data_phase] is what the goroutine still has to do, and
    [data_step] does one piece of it. *)

From S2P Require Import Prelude GoStrings Strconv World Accounts Flags MailStore Token Config GoNet MailServer Relay Smtp.

(** In the loop over the recipients, with the recipients to come and the
    variables of the loop; or answered. *)
Inductive data_phase :=
| Filing (raw : bytes) (todo : list smtpRecipient) (remote : list bytes) (localErr : option error)
| Answered (answer : option error).

Section Delivery.
Context {U : UnicodeTables} {Acc : Accounts} {Zo : Zone} {Sl : SmtpLibrary} {Ml : MessageLibrary} (srv : Server).

Definition localResult (localErr : option error) : option error :=
  match localErr with
  | Some _ => Some (SMTPError 451 (4, 3, 0) (B "Could not store message"))
  | None => None
  end.

(** [Data] up to the loop. *)
Definition begin_data (r : reader) : Ses data_phase :=
  s ← gets (λ s, s);
  if decide (s_rcpts s = []) then mret (Answered (Some (SMTPError 554 (5, 5, 1) (B "No valid recipients"))))
  else
    let limit := MaxMessageBytes (cfg srv) in
    match ReadAll_limited r (int64 (limit + 1)) with
    | Err e => mret (Answered (Some e))
    | Ok raw =>
        if limit <? Z.of_nat (length raw) then
          mret (Answered (Some (SMTPError 552 (5, 3, 4) (B "Message exceeds " ++ FormatInt limit ++ B " bytes"))))
        else raw ← prepare srv (normaliseLineEndings raw); mret (Filing raw (s_rcpts s) [] None)
    end.

(** One recipient; after the last one, the queue and the answer. *)
Definition data_step (d : data_phase) : Ses data_phase :=
  match d with
  | Filing raw (rcpt :: todo) remote localErr =>
      header ← received srv (r_addr rcpt);
      match r_account rcpt with
      | None => mret (Filing raw todo (remote ++ [r_addr rcpt]) localErr)
      | Some account =>
          now ← on_world Now;
          r ← on_world (Append (acc_UID account) Inbox [] now (header ++ raw));
          mret (Filing raw todo remote (match r with Err e => Some e | Ok _ => localErr end))
      end
  | Filing raw [] remote localErr =>
      if decide (remote = []) then mret (Answered (localResult localErr))
      else
        s ← gets (λ s, s);
        header ← received srv [];
        q ← on_world (enqueue (QueueDir (cfg srv)) (s_from s) remote (header ++ raw));
        mret (Answered (match q with
                        | Err _ => Some (SMTPError 451 (4, 3, 0) (B "Could not queue message for delivery"))
                        | Ok _ => localResult localErr
                        end))
  | Answered e => mret (Answered e)
  end.

(** Steps until the answer; [fuel] is one step per recipient and one more. *)
Fixpoint run_delivery (fuel : nat) (d : data_phase) : Ses data_phase :=
  match fuel with O => mret d | S fuel => d ← data_step d; run_delivery fuel d end.

(** ** Connections over one world *)

(** A connection; its session's world is the one it last saw. *)
Record client := Client { cl_session : smtpSession; cl_delivery : data_phase }.
Record system := System { sys_world : world; sys_clients : list client }.

(** Some time passes, then the [i]-th connection moves. *)
Definition move (y : system) (m : nat * Z) : system :=
  let '(i, dt) := m in
  let w := set_now (w_now (sys_world y) + dt) (sys_world y) in
  match sys_clients y !! i with
  | None => System w (sys_clients y)
  | Some c =>
      let '(d, s) := data_step (cl_delivery c) (set_world w (cl_session c)) in
      System (s_world s) (<[i := Client s d]> (sys_clients y))
  end.
Definition play (schedule : list (nat * Z)) (y : system) : system := fold_left move schedule y.

End Delivery.
