(* ===== verification/DeliverySpec.v ===== *)
(** * DeliverySpec: DATA of many connections at once

    Cut into its critical sections, DATA is still DATA; and however the
    sections of several connections interleave, every connection gets its
    message into every inbox, no delivery overwrites another, and no
    connection waits for the others. *)

From S2P Require Import Prelude GoStrings Strconv World WorldFacts Accounts AccountsFacts Flags MailStore.
From S2P Require Import MailNames MailFacts Token Config GoNet MailServer Relay RelayFacts Smtp SmtpFacts SmtpSpec Delivery.

Section Spec.
Context {U : UnicodeTables} {Acc : Accounts} {Laws : AccountsLaws Acc} {Zo : Zone} {Sl : SmtpLibrary} {Ml : MessageLibrary}.
Context (srv : Server).

(** ** The pieces make up DATA *)

Lemma run_answered fuel e s : run_delivery srv fuel (Answered e) s = (Answered e, s).
Proof. induction fuel as [| fuel IH]; [done |]. cbn [run_delivery]. by rewrite (st_bind_eq _ _ s (Answered e) s eq_refl). Qed.

Lemma last_answers raw remote localErr s : ∃ e s', data_step srv (Filing raw [] remote localErr) s = (Answered e, s').
Proof.
  cbn [data_step]. case_decide; [by eexists _, _ |]. rewrite (st_bind_eq (gets (λ s, s)) _ s _ _ eq_refl).
  destruct (received srv [] s) as [header s1] eqn:Hr. rewrite (st_bind_eq _ _ _ _ _ Hr).
  destruct (enqueue (QueueDir (cfg srv)) (s_from s) remote (header ++ raw) (s_world s1)) as [q w] eqn:Hq.
  rewrite (st_bind_eq _ _ _ _ _ (on_world_eq _ _ _ _ Hq)). by eexists _, _.
Qed.

(** A step of the loop is a round of [deliver]. *)
Lemma filing_cons raw r todo remote localErr s :
  ∃ remote' localErr' s', data_step srv (Filing raw (r :: todo) remote localErr) s = (Filing raw todo remote' localErr', s') ∧
    deliver srv raw (r :: todo) remote localErr s = deliver srv raw todo remote' localErr' s'.
Proof.
  cbn [data_step deliver]. destruct (received srv (r_addr r) s) as [header s1] eqn:Hr. rewrite !(st_bind_eq _ _ _ _ _ Hr).
  destruct (r_account r) as [a |]; [| by eexists _, _, _].
  destruct (on_world Now s1) as [now s2] eqn:Hn. rewrite !(st_bind_eq _ _ _ _ _ Hn).
  destruct (Append (acc_UID a) Inbox [] now (header ++ raw) (s_world s2)) as [x w] eqn:Ha.
  rewrite !(st_bind_eq _ _ _ _ _ (on_world_eq _ _ _ _ Ha)). exists remote, (match x with Err e => Some e | Ok _ => localErr end), (set_world w s2).
  split; [done | by destruct x].
Qed.

Lemma run_filing raw todo remote localErr s fuel :
  (length todo < fuel)%nat →
  run_delivery srv fuel (Filing raw todo remote localErr) s =
    let '(d, s1) := deliver srv raw todo remote localErr s in data_step srv (Filing raw [] d.1 d.2) s1.
Proof.
  revert remote localErr s fuel. induction todo as [| r todo IH]; intros remote localErr s [| fuel] Hf; simpl in Hf; try lia.
  - cbn [deliver run_delivery]. destruct (last_answers raw remote localErr s) as (e & s' & He).
    rewrite (st_bind_eq _ _ _ _ _ He), run_answered. exact (eq_sym He).
  - destruct (filing_cons raw r todo remote localErr s) as (remote' & localErr' & s' & Hstep & Hdel).
    cbn [run_delivery]. rewrite (st_bind_eq _ _ _ _ _ Hstep), Hdel. apply IH. lia.
Qed.

(** Cutting DATA into its critical sections changes nothing: when no
    other connection moves in between, beginning and then stepping, once per
    recipient and once more, ends with the answer and the world of [Data]. *)
Theorem Data_steps rd s :
  let '(d, s1) := begin_data srv rd s in
  run_delivery srv (S (length (s_rcpts s))) d s1 = let '(e, s2) := Data srv rd s in (Answered e, s2).
Proof.
  unfold begin_data, Data. rewrite !(st_bind_eq (gets (λ s, s)) _ s _ _ eq_refl).
  case_decide as Hnil; [unfold mret, st_ret; by rewrite run_answered |]. cbv zeta.
  destruct (ReadAll_limited _ _) as [raw | e]; [| unfold mret, st_ret; by rewrite run_answered].
  destruct (_ <? _); [unfold mret, st_ret; by rewrite run_answered |].
  destruct (prepare srv (normaliseLineEndings raw) s) as [raw' s1] eqn:Hp.
  rewrite !(st_bind_eq _ _ _ _ _ Hp). unfold mret at 1, st_ret at 1. rewrite run_filing by lia.
  destruct (deliver srv raw' (s_rcpts s) [] None s1) as [[remote localErr] s2] eqn:Hd.
  rewrite (st_bind_eq _ _ _ _ _ Hd). cbn [fst snd data_step].
  case_decide as Hrem; [by destruct localErr |]. rewrite (st_bind_eq (gets (λ s, s)) _ s2 _ _ eq_refl).
  destruct (received srv [] s2) as [header s3] eqn:Hr. rewrite !(st_bind_eq _ _ _ _ _ Hr).
  assert (s_from s2 = s_from s) as ->.
  { destruct (prepare_eq srv (normaliseLineEndings raw) s) as (? & w & Hp' & _). rewrite Hp in Hp'. injection Hp' as _ ->.
    by rewrite (deliver_same srv _ _ _ _ _ _ _ Hd). }
  destruct (enqueue (QueueDir (cfg srv)) (s_from s) remote (header ++ raw') (s_world s3)) as [q w] eqn:Hq.
  rewrite !(st_bind_eq _ _ _ _ _ (on_world_eq _ _ _ _ Hq)). by destruct q, localErr.
Qed.
(** ** Many connections *)

(** A connection that has begun, with the message as it will be filed. *)
Definition begun (c : smtpSession * bytes) : client := Client c.1 (Filing c.2 (s_rcpts c.1) [] None).

(** After [n] turns. *)
Definition after_turns (c : smtpSession * bytes) (n : nat) : data_phase :=
  if (n <=? length (s_rcpts c.1))%nat then Filing c.2 (drop n (s_rcpts c.1)) (remotes (take n (s_rcpts c.1))) None
  else Answered None.

Definition turns (i : nat) (schedule : list (nat * Z)) : nat := length (filter (λ m, m.1 = i) schedule).
Definition elapsed (schedule : list (nat * Z)) : Z := foldr (λ m t, m.2 + t) 0 schedule.

(** The copies for an inbox, by the identifiers and times of the recipients'
    trace headers; and the inbox with one copy more. *)
Definition copies_of (uid : Z) (c : smtpSession * bytes) (stamps : list (bytes * Z)) : list (Z * bytes) :=
  omap (λ x : smtpRecipient * (bytes * Z),
    match r_account x.1 with
    | Some a => if acc_UID a =? uid then Some (x.2.2, trace srv c.1 (r_addr x.1) x.2.1 x.2.2 ++ c.2) else None
    | None => None
    end) (zip (s_rcpts c.1) stamps).
Definition grow (o : option mailbox) (x : Z * bytes) : option mailbox := Some (appended (base o x.1) [] x.1 x.2).

Lemma zip_snoc {A C} (l : list A) (k : list C) a c :
  l !! length k = Some a → zip l (k ++ [c]) = zip l k ++ [(a, c)].
Proof.
  revert l. induction k as [| c' k IH]; intros [| a' l] H; simpl in *; try done; [by injection H as ->; destruct l |].
  by rewrite IH.
Qed.

Lemma copies_snoc uid c stamps r id t :
  s_rcpts c.1 !! length stamps = Some r →
  copies_of uid c (stamps ++ [(id, t)]) = copies_of uid c stamps ++
    match r_account r with
    | Some a => if acc_UID a =? uid then [(t, trace srv c.1 (r_addr r) id t ++ c.2)] else []
    | None => []
    end.
Proof.
  intros H. unfold copies_of. rewrite (zip_snoc _ _ _ _ H), omap_app. f_equal. cbn [omap list_omap fst snd]. destruct (r_account r) as [a |]; [| done].
  by destruct (acc_UID a =? uid).
Qed.

Lemma concat_grow {A} (l : list (list A)) i x y : l !! i = Some x → concat (<[i := x ++ y]> l) ≡ₚ concat l ++ y.
Proof.
  revert i. induction l as [| z l IH]; intros [| i] H; simpl in *; try done.
  - injection H as ->. rewrite <- !app_assoc. f_equiv. apply Permutation_app_comm.
  - rewrite (IH _ H). by rewrite app_assoc.
Qed.

Lemma turns_snoc i schedule j dt : turns i (schedule ++ [(j, dt)]) = (turns i schedule + if decide (j = i) then 1 else 0)%nat.
Proof.
  unfold turns. rewrite filter_app, length_app, filter_cons. simpl. by destruct (decide (j = i)).
Qed.

Lemma elapsed_snoc schedule m : elapsed (schedule ++ [m]) = elapsed schedule + m.2.
Proof. induction schedule as [| x l IH]; simpl in *; [lia |]. rewrite IH. lia. Qed.

Lemma play_snoc schedule m y : play srv (schedule ++ [m]) y = move srv (play srv schedule y) m.
Proof. unfold play. by rewrite fold_left_app. Qed.

(** Recipients that still wait for their copy. *)
Definition waiting (L : list (smtpSession * bytes)) (stamps : list (list (bytes * Z))) : nat :=
  sum_list (zip_with (λ c st, length (s_rcpts c.1) - length st)%nat L stamps).

Lemma sum_insert (l : list nat) i x : l !! i = Some (S x) → (sum_list l = S (sum_list (<[i := x]> l)))%nat.
Proof.
  revert i. induction l as [| z l IH]; intros [| i] H; simpl in *; try done; [by injection H as -> |]. rewrite (IH _ H). lia.
Qed.

Lemma waiting_snoc L stamps i c st x :
  L !! i = Some c → stamps !! i = Some st → (length st < length (s_rcpts c.1))%nat →
  waiting L stamps = S (waiting L (<[i := st ++ [x]]> stamps)).
Proof.
  intros HL Hs Hlt. unfold waiting. rewrite <- (list_insert_id L i c) at 2 by done. rewrite <- insert_zip_with.
  apply sum_insert. rewrite lookup_zip_with, HL. cbn. rewrite Hs. cbn. f_equal. rewrite length_app. simpl. lia.
Qed.

(** ** One turn *)

Section Turn.
Context (D : gset Z) (Hap : ∀ uid, apart (QueueDir (cfg srv)) (mailRoot uid)) (Hq : Forall plain (QueueDir (cfg srv))).

(** What is true of the world between two turns. *)
Record sound (w : world) (boxes : Z → option mailbox) (n : nat) : Prop := {
  sn_healthy : healthy w;
  sn_clock : clock_ok w;
  sn_queue : dir_ok (w_fs w) (QueueDir (cfg srv));
  sn_boxes : inboxes w D boxes n;
}.

Lemma sound_rolled w w' boxes n : rolled w w' → sound w boxes n → sound w' boxes n.
Proof.
  intros Hr [H1 H2 H3 H4]. pose proof Hr as (Hf & Hn & Hx). split; [by unfold healthy; rewrite Hx | by unfold clock_ok; rewrite Hn | by rewrite Hf |].
  by eapply inboxes_rolled.
Qed.

(** The inboxes after the copy for a recipient. *)
Definition with_copy (uid : Z) (c : smtpSession * bytes) (r : smtpRecipient) (id : bytes) (t : Z) : list (Z * bytes) :=
  match r_account r with
  | Some a => if acc_UID a =? uid then [(t, trace srv c.1 (r_addr r) id t ++ c.2)] else []
  | None => []
  end.

Lemma inboxes_less w boxes boxes' n m :
  (∀ uid, uid ∈ D → boxes' uid = boxes uid) → (m ≤ n)%nat → inboxes w D boxes n → inboxes w D boxes' m.
Proof. intros Hb Hm H uid Hu. rewrite Hb by done. destruct (H uid Hu). split; [done | lia]. Qed.

Lemma turn_filing c w0 r todo remote boxes n :
  sound (s_world w0) boxes (S n) → (∀ a, r_account r = Some a → acc_UID a ∈ D) → set_world (s_world w0) c.1 = w0 →
  ∃ id w, data_step srv (Filing c.2 (r :: todo) remote None) w0 = (Filing c.2 todo (remote ++ remotes [r]) None, set_world w c.1) ∧
    w_now w = w_now (s_world w0) ∧
    sound w (λ uid, fold_left grow (with_copy uid c r id (w_now w)) (boxes uid)) n.
Proof.
  intros Hs HD Hc. destruct (received_eq srv (r_addr r) w0) as (id & w & Hr & Hw). exists id. cbn [data_step].
  rewrite (st_bind_eq _ _ _ _ _ Hr). pose proof (sound_rolled _ _ _ _ Hw Hs) as [H1 H2 H3 H4]. destruct Hw as (_ & Hnow & _).
  assert (∀ x, set_world x w0 = set_world x c.1) as Hset by (intros x; by rewrite <- Hc).
  unfold with_copy. destruct (r_account r) as [a |] eqn:Ha.
  - assert (acc_UID a ∈ D) as Hu by auto. destruct (H4 _ Hu) as [Had Hlt].
    rewrite (st_bind_eq _ _ _ _ _ (on_world_eq Now (set_world w w0) _ _ eq_refl)).
    set (text := trace srv w0 (r_addr r) id (w_now (s_world w0)) ++ c.2).
    destruct (Append_healthy (acc_UID a) Inbox w (boxes (acc_UID a)) [] (w_now w) text)
      as [f Hf]; [apply inbox_ok | done | done | done | lia |].
    pose proof Hf as Hf'. apply (Append_inboxes w D boxes n) in Hf' as (Hn' & Hb' & Hd'); [| done | done | done].
    exists (set_fs f w). rewrite (st_bind_eq _ _ _ _ _ (on_world_eq _ (set_world w w0) _ _ Hf)). cbn [set_world s_world].
    split. { unfold remotes. simpl. rewrite Ha, app_nil_r. rewrite Hset. done. }
    split; [done |]. split; [done | unfold clock_ok; by rewrite Hn' | by apply Hd' |].
    eapply inboxes_less; [| reflexivity | exact Hb']. intros uid _. unfold after_append.
    destruct (acc_UID a =? uid) eqn:E; [| done]. cbn [fold_left grow fst snd]. cbn [w_now set_fs]. unfold text. rewrite Hnow, <- Hc. done.
  - exists w. split. { unfold remotes. simpl. rewrite Ha, Hset. done. }
    split; [done |]. split; [done | done | done |]. eapply inboxes_less; [| | exact H4]; [done | lia].
Qed.

Lemma turn_last c w0 remote boxes n :
  sound (s_world w0) boxes n → set_world (s_world w0) c.1 = w0 →
  ∃ w, data_step srv (Filing c.2 [] remote None) w0 = (Answered None, set_world w c.1) ∧
    w_now w = w_now (s_world w0) ∧ sound w boxes n ∧
    (remote ≠ [] → ∃ id tid, queued (QueueDir (cfg srv)) (w_fs w)
       (QueueEntry id (s_from c.1) remote 0 (w_now w) (w_now w) []) (trace srv c.1 [] tid (w_now w) ++ c.2)).
Proof.
  intros Hs Hc. cbn [data_step]. assert (∀ x, set_world x w0 = set_world x c.1) as Hset by (intros x; by rewrite <- Hc).
  case_decide as Hr.
  - exists (s_world w0). split; [by rewrite Hc |]. by repeat (split; [done |]).
  - rewrite (st_bind_eq (gets (λ s, s)) _ w0 _ _ eq_refl).
    destruct (received_eq srv [] w0) as (tid & w & Hrec & Hw). rewrite (st_bind_eq _ _ _ _ _ Hrec).
    pose proof (sound_rolled _ _ _ _ Hw Hs) as [H1 H2 H3 H4]. destruct Hw as (_ & Hnow & _).
    set (text := trace srv w0 [] tid (w_now (s_world w0)) ++ c.2).
    destruct (enqueue_healthy _ (s_from w0) remote text w Hq H3 H1) as (w' & He & Hn' & Hh').
    rewrite (st_bind_eq _ _ _ _ _ (on_world_eq _ (set_world w w0) _ _ He)). exists w'.
    destruct (enqueue_outside _ _ _ _ _ _ _ Hq H3 He) as [Hok Ho].
    split; [by rewrite <- Hset |]. split; [congruence |]. split.
    + split; [done | by unfold clock_ok; rewrite Hn' | done |]. intros uid Hu. destruct (H4 uid Hu) as [Had Hlt]. split; [| by rewrite Hn'].
      eapply at_dir_apart; [| exact Had | apply Hok | exact Ho].
      rewrite mailboxDir_eq by apply inbox_ok. apply apart_sym. eapply apart_below; [apply Hap | by eexists].
    + intros _. apply enqueue_Ok in He as [id He]; [| done]. exists id, tid. rewrite Hn'. unfold text in He.
      rewrite <- Hnow in He. rewrite <- Hc in He. exact He.
Qed.

(** ** Any schedule *)

Context (L : list (smtpSession * bytes)) (w0 : world) (boxes : Z → option mailbox).
Context (HD : ∀ c a, c ∈ L → a ∈ locals (s_rcpts c.1) → acc_UID a ∈ D).

(** Every connection is as far as its turns have brought it, and every inbox
    has exactly the copies filed so far, in some order. *)
Record state (schedule : list (nat * Z)) (y : system) (stamps : list (list (bytes * Z))) (copies : Z → list (Z * bytes)) : Prop := {
  st_clients : length (sys_clients y) = length L;
  st_stamps : length stamps = length L;
  st_client i c : L !! i = Some c → ∃ x st, sys_clients y !! i = Some x ∧ stamps !! i = Some st ∧
    set_world (s_world (cl_session x)) c.1 = cl_session x ∧ cl_delivery x = after_turns c (turns i schedule) ∧
    length st = (turns i schedule `min` length (s_rcpts c.1))%nat;
  st_copies uid : copies uid ≡ₚ concat (zip_with (copies_of uid) L stamps);
  st_now : w_now (sys_world y) = w_now w0 + elapsed schedule;
  st_sound : sound (sys_world y) (λ uid, fold_left grow (copies uid) (boxes uid)) (waiting L stamps);
}.

Lemma base_next o t t' : mb_next (base o t) = mb_next (base o t').
Proof. by destruct o. Qed.

Lemma sound_later w t bs n : clock_ok (set_now t w) → sound w bs n → sound (set_now t w) bs n.
Proof.
  intros Hc [H1 H2 H3 H4]. split; [done | done | done |]. intros uid Hu. destruct (H4 uid Hu) as [Had Hlt]. split; [done |].
  by rewrite (base_next _ _ (w_now w)).
Qed.

Lemma state_begin : sound w0 boxes (sum_list ((λ c, length (s_rcpts c.1)) <$> L)) →
  state [] (System w0 (begun <$> L)) ((λ _, []) <$> L) (λ _, []).
Proof.
  intros Hs. split; cbn [sys_clients sys_world]; rewrite ?length_fmap; try done.
  - intros i c Hi. rewrite !list_lookup_fmap, Hi. eexists _, _. split; [done |]. split; [done |]. cbn [begun cl_session cl_delivery].
    split; [by destruct c as [[]] |]. split; [| done]. unfold after_turns, turns. cbn [filter list_filter length Nat.leb]. by rewrite drop_0.
  - intros uid. clear HD Hs. induction L as [| c l IH]; [done |]. cbn. rewrite <- IH.
    unfold copies_of. by destruct (s_rcpts c.1).
  - cbn. lia.
  - assert (waiting L ((λ _, []) <$> L) = sum_list ((λ c, length (s_rcpts c.1)) <$> L)) as ->; [| exact Hs].
    clear. induction L as [| c l IH]; [done |]. unfold waiting in *. cbn in *. rewrite IH. lia.
Qed.

(** A turn of a connection that still has something to do. *)
Lemma state_update schedule y stamps copies i dt c st x s' d' st' w' copies' n :
  state schedule y stamps copies → L !! i = Some c → stamps !! i = Some st →
  set_world w' c.1 = s' → s_world s' = w' → x = Client s' d' →
  d' = after_turns c (S (turns i schedule)) → length st' = (S (turns i schedule) `min` length (s_rcpts c.1))%nat →
  w_now w' = w_now (sys_world y) + dt →
  (∀ uid, copies' uid ≡ₚ concat (zip_with (copies_of uid) L (<[i := st']> stamps))) →
  n = waiting L (<[i := st']> stamps) →
  sound w' (λ uid, fold_left grow (copies' uid) (boxes uid)) n →
  state (schedule ++ [(i, dt)]) (System w' (<[i := x]> (sys_clients y))) (<[i := st']> stamps) copies'.
Proof.
  intros [H1 H2 H3 H4 H5 H6] Hi Hst Hs' Hw' -> -> Hlen Hnow Hcop -> Hsound.
  split; cbn [sys_clients sys_world]; rewrite ?length_insert; try done.
  - intros j cj Hj. rewrite turns_snoc. destruct (decide (i = j)) as [<- | Hne].
    + rewrite Hi in Hj. injection Hj as <-. exists (Client s' (after_turns c (S (turns i schedule)))), st'.
      rewrite !list_lookup_insert_eq by (apply lookup_lt_Some in Hi; lia). split; [done |]. split; [done |].
      cbn [cl_session cl_delivery]. rewrite Hw'. split; [done |]. by rewrite Nat.add_1_r.
    + destruct (H3 j cj Hj) as (xj & stj & Ha & Hb & Hc). rewrite !list_lookup_insert_ne by done.
      exists xj, stj. by rewrite Nat.add_0_r.
  - rewrite elapsed_snoc, Hnow, H5. cbn [snd]. lia.
Qed.
Lemma zip_copies uid stamps i c st st' xs :
  L !! i = Some c → stamps !! i = Some st → copies_of uid c st' = copies_of uid c st ++ xs →
  concat (zip_with (copies_of uid) L (<[i := st']> stamps)) ≡ₚ concat (zip_with (copies_of uid) L stamps) ++ xs.
Proof.
  intros Hi Hs Hc. rewrite <- (list_insert_id L i c) at 1 by done. rewrite <- insert_zip_with, Hc.
  apply concat_grow. rewrite lookup_zip_with, Hi. cbn. by rewrite Hs.
Qed.

Lemma move_at y i dt (c : smtpSession * bytes) x d s :
  sys_clients y !! i = Some x → cl_delivery x = d → set_world (s_world (cl_session x)) c.1 = cl_session x →
  data_step srv d (set_world (set_now (w_now (sys_world y) + dt) (sys_world y)) c.1) = s →
  move srv y (i, dt) = System (s_world s.2) (<[i := Client s.2 s.1]> (sys_clients y)).
Proof.
  intros Hx Hd Hc Hs. unfold move. rewrite Hx, Hd. rewrite <- Hc. unfold set_world in *. cbn in *. rewrite Hs. by destruct s.
Qed.

Lemma state_move schedule y stamps copies i dt :
  state schedule y stamps copies → clock_ok (set_now (w_now (sys_world y) + dt) (sys_world y)) →
  ∃ stamps' copies', state (schedule ++ [(i, dt)]) (move srv y (i, dt)) stamps' copies' ∧
    (∀ c, L !! i = Some c → turns i schedule = length (s_rcpts c.1) → remotes (s_rcpts c.1) ≠ [] →
     ∃ id tid t, queued (QueueDir (cfg srv)) (w_fs (sys_world (move srv y (i, dt))))
       (QueueEntry id (s_from c.1) (remotes (s_rcpts c.1)) 0 t t []) (trace srv c.1 [] tid t ++ c.2)).
Proof.
  intros Hst Hclock. pose proof Hst as [H1 H2 H3 H4 H5 H6]. apply (sound_later _ _ _ _ Hclock) in H6.
  set (w := set_now (w_now (sys_world y) + dt) (sys_world y)) in *.
  destruct (L !! i) as [c |] eqn:Hi.
  2: { exists stamps, copies. split; [| by intros c]. unfold move. replace (sys_clients y !! i) with (@None client)
         by (symmetry; apply lookup_ge_None_2; apply lookup_ge_None_1 in Hi; lia). fold w.
       split; cbn [sys_clients sys_world]; [done | done | | done | rewrite elapsed_snoc; cbn; lia | done].
       intros j cj Hj. rewrite turns_snoc, decide_False, Nat.add_0_r by congruence. by apply H3. }
  destruct (H3 i c Hi) as (x & st & Hx & Hs & Hw & Hd & Hlen).
  destruct (decide (turns i schedule < length (s_rcpts c.1))%nat) as [Hlt | Hge].
  - rewrite Nat.min_l in Hlen by lia.
    destruct (lookup_lt_is_Some_2 (s_rcpts c.1) (turns i schedule) Hlt) as [r Hr].
    assert (cl_delivery x = Filing c.2 (r :: drop (S (turns i schedule)) (s_rcpts c.1)) (remotes (take (turns i schedule) (s_rcpts c.1))) None) as Hd'.
    { rewrite Hd. unfold after_turns. rewrite leb_correct by lia. by rewrite (drop_S _ _ _ Hr). }
    rewrite <- Hlen in Hlt, Hr, Hd'.
    assert (waiting L stamps = S (waiting L (<[i := st ++ [([], 0)]]> stamps))) as Hwait by (by apply (waiting_snoc L stamps i c)).
    rewrite Hwait in H6.
    destruct (turn_filing c (set_world w c.1) r (drop (S (length st)) (s_rcpts c.1)) (remotes (take (length st) (s_rcpts c.1)))
      (λ uid, fold_left grow (copies uid) (boxes uid)) _ H6) as (id & w' & Hstep & Hnow & Hsound); [| by destruct c as [[]] |].
    { intros a Ha. apply (HD c a); [by eapply list_elem_of_lookup_2 |]. apply list_elem_of_omap. exists r. split; [by eapply list_elem_of_lookup_2 | done]. }
    exists (<[i := st ++ [(id, w_now w')]]> stamps), (λ uid, copies uid ++ with_copy uid c r id (w_now w')).
    rewrite (move_at _ _ _ c _ _ _ Hx Hd' Hw Hstep). cbn [fst snd s_world set_world]. split; [| intros c' [= <-] Ht; lia].
    eapply (state_update schedule y stamps copies i dt c st); [exact Hst | done | done | reflexivity | done | reflexivity | | | exact Hnow | | | ].
    + rewrite <- Hlen. unfold after_turns. rewrite leb_correct by lia. f_equal. unfold remotes. rewrite <- omap_app. f_equal.
      symmetry. by apply take_S_r.
    + rewrite length_app. cbn [length]. lia.
    + intros uid. rewrite (zip_copies uid stamps i c st _ (with_copy uid c r id (w_now w'))); [by rewrite <- H4 | done | done |].
      by apply copies_snoc.
    + reflexivity.
    + destruct Hsound as [G1 G2 G3 G4]. split; [done | done | done |].
      assert (waiting L (<[i:=st ++ [(id, w_now w')]]> stamps) = waiting L (<[i:=st ++ [([], 0)]]> stamps)) as ->.
      { pose proof (waiting_snoc L stamps i c st (id, w_now w') Hi Hs Hlt). lia. }
      eapply inboxes_less; [| reflexivity | exact G4]. intros uid _. by rewrite fold_left_app.
  - destruct (decide (turns i schedule = length (s_rcpts c.1))) as [Heq | Hne].
    + assert (cl_delivery x = Filing c.2 [] (remotes (s_rcpts c.1)) None) as Hd'.
      { rewrite Hd. unfold after_turns. by rewrite leb_correct, Heq, drop_all, firstn_all by lia. }
      destruct (turn_last c (set_world w c.1) (remotes (s_rcpts c.1)) _ _ H6) as (w' & Hstep & Hnow & Hsound & Hqueued);
        [by destruct c as [[]] |].
      exists stamps, copies. rewrite (move_at _ _ _ c _ _ _ Hx Hd' Hw Hstep). cbn [fst snd s_world set_world sys_world]. split.
      2: { intros c' [= <-] _ Hr. destruct (Hqueued Hr) as (id & tid & Hx'). by exists id, tid, (w_now w'). }
      rewrite <- (list_insert_id stamps i st) by done.
      eapply (state_update schedule y stamps copies i dt c st); [exact Hst | done | done | reflexivity | done | reflexivity | | | exact Hnow | | reflexivity | ].
      * unfold after_turns. by rewrite leb_correct_conv by lia.
      * lia.
      * intros uid. by rewrite list_insert_id.
      * by rewrite list_insert_id.
    + assert (cl_delivery x = Answered None) as Hd' by (rewrite Hd; unfold after_turns; by rewrite leb_correct_conv by lia).
      exists stamps, copies. rewrite (move_at _ _ _ c _ _ _ Hx Hd' Hw eq_refl). cbn [data_step mret st_ret fst snd s_world set_world sys_world].
      split; [| by intros c' [= <-]].
      rewrite <- (list_insert_id stamps i st) by done.
      eapply (state_update schedule y stamps copies i dt c st); [exact Hst | done | done | reflexivity | done | reflexivity | | | | | reflexivity | ].
      * unfold after_turns. by rewrite leb_correct_conv by lia.
      * lia.
      * done.
      * intros uid. by rewrite list_insert_id.
      * by rewrite list_insert_id.
Qed.

(** The clock stays within 32 bits of seconds. *)
Definition in_time (schedule : list (nat * Z)) : Prop :=
  Forall (λ m, 0 <= m.2) schedule ∧ 10 ^ 9 <= w_now w0 ∧ w_now w0 + elapsed schedule < 2 ^ 32 * 10 ^ 9.

Lemma elapsed_nonneg schedule : Forall (λ m, 0 <= m.2) schedule → 0 <= elapsed schedule.
Proof. induction 1; simpl; lia. Qed.

Lemma clock_in_time w : 10 ^ 9 <= w_now w < 2 ^ 32 * 10 ^ 9 → clock_ok w.
Proof.
  intros H. unfold clock_ok, time_Unix, uint32. rewrite Z.mod_small; [apply Z.div_str_pos; lia |].
  split; [apply Z.div_pos; lia | apply Z.div_lt_upper_bound; lia].
Qed.

Abbreviation begin := (System w0 (begun <$> L)).

Lemma play_state schedule :
  sound w0 boxes (sum_list ((λ c, length (s_rcpts c.1)) <$> L)) → in_time schedule →
  ∃ stamps copies, state schedule (play srv schedule begin) stamps copies.
Proof.
  intros Hs. induction schedule as [| [i dt] schedule IH] using rev_ind; intros (Hpos & H1 & H2).
  - eexists _, _. by apply state_begin.
  - apply Forall_app in Hpos as [Hpos Hdt]. apply Forall_cons in Hdt as [Hdt _]. simpl in Hdt.
    rewrite elapsed_snoc in H2. cbn [snd] in H2. pose proof (elapsed_nonneg _ Hpos) as He.
    destruct IH as (stamps & copies & Hst); [split; [done |]; split; [done | lia] |]. rewrite play_snoc.
    destruct (state_move schedule _ stamps copies i dt Hst) as (stamps' & copies' & Hst' & _); [| by exists stamps', copies'].
    apply clock_in_time. cbn [w_now set_now]. rewrite (st_now _ _ _ _ Hst). lia.
Qed.
(** C10: Deliveries do not disturb each other.  On a healthy system, whatever
    the number of connections in DATA, whatever recipients they share, however
    their critical sections interleave and time passes: a connection depends
    on its own turns only, and is answered with success after one turn per
    recipient and one more; every inbox holds what it held before, and after
    that exactly the copies filed so far, once each, under rising UIDs; and
    whenever a connection with remote recipients is answered, the queue holds
    its message for these. *)
Theorem concurrent_deliveries schedule :
  sound w0 boxes (sum_list ((λ c, length (s_rcpts c.1)) <$> L)) → in_time schedule →
  let y := play srv schedule begin in
  (∀ i c, L !! i = Some c → ∃ x, sys_clients y !! i = Some x ∧ cl_delivery x = after_turns c (turns i schedule)) ∧
  (∃ stamps, length stamps = length L ∧
    (∀ i c st, L !! i = Some c → stamps !! i = Some st → length st = (turns i schedule `min` length (s_rcpts c.1))%nat) ∧
    ∀ uid, uid ∈ D → ∃ copies, copies ≡ₚ concat (zip_with (copies_of uid) L stamps) ∧
      at_dir (w_fs (sys_world y)) (mailboxDir uid Inbox) (fold_left grow copies (boxes uid))) ∧
  (∀ i c pre dt, schedule = pre ++ [(i, dt)] → L !! i = Some c →
    turns i pre = length (s_rcpts c.1) → remotes (s_rcpts c.1) ≠ [] →
    ∃ id tid t, queued (QueueDir (cfg srv)) (w_fs (sys_world y))
      (QueueEntry id (s_from c.1) (remotes (s_rcpts c.1)) 0 t t []) (trace srv c.1 [] tid t ++ c.2)).
Proof.
  intros Hs Ht y. destruct (play_state schedule Hs Ht) as (stamps & copies & [H1 H2 H3 H4 H5 H6]). split; [| split].
  - intros i c Hi. destruct (H3 i c Hi) as (x & st & Hx & _ & _ & Hd & _). by exists x.
  - exists stamps. split; [done |]. split.
    + intros i c st Hi Hst. destruct (H3 i c Hi) as (x & st' & _ & Hst' & _ & _ & Hl). congruence.
    + intros uid Hu. exists (copies uid). split; [apply H4 |]. by apply (sn_boxes _ _ _ H6).
  - intros i c pre dt -> Hi Hn Hr. destruct Ht as (Hpos & Ht1 & Ht2).
    apply Forall_app in Hpos as [Hpos Hdt]. apply Forall_cons in Hdt as [Hdt _]. simpl in Hdt.
    rewrite elapsed_snoc in Ht2. cbn [snd] in Ht2. pose proof (elapsed_nonneg _ Hpos) as He.
    destruct (play_state pre Hs) as (st & cs & Hst); [split; [done |]; split; [done | lia] |]. unfold y. rewrite play_snoc.
    destruct (state_move pre _ st cs i dt Hst) as (_ & _ & _ & Hq'); [| by apply Hq'].
    apply clock_in_time. cbn [w_now set_now]. rewrite (st_now _ _ _ _ Hst). lia.
Qed.
End Turn.

(** A complete message within the limit begins like that. *)
Lemma begin_begun rd s :
  0 <= MaxMessageBytes (cfg srv) < 2 ^ 63 - 1 → fits srv rd → r_err rd = None → s_rcpts s ≠ [] →
  ∃ raw w, begin_data srv rd s = (Filing raw (s_rcpts s) [] None, set_world w s) ∧ rolled (s_world s) w ∧
    prepare srv (normaliseLineEndings (r_bytes rd)) s = (raw, set_world w s).
Proof.
  intros Hlimit Hf He Hr. unfold begin_data. rewrite (st_bind_eq (gets (λ s, s)) _ s _ _ eq_refl), decide_False by done.
  cbv zeta. rewrite ReadAll_fits, He by done. unfold fits in Hf. replace (_ <? _) with false by lia.
  destruct (prepare_eq srv (normaliseLineEndings (r_bytes rd)) s) as (raw & w & Hp & Hw & _).
  exists raw, w. by rewrite (st_bind_eq _ _ _ _ _ Hp).
Qed.
End Spec.

(** ** Two connections on the fixtures *)

From S2P Require Import Fixtures MailFixtures Directory ServerFixtures.

(** Alice's submission, to herself and to a remote address, and an exchanger
    session from elsewhere, to Alice twice. *)
Definition other_session : smtpSession :=
  SmtpSession false client_conn None (B "carol@example.com")
    [SmtpRecipient (B "alice_1@example.org") (Some alice_account); SmtpRecipient (B "alice_1@example.net") (Some alice_account)] two_world.
Definition two_clients : list (smtpSession * bytes) := [(session4, B "one"); (other_session, B "two")].
Definition mixed : list (nat * Z) := [(1%nat, 0); (0%nat, 5); (1%nat, 1); (0%nat, 0); (1%nat, 7); (0%nat, 2)].

Lemma two_clients_rcpts : (λ c : smtpSession * bytes, length (s_rcpts c.1)) <$> two_clients = [2; 2]%nat.
Proof. unfold two_clients. rewrite session4_eq. reflexivity. Qed.

Lemma two_sound : sound queue_server {[1]} two_world (λ _, None) 4.
Proof.
  pose proof session4_ready as [_ _ Hc Hd]. rewrite session4_eq in Hc, Hd. split; [apply two_world_ok | exact Hc | exact Hd |].
  intros uid ->%elem_of_singleton. split; [apply no_mail, inbox_good | by vm_compute].
Qed.

Lemma concurrent_deliveries_witness :
  let y := play queue_server mixed (System two_world (begun <$> two_clients)) in
  (∃ c1 c2, sys_clients y = [c1; c2] ∧ cl_delivery c1 = Answered None ∧ cl_delivery c2 = Answered None) ∧
  ∃ copies, length copies = 3%nat ∧ at_dir (w_fs (sys_world y)) (mailboxDir 1 Inbox) (fold_left grow copies None).
Proof.
  intros y.
  destruct (concurrent_deliveries queue_server {[1]} queue_server_apart queue_server_plain two_clients two_world (λ _, None)) with (schedule := mixed)
    as (H1 & (stamps & Hlen & Hst & H2) & _).
  - unfold two_clients. rewrite session4_eq. intros c a [-> | ->%list_elem_of_singleton]%elem_of_cons Ha; simpl in Ha.
    + apply list_elem_of_singleton in Ha as ->. by apply elem_of_singleton.
    + apply elem_of_cons in Ha as [-> | ->%list_elem_of_singleton]; by apply elem_of_singleton.
  - rewrite two_clients_rcpts. apply two_sound.
  - split; [by apply (bool_decide_unpack _) | split; by vm_compute].
  - fold y in H1, H2. split.
    + destruct (H1 0%nat _ eq_refl) as (c1 & Hc1 & Hd1), (H1 1%nat _ eq_refl) as (c2 & Hc2 & Hd2).
      assert (length (sys_clients y) = 2%nat) as Hl by (vm_compute; reflexivity).
      destruct (sys_clients y) as [| x1 [| x2 [|]]]; try discriminate Hl. injection Hc1 as ->. injection Hc2 as ->.
      exists c1, c2. split; [done |]. rewrite Hd1, Hd2. unfold after_turns. rewrite session4_eq. split; reflexivity.
    + destruct (H2 1) as (copies & Hp & Hat); [by apply elem_of_singleton |]. exists copies. split; [| exact Hat].
      rewrite (Permutation_length Hp).
      destruct stamps as [| s1 [| s2 [|]]]; try discriminate Hlen.
      pose proof (Hst 0%nat _ s1 eq_refl eq_refl) as L1. pose proof (Hst 1%nat _ s2 eq_refl eq_refl) as L2.
      revert L1 L2. unfold two_clients, copies_of. rewrite session4_eq. cbn.
      destruct s1 as [| [? ?] [| [? ?] [|]]]; try discriminate. destruct s2 as [| [? ?] [| [? ?] [|]]]; try discriminate. reflexivity.
Defined.
