(* ===== verification/Outbound.v ===== *)
(** * Outbound: from the submission client to the peers

    SMTP, the queue and its worker together: every recipient a submission was
    accepted for is accounted for in the end, and the attempts keep to the
    retry ladder, whatever the networks answer and whatever the other
    connections do. *)

From S2P Require Import Prelude GoStrings Strconv World WorldFacts Accounts AccountsFacts Flags MailStore.
From S2P Require Import MailNames MailFacts Token Config GoNet MailServer Relay RelayFacts RelaySpec.
From S2P Require Import Worker WorkerFacts WorkerSpec Smtp SmtpFacts SmtpSpec Delivery.

(** ** What a relayed message was *)

Section Handed.
Context (c : Config).

(** The last transaction of a log is complete: the peer took the sender,
    exactly the recipients and exactly the message, to the last call. *)
Definition handed_over (from : bytes) (rcpts : list bytes) (message : bytes) (l : list (bytes * list smtp_call)) : Prop :=
  ∃ before addr k auth, is_dial k = true ∧
    l = before ++ [(addr, k :: opening (Hostname c) auth from ++ (Rcpt_ <$> rcpts) ++ [Data_; Write_ message; CloseData; Quit_])].

Lemma run_calls_all reply before calls done : run_calls reply before calls = (None, done) → done = calls.
Proof.
  revert before done. induction calls as [| x calls IH]; intros before done; simpl; [by intros [= <-] |].
  destruct (reply before x); [done |]. destruct (run_calls reply _ calls) as [e l] eqn:Hr. intros [= -> <-]. by rewrite (IH _ l Hr).
Qed.

Lemma dial_dials reply serverName auth tls k : dial reply serverName auth tls = inr k → is_dial k = true.
Proof. unfold dial. intros H. repeat case_match; by simplify_eq. Qed.

Lemma sendTo_handed net tries addr serverName auth from rcpts message tls done :
  sendTo net tries addr serverName (Hostname c) auth from rcpts message tls = (None, done) →
  handed_over from rcpts message [(addr, done)].
Proof.
  unfold sendTo. destruct (dial _ _ _ _) as [e | k] eqn:Hk; [done |].
  destruct (run_calls _ _ _) as [e l] eqn:Hr. intros [= -> <-]. apply run_calls_all in Hr as ->.
  exists [], addr, k, auth. split; [by eapply dial_dials | by rewrite transaction_eq].
Qed.

Lemma handed_over_cons from rcpts message x l : handed_over from rcpts message l → handed_over from rcpts message (x :: l).
Proof. intros (before & addr & k & auth & Hk & ->). by exists (x :: before), addr, k, auth. Qed.

Lemma try_hosts_handed net from rcpts message tries hosts last l :
  try_hosts net c from rcpts message tries hosts last = (None, l) → l = [] ∨ handed_over from rcpts message l.
Proof.
  revert tries last l. induction hosts as [| host hosts IH]; intros tries last l; cbn [try_hosts]; [intros [= -> <-]; by left |].
  destruct (sendTo _ _ _ _ _ _ _ _ _ _) as [[e |] done] eqn:Hs.
  - destruct (permanent e); [done |]. destruct (try_hosts _ _ _ _ _ _ hosts (Some e)) as [r l'] eqn:Ht.
    intros [= -> <-]. right. apply handed_over_cons. destruct (IH _ _ _ Ht) as [-> | ?]; [exfalso | done].
    destruct hosts as [| h hosts]; cbn [try_hosts] in Ht; [done |].
    destruct (sendTo _ _ _ h _ _ _ _ _ _) as [[e' |] done']; [| done]. destruct (permanent e'); [done |].
    by destruct (try_hosts _ _ _ _ _ _ hosts (Some e')).
  - intros [= <-]. right. by eapply sendTo_handed.
Qed.

Lemma deliverDomain_handed net domain from rcpts message l :
  deliverDomain net c domain from rcpts message = (None, l) → handed_over from rcpts message l.
Proof.
  unfold deliverDomain. case_decide.
  - unfold deliverSmarthost. destruct (default _ _) as [host port].
    destruct (sendTo _ _ _ _ _ _ _ _ _ _) as [e done] eqn:Hs. intros [= -> <-]. by eapply sendTo_handed.
  - destruct (mxHosts net domain) as [| hosts]; [done |].
    destruct (try_hosts net c from rcpts message 0 hosts None) as [[e |] l'] eqn:Ht; [done |].
    destruct l' as [| x l']; [done |]. intros [= <-]. by apply try_hosts_handed in Ht as [? | ?].
Qed.
End Handed.

(** ** The attempts for a message *)

(** The [t_step]-th step of a run is an attempt. *)
Record trial := Trial {
  t_step : nat;
  t_net : network;
  t_range : list (bytes * list bytes) → list (bytes * list bytes);
  t_entry : queueEntry;
  t_out : list delivery;
}.

(** All deliveries of several attempts; the recipients the last one left. *)
Definition outcomes (trials : list trial) : list delivery := concat (t_out <$> trials).
Definition given_up (trials : list trial) : list bytes :=
  match last trials with Some t => deferred (t_out t) | None => [] end.

Lemma relayed_app ds ds' : relayed (ds ++ ds') = relayed ds ++ relayed ds'.
Proof. unfold relayed. by rewrite fmap_app, concat_app. Qed.
Lemma rejected_app ds ds' : rejected (ds ++ ds') = rejected ds ++ rejected ds'.
Proof. unfold rejected. by rewrite fmap_app, concat_app. Qed.

Lemma given_up_cons t trials : trials ≠ [] → given_up (t :: trials) = given_up trials.
Proof. by destruct trials. Qed.

(** The recipients deferred by one attempt are those of the later ones. *)
Lemma fates_cons t trials to :
  to ≡ₚ relayed (t_out t) ++ rejected (t_out t) ++ deferred (t_out t) → trials ≠ [] →
  deferred (t_out t) ≡ₚ relayed (outcomes trials) ++ rejected (outcomes trials) ++ given_up trials →
  to ≡ₚ relayed (outcomes (t :: trials)) ++ rejected (outcomes (t :: trials)) ++ given_up (t :: trials).
Proof.
  intros -> Hne Hd. rewrite given_up_cons by done. unfold outcomes in *. rewrite fmap_cons. cbn [concat].
  rewrite relayed_app, rejected_app, Hd, <- !app_assoc. apply Permutation_app_head, Permutation_app_swap_app.
Qed.

Section Outbound.
Context {U : UnicodeTables} {Acc : Accounts} {Laws : AccountsLaws Acc} {Et : ErrorText} {Zo : Zone}.
Context {Ro : ReadOnlyAccounts Acc} {Qa : QuietAccounts Acc} {Sl : SmtpLibrary} {Ml : MessageLibrary} (srv : Server).
Abbreviation dir := (QueueDir (cfg srv)).
Context (Hap : ∀ uid, apart dir (mailRoot uid)) (Hdir : Forall plain dir).
Context (others : world → world → Prop) (Hothers : ∀ w w', others w w' → respects dir w w').

Section Run.
Context (σ : nat → queue) (ℓ : nat → label) (Hrun : run dir srv others σ ℓ) (Hfair : fair σ ℓ).
Context (Hgood : good dir (σ 0%nat)) (Hopen : ∀ n, q_stop (σ n) = false).
Context (Hticks : ∀ n, ∃ m, (n ≤ m)%nat ∧ ℓ m = Tick) (Htime : ∀ t, ∃ m, t <= w_now (q_world (σ m))).
(** Go's iteration over a map visits every key once. *)
Context (Hrange : ∀ n net range, ℓ n = Work net range → ∀ l, range l ≡ₚ l).

(** The attempt was made in the run, with the message as it was queued. *)
Record made (message : bytes) (t : trial) : Prop := {
  md_label : ℓ (t_step t) = Work (t_net t) (t_range t);
  md_waits : waits dir (t_entry t) message (σ (t_step t));
  md_due : due (t_entry t) (σ (t_step t));
  md_out : attempt dir (t_net t) (t_range t) srv (t_entry t) (q_world (σ (t_step t))) =
             (t_out t, q_world (σ (S (t_step t))));
}.

(** The entry is in the queue, as it is, from step [n] to this attempt. *)
Definition unchanged (message : bytes) (n : nat) (t : trial) : Prop :=
  (n ≤ t_step t)%nat ∧ ∀ k, (n ≤ k ≤ t_step t)%nat → waits dir (t_entry t) message (σ k).

(** The attempts for an entry from step [n] on until it is gone. *)
Inductive history (message : bytes) : nat → queueEntry → list trial → Prop :=
| history_last n t :
    made message t → unchanged message n t →
    deferred (t_out t) = [] ∨ queueMaxAttempts <= Attempts (t_entry t) + 1 →
    unqueued dir (w_fs (q_world (σ (S (t_step t))))) (e_ID (t_entry t)) →
    history message n (t_entry t) [t]
| history_more n t trials :
    made message t → unchanged message n t → Attempts (t_entry t) + 1 < queueMaxAttempts →
    history message (S (t_step t)) (retried (t_entry t) (t_out t) (w_now (q_world (σ (t_step t))))) trials →
    history message n (t_entry t) (t :: trials).

Lemma history_nonempty message n entry trials : history message n entry trials → trials ≠ [].
Proof. by intros []. Qed.

(** The next attempt. *)
Lemma next_trial entry message n :
  waits dir entry message (σ n) → 0 <= Attempts entry < 2 ^ 62 →
  ∃ t, t_entry t = entry ∧ made message t ∧ unchanged message n t ∧
    after_round dir (w_fs (q_world (σ (S (t_step t))))) entry message (t_out t) (w_now (q_world (σ (t_step t)))).
Proof.
  intros Hw Ha.
  destruct (first_tried dir Hap Hdir srv others Hothers σ ℓ Hrun Hfair Hgood Hopen Hticks Htime entry message n Hw)
    as (m & Hm & Hat & Hdm & Hall). pose proof (Hall m ltac:(lia)) as Hwm.
  destruct (attempting_world dir Hap Hdir srv others Hothers σ ℓ Hrun Hgood entry message m Hat Hwm Hdm) as (net & range & Hl & Hq).
  destruct (attempt_healthy dir Hap net range srv entry message (q_world (σ m)) Hwm) as (ds & w' & He & _ & _ & _ & _ & Haft);
    [apply (gd_healthy _ _ (good_at dir Hap Hdir srv others Hothers σ ℓ Hrun Hgood m)) | done |].
  exists (Trial m net range entry ds). rewrite He in Hq. cbn [snd] in Hq. subst w'.
  split; [done |]. split; [by split |]. by split.
Qed.

Lemma made_partition message t :
  made message t → 0 <= Attempts (t_entry t) < 2 ^ 62 → Forall addressable (e_To (t_entry t)) →
  e_To (t_entry t) ≡ₚ relayed (t_out t) ++ rejected (t_out t) ++ deferred (t_out t) ∧
  Forall (fair_report (t_net t) srv (t_entry t) message) (t_out t).
Proof.
  intros [Hl Hw _ Ho] Ha Hto.
  destruct (attempt_healthy dir Hap (t_net t) (t_range t) srv (t_entry t) message (q_world (σ (t_step t))) Hw)
    as (ds & w' & He & _ & _ & Hg & Hf & _); [apply (gd_healthy _ _ (good_at dir Hap Hdir srv others Hothers σ ℓ Hrun Hgood _)) | done |].
  rewrite Ho in He. injection He as <- _. split; [| done]. eapply round_partition; [by eapply Hrange | done | exact Hg].
Qed.

Lemma deferred_addressable message t :
  made message t → 0 <= Attempts (t_entry t) < 2 ^ 62 → Forall addressable (e_To (t_entry t)) → Forall addressable (deferred (t_out t)).
Proof.
  intros Hm Ha Hto. destruct (made_partition message t Hm Ha Hto) as [Hp _]. rewrite Hp in Hto.
  by apply Forall_app in Hto as [_ [_ Hto]%Forall_app].
Qed.

(** Every queued message has a history. *)
Lemma has_history entry message n :
  waits dir entry message (σ n) → 0 <= Attempts entry < queueMaxAttempts → ∃ trials, history message n entry trials.
Proof.
  unfold queueMaxAttempts. remember (Z.to_nat (12 - Attempts entry)) as k eqn:Hk. revert entry n Hk.
  induction k as [k IH] using lt_wf_ind. intros entry n -> Hw Ha.
  destruct (next_trial entry message n Hw) as (t & <- & Hm & Hn & Haft); [lia |]. unfold after_round in Haft. case_decide as Hc.
  - exists [t]. by apply history_last.
  - assert (Attempts (t_entry t) + 1 < 12) as Hlt by (unfold queueMaxAttempts in Hc; apply Znot_ge_lt; intros ?; apply Hc; right; lia).
    destruct (IH (Z.to_nat (12 - (Attempts (t_entry t) + 1))) ltac:(lia) (retried (t_entry t) (t_out t) (w_now (q_world (σ (t_step t)))))
      (S (t_step t)) eq_refl Haft) as [trials Ht]; [cbn; lia |].
    exists (t :: trials). by apply history_more.
Qed.

(** What the attempts come to. *)
Record accounted (message : bytes) (entry : queueEntry) (trials : list trial) : Prop := {
  ac_count : (1 ≤ length trials ≤ Z.to_nat (queueMaxAttempts - Attempts entry))%nat;
  ac_all : e_To entry ≡ₚ relayed (outcomes trials) ++ rejected (outcomes trials) ++ given_up trials;
  ac_given_up : given_up trials ≠ [] → length trials = Z.to_nat (queueMaxAttempts - Attempts entry);
  ac_relayed : Forall (λ d, dl_fate d = Relayed → handed_over (cfg srv) (e_From entry) (dl_rcpts d) message (dl_log d)) (outcomes trials);
  ac_rejected : Forall (λ d, ∀ e, dl_fate d = Rejected e → permanent e = true) (outcomes trials);
  ac_gone : ∃ t, last trials = Some t ∧ unqueued dir (w_fs (q_world (σ (S (t_step t))))) (e_ID entry);
}.

Lemma report_handed net entry message d :
  fair_report net srv entry message d →
  (dl_fate d = Relayed → handed_over (cfg srv) (e_From entry) (dl_rcpts d) message (dl_log d)) ∧
  (∀ e, dl_fate d = Rejected e → permanent e = true).
Proof.
  unfold fair_report. destruct (deliverDomain _ _ _ _ _ _) as [e l] eqn:Hd. intros [-> Hf]. destruct (dl_fate d); [| | done].
  - subst e. split; [intros _ | done]. by eapply deliverDomain_handed.
  - destruct Hf as [_ Hf]. split; [done |]. by intros e' [= <-].
Qed.

Lemma made_reports message t :
  made message t → 0 <= Attempts (t_entry t) < 2 ^ 62 → Forall addressable (e_To (t_entry t)) →
  Forall (λ d, dl_fate d = Relayed → handed_over (cfg srv) (e_From (t_entry t)) (dl_rcpts d) message (dl_log d)) (t_out t) ∧
  Forall (λ d, ∀ e, dl_fate d = Rejected e → permanent e = true) (t_out t).
Proof.
  intros Hm Ha Hto. destruct (made_partition message t Hm Ha Hto) as [_ Hf].
  split; (eapply Forall_impl; [exact Hf |]); intros d Hd; by apply (report_handed _ _ _ _ Hd).
Qed.

Lemma history_accounted message n entry trials :
  history message n entry trials → 0 <= Attempts entry < queueMaxAttempts → Forall addressable (e_To entry) →
  accounted message entry trials.
Proof.
  unfold queueMaxAttempts. intros H. induction H as [n t Hm Hn Hc Hu | n t trials Hm Hn Hlt Hh IH]; intros Ha Hto.
  all: destruct (made_partition message t Hm ltac:(lia) Hto) as [Hp _]; destruct (made_reports message t Hm ltac:(lia) Hto) as [Hr Hj].
  - assert (outcomes [t] = t_out t) as Ho by (unfold outcomes; cbn; by rewrite app_nil_r).
    split; rewrite ?Ho; [unfold queueMaxAttempts; simpl; lia | exact Hp | | exact Hr | exact Hj | by exists t].
    unfold given_up, queueMaxAttempts in *. cbn [last length]. destruct Hc as [Hc | Hc]; [done | lia].
  - pose proof (history_nonempty _ _ _ _ Hh) as Hne. unfold queueMaxAttempts in Hlt.
    destruct IH as [H1 H2 H3 H4 H5 H6]; [cbn; lia | by eapply deferred_addressable; [exact Hm | lia |] |].
    cbn [retried e_To Attempts e_From e_ID] in *. unfold queueMaxAttempts in *.
    assert (outcomes (t :: trials) = t_out t ++ outcomes trials) as Ho by done.
    split; rewrite ?Ho; unfold queueMaxAttempts.
    + cbn [length]. lia.
    + rewrite <- Ho. by apply fates_cons.
    + rewrite given_up_cons by done. intros Hg. cbn [length]. rewrite H3 by done. lia.
    + by apply Forall_app.
    + by apply Forall_app.
    + destruct H6 as (t' & Hl & Hu). exists t'. split; [| done]. by destruct trials.
Qed.

(** ** The times of the attempts *)

Definition t_time (t : trial) : Z := w_now (q_world (σ (t_step t))).

(** The retry ladder after [n] attempts, the next [k] rungs. *)
Fixpoint rungs (k n : nat) : Z := match k with O => 0 | S k => ladder (S n) + rungs k (S n) end.

Lemma history_head message n entry trials : history message n entry trials → ∃ t, head trials = Some t ∧ t_entry t = entry.
Proof. intros []; by eexists. Qed.

Lemma history_due message n entry trials t :
  history message n entry trials → head trials = Some t → NextTry entry <= t_time t ∧ unchanged message n t.
Proof. intros [n' t' [] | n' t' ts []] Ht; injection Ht as <-; done. Qed.

(** The attempt after [t] is at least a rung later. *)
Lemma next_rung message t trials t' a :
  history message (S (t_step t)) (retried (t_entry t) (t_out t) (t_time t)) trials → head trials = Some t' →
  Attempts (t_entry t) = Z.of_nat a →
  NextTry (t_entry t') = t_time t + ladder (S a) ∧ t_time t + ladder (S a) <= t_time t' ∧ unchanged message (S (t_step t)) t'.
Proof.
  intros H Hh Ha. destruct (history_due _ _ _ _ _ H Hh) as [Hd Hu]. destruct (history_head _ _ _ _ H) as (x & Hx & He).
  rewrite Hh in Hx. injection Hx as <-. rewrite He in *. cbn [retried NextTry] in *.
  replace (Attempts (t_entry t) + 1) with (Z.of_nat (S a)) in * by lia. rewrite backoff_ladder in * by lia. done.
Qed.

Lemma history_spaced message n entry trials a :
  history message n entry trials → Attempts entry = Z.of_nat a →
  ∀ i t t', trials !! i = Some t → trials !! S i = Some t' →
    NextTry (t_entry t') = t_time t + ladder (S (a + i)) ∧ t_time t + ladder (S (a + i)) <= t_time t' ∧
    unchanged message (S (t_step t)) t'.
Proof.
  intros H. revert a. induction H as [n t Hm Hu Hc Hg | n t trials Hm Hu Hlt Hh IH]; intros a Ha [| i] t1 t2 H1 H2; try done.
  - simpl in H1, H2. injection H1 as <-. rewrite Nat.add_0_r. eapply next_rung; [exact Hh | by destruct trials | done].
  - simpl in H1, H2. replace (a + S i)%nat with (S a + i)%nat by lia. apply IH; [| done | done]. cbn [retried Attempts]. lia.
Qed.

Lemma history_span message n entry trials a first :
  history message n entry trials → Attempts entry = Z.of_nat a → (a < 12)%nat → head trials = Some first → given_up trials ≠ [] →
  ∃ final, last trials = Some final ∧ length trials = (12 - a)%nat ∧ t_time first + rungs (11 - a) a <= t_time final.
Proof.
  intros H. revert a first. induction H as [n t Hm Hu Hc Hg | n t trials Hm Hu Hlt Hh IH]; intros a first Ha Hb Hf Hgu;
    injection Hf as <-; unfold queueMaxAttempts in *.
  - exists t. split; [done |]. destruct Hc as [Hc | Hc]; [unfold given_up in Hgu; cbn [last] in Hgu; by rewrite Hc in Hgu |].
    replace (12 - a)%nat with 1%nat by lia. replace (11 - a)%nat with 0%nat by lia. split; [done |]. cbn [rungs]. lia.
  - pose proof (history_nonempty _ _ _ _ Hh) as Hne. rewrite given_up_cons in Hgu by done.
    destruct (history_head _ _ _ _ Hh) as (t' & Ht' & _). destruct (next_rung _ _ _ _ a Hh Ht' Ha) as (_ & Hd & _).
    destruct (IH (S a) t') as (final & Hl & Hlen & Hs); [cbn [retried Attempts]; lia | lia | done | done |].
    exists final. split; [by destruct trials |]. cbn [length]. split; [lia |].
    replace (11 - a)%nat with (S (11 - S a)) by lia. cbn [rungs]. lia.
Qed.

Lemma history_length message n entry trials :
  history message n entry trials → Attempts entry < queueMaxAttempts → Z.of_nat (length trials) <= queueMaxAttempts - Attempts entry.
Proof.
  intros H. induction H as [n t Hm Hu Hc Hg | n t trials Hm Hu Hlt Hh IH]; intros Ha; cbn [length]; [lia |].
  cbn [retried Attempts] in IH. specialize (IH Hlt). lia.
Qed.

Lemma history_gone message n entry trials :
  history message n entry trials → ∃ t, last trials = Some t ∧ unqueued dir (w_fs (q_world (σ (S (t_step t))))) (e_ID entry).
Proof.
  intros H. induction H as [n t Hm Hu Hc Hg | n t trials Hm Hu Hlt Hh (t' & Hl & Hg)]; [by exists t |].
  exists t'. split; [by destruct trials | done].
Qed.

(** C26: The retry schedule of a worker that runs among other connections.
    From any step at which a message not tried yet is queued there is a series
    of attempts for it, and in every such series there are at most twelve;
    after the [i]-th attempt the message waits in the queue, untouched, for
    the next one, whose time is 5, 10, 20, ... minutes and at most six hours
    later, and which is not made before that; after the last one it has left
    the queue; and if recipients are given up on, that is at the twelfth
    attempt and not before 2075 minutes (about a day and a half) after the
    first. *)
Theorem retry_schedule entry message n :
  waits dir entry message (σ n) → Attempts entry = 0 →
  (∃ trials, history message n entry trials) ∧
  ∀ trials, history message n entry trials →
    (1 ≤ length trials ≤ 12)%nat ∧
    (∀ i t t', trials !! i = Some t → trials !! S i = Some t' →
       NextTry (t_entry t') = t_time t + ladder (S i) ∧ t_time t + ladder (S i) <= t_time t' ∧
       unchanged message (S (t_step t)) t') ∧
    (∃ final, last trials = Some final ∧ unqueued dir (w_fs (q_world (σ (S (t_step final))))) (e_ID entry)) ∧
    (given_up trials ≠ [] → ∃ first final, head trials = Some first ∧ last trials = Some final ∧
       length trials = 12%nat ∧ t_time first + 2075 * Minute <= t_time final).
Proof.
  intros Hw Ha. split; [apply has_history; [done | by rewrite Ha] |]. intros trials H.
  split. { pose proof (history_nonempty _ _ _ _ H) as Hne. pose proof (history_length _ _ _ _ H) as Hl. rewrite Ha in Hl.
           unfold queueMaxAttempts in Hl. destruct trials; [done |]. cbn [length] in *. lia. }
  split; [by apply (history_spaced message n entry trials 0 H) |]. split; [by eapply history_gone |].
  intros Hg. destruct (history_head _ _ _ _ H) as (first & Hf & _).
  destruct (history_span _ _ _ _ 0 first H Ha ltac:(lia) Hf Hg) as (final & Hl & Hlen & Hs). by exists first, final.
Qed.

(** ** The submission *)

(** The last critical section of DATA. *)
Lemma queueing_step raw remote s s' :
  data_step srv (Filing raw [] remote None) s = (Answered None, s') → remote ≠ [] →
  ∃ id tid t, queued dir (w_fs (s_world s')) (QueueEntry id (s_from s) remote 0 t t []) (trace srv s [] tid t ++ raw).
Proof.
  intros H Hr. cbn [data_step] in H. rewrite decide_False in H by done. rewrite (st_bind_eq (gets (λ s, s)) _ s _ _ eq_refl) in H.
  destruct (received_eq srv [] s) as (tid & w & Hrec & _ & Hn & _). rewrite (st_bind_eq _ _ _ _ _ Hrec) in H.
  apply st_bind_inv in H as (q & s1 & Hq & H). apply on_world_inv in Hq as (w' & He & ->).
  destruct q as [[] | e]; [| done]. injection H as <-. apply enqueue_Ok in He as [id He]; [| done].
  exists id, tid, (w_now (s_world s)). cbn [s_world set_world] in He. rewrite Hn in He. exact He.
Qed.

(** C9: Every recipient of a submission is accounted for.  When the last
    critical section of DATA, in a session that the listener can reach, queues
    the message for its remote recipients and DATA is answered with success,
    then, whatever the other connections do and whatever the networks answer
    in whatever order, as long as the worker is scheduled and time passes:
    there are one to twelve attempts, and in the end every remote recipient
    was relayed by exactly one of them, or rejected for a permanent error by
    exactly one, or given up after the twelfth; relayed means that a peer took
    a whole transaction with the sender, exactly these recipients and exactly
    the message under its trace header; and then nothing is left in the
    queue. *)
Theorem submission_accounted sub c m s raw s' n :
  reach srv sub c m s → remotes (s_rcpts s) ≠ [] →
  s_world s = q_world (σ n) → ℓ n = Other (s_world s') →
  data_step srv (Filing raw [] (remotes (s_rcpts s)) None) s = (Answered None, s') →
  ∃ id tid t trials,
    let entry := QueueEntry id (s_from s) (remotes (s_rcpts s)) 0 t t [] in
    let message := trace srv s [] tid t ++ raw in
    history message (S n) entry trials ∧ accounted message entry trials.
Proof.
  intros Hs Hr _ Hl H. destruct (queueing_step _ _ _ _ H Hr) as (id & tid & t & Hq).
  assert (q_world (σ (S n)) = s_world s') as Hw by (pose proof (Hrun n) as Hst; rewrite Hl in Hst; by inversion Hst).
  set (entry := QueueEntry id (s_from s) (remotes (s_rcpts s)) 0 t t []) in *. set (message := trace srv s [] tid t ++ raw) in *.
  assert (waits dir entry message (σ (S n))) as Hwait by (unfold waits; by rewrite Hw).
  destruct (has_history entry message (S n) Hwait) as [trials Hh]; [done |].
  exists id, tid, t, trials. split; [exact Hh |]. eapply history_accounted; [exact Hh | done |].
  cbn [entry e_To]. apply Forall_forall. intros x Hx. destruct (reach_ok srv sub c m s Hs) as [_ _ Hrem _].
  unfold remotes in Hx. apply list_elem_of_omap in Hx as (r & Hin & Hx). destruct (r_account r) eqn:Ha; [done |]. injection Hx as <-.
  destruct (Hrem r Hin Ha) as (_ & _ & _ & local & domain & Hsp & _). unfold addressable. by rewrite Hsp.
Qed.
End Run.
End Outbound.

(** ** Alice writes to Carol *)

From S2P Require Import Fixtures MailFixtures Directory ServerFixtures.

Definition queueing : data_phase * smtpSession :=
  data_step queue_server (Filing out_body [] [B "carol@example.com"] None) session4.

(** The worker is idle; the letter is queued; then the scheduler goes round. *)
Abbreviation spool_dir := (QueueDir (cfg queue_server)).
Definition queued_state : queue := newQueue (s_world queueing.2).
Definition letter_run (n : nat) : queue :=
  match n with
  | O => newQueue two_world
  | S n => played spool_dir queue_server busy_network as_is queued_state n
  end.
Definition letter_labels (n : nat) : label :=
  match n with
  | O => Other (s_world queueing.2)
  | S n => plays spool_dir queue_server busy_network as_is queued_state n
  end.

Lemma spool_dir_eq : spool_dir = queue_dir.
Proof. vm_compute. reflexivity. Qed.

Lemma no_spool name : w_fs two_world !! (queue_dir ++ [name]) = None.
Proof.
  assert (map_Forall (λ q _, ¬ queue_dir `prefix_of` q) (w_fs two_world)) as H by (apply (bool_decide_unpack _); vm_compute; exact I).
  destruct (w_fs two_world !! (queue_dir ++ [name])) as [n |] eqn:Hn; [| done]. apply H in Hn. exfalso. apply Hn. by eexists.
Qed.

Lemma start_good : good spool_dir (letter_run 0).
Proof.
  rewrite spool_dir_eq. split; cbn; [apply two_world_ok | | done | done].
  split; intros ? ? H; [by rewrite no_spool in H |]. intros Hx. apply file_in_Some in Hx. by rewrite no_spool in Hx.
Qed.

Lemma queueing_respects : respects spool_dir two_world (s_world queueing.2).
Proof.
  unfold queueing. cbn [data_step]. rewrite decide_False by done.
  rewrite (st_bind_eq (gets (λ s, s)) _ session4 _ _ eq_refl), session4_eq.
  set (s := SmtpSession _ _ _ _ _ two_world).
  destruct (received_eq queue_server [] s) as (tid & w & Hrec & Hf & Hn & Hx). rewrite (st_bind_eq _ _ _ _ _ Hrec).
  set (text := trace _ _ _ _ _ ++ out_body).
  destruct (enqueue spool_dir (s_from s) [B "carol@example.com"] text w) as [q w'] eqn:He.
  rewrite (st_bind_eq _ _ _ _ _ (on_world_eq _ (set_world w s) _ _ He)). cbn [snd mret st_ret s_world set_world].
  etrans; [apply (spared_respects spool_dir two_world w) | eapply enqueue_respects; [exact queue_server_apart | exact queue_server_plain | | exact He]].
  - split; [done |]. split; [unfold healthy; by rewrite Hx | intros p _; by rewrite Hf].
  - intros id _. rewrite Hf, spool_dir_eq. apply no_spool.
Qed.

Lemma letter_runs : run spool_dir queue_server (respects spool_dir) letter_run letter_labels.
Proof.
  intros [| n]; [| apply played_run].
  apply (step_other spool_dir queue_server (respects spool_dir) (newQueue two_world)), queueing_respects.
Qed.

Lemma queued_state_good : good spool_dir queued_state.
Proof.
  apply (good_at spool_dir queue_server_apart queue_server_plain queue_server (respects spool_dir) (λ _ _ H, H)
    letter_run letter_labels letter_runs start_good 1).
Qed.

Lemma letter_fair : fair letter_run letter_labels.
Proof.
  intros n Hc. destruct (played_fair spool_dir queue_server busy_network as_is queued_state (pred n)) as (m & Hm & Hl).
  - by destruct n.
  - exists (S m). split; [lia | done].
Qed.

Lemma letter_open n : q_stop (letter_run n) = false.
Proof. destruct n; [done |]. by apply played_stop. Qed.

Lemma letter_ticks n : ∃ m, (n ≤ m)%nat ∧ letter_labels m = Tick.
Proof. destruct (played_ticks spool_dir queue_server busy_network as_is queued_state n) as (m & Hm & Hl). exists (S m). split; [lia | done]. Qed.

Lemma letter_time t : ∃ m, t <= w_now (q_world (letter_run m)).
Proof.
  destruct (played_time spool_dir queue_server busy_network as_is queue_server_apart queue_server_plain queued_state t queued_state_good) as [m Hm].
  by exists (S m).
Qed.

Lemma letter_range n net range : letter_labels n = Work net range → ∀ l, range l ≡ₚ l.
Proof.
  destruct n as [| n]; [done |]. cbn [letter_labels]. unfold plays, turn. intros H l.
  destruct (n mod 3)%nat as [| [|]]; [done | | done]. destruct (can_move _); [| done].
  destruct (flushing _); [by injection H as _ <- | done].
Qed.

Lemma submission_accounted_witness :
  ∃ id tid t trials,
    let entry := QueueEntry id (s_from session4) [B "carol@example.com"] 0 t t [] in
    let message := trace queue_server session4 [] tid t ++ out_body in
    history queue_server letter_run letter_labels message 1 entry trials ∧
    accounted queue_server letter_run message entry trials.
Proof.
  assert (remotes (s_rcpts session4) = [B "carol@example.com"]) as Hr by (vm_compute; reflexivity).
  pose proof (submission_accounted queue_server queue_server_apart queue_server_plain (respects spool_dir) (λ _ _ H, H)
    letter_run letter_labels letter_runs letter_fair start_good letter_open letter_ticks letter_time letter_range
    true client_conn true session4 out_body queueing.2 0 session4_reach) as H.
  rewrite Hr in H. apply H; [done | rewrite session4_eq; reflexivity | reflexivity |].
  assert (queueing.1 = Answered None) as <- by (vm_compute; reflexivity). apply surjective_pairing.
Defined.

Lemma retry_schedule_witness :
  ∃ entry message trials, history queue_server letter_run letter_labels message 1 entry trials ∧ (1 ≤ length trials ≤ 12)%nat.
Proof.
  assert (queueing = (Answered None, queueing.2)) as Hq.
  { assert (queueing.1 = Answered None) as <- by (vm_compute; reflexivity). apply surjective_pairing. }
  destruct (queueing_step queue_server queue_server_plain _ _ _ _ Hq) as (id & tid & t & Hqueued); [done |].
  destruct (retry_schedule queue_server queue_server_apart queue_server_plain (respects spool_dir) (λ _ _ H, H)
    letter_run letter_labels letter_runs letter_fair start_good letter_open letter_ticks letter_time _ _ 1 Hqueued eq_refl)
    as [[trials Ht] Hall].
  eexists _, _, trials. split; [exact Ht |]. destruct (Hall trials Ht) as [Hl _]. exact Hl.
Defined.
