(* ===== verification/Journey.v ===== *)
(** * Journey: a message from the internet to its reader

    SMTP, the mail store, the user store's directory and POP3 together: what
    the exchanger accepts for an account, that account's owner retrieves. *)

From S2P Require Import Prelude GoStrings Strconv World WorldFacts Accounts AccountsFacts Flags MailStore.
From S2P Require Import MailNames MailFacts MailOps Directory Token Config GoNet MailServer Relay RelayFacts Smtp SmtpFacts SmtpSpec.
From S2P Require Import Pop3 Pop3Spec.

Section Journey.
Context {U : UnicodeTables} {Acc : Accounts} {Laws : AccountsLaws Acc} {Dr : Directory Acc}.
Context {Zo : Zone} {Sl : SmtpLibrary} {Ml : MessageLibrary} (srv : Server).
Context (Hlimit : 0 <= MaxMessageBytes (cfg srv) < 2 ^ 63 - 1).

(** A usable world whose store has [o] in the inbox of an account. *)
Record inbox_at (w : world) (uid : Z) (o : option mailbox) : Prop := {
  ia_healthy : healthy w;
  ia_clock : clock_ok w;
  ia_holds : holds (w_fs w);
  ia_box : at_dir (w_fs w) (mailboxDir uid Inbox) o;
}.

(** ** Delivery *)

Lemma Data_one rd s to a o :
  submission s = false → s_rcpts s = [SmtpRecipient to (Some a)] → fits srv rd → r_err rd = None →
  inbox_at (s_world s) (acc_UID a) o → mb_next (base o (w_now (s_world s))) < 2 ^ 32 - 1 →
  ∃ id w', Data srv rd s = (None, set_world w' s) ∧ w_now w' = w_now (s_world s) ∧
    inbox_at w' (acc_UID a) (Some (appended (base o (w_now (s_world s))) [] (w_now (s_world s))
      (trace srv s to id (w_now (s_world s)) ++ normaliseLineEndings (r_bytes rd)))).
Proof.
  intros Hsub Hr Hf He [Hh Hc Hd Hat] Hlt. rewrite Data_fits by (done || by rewrite Hr).
  destruct (file_message_eq srv (normaliseLineEndings (r_bytes rd)) s) as (raw & w & Hw & _ & Hraw & le & s1 & Hdl & ->).
  rewrite (Hraw Hsub) in *. rewrite Hr in *.
  destruct (deliver_cons srv (normaliseLineEndings (r_bytes rd)) (SmtpRecipient to (Some a)) [] [] None (set_world w s))
    as (id & w1 & Hw1 & Heq). cbv zeta in Heq. cbn [Smtp.r_account r_addr] in Heq. rewrite Heq in Hdl. clear Heq.
  assert (rolled (s_world s) w1) as Hw' by (etrans; [exact Hw | exact Hw1]). destruct Hw as (_ & Hn & _). destruct Hw' as (Hf1 & Hn1 & Hx1).
  cbn [s_world set_world] in Hdl. change (trace srv (set_world w s)) with (trace srv s) in Hdl. rewrite Hn in Hdl.
  set (text := trace srv s to id (w_now (s_world s)) ++ normaliseLineEndings (r_bytes rd)) in *.
  assert (at_dir (w_fs w1) (mailboxDir (acc_UID a) Inbox) o) as Hat1 by (by rewrite Hf1).
  assert (clock_ok w1) as Hc1 by (unfold clock_ok; by rewrite Hn1). assert (healthy w1) as Hh1 by (unfold healthy; by rewrite Hx1).
  assert (mb_next (base o (w_now w1)) < 2 ^ 32 - 1) as Hlt1 by (by rewrite Hn1).
  destruct (append_step (acc_UID a) Inbox w1 o (w_now w1) text) as (H1 & H2 & H3 & H4 & _ & H5);
    [apply inbox_ok | done | done | done | by rewrite Hf1 | done |].
  destruct (Append_healthy (acc_UID a) Inbox w1 o [] (w_now w1) text) as [f Hap]; [apply inbox_ok | done ..|].
  rewrite Hap in *. cbn [snd deliver] in *. unfold mret, st_ret in Hdl. assert (le = None ∧ s1 = set_world (set_fs f w1) s) as [-> ->] by (by injection Hdl). exists id, (set_fs f w1).
  rewrite decide_True by done. split; [done |]. split; [done |].
  rewrite stamp_now, Hn1 in H5. split; [exact H1 | exact H2 | exact H4 | exact H5].
Qed.

(** ** Retrieval *)

(** Operations of other connections that remove nothing leave the message in
    its place. *)
Lemma keeps_place now mb op n y :
  keeps op → mb_messages mb !! n = Some y →
  ∃ z, mb_messages (apply_op now mb op) !! n = Some z ∧ a_uid z = a_uid y ∧ a_body z = a_body y.
Proof.
  intros Hk Hy. destruct op as [flags date body | uids flags op | b | uids]; simpl; [| | | done].
  - exists y. split; [| done]. rewrite lookup_app_l; [done |]. by eapply lookup_lt_Some.
  - rewrite list_lookup_fmap, Hy. eexists. split; [reflexivity |]. by case_decide.
  - by exists y.
Qed.

Lemma keep_place now ops mb n y :
  Forall keeps ops → mb_messages mb !! n = Some y →
  ∃ z, mb_messages (foldl (apply_op now) mb ops) !! n = Some z ∧ a_uid z = a_uid y ∧ a_body z = a_body y.
Proof.
  intros Hk. revert mb y. induction Hk as [| op ops Hop _ IH]; intros mb y Hy; [by exists y |].
  destruct (keeps_place now mb op n y Hop Hy) as (z & Hz & H1 & H2). destruct (IH _ _ Hz) as (z' & Hz' & H3 & H4).
  exists z'. split; [done |]. split; congruence.
Qed.

(** The number of a message picks it. *)
Lemma pick_number p mb n x :
  mailbox_ok mb → mb_messages mb !! n = Some x → pick (fresh_drop p mb) (number (S n)) = inr (S n, x).
Proof.
  intros Hok%few_messages Hx. unfold pick, number, Atoi. pose proof (lookup_lt_Some _ _ _ Hx) as Hlt.
  rewrite ParseInt_FormatInt by (unfold is_int64; lia). cbn [fresh_drop d_messages d_marked].
  rewrite (proj2 (Z.ltb_ge _ 1)), (proj2 (Z.ltb_ge _ _)) by lia. cbn [orb]. replace (Z.to_nat (Z.of_nat (S n) - 1)) with n by lia.
  rewrite Hx, decide_False by set_solver. by rewrite Nat2Z.id.
Qed.

Lemma handle_PASS hs password p p1 : pass srv password p = (tt, p1) → handle srv hs (B "PASS") password p = (true, p1).
Proof.
  intros H. unfold handle. do 3 (rewrite decide_False by done). rewrite decide_True by done. by rewrite (st_bind_eq _ _ _ _ _ H).
Qed.

(** C8: From the sender to the reader.  On a healthy system a client of the
    exchanger that names a local address and sends a complete message within
    the limit is accepted; and then, whatever other connections deliver, flag
    or subscribe in the meantime, the owner of the address who logs in over
    POP3 with the password (encrypted, if the server has a certificate) finds
    the message at the number it was given by its arrival, and retrieves it:
    undotted, the reply is the trace header and the message sent, line by
    line, and byte for byte if the text is in wire form. *)
Theorem mail_journey conn from to local domain a rd w o :
  inbox_at w (acc_UID a) o → SplitAddress to = Some (local, domain) → local_domain srv domain = true →
  dir_find local = Some a → fits srv rd → r_err rd = None →
  let now := w_now w in
  mb_next (base o now) < 2 ^ 32 - 1 →
  ∃ s1 s2 s3 id,
    smtp_handle srv (EvMail from) (NewSession false conn w) = (None, s1) ∧
    smtp_handle srv (EvRcpt to) s1 = (None, s2) ∧
    smtp_handle srv (EvData rd) s2 = (None, s3) ∧
    let text := trace srv s2 to id now ++ normaliseLineEndings (r_bytes rd) in
    let n := length (mb_messages (base o now)) in
    ∀ ops w4 p password hs,
      Forall keeps ops → mb_next (base o now) + Z.of_nat (length ops) < 2 ^ 32 - 2 →
      run_ops (acc_UID a) Inbox ops (s_world s3) = (Ok tt, w4) →
      env_world p = w4 → account p = None → deleted p = ∅ → p_user p ≠ [] → (tls srv = None ∨ encrypted p = true) →
      dir_login (login_name srv (p_user p)) password = Some a →
      ∃ p1 p2 out, handle srv hs (B "PASS") password p = (true, p1) ∧
        handle srv hs (B "RETR") (number (S n)) p1 = (true, p2) ∧
        writer p2 = writer p1 ++ ok_line (number (length text) ++ B " octets") ++ out ∧
        ∀ rest, ∃ shown, undot (read_lines (out ++ rest) []) = Some (shown, read_lines rest []) ∧
          shown = concat ((λ l, TrimRight l CRLF ++ CRLF) <$> read_lines text []) ∧ (wire_form text → shown = text).
Proof.
  intros Hin Hto Hloc Hfind Hf He now Hlt. pose proof Hin as [Hh Hc Hd Hat].
  set (s1 := set_message from [] (NewSession false conn w)).
  set (s2 := set_message from [SmtpRecipient to (Some a)] (NewSession false conn w)).
  assert (smtp_handle srv (EvRcpt to) s1 = (None, s2)) as Hrcpt.
  { unfold smtp_handle. rewrite (st_bind_eq (gets (λ s, s)) _ s1 _ _ eq_refl). unfold Rcpt. rewrite Hto, Hloc.
    pose proof (FindByID_healthy local w Hd Hh) as Hx. rewrite Hfind in Hx.
    rewrite (st_bind_eq _ _ s1 _ _ (on_world_eq _ s1 _ _ Hx)). done. }
  destruct (Data_one rd s2 to a o eq_refl eq_refl Hf He Hin Hlt) as (id & w3 & Hdata & Hn3 & Hin3).
  change (w_now (s_world s2)) with now in *.
  exists s1, s2, (set_world w3 s2), id. split; [done |]. split; [exact Hrcpt |]. split; [exact Hdata |].
  intros text n ops w4 p password hs Hk Hroom Hops Hp Hacc Hdel Huser Htls Hlogin. cbn [s_world set_world] in Hops.
  change (trace srv s2 to id now ++ normaliseLineEndings (r_bytes rd)) with text in Hin3.
  destruct Hin3 as [Hh3 Hc3 Hd3 Hat3]. set (mb3 := appended (base o now) [] now text) in *.
  assert (mb_next mb3 = mb_next (base o now) + 1) as Hnext by done.
  destruct (run_ops_healthy (acc_UID a) Inbox ops w3 mb3) as (f & Hr & Ho & Hat4); [apply inbox_ok | done | done | done | lia |].
  rewrite Hr in Hops. injection Hops as <-. set (mb4 := foldl (apply_op (w_now w3)) mb3 ops) in *.
  assert (mb_messages mb3 !! n = Some (AMessage (mb_next (base o now)) [] now text)) as Hplace.
  { unfold mb3, appended. cbn [mb_messages]. by apply list_lookup_middle. }
  destruct (keep_place (w_now w3) ops mb3 n _ Hk Hplace) as (z & Hz & _ & Hbody). cbn [a_body] in Hbody. fold mb4 in Hz.
  destruct (pass_opens srv a password p mb4) as (p1 & Hpass & Hw1 & Hout1 & Hrel); rewrite ?Hp; [done | done | done | done | | done | done | done | exact Hat4 |].
  { eapply holds_outside; [apply inbox_ok | exact Hd3 | apply Hat4 | exact Ho]. }
  pose proof (ad_ok _ _ _ Hat4 _ eq_refl) as Hok4.
  assert (mb_next mb4 <= mb_next mb3 + Z.of_nat (length ops)) as Hnext4 by apply foldl_next.
  pose proof (handle_implements srv a hs (B "RETR") (number (S n)) p1 (fresh_drop p mb4) Hrel) as Himp.
  unfold spec_command in Himp. do 9 (rewrite decide_False in Himp by done). rewrite decide_True in Himp by done.
  rewrite (pick_number p mb4 n z Hok4 Hz) in Himp. destruct Himp as (p2 & Hretr & Hout2 & _); [cbn [fresh_drop d_box]; lia | done |].
  exists p1, p2, (writeDotted (a_body z) (-1)). split; [by apply handle_PASS |]. split; [exact Hretr |].
  rewrite Hbody in *. split; [exact Hout2 |]. intros rest. eexists. destruct (undot_reply text (-1) rest) as [Hu Hw].
  split; [exact Hu |]. cbn [Z.ltb Z.compare]. rewrite <- list_fmap_compose in *. by split.
Qed.

End Journey.

(** ** Carol writes to Alice *)

From S2P Require Import Fixtures MailFixtures ServerFixtures.

Definition letter : reader := Reader (B "Subject: hello" ++ [LF; LF] ++ B ".dots and all" ++ [LF]) None.
Definition other_mail : list mailbox_op := [OpAppend [] 0 (B "another"); OpSetFlags [1] [FlagSeen] FlagsAdd].

(** The session after the first [n] commands. *)
Definition letter_events : list smtp_event :=
  [EvMail (B "carol@example.com"); EvRcpt (B "alice_1@example.org"); EvData letter].
Definition letter_session (n : nat) : smtpSession :=
  fold_left (λ s e, (smtp_handle queue_server e s).2) (take n letter_events) (NewSession false client_conn two_world).

Lemma mail_journey_witness :
  ∃ w4 id p1 p2 out, let p := with_user (B "alice_1@Example.org") (new_session false w4) in
    handle queue_server false (B "PASS") (B "pa55word") p = (true, p1) ∧
    handle queue_server false (B "RETR") (B "1") p1 = (true, p2) ∧
    let text := trace queue_server (NewSession false client_conn two_world) (B "alice_1@example.org") id (w_now two_world) ++
                B "Subject: hello" ++ CRLF ++ CRLF ++ B ".dots and all" ++ CRLF in
    writer p2 = writer p1 ++ ok_line (number (length text) ++ B " octets") ++ out ∧
    undot (read_lines out []) = Some (concat ((λ l, TrimRight l CRLF ++ CRLF) <$> read_lines text []), []).
Proof.
  destruct (mail_journey queue_server limit_ok client_conn (B "carol@example.com") (B "alice_1@example.org") (B "alice_1") (B "example.org")
    alice_account letter two_world None) as (s1 & s2 & s3 & id & H1 & H2 & H3 & H).
  - split; [apply two_world_ok | apply two_world_clock | apply two_world_holds | apply no_mail, inbox_good].
  - vm_compute. reflexivity.
  - vm_compute. reflexivity.
  - vm_compute. reflexivity.
  - unfold fits. by vm_compute.
  - reflexivity.
  - by vm_compute.
  - assert (s2 = letter_session 2) as E2.
    { unfold letter_session. cbn [fold_left letter_events take]. rewrite H1. cbn [snd]. by rewrite H2. }
    assert (s3 = letter_session 3) as E3.
    { unfold letter_session. cbn [fold_left letter_events take]. rewrite H1. cbn [snd]. rewrite H2. cbn [snd]. by rewrite H3. }
    assert ((run_ops 1 Inbox other_mail (s_world (letter_session 3))).1 = Ok tt) as Hops by (vm_compute; reflexivity).
    destruct (run_ops 1 Inbox other_mail (s_world (letter_session 3))) as [r w4] eqn:Hrun. cbn [fst] in Hops. subst r.
    destruct (H other_mail w4 (with_user (B "alice_1@Example.org") (new_session false w4)) (B "pa55word") false) as (p1 & p2 & out & G1 & G2 & G3 & G4).
    + repeat constructor.
    + by vm_compute.
    + rewrite E3. exact Hrun.
    + reflexivity.
    + reflexivity.
    + reflexivity.
    + by apply (bool_decide_unpack _).
    + left. reflexivity.
    + vm_compute. reflexivity.
    + exists w4, id, p1, p2, out. split; [exact G1 |]. split; [exact G2 |].
      assert (normaliseLineEndings (r_bytes letter) = B "Subject: hello" ++ CRLF ++ CRLF ++ B ".dots and all" ++ CRLF) as En
        by (vm_compute; reflexivity).
      assert (trace queue_server s2 = trace queue_server (NewSession false client_conn two_world)) as Et
        by (rewrite E2; reflexivity).
      rewrite En, Et in *. split; [exact G3 |].
      destruct (G4 []) as (shown & Hu & -> & _). rewrite app_nil_r in Hu. exact Hu.
Defined.
