(* ===== verification/Imap.v ===== *)
(** * Imap: mailboxes for IMAP clients ([mail/imap.go])

    The adapter between the IMAP engine, a library, and the mail store.  The
    engine's sequence sets and search criteria are functions; header parsing
    and rendering are parameters.  Where an operation takes the store's lock
    more than once, [other] is what other connections do in between. *)

From S2P Require Import Prelude GoStrings Strconv World Accounts Flags MailStore Token Config GoNet MailServer Relay Smtp.

Class ImapLibrary := {
  ErrInvalidCredentials : error;
  backend_ErrNoSuchMailbox : error;
  backend_ErrMailboxAlreadyExists : error;
  (** [backendutil], on the text of a message whose header parses. *)
  FetchEnvelope : bytes → bytes;
  FetchBodyStructure : bool → bytes → bytes;
  ParseBodySectionName : bytes → option bytes;
  FetchBodySection : bytes → bytes → option bytes;
  (** Whether [message.Read] yields an entity. *)
  message_Read : bytes → bool;
}.

(** [seqSet.Contains]; and what [backendutil.Match] says of a message, a
    sequence number, a UID, a date and flags, [None] being an error. *)
Abbreviation SeqSet := (Z → bool).
Abbreviation SearchCriteria := (bytes → Z → Z → Z → list bytes → option bool).

Definition FlagAnswered : bytes := B "\Answered".
Definition FlagFlagged : bytes := B "\Flagged".
Definition FlagDraft : bytes := B "\Draft".

Inductive StatusItem := StatusMessages | StatusUidNext | StatusUidValidity | StatusRecent | StatusUnseen | StatusOther.
Inductive FetchItem :=
| ItemFlags | ItemInternalDate | ItemRFC822Size | ItemUid | ItemEnvelope | ItemBody | ItemBodyStructure
| ItemOther (item : bytes).
Inductive FlagsOp := OpSetFlags_ | OpAddFlags | OpRemoveFlags | OpOther.

Record MailboxStatus := Status_ {
  st_Name : bytes; st_Flags : list bytes; PermanentFlags : list bytes; UnseenSeqNum : Z;
  st_Messages : option Z; st_UidNext : option Z; st_UidValidity : option Z; st_Recent : option Z; st_Unseen : option Z }.

(** A FETCH response; what was not asked for is absent. *)
Record fetch_response := Fetched {
  f_SeqNum : Z; f_Flags : option (list bytes); f_InternalDate : option Z; f_Size : option Z; f_Uid : option Z;
  f_Envelope : option bytes; f_BodyStructure : option bytes; f_Body : list (bytes * bytes) }.

Record imapMailbox := ImapMailbox { mb_user : Account; mb_name : bytes }.

Definition identifier (uid : bool) (seqNum msgUID : Z) : Z := if uid then msgUID else seqNum.

(** The messages with their sequence numbers. *)
Definition sequence (snapshot : Snapshot_) : list (Z * Message) :=
  imap (λ i msg, (uint32 (Z.of_nat i + 1), msg)) (Messages (Index snapshot)).

Section Imap.
Context {U : UnicodeTables} {Acc : Accounts} {Ml : MessageLibrary} {Il : ImapLibrary} (srv : Server).

Definition unseenSeqNum (snapshot : Snapshot_) : Z :=
  match List.find (λ nm, negb (hasFlag (m_Flags nm.2) FlagSeen)) (sequence snapshot) with
  | Some (seqNum, _) => seqNum
  | None => 0
  end.

Definition translateError (err : error) : error :=
  match err with
  | ErrNoSuchMailbox => backend_ErrNoSuchMailbox
  | ErrMailboxExists => backend_ErrMailboxAlreadyExists
  | _ => err
  end.
Definition translated {A} (m : M (result A)) : M (result A) :=
  r ← m; mret (match r with Ok a => Ok a | Err e => Err (translateError e) end).

(** ** The backend and its users *)

Definition Login (username password : bytes) : M (result Account) :=
  r ← mail_login srv username password;
  mret (match r with Some account => Ok account | None => Err ErrInvalidCredentials end).

Definition Username (u : Account) : bytes := Address u (Domain (cfg srv)).

Fixpoint list_names (u : Account) (subscribed : bool) (names : list bytes) : M (list imapMailbox) :=
  match names with
  | [] => mret []
  | name :: names =>
      keep ← (if subscribed then
                r ← Snapshot (acc_UID u) name;
                mret (match r with Ok snapshot => Subscribed (Index snapshot) | Err _ => false end)
              else mret true);
      rest ← list_names u subscribed names;
      mret (if keep : bool then ImapMailbox u name :: rest else rest)
  end.
Definition imap_ListMailboxes (u : Account) (subscribed : bool) : M (result (list imapMailbox)) :=
  names ←? ListMailboxes (acc_UID u);
  l ← list_names u subscribed names;
  mret (Ok l).

Definition GetMailbox (u : Account) (name : bytes) : M (result imapMailbox) :=
  _ ←? translated (Snapshot (acc_UID u) name);
  mret (Ok (ImapMailbox u (CanonicalMailbox name))).

Definition imap_CreateMailbox (u : Account) (name : bytes) : M (result unit) := translated (CreateMailbox (acc_UID u) name).
Definition imap_DeleteMailbox (u : Account) (name : bytes) : M (result unit) := translated (DeleteMailbox (acc_UID u) name).
Definition imap_RenameMailbox (u : Account) (from to : bytes) : M (result unit) :=
  translated (RenameMailbox (acc_UID u) from to).

(** ** One mailbox *)

Section Mailbox.
Context (m : imapMailbox).
Let uid : Z := acc_UID (mb_user m).

Definition imap_snapshot : M (result Snapshot_) := translated (Snapshot uid (mb_name m)).

Definition status_item (snapshot : Snapshot_) (st : MailboxStatus) (item : StatusItem) : MailboxStatus :=
  let '(Status_ n f p u ms nx uv rc us) := st in
  match item with
  | StatusMessages => Status_ n f p u (Some (uint32 (Z.of_nat (length (Messages (Index snapshot)))))) nx uv rc us
  | StatusUidNext => Status_ n f p u ms (Some (UIDNext (Index snapshot))) uv rc us
  | StatusUidValidity => Status_ n f p u ms nx (Some (UIDValidity (Index snapshot))) rc us
  | StatusRecent => Status_ n f p u ms nx uv (Some 0) us
  | StatusUnseen => Status_ n f p u ms nx uv rc (Some (Unseen snapshot))
  | StatusOther => st
  end.
Definition Status (items : list StatusItem) : M (result MailboxStatus) :=
  snapshot ←? imap_snapshot;
  let flags := [FlagSeen; FlagAnswered; FlagFlagged; FlagDeleted; FlagDraft] in
  mret (Ok (foldl (status_item snapshot)
              (Status_ (mb_name m) flags (flags ++ [B "\*"]) (unseenSeqNum snapshot) None None None None None) items)).

Definition imap_SetSubscribed (subscribed : bool) : M (result unit) := translated (SetSubscribed uid (mb_name m) subscribed).

(** [load]: the body is read once. *)
Definition load (msg : Message) (body : option bytes) : M (result bytes) :=
  match body with
  | Some body => mret (Ok body)
  | None => c ←? Body uid (mb_name m) msg; mret (Ok (content_bytes c))
  end.

Definition no_header : error := ErrText (B "malformed header").

(** The loop over the items. *)
Fixpoint fetch_items (msg : Message) (items : list FetchItem) (body : option bytes) (f : fetch_response) :
    M (result fetch_response) :=
  let '(Fetched n fl da si ui en st bo) := f in
  match items with
  | [] => mret (Ok f)
  | ItemFlags :: items => fetch_items msg items body (Fetched n (Some (m_Flags msg)) da si ui en st bo)
  | ItemInternalDate :: items => fetch_items msg items body (Fetched n fl (Some (m_Date msg)) si ui en st bo)
  | ItemRFC822Size :: items => fetch_items msg items body (Fetched n fl da (Some (m_Size msg)) ui en st bo)
  | ItemUid :: items => fetch_items msg items body (Fetched n fl da si (Some (m_UID msg)) en st bo)
  | ItemEnvelope :: items =>
      raw ←? load msg body;
      match ReadHeader raw with
      | None => mret (Err no_header)
      | Some _ => fetch_items msg items (Some raw) (Fetched n fl da si ui (Some (FetchEnvelope raw)) st bo)
      end
  | ItemBody :: items =>
      raw ←? load msg body;
      match ReadHeader raw with
      | None => mret (Err no_header)
      | Some _ => fetch_items msg items (Some raw) (Fetched n fl da si ui en (Some (FetchBodyStructure false raw)) bo)
      end
  | ItemBodyStructure :: items =>
      raw ←? load msg body;
      match ReadHeader raw with
      | None => mret (Err no_header)
      | Some _ => fetch_items msg items (Some raw) (Fetched n fl da si ui en (Some (FetchBodyStructure true raw)) bo)
      end
  | ItemOther item :: items =>
      match ParseBodySectionName item with
      | None => fetch_items msg items body f
      | Some section =>
          raw ←? load msg body;
          match ReadHeader raw with
          | None => mret (Err no_header)
          | Some _ =>
              fetch_items msg items (Some raw)
                (match FetchBodySection raw section with
                 | Some literal => Fetched n fl da si ui en st (bo ++ [(section, literal)])
                 | None => f
                 end)
          end
      end
  end.
Definition fetch (msg : Message) (seqNum : Z) (items : list FetchItem) : M (result fetch_response) :=
  fetch_items msg items None (Fetched seqNum None None None None None None []).

(** The loop over the messages; [other] is what other connections do before
    each of them. *)
Fixpoint fetch_selected (other : Z → M unit) (uid : bool) (seqSet : SeqSet) (items : list FetchItem) (msgs : list (Z * Message)) :
    M (list fetch_response) :=
  match msgs with
  | [] => mret []
  | (seqNum, msg) :: msgs =>
      _ ← other seqNum;
      if seqSet (identifier uid seqNum (m_UID msg)) then
        r ← fetch msg seqNum items;
        rest ← fetch_selected other uid seqSet items msgs;
        mret (match r with Ok fetched => fetched :: rest | Err _ => rest end)
      else fetch_selected other uid seqSet items msgs
  end.
(** The responses sent to the channel. *)
Definition ListMessages (other : Z → M unit) (uid : bool) (seqSet : SeqSet) (items : list FetchItem) : M (result (list fetch_response)) :=
  snapshot ←? imap_snapshot;
  l ← fetch_selected other uid seqSet items (sequence snapshot);
  mret (Ok l).

Fixpoint search_loop (other : Z → M unit) (by_uid : bool) (criteria : SearchCriteria) (msgs : list (Z * Message)) : M (list Z) :=
  match msgs with
  | [] => mret []
  | (seqNum, msg) :: msgs =>
      _ ← other seqNum;
      r ← Body uid (mb_name m) msg;
      rest ← search_loop other by_uid criteria msgs;
      mret (match r with
            | Err _ => rest
            | Ok c =>
                if negb (message_Read (content_bytes c)) then rest
                else match criteria (content_bytes c) seqNum (m_UID msg) (m_Date msg) (m_Flags msg) with
                     | Some true => identifier by_uid seqNum (m_UID msg) :: rest
                     | _ => rest
                     end
            end)
  end.
Definition SearchMessages (other : Z → M unit) (by_uid : bool) (criteria : SearchCriteria) : M (result (list Z)) :=
  snapshot ←? imap_snapshot;
  ids ← search_loop other by_uid criteria (sequence snapshot);
  mret (Ok ids).

(** [body] is what reading the literal gave. *)
Definition CreateMessage (flags : list bytes) (date : Z) (body : result bytes) : M (result unit) :=
  match body with
  | Err e => mret (Err e)
  | Ok raw => _ ←? translated (Append uid (mb_name m) flags date (normaliseLineEndings raw)); mret (Ok tt)
  end.

Definition resolve (by_uid : bool) (seqset : SeqSet) : M (result (list Z)) :=
  snapshot ←? imap_snapshot;
  mret (Ok (omap (λ nm, if seqset (identifier by_uid nm.1 (m_UID nm.2)) then Some (m_UID nm.2) else None) (sequence snapshot))).

Definition UpdateMessagesFlags (other : M unit) (by_uid : bool) (seqset : SeqSet) (operation : FlagsOp) (flags : list bytes) :
    M (result unit) :=
  uids ←? resolve by_uid seqset;
  _ ← other;
  match operation with
  | OpSetFlags_ => translated (SetFlags uid (mb_name m) uids flags FlagsSet)
  | OpAddFlags => translated (SetFlags uid (mb_name m) uids flags FlagsAdd)
  | OpRemoveFlags => translated (SetFlags uid (mb_name m) uids flags FlagsRemove)
  | OpOther => mret (Ok tt)
  end.

Definition CopyMessages (other : M unit) (by_uid : bool) (seqset : SeqSet) (dest : bytes) : M (result unit) :=
  uids ←? resolve by_uid seqset;
  _ ← other;
  translated (Copy uid (mb_name m) dest uids).

Definition Expunge (other : M unit) : M (result unit) :=
  snapshot ←? imap_snapshot;
  let doomed := Deleted snapshot in
  if decide (doomed = []) then mret (Ok tt)
  else _ ← other; translated (Remove uid (mb_name m) doomed).

End Mailbox.
End Imap.
