(* ===== verification/ImapSpec.v ===== *)
(** * ImapSpec: what IMAP clients see

    On a healthy system FETCH, SEARCH, STORE, EXPUNGE and STATUS do to the
    abstract mailbox what their names say; and two races between
    connections. *)

From S2P Require Import Prelude GoStrings Strconv World WorldFacts Accounts AccountsFacts Flags FlagsSpec MailStore.
From S2P Require Import MailNames MailFacts MailOps Fixtures MailFixtures Directory Token Config GoNet MailServer ServerFixtures.
From S2P Require Import Relay RelayFacts Smtp SmtpFacts Imap.

(** ** Sequence numbers *)

(** The messages of a mailbox, counted from 1. *)
Fixpoint count_from (n : Z) (l : list amessage) : list (Z * amessage) :=
  match l with [] => [] | a :: l => (n, a) :: count_from (n + 1) l end.
Definition numbered (mb : mailbox) : list (Z * amessage) := count_from 1 (mb_messages mb).

Lemma count_from_app n l1 l2 :
  count_from n (l1 ++ l2) = count_from n l1 ++ count_from (n + Z.of_nat (length l1)) l2.
Proof.
  revert n. induction l1 as [| a l1 IH]; intros n; simpl; [by rewrite Z.add_0_r |].
  rewrite IH. do 3 f_equal. lia.
Qed.

Lemma count_from_range n l m a : (m, a) ∈ count_from n l → n <= m < n + Z.of_nat (length l) ∧ a ∈ l.
Proof.
  revert n. induction l as [| b l IH]; intros n; simpl; [by intros ?%elem_of_nil |].
  intros [[= -> ->] | Hin]%elem_of_cons; [split; [lia | by left] |]. apply IH in Hin as [? ?]. split; [lia | by right].
Qed.

Lemma sequence_from n l :
  Z.of_nat n + Z.of_nat (length l) < 2 ^ 32 →
  imap (λ i msg, (uint32 (Z.of_nat (n + i) + 1), msg)) (entry_of <$> l) =
  (λ na, (na.1, entry_of na.2)) <$> count_from (Z.of_nat n + 1) l.
Proof.
  revert n. induction l as [| a l IH]; intros n Hlt; [done |]. simpl length in Hlt.
  rewrite fmap_cons. cbn [imap count_from]. rewrite fmap_cons. f_equal.
  - rewrite Nat.add_0_r, uint32_id by (unfold is_uint32; lia). done.
  - replace (Z.of_nat n + 1 + 1) with (Z.of_nat (S n) + 1) by lia. rewrite <- (IH (S n)) by lia.
    apply imap_ext. intros i msg _. simpl. by rewrite Nat.add_succ_r.
Qed.

Section Spec.
Context {U : UnicodeTables} {Acc : Accounts} {Laws : AccountsLaws Acc} {Ml : MessageLibrary} {Il : ImapLibrary}.

Definition snap (name : bytes) (mb : mailbox) : Snapshot_ := NewSnapshot (CanonicalMailbox name) (index_of mb).

Lemma sequence_snap name mb :
  mailbox_ok mb → sequence (snap name mb) = (λ na, (na.1, entry_of na.2)) <$> numbered mb.
Proof. intros Hok%few_messages. unfold sequence. exact (sequence_from 0 (mb_messages mb) ltac:(lia)). Qed.

(** The messages a sequence set selects. *)
Definition selected (by_uid : bool) (seqset : SeqSet) (mb : mailbox) : list amessage :=
  omap (λ na, if seqset (identifier by_uid na.1 (a_uid na.2)) then Some na.2 else None) (numbered mb).

(** ** Reading *)

(** What FETCH shows of a message. *)
Definition render_item (a : amessage) (f : fetch_response) (item : FetchItem) : option fetch_response :=
  let '(Fetched n fl da si ui en st bo) := f in
  let headed r := match ReadHeader (a_body a) with Some _ => Some r | None => None end in
  match item with
  | ItemFlags => Some (Fetched n (Some (a_flags a)) da si ui en st bo)
  | ItemInternalDate => Some (Fetched n fl (Some (a_date a)) si ui en st bo)
  | ItemRFC822Size => Some (Fetched n fl da (Some (uint32 (Z.of_nat (length (a_body a))))) ui en st bo)
  | ItemUid => Some (Fetched n fl da si (Some (a_uid a)) en st bo)
  | ItemEnvelope => headed (Fetched n fl da si ui (Some (FetchEnvelope (a_body a))) st bo)
  | ItemBody => headed (Fetched n fl da si ui en (Some (FetchBodyStructure false (a_body a))) bo)
  | ItemBodyStructure => headed (Fetched n fl da si ui en (Some (FetchBodyStructure true (a_body a))) bo)
  | ItemOther item =>
      match ParseBodySectionName item with
      | None => Some f
      | Some section =>
          headed (match FetchBodySection (a_body a) section with
                  | Some literal => Fetched n fl da si ui en st (bo ++ [(section, literal)])
                  | None => f
                  end)
      end
  end.
Fixpoint render_items (a : amessage) (items : list FetchItem) (f : fetch_response) : option fetch_response :=
  match items with [] => Some f | item :: items => f ← render_item a f item; render_items a items f end.
Definition render (items : list FetchItem) (na : Z * amessage) : option fetch_response :=
  render_items na.2 items (Fetched na.1 None None None None None None []).

(** What SEARCH finds. *)
Definition matches (criteria : SearchCriteria) (na : Z * amessage) : bool :=
  message_Read (a_body na.2) &&
  bool_decide (criteria (a_body na.2) na.1 (a_uid na.2) (a_date na.2) (a_flags na.2) = Some true).

Section Mailbox.
Context (m : imapMailbox) (mb : mailbox).
Let uid : Z := acc_UID (mb_user m).
Context (Hg : good_name (mb_name m)).

(** The mailbox is on the file tree of a healthy system. *)
Definition stored_in (w : world) (mb : mailbox) : Prop :=
  at_dir (w_fs w) (mailboxDir uid (mb_name m)) (Some mb) ∧ healthy w.

Lemma imap_snapshot_healthy w : stored_in w mb → imap_snapshot m w = (Ok (snap (mb_name m) mb), w).
Proof.
  intros [Had Hh]. unfold imap_snapshot, translated.
  by rewrite (st_bind_eq _ _ _ _ _ (Snapshot_healthy _ _ _ _ Hg Had Hh)).
Qed.

Lemma resolve_healthy by_uid seqset w :
  stored_in w mb → resolve m by_uid seqset w = (Ok (a_uid <$> selected by_uid seqset mb), w).
Proof.
  intros Hs. unfold resolve. rewrite (try_bind_ok _ _ _ _ _ (imap_snapshot_healthy w Hs)).
  rewrite sequence_snap by (by apply (ad_ok _ _ _ (proj1 Hs))). unfold selected.
  unfold mret, st_ret. do 2 f_equal. rewrite omap_fmap, list_fmap_omap. apply omap_ext. intros [n a] _. simpl. by destruct (seqset _).
Qed.

(** The body of a message can be read. *)
Definition readable (w : world) (a : amessage) : Prop := Body uid (mb_name m) (entry_of a) w = (Ok (Raw (a_body a)), w).

Lemma stored_readable w a : stored_in w mb → a ∈ mb_messages mb → readable w a.
Proof. intros [Had Hh] Ha. by apply (Body_healthy _ _ _ mb). Qed.

Lemma load_readable w a body :
  readable w a → (∀ b, body = Some b → b = a_body a) → load m (entry_of a) body w = (Ok (a_body a), w).
Proof.
  intros Hr Hb. destruct body as [b |]; [by rewrite (Hb b eq_refl) |]. simpl. by rewrite (try_bind_ok _ _ _ _ _ Hr).
Qed.

Lemma fetch_items_readable w a items body f :
  readable w a → (∀ b, body = Some b → b = a_body a) →
  fetch_items m (entry_of a) items body f w =
    (match render_items a items f with Some f => Ok f | None => Err no_header end, w).
Proof.
  intros Hr. revert body f. induction items as [| item items IH]; intros body [n fl da si ui en st bo] Hb; [done |].
  pose proof (load_readable w a body Hr Hb) as Hl.
  assert (∀ b, Some (a_body a) = Some b → b = a_body a) as Hb' by congruence.
  destruct item; cbn [fetch_items render_items render_item]; try (by apply IH).
  1-3: rewrite (try_bind_ok _ _ _ _ _ Hl); destruct (ReadHeader (a_body a)); [by rewrite IH | done].
  destruct (ParseBodySectionName item) as [section |]; [| by apply IH].
  rewrite (try_bind_ok _ _ _ _ _ Hl). destruct (ReadHeader (a_body a)); [| done].
  destruct (FetchBodySection (a_body a) section); by rewrite IH.
Qed.

Lemma fetch_readable w n a items :
  readable w a → fetch m (entry_of a) n items w = (match render items (n, a) with Some f => Ok f | None => Err no_header end, w).
Proof. intros Hr. unfold fetch. by apply fetch_items_readable. Qed.

Lemma numbered_in na : na ∈ numbered mb → na.2 ∈ mb_messages mb.
Proof. destruct na as [n a]. intros Hin%count_from_range. apply Hin. Qed.

Lemma fetch_selected_healthy w by_uid seqset items l :
  stored_in w mb → (∀ na, na ∈ l → na.2 ∈ mb_messages mb) →
  fetch_selected m (λ _, mret tt) by_uid seqset items ((λ na, (na.1, entry_of na.2)) <$> l) w =
    (omap (λ na, if seqset (identifier by_uid na.1 (a_uid na.2)) then render items na else None) l, w).
Proof.
  intros Hs. induction l as [| [n a] l IH]; intros Hl; [done |]. rewrite fmap_cons. cbn [fetch_selected fst snd].
  rewrite (st_bind_eq (mret tt) _ w tt w eq_refl), omap_cons. change (m_UID (entry_of a)) with (a_uid a).
  specialize (IH (λ na Hna, Hl na (list_elem_of_further _ _ _ Hna))).
  destruct (seqset _); [| exact IH].
  pose proof (fetch_readable w n a items (stored_readable w a Hs (Hl (n, a) (list_elem_of_here _ _)))) as Hf.
  rewrite (st_bind_eq _ _ _ _ _ Hf), (st_bind_eq _ _ _ _ _ IH). by destruct (render items (n, a)).
Qed.

Lemma search_loop_healthy w by_uid criteria l :
  stored_in w mb → (∀ na, na ∈ l → na.2 ∈ mb_messages mb) →
  search_loop m (λ _, mret tt) by_uid criteria ((λ na, (na.1, entry_of na.2)) <$> l) w =
    ((λ na, identifier by_uid na.1 (a_uid na.2)) <$> filter (λ na, matches criteria na = true) l, w).
Proof.
  intros Hs. pose proof Hs as [Had Hh]. induction l as [| [n a] l IH]; intros Hl; [done |].
  rewrite fmap_cons. cbn [search_loop fst snd]. rewrite (st_bind_eq (mret tt) _ w tt w eq_refl).
  assert (Body uid (mb_name m) (entry_of a) w = (Ok (Raw (a_body a)), w)) as Hb.
  { apply (Body_healthy _ _ _ mb); [done | done | apply (Hl (n, a)); by left | done]. }
  rewrite (st_bind_eq _ _ _ _ _ Hb). specialize (IH (λ na Hna, Hl na (list_elem_of_further _ _ _ Hna))).
  rewrite (st_bind_eq _ _ _ _ _ IH). cbn [content_bytes]. rewrite filter_cons. cbn [fst snd].
  change (m_UID (entry_of a)) with (a_uid a). change (m_Date (entry_of a)) with (a_date a).
  change (m_Flags (entry_of a)) with (a_flags a).
  destruct (decide (matches criteria (n, a) = true)) as [Hm | Hm]; unfold matches in Hm; cbn [fst snd] in Hm.
  - apply andb_true_iff in Hm as [-> Hm]. apply bool_decide_eq_true in Hm. by rewrite Hm.
  - destruct (message_Read (a_body a)); [| done]. cbn [negb].
    destruct (criteria (a_body a) n (a_uid a) (a_date a) (a_flags a)) as [[] |]; [by destruct Hm | done | done].
Qed.

(** FETCH and SEARCH show the mailbox as it is.  FETCH answers with one
    response per selected message, in mailbox order, under its current
    sequence number, holding just what was asked for (a message whose header
    does not parse is left out when the header is needed); SEARCH returns the
    numbers or UIDs of exactly the readable messages that match, ascending;
    neither changes anything. *)
Theorem fetch_search_correct w by_uid seqset items criteria :
  stored_in w mb →
  ListMessages m (λ _, mret tt) by_uid seqset items w =
    (Ok (omap (λ na, if seqset (identifier by_uid na.1 (a_uid na.2)) then render items na else None) (numbered mb)), w) ∧
  ∃ ids, SearchMessages m (λ _, mret tt) by_uid criteria w = (Ok ids, w) ∧
    ids = (λ na, identifier by_uid na.1 (a_uid na.2)) <$> filter (λ na, matches criteria na = true) (numbered mb) ∧
    StronglySorted Z.lt ids.
Proof.
  intros Hs. pose proof (ad_ok _ _ _ (proj1 Hs) _ eq_refl) as Hok. split.
  - unfold ListMessages. rewrite (try_bind_ok _ _ _ _ _ (imap_snapshot_healthy w Hs)), sequence_snap by done.
    by rewrite (st_bind_eq _ _ _ _ _ (fetch_selected_healthy w by_uid seqset items (numbered mb) Hs numbered_in)).
  - eexists. split; [| split; [reflexivity |]].
    + unfold SearchMessages. rewrite (try_bind_ok _ _ _ _ _ (imap_snapshot_healthy w Hs)), sequence_snap by done.
      by rewrite (st_bind_eq _ _ _ _ _ (search_loop_healthy w by_uid criteria (numbered mb) Hs numbered_in)).
    + apply StronglySorted_filter. unfold numbered. pose proof (mok_sorted _ Hok) as Hsort. revert Hsort.
      generalize 1. induction (mb_messages mb) as [| a l IH]; intros n; [constructor |].
      rewrite fmap_cons. intros [Hl Ha]%StronglySorted_inv. cbn [count_from]. rewrite fmap_cons. constructor; [by apply IH |].
      apply Forall_fmap, Forall_forall. intros [k b] Hin. apply count_from_range in Hin as [Hk Hb]. simpl.
      destruct by_uid; simpl; [| lia]. rewrite Forall_fmap, Forall_forall in Ha. by apply Ha.
Qed.

(** ** Changing flags and expunging, with other connections in between *)

(** What other connections do to the mailbox between the two halves. *)
Definition meanwhile (ops : list mailbox_op) : M unit := _ ← run_ops uid (mb_name m) ops; mret tt.

Definition flag_op (operation : FlagsOp) : option FlagOp :=
  match operation with
  | OpSetFlags_ => Some FlagsSet | OpAddFlags => Some FlagsAdd | OpRemoveFlags => Some FlagsRemove | OpOther => None
  end.

Lemma meanwhile_healthy ops w :
  stored_in w mb → clock_ok w → mb_next mb + Z.of_nat (length ops) < 2 ^ 32 - 1 →
  let mb' := foldl (apply_op (w_now w)) mb ops in
  ∃ f, meanwhile ops w = (tt, set_fs f w) ∧ outside (mailboxDir uid (mb_name m)) (w_fs w) f ∧
    at_dir f (mailboxDir uid (mb_name m)) (Some mb') ∧ mb_next mb' < 2 ^ 32 - 1.
Proof.
  intros [Had Hh] Hc Hlt mb'. destruct (run_ops_healthy uid (mb_name m) ops w mb) as (f & Hr & Ho & Hat); [done .. | lia |].
  exists f. unfold meanwhile. rewrite (st_bind_eq _ _ _ _ _ Hr). repeat (split; [done |]).
  pose proof (foldl_next (w_now w) ops mb). unfold mb'. lia.
Qed.

(** A second half after the others: an operation of the store. *)
Lemma then_op ops op w (k : M (result unit)) :
  stored_in w mb → clock_ok w → mb_next mb + Z.of_nat (length ops) < 2 ^ 32 - 1 →
  (∀ w', k w' = translated (run_op uid (mb_name m) op) w') →
  ∃ f, (_ ← meanwhile ops; k) w = (Ok tt, set_fs f w) ∧ outside (mailboxDir uid (mb_name m)) (w_fs w) f ∧
    at_dir f (mailboxDir uid (mb_name m)) (Some (apply_op (w_now w) (foldl (apply_op (w_now w)) mb ops) op)).
Proof.
  intros Hs Hc Hlt Hk. destruct (meanwhile_healthy ops w Hs Hc Hlt) as (f & Hm & Ho & Hat & Hn).
  rewrite (st_bind_eq _ _ _ _ _ Hm), Hk.
  destruct (run_op_healthy uid (mb_name m) op (set_fs f w) _ Hg Hat Hc (proj2 Hs) Hn) as (g & Hr & Ho' & Hat').
  exists g. unfold translated. rewrite (st_bind_eq _ _ _ _ _ Hr). split; [done |]. split; [by etrans | done].
Qed.

(** C34: STORE hits the messages it selected.  Whatever other connections
    append, flag or remove between the two halves of the operation, the flags
    of exactly the messages that the sequence set selected at the start are
    changed, and nothing else about the mailbox. *)
Theorem store_interleaved ops by_uid seqset operation op flags w :
  stored_in w mb → clock_ok w → mb_next mb + Z.of_nat (length ops) < 2 ^ 32 - 1 → flag_op operation = Some op →
  ∃ f, UpdateMessagesFlags m (meanwhile ops) by_uid seqset operation flags w = (Ok tt, set_fs f w) ∧
    outside (mailboxDir uid (mb_name m)) (w_fs w) f ∧
    at_dir f (mailboxDir uid (mb_name m))
      (Some (set_flags (foldl (apply_op (w_now w)) mb ops) (a_uid <$> selected by_uid seqset mb) flags op)).
Proof.
  intros Hs Hc Hlt Hop. unfold UpdateMessagesFlags. rewrite (try_bind_ok _ _ _ _ _ (resolve_healthy by_uid seqset w Hs)).
  apply (then_op ops (OpSetFlags (a_uid <$> selected by_uid seqset mb) flags op)); [done .. |].
  intros w'. by destruct operation; simplify_eq/=.
Qed.

(** ** Reading, with other connections in between *)

(** The text of a message never changes, and its UID goes to no other. *)
Definition text_in (a : amessage) (mb0 : mailbox) : Prop :=
  a_uid a < mb_next mb0 ∧ ∀ y, y ∈ mb_messages mb0 → a_uid y = a_uid a → a_body y = a_body a.
Definition present (a : amessage) (mb0 : mailbox) : Prop := a_uid a ∈ a_uid <$> mb_messages mb0.

Lemma text_in_own mb0 a : mailbox_ok mb0 → a ∈ mb_messages mb0 → text_in a mb0.
Proof.
  intros Hok Ha. pose proof (mok_uids _ Hok) as Hu. rewrite Forall_forall in Hu. split; [by apply Hu |].
  intros y Hy He. pose proof (sorted_NoDup _ (mok_sorted _ Hok)) as Hnd.
  apply list_elem_of_lookup in Ha as [i Ha], Hy as [k Hy].
  assert (i = k) as ->; [| congruence].
  eapply NoDup_lookup; [exact Hnd | |]; rewrite list_lookup_fmap; [by rewrite Ha | by rewrite Hy; cbn; rewrite He].
Qed.

Lemma text_in_op now mb0 op a : text_in a mb0 → text_in a (apply_op now mb0 op).
Proof.
  intros [Hlt Ht]. split; [pose proof (apply_op_next now mb0 op); lia |].
  destruct op as [flags date body | uids flags op | b | uids]; simpl; [| | done |].
  - intros y [Hy | ->%list_elem_of_singleton]%elem_of_app; [by apply Ht |]. simpl. lia.
  - intros y (x & -> & Hx)%list_elem_of_fmap. case_decide; simpl; by apply Ht.
  - intros y [_ Hy]%list_elem_of_filter. by apply Ht.
Qed.

Lemma text_in_ops now ops mb0 a : text_in a mb0 → text_in a (foldl (apply_op now) mb0 ops).
Proof. revert mb0. induction ops as [| op ops IH]; intros mb0 H; [done |]. by apply IH, text_in_op. Qed.

Lemma present_readable w mb0 a : stored_in w mb0 → text_in a mb0 → present a mb0 → readable w a.
Proof.
  intros [Had Hh] [_ Ht] (y & Hu & Hy)%list_elem_of_fmap. unfold readable, Body. cbn [entry_of m_File]. rewrite <- (Ht y Hy (eq_sym Hu)), Hu.
  exact (Body_healthy _ _ _ _ _ Hg Had Hy Hh).
Qed.

(** Reading changes nothing, whatever it finds. *)
Lemma load_reads w msg body : healthy w → ∃ r, load m msg body w = (r, w).
Proof.
  intros Hh. destruct body as [b |]; [by eexists |]. simpl. unfold Body.
  destruct (ReadFile_healthy (Join (mailboxDir uid (mb_name m)) [m_File msg]) w Hh) as [[c | e] Hr].
  - rewrite (try_bind_ok _ _ _ _ _ Hr). by eexists.
  - rewrite (try_bind_err _ _ _ _ _ Hr). by eexists.
Qed.

Lemma fetch_reads w msg items body f : healthy w → ∃ r, fetch_items m msg items body f w = (r, w).
Proof.
  intros Hh. revert body f. induction items as [| item items IH]; intros body [n fl da si ui en st bo]; [by eexists |].
  destruct (load_reads w msg body Hh) as [[raw | e] Hl];
    destruct item; cbn [fetch_items]; try apply IH;
    try (destruct (ParseBodySectionName _); [| apply IH]);
    try (rewrite (try_bind_err _ _ _ _ _ Hl); by eexists);
    rewrite (try_bind_ok _ _ _ _ _ Hl); destruct (ReadHeader raw); try apply IH; by eexists.
Qed.

(** What FETCH may answer for the messages of its snapshot, when the others'
    operations [ops n] come before the [n]-th: for a message that is still
    there, what the snapshot says of it; for one that has gone, nothing is
    said here. *)
Fixpoint fetch_spec (now : Z) (ops : Z → list mailbox_op) (sel : Z * amessage → bool) (items : list FetchItem)
    (l : list (Z * amessage)) (mb0 : mailbox) (rs : list (option fetch_response)) : Prop :=
  match l, rs with
  | [], [] => True
  | na :: l, r :: rs =>
      let mb0 := foldl (apply_op now) mb0 (ops na.1) in
      (if sel na then present na.2 mb0 → r = render items na else r = None) ∧ fetch_spec now ops sel items l mb0 rs
  | _, _ => False
  end.

(** The same for SEARCH; a message that has gone may still be found. *)
Fixpoint search_spec (now : Z) (ops : Z → list mailbox_op) (criteria : SearchCriteria) (by_uid : bool)
    (l : list (Z * amessage)) (mb0 : mailbox) (rs : list (option Z)) : Prop :=
  match l, rs with
  | [], [] => True
  | na :: l, r :: rs =>
      let mb0 := foldl (apply_op now) mb0 (ops na.1) in
      (present na.2 mb0 → r = if matches criteria na then Some (identifier by_uid na.1 (a_uid na.2)) else None) ∧
      (r = None ∨ r = Some (identifier by_uid na.1 (a_uid na.2))) ∧ search_spec now ops criteria by_uid l mb0 rs
  | _, _ => False
  end.

(** All operations of the others. *)
Definition all_ops (ops : Z → list mailbox_op) (l : list (Z * amessage)) : list mailbox_op := concat ((λ na, ops na.1) <$> l).

Section Among.
Context (ops : Z → list mailbox_op).

(** The others move before a message, and leave things in order. *)
Lemma others_move w mb0 n rest :
  stored_in w mb0 → clock_ok w → mb_next mb0 + Z.of_nat (length (ops n ++ rest)) < 2 ^ 32 - 1 →
  ∃ f, meanwhile (ops n) w = (tt, set_fs f w) ∧ stored_in (set_fs f w) (foldl (apply_op (w_now w)) mb0 (ops n)) ∧
    outside (mailboxDir uid (mb_name m)) (w_fs w) f ∧
    mb_next (foldl (apply_op (w_now w)) mb0 (ops n)) + Z.of_nat (length rest) < 2 ^ 32 - 1.
Proof.
  intros [Had Hh] Hc Hlt. rewrite length_app in Hlt.
  destruct (run_ops_healthy uid (mb_name m) (ops n) w mb0) as (f & Hr & Ho & Hat); [done .. | lia |].
  exists f. unfold meanwhile. rewrite (st_bind_eq _ _ _ _ _ Hr). split; [done |]. split; [by split |]. split; [done |].
  pose proof (foldl_next (w_now w) (ops n) mb0). lia.
Qed.

Lemma fetch_among w mb0 by_uid seqset items l :
  stored_in w mb0 → clock_ok w → mb_next mb0 + Z.of_nat (length (all_ops ops l)) < 2 ^ 32 - 1 → Forall (λ na, text_in na.2 mb0) l →
  ∃ rs f, fetch_selected m (λ n, meanwhile (ops n)) by_uid seqset items ((λ na, (na.1, entry_of na.2)) <$> l) w =
      (omap id rs, set_fs f w) ∧
    fetch_spec (w_now w) ops (λ na, seqset (identifier by_uid na.1 (a_uid na.2))) items l mb0 rs ∧
    outside (mailboxDir uid (mb_name m)) (w_fs w) f ∧
    at_dir f (mailboxDir uid (mb_name m)) (Some (foldl (apply_op (w_now w)) mb0 (all_ops ops l))).
Proof.
  revert w mb0. induction l as [| [n a] l IH]; intros w mb0 Hs Hc Hlt Ht.
  { exists [], (w_fs w). rewrite set_fs_id. repeat (split; [done |]). apply Hs. }
  unfold all_ops in Hlt. rewrite fmap_cons in Hlt. cbn [concat fst] in Hlt.
  destruct (others_move w mb0 n _ Hs Hc Hlt) as (f & Hm & Hs1 & Ho & Hlt1).
  apply Forall_cons in Ht as [Hta Ht]. cbn [snd] in Hta.
  assert (Forall (λ na, text_in na.2 (foldl (apply_op (w_now w)) mb0 (ops n))) l) as Ht1.
  { eapply Forall_impl; [exact Ht |]. intros na. apply text_in_ops. }
  destruct (IH (set_fs f w) _ Hs1 Hc Hlt1 Ht1) as (rs & g & Hf & Hspec & Hog & Hat). rewrite set_fs_set_fs in Hf. cbn [w_now w_fs set_fs] in *.
  rewrite <- foldl_app in Hat. rewrite fmap_cons. cbn [fetch_selected fst snd fetch_spec]. rewrite (st_bind_eq _ _ _ _ _ Hm).
  change (m_UID (entry_of a)) with (a_uid a). destruct (seqset _) eqn:Hsel.
  - destruct (fetch_reads (set_fs f w) (entry_of a) items None (Fetched n None None None None None None []) (proj2 Hs1)) as [r Hr].
    exists ((match r with Ok x => Some x | Err _ => None end) :: rs), g.
    assert (fetch m (entry_of a) n items (set_fs f w) = (r, set_fs f w)) as Hr' by exact Hr.
    rewrite (st_bind_eq _ _ _ _ _ Hr'), (st_bind_eq _ _ _ _ _ Hf). split; [by destruct r |].
    split; [| split; [by etrans | exact Hat]]. rewrite ?Hsel. split; [| exact Hspec]. intros Hp.
    pose proof (present_readable _ _ _ Hs1 (text_in_ops _ _ _ _ Hta) Hp) as Hread.
    rewrite (fetch_readable _ _ _ _ Hread) in Hr'. injection Hr' as <-. by destruct (render items (n, a)).
  - exists (None :: rs), g. rewrite Hf. split; [done |]. rewrite ?Hsel. split; [by split |]. split; [by etrans | exact Hat].
Qed.

Lemma search_among w mb0 by_uid criteria l :
  stored_in w mb0 → clock_ok w → mb_next mb0 + Z.of_nat (length (all_ops ops l)) < 2 ^ 32 - 1 → Forall (λ na, text_in na.2 mb0) l →
  ∃ rs f, search_loop m (λ n, meanwhile (ops n)) by_uid criteria ((λ na, (na.1, entry_of na.2)) <$> l) w =
      (omap id rs, set_fs f w) ∧
    search_spec (w_now w) ops criteria by_uid l mb0 rs ∧
    outside (mailboxDir uid (mb_name m)) (w_fs w) f ∧
    at_dir f (mailboxDir uid (mb_name m)) (Some (foldl (apply_op (w_now w)) mb0 (all_ops ops l))).
Proof.
  revert w mb0. induction l as [| [n a] l IH]; intros w mb0 Hs Hc Hlt Ht.
  { exists [], (w_fs w). rewrite set_fs_id. repeat (split; [done |]). apply Hs. }
  unfold all_ops in Hlt. rewrite fmap_cons in Hlt. cbn [concat fst] in Hlt.
  destruct (others_move w mb0 n _ Hs Hc Hlt) as (f & Hm & Hs1 & Ho & Hlt1).
  apply Forall_cons in Ht as [Hta Ht]. cbn [snd] in Hta.
  assert (Forall (λ na, text_in na.2 (foldl (apply_op (w_now w)) mb0 (ops n))) l) as Ht1.
  { eapply Forall_impl; [exact Ht |]. intros na. apply text_in_ops. }
  destruct (IH (set_fs f w) _ Hs1 Hc Hlt1 Ht1) as (rs & g & Hf & Hspec & Hog & Hat). rewrite set_fs_set_fs in Hf. cbn [w_now w_fs set_fs] in *.
  rewrite <- foldl_app in Hat. rewrite fmap_cons. cbn [search_loop fst snd search_spec]. rewrite (st_bind_eq _ _ _ _ _ Hm).
  assert (∃ r, Body uid (mb_name m) (entry_of a) (set_fs f w) = (r, set_fs f w)) as [r Hr] by apply ReadFile_healthy, (proj2 Hs1).
  rewrite (st_bind_eq _ _ _ _ _ Hr), (st_bind_eq _ _ _ _ _ Hf).
  change (m_UID (entry_of a)) with (a_uid a). change (m_Date (entry_of a)) with (a_date a). change (m_Flags (entry_of a)) with (a_flags a).
  exists (match r with
     | Ok c => if message_Read (content_bytes c) && bool_decide (criteria (content_bytes c) n (a_uid a) (a_date a) (a_flags a) = Some true)
               then Some (identifier by_uid n (a_uid a)) else None
     | Err _ => None
     end :: rs), g. split; [| split; [split; [| split; [| exact Hspec]] | split; [by etrans | exact Hat]]].
  - destruct r as [c | e]; [| done]. destruct (message_Read (content_bytes c)); [| done]. cbn [negb andb].
    by destruct (criteria _ _ _ _ _) as [[] |].
  - intros Hp. pose proof (present_readable _ _ _ Hs1 (text_in_ops _ _ _ _ Hta) Hp) as Hread.
    unfold readable in Hread. rewrite Hr in Hread. injection Hread as ->. done.
  - destruct r as [c | e]; [| by left]. destruct (_ && _); auto.
Qed.

End Among.

(** C33: FETCH and SEARCH among other connections.  Whatever these append,
    flag, subscribe or remove before each message is read: for every selected
    message of the snapshot that is still there when its turn comes, FETCH
    answers with the flags, date, size, UID and number of the snapshot and
    the message's own text, which no operation changes; SEARCH judges it by
    these, and never names another message for one that has gone; the reading
    itself changes nothing. *)
Theorem fetch_search_interleaved ops by_uid seqset items criteria w :
  stored_in w mb → clock_ok w → mb_next mb + Z.of_nat (length (all_ops ops (numbered mb))) < 2 ^ 32 - 1 →
  let final := foldl (apply_op (w_now w)) mb (all_ops ops (numbered mb)) in
  (∃ rs f, ListMessages m (λ n, meanwhile (ops n)) by_uid seqset items w = (Ok (omap id rs), set_fs f w) ∧
    fetch_spec (w_now w) ops (λ na, seqset (identifier by_uid na.1 (a_uid na.2))) items (numbered mb) mb rs ∧
    outside (mailboxDir uid (mb_name m)) (w_fs w) f ∧ at_dir f (mailboxDir uid (mb_name m)) (Some final)) ∧
  (∃ rs f, SearchMessages m (λ n, meanwhile (ops n)) by_uid criteria w = (Ok (omap id rs), set_fs f w) ∧
    search_spec (w_now w) ops criteria by_uid (numbered mb) mb rs ∧
    outside (mailboxDir uid (mb_name m)) (w_fs w) f ∧ at_dir f (mailboxDir uid (mb_name m)) (Some final)).
Proof.
  intros Hs Hc Hlt final. pose proof (ad_ok _ _ _ (proj1 Hs) _ eq_refl) as Hok.
  assert (Forall (λ na, text_in na.2 mb) (numbered mb)) as Ht.
  { apply Forall_forall. intros na Hna. apply text_in_own; [done | by apply numbered_in]. }
  split.
  - destruct (fetch_among ops w mb by_uid seqset items (numbered mb) Hs Hc Hlt Ht) as (rs & f & Hf & H). exists rs, f. split; [| exact H].
    unfold ListMessages. rewrite (try_bind_ok _ _ _ _ _ (imap_snapshot_healthy w Hs)), sequence_snap by done.
    by rewrite (st_bind_eq _ _ _ _ _ Hf).
  - destruct (search_among ops w mb by_uid criteria (numbered mb) Hs Hc Hlt Ht) as (rs & f & Hf & H). exists rs, f. split; [| exact H].
    unfold SearchMessages. rewrite (try_bind_ok _ _ _ _ _ (imap_snapshot_healthy w Hs)), sequence_snap by done.
    by rewrite (st_bind_eq _ _ _ _ _ Hf).
Qed.

(** The messages EXPUNGE goes for. *)
Definition doomed (mb : mailbox) : list amessage := filter (λ a, hasFlag (a_flags a) FlagDeleted = true) (mb_messages mb).

Lemma Deleted_snap : Deleted (snap (mb_name m) mb) = a_uid <$> doomed mb.
Proof.
  unfold Deleted, doomed, snap. cbn [Index Messages index_of]. induction (mb_messages mb) as [| a l IH]; [done |].
  rewrite fmap_cons, !filter_cons. change (m_Flags (entry_of a)) with (a_flags a). case_decide; [| exact IH].
  rewrite !fmap_cons. by f_equal.
Qed.

Lemma Expunge_healthy ops w :
  stored_in w mb → clock_ok w → mb_next mb + Z.of_nat (length ops) < 2 ^ 32 - 1 → doomed mb ≠ [] →
  ∃ f, Expunge m (meanwhile ops) w = (Ok tt, set_fs f w) ∧ outside (mailboxDir uid (mb_name m)) (w_fs w) f ∧
    at_dir f (mailboxDir uid (mb_name m)) (Some (removed (foldl (apply_op (w_now w)) mb ops) (a_uid <$> doomed mb))).
Proof.
  intros Hs Hc Hlt Hd. unfold Expunge. rewrite (try_bind_ok _ _ _ _ _ (imap_snapshot_healthy w Hs)).
  rewrite Deleted_snap, decide_False by (by destruct (doomed mb)).
  by apply (then_op ops (OpRemove (a_uid <$> doomed mb))).
Qed.

Lemma uid_inj a b : mailbox_ok mb → a ∈ mb_messages mb → b ∈ mb_messages mb → a_uid a = a_uid b → a = b.
Proof.
  intros Hok Ha Hb Heq. pose proof (sorted_NoDup _ (mok_sorted _ Hok)) as Hnd.
  apply list_elem_of_lookup in Ha as [i Hi], Hb as [j Hj].
  assert (i = j) as <-; [| congruence].
  eapply NoDup_lookup; [exact Hnd | rewrite list_lookup_fmap, Hi; reflexivity | by rewrite list_lookup_fmap, Hj, Heq].
Qed.

(** C35: EXPUNGE removes exactly the messages flagged \\Deleted, in any spelling,
    and keeps the others with their UIDs, flags, dates and bodies. *)
Theorem Expunge_correct w :
  stored_in w mb → clock_ok w → mb_next mb < 2 ^ 32 - 1 →
  ∃ f mb', Expunge m (mret tt) w = (Ok tt, set_fs f w) ∧ at_dir f (mailboxDir uid (mb_name m)) (Some mb') ∧
    mb_messages mb' = filter (λ a, hasFlag (a_flags a) FlagDeleted = false) (mb_messages mb) ∧
    mb_next mb' = mb_next mb ∧ mb_validity mb' = mb_validity mb.
Proof.
  intros Hs Hc Hlt. pose proof (ad_ok _ _ _ (proj1 Hs) _ eq_refl) as Hok.
  assert (filter (λ a, a_uid a ∉ a_uid <$> doomed mb) (mb_messages mb) =
    filter (λ a, hasFlag (a_flags a) FlagDeleted = false) (mb_messages mb)) as Hfil.
  { apply filter_ext_in. intros a Ha. rewrite list_elem_of_fmap. split.
    - intros Hn. apply not_true_is_false. intros Ht. apply Hn. exists a. split; [done |]. by apply list_elem_of_filter.
    - intros Hf (b & Hab & Hb). unfold doomed in Hb. apply list_elem_of_filter in Hb as [Ht Hb].
      rewrite (uid_inj a b Hok Ha Hb Hab) in Hf. congruence. }
  destruct (decide (doomed mb = [])) as [Hd | Hd].
  - exists (w_fs w), mb. split; [| split; [apply Hs |]; split; [| done]].
    + unfold Expunge. rewrite (try_bind_ok _ _ _ _ _ (imap_snapshot_healthy w Hs)), Deleted_snap, Hd, decide_True by done.
      by rewrite set_fs_id.
    + rewrite <- Hfil, Hd. symmetry. apply filter_all. intros a _. apply not_elem_of_nil.
  - destruct (Expunge_healthy [] w Hs Hc ltac:(simpl; lia) Hd) as (f & He & _ & Hat). simpl in Hat.
    exists f, (removed mb (a_uid <$> doomed mb)). split; [exact He |]. split; [exact Hat |]. split; [exact Hfil | done].
Qed.
End Mailbox.

(** ** Two races *)

Section Races.
Context (m : imapMailbox) (mb : mailbox).
Let uid : Z := acc_UID (mb_user m).
Context (Hg : good_name (mb_name m)).

(** A set that names one sequence number selects the message there. *)
Lemma selected_number mb0 l1 z l2 :
  mb_messages mb0 = l1 ++ z :: l2 → selected false (λ n, n =? Z.of_nat (length l1) + 1) mb0 = [z].
Proof.
  intros Hm. unfold selected, numbered. rewrite Hm, count_from_app. cbn [count_from].
  assert (∀ n l, (∀ k, n <= k < n + Z.of_nat (length l) → k ≠ Z.of_nat (length l1) + 1) →
    omap (λ na : Z * amessage, if identifier false na.1 (a_uid na.2) =? Z.of_nat (length l1) + 1 then Some na.2 else None)
      (count_from n l) = []) as Hnone.
  { intros n l. revert n. induction l as [| a l IH]; intros n Hk; [done |]. cbn [count_from]. rewrite omap_cons. simpl.
    destruct (n =? Z.of_nat (length l1) + 1) eqn:E; [specialize (Hk n); simpl in Hk; lia |].
    apply IH. intros k Hr. apply Hk. simpl. lia. }
  rewrite omap_app, Hnone by lia. rewrite omap_cons. cbn [identifier fst snd].
  rewrite (proj2 (Z.eqb_eq (1 + Z.of_nat (length l1)) (Z.of_nat (length l1) + 1))) by lia. rewrite Hnone by lia. done.
Qed.

Lemma removed_one mb0 l1 y l2 :
  mailbox_ok mb0 → mb_messages mb0 = l1 ++ y :: l2 → mb_messages (removed mb0 [a_uid y]) = l1 ++ l2.
Proof.
  intros Hok Hm. simpl. pose proof (sorted_NoDup _ (mok_sorted _ Hok)) as Hnd. rewrite Hm in *.
  rewrite fmap_app, fmap_cons in Hnd. apply NoDup_app in Hnd as (_ & Hdis & Hnd). apply NoDup_cons in Hnd as [Hy _].
  rewrite filter_app, filter_cons, decide_False by (rewrite list_elem_of_singleton; tauto).
  rewrite !filter_all; [done | |].
  - intros a Ha Heq%list_elem_of_singleton. apply Hy. rewrite <- Heq. by apply list_elem_of_fmap_2.
  - intros a Ha Heq%list_elem_of_singleton. apply (Hdis (a_uid a)); [by apply list_elem_of_fmap_2 |].
    rewrite Heq. by left.
Qed.

(** Stale sequence numbers.  A client that saw a message under number [k]
    and then changes flags by that number hits the message after it, once
    another connection has removed an earlier message: the number is looked
    up in the mailbox as it is now, and the message the client meant is left
    as it was. *)
Theorem stale_number_hits_next l1 y l2 x z l3 flags w :
  let k := Z.of_nat (length l1 + length l2) + 2 in
  stored_in m w mb → clock_ok w → mb_next mb < 2 ^ 32 - 1 → mb_messages mb = l1 ++ y :: l2 ++ x :: z :: l3 →
  (k, x) ∈ numbered mb ∧
  ∃ w1 w2 mb', run_op uid (mb_name m) (OpRemove [a_uid y]) w = (Ok tt, w1) ∧
    UpdateMessagesFlags m (mret tt) false (λ n, n =? k) OpAddFlags flags w1 = (Ok tt, w2) ∧
    at_dir (w_fs w2) (mailboxDir uid (mb_name m)) (Some mb') ∧
    mb_messages mb' = l1 ++ l2 ++ x :: AMessage (a_uid z) (applyFlags (a_flags z) flags FlagsAdd) (a_date z) (a_body z) :: l3.
Proof.
  intros k [Had Hh] Hc Hlt Hm. pose proof (ad_ok _ _ _ Had _ eq_refl) as Hok. split.
  { unfold numbered. rewrite Hm, count_from_app. apply elem_of_app. right. cbn [count_from]. right.
    rewrite count_from_app. apply elem_of_app. right. cbn [count_from]. apply elem_of_cons. left. f_equal. unfold k. lia. }
  destruct (run_op_healthy uid (mb_name m) (OpRemove [a_uid y]) w mb Hg Had Hc Hh Hlt) as (f & Hr & _ & Hat).
  cbn [apply_op] in Hat. set (mb1 := removed mb [a_uid y]) in *.
  assert (mb_messages mb1 = (l1 ++ l2 ++ [x]) ++ z :: l3) as Hm1.
  { unfold mb1. rewrite (removed_one mb l1 y (l2 ++ x :: z :: l3) Hok Hm). by rewrite <- !app_assoc. }
  assert (selected false (λ n, n =? k) mb1 = [z]) as Hsel.
  { replace k with (Z.of_nat (length (l1 ++ l2 ++ [x])) + 1) by (unfold k; rewrite !length_app; simpl; lia).
    by apply (selected_number mb1 _ _ l3). }
  exists (set_fs f w). destruct (store_interleaved m mb1 Hg [] false (λ n, n =? k) OpAddFlags FlagsAdd flags (set_fs f w))
    as (g & Hu & _ & Hat'); [done | done | simpl; lia | done |]. simpl in Hat'. rewrite Hsel in Hat'.
  exists (set_fs g w), (set_flags mb1 [a_uid z] flags FlagsAdd). split; [exact Hr |]. split; [exact Hu |]. split; [exact Hat' |].
  pose proof (sorted_NoDup _ (mok_sorted _ (ad_ok _ _ _ Hat _ eq_refl))) as Hnd. rewrite Hm1, fmap_app, fmap_cons in Hnd.
  apply NoDup_app in Hnd as (_ & Hdis & Hnd). apply NoDup_cons in Hnd as [Hz _].
  unfold set_flags. cbn [mb_messages]. rewrite Hm1, fmap_app, fmap_cons, decide_True by (by left).
  assert (∀ l : list amessage, (∀ a, a ∈ l → a_uid a ≠ a_uid z) → (λ a, if decide (a_uid a ∈ [a_uid z])
    then AMessage (a_uid a) (applyFlags (a_flags a) flags FlagsAdd) (a_date a) (a_body a) else a) <$> l = l) as Hid.
  { intros l Hl. rewrite <- (list_fmap_id l) at 2. apply list_fmap_ext. intros i a Ha%list_elem_of_lookup_2.
    rewrite decide_False; [done |]. intros Heq%list_elem_of_singleton. by apply (Hl a). }
  rewrite !Hid, <- !app_assoc; [done | |].
  - intros a Ha Heq. apply Hz. rewrite <- Heq. by apply list_elem_of_fmap_2.
  - intros a Ha Heq. apply (Hdis (a_uid a)); [by apply list_elem_of_fmap_2 |]. rewrite Heq. by left.
Qed.

(** EXPUNGE and a late change of mind.  If another connection takes the
    flag \\Deleted off a message while EXPUNGE is between reading the mailbox
    and removing the messages, the message is removed all the same. *)
Theorem expunge_ignores_undelete a w :
  stored_in m w mb → clock_ok w → mb_next mb < 2 ^ 32 - 2 → a ∈ doomed mb →
  let clear := OpSetFlags [a_uid a] [FlagDeleted] FlagsRemove in
  (∀ b, b ∈ mb_messages (apply_op (w_now w) mb clear) → a_uid b = a_uid a → hasFlag (a_flags b) FlagDeleted = false) ∧
  ∃ w' mb', Expunge m (meanwhile m [clear]) w = (Ok tt, w') ∧
    at_dir (w_fs w') (mailboxDir uid (mb_name m)) (Some mb') ∧ a_uid a ∉ a_uid <$> mb_messages mb'.
Proof.
  intros Hs Hc Hlt Ha clear. pose proof (ad_ok _ _ _ (proj1 Hs) _ eq_refl) as Hok. split.
  - simpl. intros b (c & -> & Hin)%list_elem_of_fmap. case_decide as Hu; [| rewrite list_elem_of_singleton in Hu; done].
    intros _. cbn [a_flags applyFlags]. apply not_true_is_false. intros (g & Hg' & Hd)%hasFlag_spec.
    apply list_elem_of_filter in Hg' as [Hg' _]. simpl in Hg'. by rewrite EqualFold_sym, Hd in Hg'.
  - destruct (Expunge_healthy m mb Hg [clear] w Hs Hc) as (f & He & _ & Hat);
      [simpl; lia | intros Hd; rewrite Hd in Ha; by apply not_elem_of_nil in Ha |].
    exists (set_fs f w). eexists. split; [exact He |]. split; [exact Hat |]. intros (b & Hb & Hin)%list_elem_of_fmap.
    apply list_elem_of_filter in Hin as [Hn _]. apply Hn. rewrite <- Hb. by apply list_elem_of_fmap_2.
Qed.
End Races.
End Spec.

(** ** A mailbox with three messages on the fixtures *)

#[export] Instance imap_replies : ImapLibrary := {|
  ErrInvalidCredentials := ErrText (B "Invalid credentials");
  backend_ErrNoSuchMailbox := ErrText (B "No such mailbox");
  backend_ErrMailboxAlreadyExists := ErrText (B "Mailbox already exists");
  FetchEnvelope raw := raw;
  FetchBodyStructure _ raw := raw;
  ParseBodySectionName item := if decide (item = B "BODY[]") then Some [] else None;
  FetchBodySection raw _ := Some raw;
  message_Read _ := true;
|}.
#[export] Instance any_header : MessageLibrary := {| ReadHeader _ := Some (λ _, false); dkim_Sign _ _ _ _ raw := Ok raw |}.

Definition third_body : bytes := B "Subject: third" ++ [chr 13; chr 10; chr 13; chr 10] ++ B "bye" ++ [chr 13; chr 10].
Definition third_box : mailbox := appended inbox_box [] (w_now two_world) third_body.
Definition third_world : world := (Append 1 Inbox [] (w_now two_world) third_body inbox_world).2.
Definition flag_second : mailbox_op := OpSetFlags [2] [B "\DELETED"] FlagsAdd.
Definition flagged_box : mailbox := set_flags third_box [2] [B "\DELETED"] FlagsAdd.
Definition flagged_world : world := (run_op 1 Inbox flag_second third_world).2.

Definition alice_inbox : imapMailbox := ImapMailbox alice_account Inbox.

Lemma third_stored : stored_in alice_inbox third_world third_box ∧ clock_ok third_world.
Proof.
  destruct inbox_world_ok as (Hh & Hc & Hd & Hat).
  destruct (append_step 1 Inbox inbox_world (Some inbox_box) (w_now two_world) third_body)
    as (H1 & H2 & _ & _ & _ & H3); [apply inbox_good | exact Hat | exact Hc | exact Hh | exact Hd | done |].
  split; [split; [exact H3 | exact H1] | exact H2].
Qed.

Lemma stored_after (m : imapMailbox) mb (r : result unit * world) f w :
  r = (Ok tt, set_fs f w) → healthy w → clock_ok w →
  at_dir f (mailboxDir (acc_UID (mb_user m)) (mb_name m)) (Some mb) → stored_in m r.2 mb ∧ clock_ok r.2.
Proof. intros -> Hh Hc Hat. split; [split; [exact Hat | exact Hh] | exact Hc]. Qed.

Lemma flagged_stored : stored_in alice_inbox flagged_world flagged_box ∧ clock_ok flagged_world.
Proof.
  destruct third_stored as [[Hat Hh] Hc].
  destruct (run_op_healthy 1 Inbox flag_second third_world third_box inbox_good Hat Hc Hh) as (f & Hr & _ & Hat'); [done |].
  unfold flag_second in Hat'. cbn [apply_op] in Hat'. exact (stored_after alice_inbox flagged_box _ _ _ Hr Hh Hc Hat').
Qed.

(** The search for messages with "hello", and what FETCH shows of the second. *)
Definition hello_criteria : SearchCriteria := λ body _ _ _ _, Some (bool_decide (body = B "hello" ++ [chr 13; chr 10])).

Lemma fetch_search_correct_witness :
  ListMessages alice_inbox (λ _, mret tt) false (λ n, n =? 2) [ItemUid; ItemFlags] flagged_world =
    (Ok [Fetched 2 (Some [B "\DELETED"]) None None (Some 2) None None []], flagged_world) ∧
  SearchMessages alice_inbox (λ _, mret tt) true hello_criteria flagged_world = (Ok [2], flagged_world).
Proof.
  destruct flagged_stored as [Hs _].
  destruct (fetch_search_correct alice_inbox flagged_box inbox_good flagged_world false (λ n, n =? 2) [ItemUid; ItemFlags]
    hello_criteria Hs) as [Hf _].
  destruct (fetch_search_correct alice_inbox flagged_box inbox_good flagged_world true (λ n, n =? 2) [ItemUid; ItemFlags]
    hello_criteria Hs) as (_ & ids & Hse & Hids & _).
  assert (ids = [2]) as Hx by (rewrite Hids; vm_compute; reflexivity).
  assert (omap (λ na, if identifier false na.1 (a_uid na.2) =? 2 then render [ItemUid; ItemFlags] na else None) (numbered flagged_box)
    = [Fetched 2 (Some [B "\DELETED"]) None None (Some 2) None None []]) as Hy by (vm_compute; reflexivity).
  split; [rewrite <- Hy; exact Hf | rewrite <- Hx; exact Hse].
Defined.

(** While the client reads, the second message goes before it was read, and
    a new one arrives. *)
Definition reading_ops (n : Z) : list mailbox_op := if n =? 2 then [OpRemove [2]; OpAppend [] 0 (B "new")] else [].

Lemma fetch_search_interleaved_witness :
  ∃ r1 r2 r3 f, ListMessages alice_inbox (λ n, meanwhile alice_inbox (reading_ops n)) false (λ _, true) [ItemUid] flagged_world =
      (Ok (omap id [r1; r2; r3]), set_fs f flagged_world) ∧
    r1 = Some (Fetched 1 None None None (Some 1) None None []) ∧ r3 = Some (Fetched 3 None None None (Some 3) None None []).
Proof.
  destruct flagged_stored as [Hs Hc].
  destruct (fetch_search_interleaved alice_inbox flagged_box inbox_good reading_ops false (λ _, true) [ItemUid] hello_criteria
    flagged_world Hs Hc) as [(rs & f & Hf & Hspec & _) _]; [by vm_compute |].
  assert (∃ a1 a2 a3, numbered flagged_box = [(1, a1); (2, a2); (3, a3)] ∧ a_uid a1 = 1 ∧ a_uid a3 = 3) as (a1 & a2 & a3 & Hn & U1 & U3)
    by (eexists _, _, _; split; [vm_compute; reflexivity | split; reflexivity]).
  rewrite Hn in Hspec. destruct rs as [| r1 [| r2 [| r3 [|]]]]; try (cbn in Hspec; tauto).
  cbn [fetch_spec] in Hspec. destruct Hspec as (S1 & _ & S3 & _). exists r1, r2, r3, f. split; [exact Hf |].
  assert (present a1 flagged_box) as P1 by (unfold present; rewrite U1; apply (bool_decide_unpack _); vm_compute; reflexivity).
  split; [rewrite (S1 P1); cbn; by rewrite U1 |].
  rewrite S3; [cbn; by rewrite U3 |]. unfold present. cbn [snd]. rewrite U3. apply (bool_decide_unpack _). vm_compute. reflexivity.
Defined.

(** While the client flags message 1, another one arrives. *)
Definition arrival : mailbox_op := OpAppend [] (w_now two_world) (B "late").

Lemma store_interleaved_witness :
  ∃ f, UpdateMessagesFlags alice_inbox (meanwhile alice_inbox [arrival]) false (λ n, n =? 1) OpAddFlags [B "\Seen"] flagged_world
      = (Ok tt, set_fs f flagged_world) ∧
    at_dir f (mailboxDir 1 Inbox)
      (Some (set_flags (apply_op (w_now flagged_world) flagged_box arrival) [1] [B "\Seen"] FlagsAdd)).
Proof.
  destruct flagged_stored as [Hs Hc].
  destruct (store_interleaved alice_inbox flagged_box inbox_good [arrival] false (λ n, n =? 1) OpAddFlags FlagsAdd [B "\Seen"]
    flagged_world Hs Hc) as (f & Hu & _ & Hat); [done | done |].
  exists f. split; [exact Hu | exact Hat].
Defined.

Lemma Expunge_correct_witness :
  ∃ f mb', Expunge alice_inbox (mret tt) flagged_world = (Ok tt, set_fs f flagged_world) ∧
    at_dir f (mailboxDir 1 Inbox) (Some mb') ∧ (a_uid <$> mb_messages mb') = [1; 3].
Proof.
  destruct flagged_stored as [Hs Hc].
  destruct (Expunge_correct alice_inbox flagged_box inbox_good flagged_world Hs Hc) as (f & mb' & He & Hat & Hm & _); [done |].
  exists f, mb'. split; [exact He |]. split; [exact Hat |]. rewrite Hm. vm_compute. reflexivity.
Defined.

(** The client means message 2, which is flagged; message 1 goes; 3 is hit. *)
Lemma stale_number_hits_next_witness :
  ∃ x z w1 w2 mb', (2, x) ∈ numbered flagged_box ∧ a_uid z = 3 ∧
    run_op 1 Inbox (OpRemove [1]) flagged_world = (Ok tt, w1) ∧
    UpdateMessagesFlags alice_inbox (mret tt) false (λ n, n =? 2) OpAddFlags [FlagDeleted] w1 = (Ok tt, w2) ∧
    at_dir (w_fs w2) (mailboxDir 1 Inbox) (Some mb') ∧
    mb_messages mb' = [x; AMessage 3 (applyFlags (a_flags z) [FlagDeleted] FlagsAdd) (a_date z) (a_body z)].
Proof.
  destruct flagged_stored as [Hs Hc].
  assert (∃ y x z, mb_messages flagged_box = [] ++ y :: [] ++ x :: z :: [] ∧ a_uid y = 1 ∧ a_uid z = 3) as (y & x & z & Hm & Hy & Hz)
    by (by repeat eexists).
  destruct (stale_number_hits_next alice_inbox flagged_box inbox_good [] y [] x z [] [FlagDeleted] flagged_world Hs Hc)
    as (Hn & w1 & w2 & mb' & Hr & Hu & Hat & Hmsgs); [done | exact Hm |].
  exists x, z, w1, w2, mb'. rewrite Hy in Hr. rewrite Hz in Hmsgs.
  split; [exact Hn |]. split; [exact Hz |]. split; [exact Hr |]. split; [exact Hu |]. split; [exact Hat | exact Hmsgs].
Defined.

Lemma expunge_ignores_undelete_witness :
  ∃ w' mb', Expunge alice_inbox (meanwhile alice_inbox [OpSetFlags [2] [FlagDeleted] FlagsRemove]) flagged_world = (Ok tt, w') ∧
    at_dir (w_fs w') (mailboxDir 1 Inbox) (Some mb') ∧ 2 ∉ a_uid <$> mb_messages mb'.
Proof.
  destruct flagged_stored as [Hs Hc].
  assert (∃ a, a ∈ doomed flagged_box ∧ a_uid a = 2) as (a & Ha & Hu).
  { exists (default (AMessage 0 [] 0 []) (head (doomed flagged_box))). split; vm_compute; [by left | reflexivity]. }
  destruct (expunge_ignores_undelete alice_inbox flagged_box inbox_good a flagged_world Hs Hc) as (_ & w' & mb' & He & Hat & Hn);
    [done | done |].
  rewrite Hu in He, Hn. exists w', mb'. split; [exact He |]. split; [exact Hat | exact Hn].
Defined.
